(** * Attribute-linked tab groups: registry, activation state machine and
    animated transition protocol.

    A shallow embedding of the tabs module (initAllTabs, initTabsGroup,
    activateTabInstant, activateTab, animateTransition, switchTab,
    getActiveTab) over an explicit model of the page.

    Modelling conventions.
    - The page is a list of elements in document order; an element handle is
      its index.  An element carries its tag name, its attribute map, its
      class token list (the DOMTokenList behind [classList]) and the event
      listeners attached to it.
    - [TabsGroup] objects live on a heap and the registry [tabsGroups] maps a
      group name to an object address, because timer callbacks keep a
      reference to the object they were created for.
    - [setTimeout] pushes a callback on the list of pending timers; the event
      [Timeout k] fires the k-th pending one.  Delays are not represented:
      any pending timer may fire next, which covers every schedule the
      browser can produce.
    - [console.warn] and [console.log] append to a console transcript.
    - [parseInt] is a language builtin and is taken as a parameter.
    - The only handlers represented are the ones this module attaches, and
      the [class] attribute is kept apart from the attribute map, as the
      module reaches it through [classList] only.
    - The module is given twice.  First with every DOM call succeeding and
      an event going to the handlers of its target only, in the order they
      were attached: there class names are valid tokens and group names
      need no escaping inside the attribute selectors built from them.
      Then, in [Browser], with the exceptions [classList] and the selector
      engine raise and with events that bubble.  The two agree wherever no
      call raises and no ancestor of a target carries a handler; a theorem
      is about the presentation whose functions it names.

    A further, smaller model covers the parts of the map code that do not
    reach into the map library: the template helpers, the run-once style
    injection and the extraction of locations from list items.  Its
    conventions are stated where it starts. *)

From Stdlib Require Import ZArith.
From stdpp Require Import base option list gmap strings pretty.

Open Scope string_scope.
Open Scope list_scope.

(** ** Configuration constants *)

Definition DEFAULT_ACTIVE_CLASS : string := "is-tab-active".

Module ANIM_CLASS.
Definition leaving : string := "is-leaving".
Definition entering : string := "is-entering".
End ANIM_CLASS.

Module ATTR.
Definition group : string := "bw-tabs-group".
Definition trigger : string := "bw-tabs-trigger".
Definition content : string := "bw-tabs-content".
Definition default : string := "bw-tabs-default".
Definition activeClass : string := "bw-tabs-class".
Definition animate : string := "bw-tabs-animate".
Definition duration : string := "bw-tabs-duration".
End ATTR.

(** ** JavaScript values *)

(** The numbers [parseInt] can return: NaN, an infinity, or an integer. *)
Inductive number : Type :=
  | NaN
  | Infinity (negative : bool)
  | Finite (z : Z).

Definition DEFAULT_ANIMATION_DURATION : number := Finite 300.

(** Truthiness of a string: every string but the empty one. *)
Definition truthy (s : string) : bool := negb (String.eqb s "").

(** [a || b] where [a : string | null | undefined] and [b : string]. *)
Definition or_else (o : option string) (dflt : string) : string :=
  match o with
  | Some s => if truthy s then s else dflt
  | None => dflt
  end.

(** [a || null] where [a : string | null | undefined]. *)
Definition or_null (o : option string) : option string :=
  match o with
  | Some s => if truthy s then Some s else None
  | None => None
  end.

Definition dquote : string := String (Ascii.ascii_of_nat 34) EmptyString.

(** ** The page *)

(** An event listener, as the closure that was registered: the click
    handler remembers the group name it was created for, the keydown handler
    only the trigger it sits on. *)
Inductive Listener : Type :=
  | OnClick (groupName : string)
  | OnKeydown.

Record HTMLElement : Type := mkElement {
  tagName : string;
  attributes : gmap string string;
  classList : list string;
  listeners : list Listener;
}.

Abbreviation Document := (list HTMLElement).

Definition with_attributes (m : gmap string string) (e : HTMLElement) : HTMLElement :=
  mkElement (tagName e) m (classList e) (listeners e).

Definition with_classList (c : list string) (e : HTMLElement) : HTMLElement :=
  mkElement (tagName e) (attributes e) c (listeners e).

Definition getAttribute (k : string) (e : HTMLElement) : option string :=
  attributes e !! k.

Definition hasAttribute (k : string) (e : HTMLElement) : bool :=
  bool_decide (is_Some (attributes e !! k)).

Definition setAttribute (k v : string) (e : HTMLElement) : HTMLElement :=
  with_attributes (<[k := v]> (attributes e)) e.

Definition addEventListener (l : Listener) (e : HTMLElement) : HTMLElement :=
  mkElement (tagName e) (attributes e) (classList e) (listeners e ++ [l]).

(** A token list without the token [c], and with it: a token that is
    already there stays where it is, a new one goes to the end. *)
Definition rm (c : string) (l : list string) : list string :=
  List.filter (λ x, negb (String.eqb x c)) l.

Definition ad (c : string) (l : list string) : list string :=
  if bool_decide (c ∈ l) then l else l ++ [c].

Module classList.
Definition contains (c : string) (e : HTMLElement) : bool :=
  bool_decide (c ∈ classList e).

Definition add (c : string) (e : HTMLElement) : HTMLElement :=
  with_classList (ad c (classList e)) e.

Definition remove (c : string) (e : HTMLElement) : HTMLElement :=
  with_classList (rm c (classList e)) e.
End classList.

Arguments rm : simpl never.
Arguments ad : simpl never.

(** [getAttribute(k) === v] *)
Definition attribute_is (k v : string) (e : HTMLElement) : bool :=
  bool_decide (getAttribute k e = Some v).

(** Evaluate an element predicate at a handle. *)
Definition test (d : Document) (p : HTMLElement → bool) (i : nat) : bool :=
  match d !! i with Some e => p e | None => false end.

(** [document.querySelectorAll]: the handles of the matching elements, in
    document order. *)
Definition querySelectorAll (d : Document) (p : HTMLElement → bool) : list nat :=
  List.filter (test d p) (seq 0 (length d)).

(** [handles.forEach(el => ...)] for a callback that mutates the element it
    is given (and may look at which element it is). *)
Definition forEach (l : list nat) (f : nat → HTMLElement → HTMLElement)
    (d : Document) : Document :=
  foldl (λ d i, alter (f i) i d) d l.

(** [handles.filter(el => p(el))] *)
Definition filterEl (d : Document) (p : HTMLElement → bool) (l : list nat) : list nat :=
  List.filter (test d p) l.

(** [handles.find(el => p(el))] *)
Definition findEl (d : Document) (p : HTMLElement → bool) (l : list nat) : option nat :=
  List.find (test d p) l.

(** [handles.includes(el)] *)
Definition includes (l : list nat) (i : nat) : bool := bool_decide (i ∈ l).

(** [el?.getAttribute(k)] through an optional handle. *)
Definition getAttributeAt (d : Document) (k : string) (i : nat) : option string :=
  d !! i ≫= getAttribute k.

(** ** Tab groups, timers, console *)

Record TabsGroup : Type := mkTabsGroup {
  name : string;
  triggers : list nat;
  panels : list nat;
  activeClass : string;
  animate : bool;
  duration : number;
  isAnimating : bool;
}.

Definition with_isAnimating (b : bool) (g : TabsGroup) : TabsGroup :=
  mkTabsGroup (name g) (triggers g) (panels g) (activeClass g) (animate g)
    (duration g) b.

(** The two closures handed to [setTimeout] by [animateTransition], with the
    variables they capture. *)
Inductive Callback : Type :=
  | PhaseTwo (group : nat) (panels : list nat) (activeClass : string)
      (currentPanel : nat) (nextPanels : list nat)
  | Unlock (group : nat).

Inductive LogEntry : Type :=
  | Warn (msg : string)
  | Log (msg : string).

Record State : Type := mkState {
  document : Document;
  heap : list TabsGroup;
  tabsGroups : gmap string nat;
  timers : list Callback;
  console : list LogEntry;
}.

Definition with_document (d : Document) (s : State) : State :=
  mkState d (heap s) (tabsGroups s) (timers s) (console s).

Definition with_timers (t : list Callback) (s : State) : State :=
  mkState (document s) (heap s) (tabsGroups s) t (console s).

Definition console_warn (msg : string) (s : State) : State :=
  mkState (document s) (heap s) (tabsGroups s) (timers s) (console s ++ [Warn msg]).

Definition console_log (msg : string) (s : State) : State :=
  mkState (document s) (heap s) (tabsGroups s) (timers s) (console s ++ [Log msg]).

Definition setTimeout (cb : Callback) (s : State) : State :=
  with_timers (timers s ++ [cb]) s.

(** [tabsGroups.set(groupName, group)] for a freshly built object. *)
Definition register (groupName : string) (g : TabsGroup) (s : State) : State :=
  mkState (document s) (heap s ++ [g]) (<[groupName := length (heap s)]> (tabsGroups s))
    (timers s) (console s).

(** [tabsGroups.has(groupName)] *)
Definition has (groupName : string) (s : State) : bool :=
  bool_decide (is_Some (tabsGroups s !! groupName)).

(** [tabsGroups.get(groupName)]: the object and its address. *)
Definition get (groupName : string) (s : State) : option (nat * TabsGroup) :=
  a ← tabsGroups s !! groupName; g ← heap s !! a; Some (a, g).

(** [group.isAnimating = b] on the object at address [a]. *)
Definition set_isAnimating (a : nat) (b : bool) (s : State) : State :=
  mkState (document s) (alter (with_isAnimating b) a (heap s)) (tabsGroups s)
    (timers s) (console s).

(** The page as loaded: no group registered, nothing pending. *)
Definition page (d : Document) : State := mkState d [] ∅ [] [].

(** ** Core functions *)

(** Activates a tab instantly without animation (used for initial load). *)
Definition activateTabInstant (group : TabsGroup) (tabId : string) (d : Document) : Document :=
  let activeClass := activeClass group in
  (* Deactivate all *)
  let d := forEach (triggers group) (λ _ trigger,
             setAttribute "aria-selected" "false"
               (classList.remove activeClass trigger)) d in
  let d := forEach (panels group) (λ _ panel,
             setAttribute "aria-hidden" "true"
               (classList.remove ANIM_CLASS.entering
                 (classList.remove ANIM_CLASS.leaving
                   (classList.remove activeClass panel)))) d in
  (* Activate matching *)
  let d := forEach (filterEl d (attribute_is ATTR.trigger tabId) (triggers group))
             (λ _ trigger,
               setAttribute "aria-selected" "true"
                 (classList.add activeClass trigger)) d in
  let d := forEach (filterEl d (attribute_is ATTR.content tabId) (panels group))
             (λ _ panel,
               setAttribute "aria-hidden" "false"
                 (classList.add activeClass panel)) d in
  d.

(** Handles animated transition between panels: the synchronous part. *)
Definition animateTransition (a : nat) (group : TabsGroup) (currentPanel : nat)
    (nextPanels : list nat) (s : State) : State :=
  (* Lock animation state *)
  let s := set_isAnimating a true s in
  (* Phase 1: exit animation on current panel *)
  let d := alter (λ e, classList.remove (activeClass group)
                         (classList.add ANIM_CLASS.leaving e))
             currentPanel (document s) in
  setTimeout (PhaseTwo a (panels group) (activeClass group) currentPanel nextPanels)
    (with_document d s).

(** The body of the timer callbacks. *)
Definition runCallback (cb : Callback) (s : State) : State :=
  match cb with
  | PhaseTwo a panels activeClass currentPanel nextPanels =>
      (* Clean up current panel *)
      let d := alter (λ e, setAttribute "aria-hidden" "true"
                             (classList.remove ANIM_CLASS.leaving e))
                 currentPanel (document s) in
      (* Deactivate all other panels *)
      let d := forEach panels (λ i panel,
                 if includes nextPanels i then panel
                 else setAttribute "aria-hidden" "true"
                        (classList.remove ANIM_CLASS.entering
                          (classList.remove ANIM_CLASS.leaving
                            (classList.remove activeClass panel)))) d in
      (* Phase 2: enter animation on next panels *)
      let d := forEach nextPanels (λ _ panel,
                 setAttribute "aria-hidden" "false"
                   (classList.add ANIM_CLASS.entering panel)) d in
      (* Add active class to trigger enter animation *)
      let d := forEach nextPanels (λ _ panel,
                 classList.remove ANIM_CLASS.entering
                   (classList.add activeClass panel)) d in
      (* Unlock after enter animation completes *)
      setTimeout (Unlock a) (with_document d s)
  | Unlock a => set_isAnimating a false s
  end.

(** Activates a specific tab within a group, with optional animation. *)
Definition activateTab (groupName tabId : string) (s : State) : State :=
  match get groupName s with
  | None =>
      console_warn ("[Tabs] Group " ++ dquote ++ groupName ++ dquote ++ " not found")%string s
  | Some (a, group) =>
      (* Prevent rapid clicks during animation *)
      if isAnimating group then s
      else
        let d := document s in
        (* Find current and next panels *)
        let currentPanel := findEl d (classList.contains (activeClass group)) (panels group) in
        let nextPanels := filterEl d (attribute_is ATTR.content tabId) (panels group) in
        (* If clicking the same tab, do nothing *)
        if match currentPanel with
           | Some p => includes nextPanels p
           | None => false
           end
        then s
        else
          (* Update triggers immediately *)
          let d := forEach (triggers group) (λ _ trigger,
                     setAttribute "aria-selected" "false"
                       (classList.remove (activeClass group) trigger)) d in
          let d := forEach (filterEl d (attribute_is ATTR.trigger tabId) (triggers group))
                     (λ _ trigger,
                       setAttribute "aria-selected" "true"
                         (classList.add (activeClass group) trigger)) d in
          (* Handle animation or instant switch *)
          match animate group, currentPanel with
          | true, Some p => animateTransition a group p nextPanels (with_document d s)
          | _, _ =>
              let d := forEach (panels group) (λ _ panel,
                         setAttribute "aria-hidden" "true"
                           (classList.remove (activeClass group) panel)) d in
              let d := forEach nextPanels (λ _ panel,
                         setAttribute "aria-hidden" "false"
                           (classList.add (activeClass group) panel)) d in
              with_document d s
          end
  end.

(** Get the currently active tab ID for a group. *)
Definition getActiveTab (groupName : string) (s : State) : option string :=
  match get groupName s with
  | None => None
  | Some (_, group) =>
      let activeTrigger :=
        findEl (document s) (classList.contains (activeClass group)) (triggers group) in
      or_null (activeTrigger ≫= getAttributeAt (document s) ATTR.trigger)
  end.

(** ** Initialisation, the public API and the event loop *)

(** A JavaScript [Set] of strings, iterated in insertion order. *)
Definition Set_add (x : string) (l : list string) : list string :=
  if bool_decide (x ∈ l) then l else l ++ [x].

Section Tabs.

(** [parseInt(s, 10)] *)
Variable parseInt : string → number.

(** The configuration read off the first trigger. *)
Definition configActiveClass (d : Document) (firstTrigger : nat) : string :=
  or_else (getAttributeAt d ATTR.activeClass firstTrigger) DEFAULT_ACTIVE_CLASS.

Definition configAnimate (d : Document) (firstTrigger : nat) : bool :=
  test d (hasAttribute ATTR.animate) firstTrigger.

Definition configDuration (d : Document) (firstTrigger : nat) : number :=
  match getAttributeAt d ATTR.duration firstTrigger with
  | Some durationAttr =>
      if truthy durationAttr then parseInt durationAttr
      else DEFAULT_ANIMATION_DURATION
  | None => DEFAULT_ANIMATION_DURATION
  end.

(** The two selector queries of [initTabsGroup]. *)
Definition queryTriggers (d : Document) (groupName : string) : list nat :=
  querySelectorAll d (λ e, attribute_is ATTR.group groupName e && hasAttribute ATTR.trigger e).

Definition queryPanels (d : Document) (groupName : string) : list nat :=
  querySelectorAll d (λ e, attribute_is ATTR.group groupName e && hasAttribute ATTR.content e).

(** What [initTabsGroup] does to each trigger: handlers, focusability, role. *)
Definition wireTrigger (groupName : string) (trigger : HTMLElement) : HTMLElement :=
  let t := addEventListener (OnClick groupName) trigger in
  let t := addEventListener OnKeydown t in
  let t := if negb (hasAttribute "tabindex" t)
              && negb (String.eqb (tagName t) "BUTTON")
              && negb (String.eqb (tagName t) "A")
           then setAttribute "tabindex" "0" t else t in
  setAttribute "role" "tab" t.

(** Initializes a single tabs group by name. *)
Definition initTabsGroup (groupName : string) (s : State) : State :=
  let triggers := queryTriggers (document s) groupName in
  let panels := queryPanels (document s) groupName in
  match triggers, panels with
  | [], _ =>
      console_warn ("[Tabs] No triggers found for group " ++ dquote ++ groupName ++ dquote)%string s
  | _ :: _, [] =>
      console_warn ("[Tabs] No panels found for group " ++ dquote ++ groupName ++ dquote)%string s
  | firstTrigger :: _, _ :: _ =>
      (* Get configuration from first trigger *)
      let group :=
        mkTabsGroup groupName triggers panels
          (configActiveClass (document s) firstTrigger)
          (configAnimate (document s) firstTrigger)
          (configDuration (document s) firstTrigger)
          false in
      let s := register groupName group s in
      (* Attach click handlers, keyboard support, make focusable *)
      let d := forEach triggers (λ _, wireTrigger groupName) (document s) in
      (* Set ARIA roles *)
      let d := forEach panels (λ _, setAttribute "role" "tabpanel") d in
      (* Activate default tab (without animation on first load) *)
      let defaultTabId :=
        match findEl d (hasAttribute ATTR.default) triggers with
        | Some defaultTrigger => getAttributeAt d ATTR.trigger defaultTrigger
        | None => getAttributeAt d ATTR.trigger firstTrigger
        end in
      match defaultTabId with
      | Some tabId =>
          if truthy tabId then with_document (activateTabInstant group tabId d) s
          else with_document d s
      | None => with_document d s
      end
  end.

(** Discovers and initializes all tabs groups on the page. *)
Definition initAllTabs (s : State) : State :=
  let allGroupElements := querySelectorAll (document s) (hasAttribute ATTR.group) in
  let groupNames :=
    foldl (λ names el,
             match getAttributeAt (document s) ATTR.group el with
             | Some groupName => if truthy groupName then Set_add groupName names else names
             | None => names
             end) [] allGroupElements in
  let s := foldl (λ s groupName, initTabsGroup groupName s) s groupNames in
  console_log ("[Tabs] Initialized " ++ pretty (length groupNames) ++ " tabs group(s)")%string s.

(** Programmatically switch to a specific tab. *)
Definition switchTab (groupName tabId : string) (s : State) : State :=
  if has groupName s then activateTab groupName tabId s
  else
    let s := initTabsGroup groupName s in
    if has groupName s then activateTab groupName tabId s
    else console_warn ("[Tabs] Cannot switch tab - group " ++ dquote ++ groupName
                         ++ dquote ++ " not found")%string s.

(** The click handler attached by [initTabsGroup]. *)
Definition onClick (groupName : string) (trigger : nat) (s : State) : State :=
  match getAttributeAt (document s) ATTR.trigger trigger with
  | Some tabId => if truthy tabId then activateTab groupName tabId s else s
  | None => s
  end.

(** Dispatch of a click on an element: its click listeners run in the order
    they were attached. *)
Definition click (target : nat) (s : State) : State :=
  match document s !! target with
  | Some e =>
      foldl (λ s l, match l with OnClick g => onClick g target s | OnKeydown => s end)
        s (listeners e)
  | None => s
  end.

(** Dispatch of a keydown: each keyboard handler turns Enter and Space into
    a click on its trigger. *)
Definition keydown (target : nat) (key : string) (s : State) : State :=
  match document s !! target with
  | Some e =>
      foldl (λ s l, match l with
                    | OnKeydown =>
                        if String.eqb key "Enter" || String.eqb key " "
                        then click target s else s
                    | OnClick _ => s
                    end)
        s (listeners e)
  | None => s
  end.

(** Firing the k-th pending timer. *)
Definition timeout (k : nat) (s : State) : State :=
  match timers s !! k with
  | Some cb => runCallback cb (with_timers (delete k (timers s)) s)
  | None => s
  end.

(** What can happen to the page. *)
Inductive Event : Type :=
  | InitAllTabs
  | SwitchTab (groupName tabId : string)
  | Click (target : nat)
  | Keydown (target : nat) (key : string)
  | Timeout (k : nat).

Definition step (s : State) (ev : Event) : State :=
  match ev with
  | InitAllTabs => initAllTabs s
  | SwitchTab g t => switchTab g t s
  | Click i => click i s
  | Keydown i key => keydown i key s
  | Timeout k => timeout k s
  end.

Definition run (evs : list Event) (s : State) : State := foldl step s evs.

End Tabs.

(** ** A concrete page to run the model on *)

(** A decimal reading of [parseInt] for plain digit strings, enough to run
    the examples. *)
Fixpoint digits (s : string) (acc : option Z) : option Z :=
  match s with
  | EmptyString => acc
  | String c s' =>
      let n := Ascii.nat_of_ascii c in
      if (48 <=? n)%nat && (n <=? 57)%nat
      then digits s' (Some (10 * default 0%Z acc + Z.of_nat (n - 48))%Z)
      else acc
  end.

Definition parseInt10 (s : string) : number :=
  match digits s None with Some z => Finite z | None => NaN end.

Definition el (tag : string) (attrs : list (string * string)) (classes : list string) : HTMLElement :=
  mkElement tag (list_to_map attrs) classes [].

(** The gallery of the module's usage notes: two triggers, two panels. *)
Definition gallery : Document :=
  [ el "BUTTON" [("bw-tabs-trigger", "photos"); ("bw-tabs-group", "gallery");
                 ("bw-tabs-default", "")] [];
    el "BUTTON" [("bw-tabs-trigger", "videos"); ("bw-tabs-group", "gallery")] [];
    el "DIV" [("bw-tabs-content", "photos"); ("bw-tabs-group", "gallery")] [];
    el "DIV" [("bw-tabs-content", "videos"); ("bw-tabs-group", "gallery")] [] ].

(** The same gallery with animation switched on. *)
Definition galleryAnimated : Document :=
  [ el "BUTTON" [("bw-tabs-trigger", "photos"); ("bw-tabs-group", "gallery");
                 ("bw-tabs-default", ""); ("bw-tabs-animate", "");
                 ("bw-tabs-duration", "200")] [];
    el "BUTTON" [("bw-tabs-trigger", "videos"); ("bw-tabs-group", "gallery")] [];
    el "DIV" [("bw-tabs-content", "photos"); ("bw-tabs-group", "gallery")] [];
    el "DIV" [("bw-tabs-content", "videos"); ("bw-tabs-group", "gallery")] [] ].

(** * The module in the browser

    The functions above, once more, this time with what the model so far
    leaves out of the browser:
    - [classList.add] and [classList.remove] validate their tokens before
      they touch the list, and raise on the empty string and on a token with
      ASCII white space; the active class is read off [bw-tabs-class]
      unchecked.
    - [initTabsGroup] splices the group name into a selector.  For a name
      without double quote, backslash, line break or NUL the selector
      selects by attribute value.  For any other name the selector text is
      handed to the selector engine, a parameter, which may raise or select
      some other elements.
    - A statement that raises ends the function it is in and every caller up
      to the event loop; what was written before stays written.  An
      exception in an event listener or in a timer callback ends that
      listener or callback only.
    - Click and keydown events bubble: after the listeners of the target,
      those of its ancestors run.  The module never moves an element, so the
      ancestors of an element are a parameter. *)

Inductive DOMException : Type :=
  | SyntaxError
  | InvalidCharacterError.

Inductive Completion : Type :=
  | Normal
  | Throw (exn : DOMException).

(** A statement that mutates an [X] and may raise: what it leaves of the
    [X], also when it raises, and how it completed. *)
Definition Stmt (X : Type) : Type := X → X * Completion.

Definition ret {X : Type} (f : X → X) : Stmt X := λ x, (f x, Normal).

Definition skip {X : Type} : Stmt X := λ x, (x, Normal).

Definition andThen {X : Type} (p q : Stmt X) : Stmt X :=
  λ x, match p x with
       | (x', Normal) => q x'
       | (x', Throw exn) => (x', Throw exn)
       end.

Infix ">>>" := andThen (at level 60, right associativity).

(** [list.forEach(y => p(y))] for a callback that may raise. *)
Fixpoint each {X Y : Type} (l : list Y) (p : Y → Stmt X) : Stmt X :=
  match l with
  | [] => skip
  | y :: l => p y >>> each l p
  end.

(** Whether some character of [s] has one of the given codes. *)
Fixpoint has_code (codes : list nat) (s : string) : bool :=
  match s with
  | EmptyString => false
  | String c s' => bool_decide (Ascii.nat_of_ascii c ∈ codes) || has_code codes s'
  end.

(** ASCII white space: tab, line feed, form feed, carriage return, space. *)
Definition ascii_whitespace : list nat := [9; 10; 12; 13; 32].

(** The characters that end or escape a double-quoted string of a selector,
    and NUL, which the selector parser replaces. *)
Definition selector_special : list nat := [0; 10; 12; 13; 34; 92].

(** A group name that stands for itself between the double quotes of an
    attribute selector. *)
Definition plain (groupName : string) : bool := negb (has_code selector_special groupName).

Module Browser.

(** The validation step of [DOMTokenList.add] and [DOMTokenList.remove]. *)
Definition validate (token : string) : Completion :=
  if String.eqb token "" then Throw SyntaxError
  else if has_code ascii_whitespace token then Throw InvalidCharacterError
  else Normal.

Fixpoint validateAll (tokens : list string) : Completion :=
  match tokens with
  | [] => Normal
  | token :: tokens =>
      match validate token with
      | Normal => validateAll tokens
      | Throw exn => Throw exn
      end
  end.

Module classList.
(** [el.classList.add(...tokens)] *)
Definition add (tokens : list string) : Stmt HTMLElement :=
  λ e, match validateAll tokens with
       | Normal => (with_classList (foldl (λ l c, ad c l) (classList e) tokens) e, Normal)
       | Throw exn => (e, Throw exn)
       end.

(** [el.classList.remove(...tokens)] *)
Definition remove (tokens : list string) : Stmt HTMLElement :=
  λ e, match validateAll tokens with
       | Normal => (with_classList (foldl (λ l c, rm c l) (classList e) tokens) e, Normal)
       | Throw exn => (e, Throw exn)
       end.
End classList.

(** A statement on the element with handle [i]. *)
Definition on (i : nat) (p : Stmt HTMLElement) : Stmt Document :=
  λ d, match d !! i with
       | Some e => let (e', c) := p e in (<[i := e']> d, c)
       | None => (d, Normal)
       end.

(** [handles.forEach(el => ...)] *)
Definition forEach (l : list nat) (p : nat → Stmt HTMLElement) : Stmt Document :=
  each l (λ i, on i (p i)).

(** A statement on the page, as a statement on the state. *)
Definition onDocument (p : Stmt Document) : Stmt State :=
  λ s, let (d, c) := p (document s) in (with_document d s, c).

(** Activates a tab instantly without animation (used for initial load). *)
Definition activateTabInstant (group : TabsGroup) (tabId : string) : Stmt Document :=
  let activeClass := activeClass group in
  (* Deactivate all *)
  forEach (triggers group) (λ _,
    classList.remove [activeClass] >>> ret (setAttribute "aria-selected" "false")) >>>
  forEach (panels group) (λ _,
    classList.remove [activeClass; ANIM_CLASS.leaving; ANIM_CLASS.entering] >>>
    ret (setAttribute "aria-hidden" "true")) >>>
  (* Activate matching *)
  (λ d, forEach (filterEl d (attribute_is ATTR.trigger tabId) (triggers group)) (λ _,
          classList.add [activeClass] >>> ret (setAttribute "aria-selected" "true")) d) >>>
  (λ d, forEach (filterEl d (attribute_is ATTR.content tabId) (panels group)) (λ _,
          classList.add [activeClass] >>> ret (setAttribute "aria-hidden" "false")) d).

(** Handles animated transition between panels: the synchronous part. *)
Definition animateTransition (a : nat) (group : TabsGroup) (currentPanel : nat)
    (nextPanels : list nat) : Stmt State :=
  (* Lock animation state *)
  ret (set_isAnimating a true) >>>
  (* Phase 1: exit animation on current panel *)
  onDocument (on currentPanel
    (classList.add [ANIM_CLASS.leaving] >>> classList.remove [activeClass group])) >>>
  ret (setTimeout (PhaseTwo a (panels group) (activeClass group) currentPanel nextPanels)).

(** The body of the timer callbacks. *)
Definition runCallback (cb : Callback) : Stmt State :=
  match cb with
  | PhaseTwo a panels activeClass currentPanel nextPanels =>
      onDocument (
        (* Clean up current panel *)
        on currentPanel
          (classList.remove [ANIM_CLASS.leaving] >>>
           ret (setAttribute "aria-hidden" "true")) >>>
        (* Deactivate all other panels *)
        forEach panels (λ i,
          if includes nextPanels i then skip
          else classList.remove [activeClass; ANIM_CLASS.leaving; ANIM_CLASS.entering] >>>
               ret (setAttribute "aria-hidden" "true")) >>>
        (* Phase 2: enter animation on next panels *)
        forEach nextPanels (λ _,
          classList.add [ANIM_CLASS.entering] >>>
          ret (setAttribute "aria-hidden" "false")) >>>
        (* Add active class to trigger enter animation *)
        forEach nextPanels (λ _,
          classList.add [activeClass] >>> classList.remove [ANIM_CLASS.entering])) >>>
      (* Unlock after enter animation completes *)
      ret (setTimeout (Unlock a))
  | Unlock a => ret (set_isAnimating a false)
  end.

(** Activates a specific tab within a group, with optional animation. *)
Definition activateTab (groupName tabId : string) : Stmt State :=
  λ s,
  match get groupName s with
  | None =>
      ret (console_warn
             ("[Tabs] Group " ++ dquote ++ groupName ++ dquote ++ " not found")%string) s
  | Some (a, group) =>
      (* Prevent rapid clicks during animation *)
      if isAnimating group then skip s
      else
        let d := document s in
        (* Find current and next panels *)
        let currentPanel := findEl d (classList.contains (activeClass group)) (panels group) in
        let nextPanels := filterEl d (attribute_is ATTR.content tabId) (panels group) in
        (* If clicking the same tab, do nothing *)
        if match currentPanel with
           | Some p => includes nextPanels p
           | None => false
           end
        then skip s
        else
          ((* Update triggers immediately *)
           onDocument (
             forEach (triggers group) (λ _,
               classList.remove [activeClass group] >>>
               ret (setAttribute "aria-selected" "false")) >>>
             (λ d, forEach (filterEl d (attribute_is ATTR.trigger tabId) (triggers group))
                     (λ _, classList.add [activeClass group] >>>
                           ret (setAttribute "aria-selected" "true")) d)) >>>
           (* Handle animation or instant switch *)
           match animate group, currentPanel with
           | true, Some p => animateTransition a group p nextPanels
           | _, _ =>
               onDocument (
                 forEach (panels group) (λ _,
                   classList.remove [activeClass group] >>>
                   ret (setAttribute "aria-hidden" "true")) >>>
                 forEach nextPanels (λ _,
                   classList.add [activeClass group] >>>
                   ret (setAttribute "aria-hidden" "false")))
           end) s
  end.

(** The selectors of [initTabsGroup]. *)
Definition triggerSelector (groupName : string) : string :=
  "[" ++ ATTR.group ++ "=" ++ dquote ++ groupName ++ dquote ++ "][" ++ ATTR.trigger ++ "]".

Definition panelSelector (groupName : string) : string :=
  "[" ++ ATTR.group ++ "=" ++ dquote ++ groupName ++ dquote ++ "][" ++ ATTR.content ++ "]".

Section Browser.

(** [parseInt(s, 10)] *)
Variable parseInt : string → number.

(** [document.querySelectorAll(selector)] as the selector engine of the
    browser reads a selector text; asked only for the selectors built from a
    group name that is not plain. *)
Variable selectAll : string → Document → list nat + DOMException.

(** The proper ancestors of an element, nearest first. *)
Variable ancestors : nat → list nat.

(** The two selector queries of [initTabsGroup]. *)
Definition queryTriggers (d : Document) (groupName : string) : list nat + DOMException :=
  if plain groupName then inl (queryTriggers d groupName)
  else selectAll (triggerSelector groupName) d.

Definition queryPanels (d : Document) (groupName : string) : list nat + DOMException :=
  if plain groupName then inl (queryPanels d groupName)
  else selectAll (panelSelector groupName) d.

(** Initializes a single tabs group by name. *)
Definition initTabsGroup (groupName : string) : Stmt State :=
  λ s,
  match queryTriggers (document s) groupName with
  | inr exn => (s, Throw exn)
  | inl triggers =>
  match queryPanels (document s) groupName with
  | inr exn => (s, Throw exn)
  | inl panels =>
  match triggers, panels with
  | [], _ =>
      ret (console_warn
             ("[Tabs] No triggers found for group " ++ dquote ++ groupName ++ dquote)%string) s
  | _ :: _, [] =>
      ret (console_warn
             ("[Tabs] No panels found for group " ++ dquote ++ groupName ++ dquote)%string) s
  | firstTrigger :: _, _ :: _ =>
      (* Get configuration from first trigger *)
      let group :=
        mkTabsGroup groupName triggers panels
          (configActiveClass (document s) firstTrigger)
          (configAnimate (document s) firstTrigger)
          (configDuration parseInt (document s) firstTrigger)
          false in
      (ret (register groupName group) >>>
       onDocument (
         (* Attach click handlers, keyboard support, make focusable *)
         forEach triggers (λ _, ret (wireTrigger groupName)) >>>
         (* Set ARIA roles *)
         forEach panels (λ _, ret (setAttribute "role" "tabpanel"))) >>>
       (* Activate default tab (without animation on first load) *)
       (λ s,
          let d := document s in
          let defaultTabId :=
            match findEl d (hasAttribute ATTR.default) triggers with
            | Some defaultTrigger => getAttributeAt d ATTR.trigger defaultTrigger
            | None => getAttributeAt d ATTR.trigger firstTrigger
            end in
          match defaultTabId with
          | Some tabId =>
              if truthy tabId then onDocument (activateTabInstant group tabId) s
              else skip s
          | None => skip s
          end)) s
  end
  end
  end.

(** Discovers and initializes all tabs groups on the page. *)
Definition initAllTabs : Stmt State :=
  λ s,
  let allGroupElements := querySelectorAll (document s) (hasAttribute ATTR.group) in
  let groupNames :=
    foldl (λ names el,
             match getAttributeAt (document s) ATTR.group el with
             | Some groupName => if truthy groupName then Set_add groupName names else names
             | None => names
             end) [] allGroupElements in
  (each groupNames initTabsGroup >>>
   ret (console_log
          ("[Tabs] Initialized " ++ pretty (length groupNames) ++ " tabs group(s)")%string)) s.

(** Programmatically switch to a specific tab. *)
Definition switchTab (groupName tabId : string) : Stmt State :=
  λ s,
  if has groupName s then activateTab groupName tabId s
  else
    (initTabsGroup groupName >>>
     (λ s, if has groupName s then activateTab groupName tabId s
           else ret (console_warn
                       ("[Tabs] Cannot switch tab - group " ++ dquote ++ groupName
                          ++ dquote ++ " not found")%string) s)) s.

(** The click handler attached by [initTabsGroup]. *)
Definition onClick (groupName : string) (trigger : nat) : Stmt State :=
  λ s,
  match getAttributeAt (document s) ATTR.trigger trigger with
  | Some tabId => if truthy tabId then activateTab groupName tabId s else skip s
  | None => skip s
  end.

(** The event loop runs a listener or a callback and goes on, whether it
    returned or raised. *)
Definition settle (p : Stmt State) (s : State) : State := fst (p s).

(** The click listeners of the element [j], in the order they were
    attached. *)
Definition clickListeners (j : nat) (s : State) : State :=
  match document s !! j with
  | Some e =>
      foldl (λ s l, match l with
                    | OnClick g => settle (onClick g j) s
                    | OnKeydown => s
                    end)
        s (listeners e)
  | None => s
  end.

(** Dispatch of a click: the listeners of the target, then those of its
    ancestors. *)
Definition click (target : nat) (s : State) : State :=
  foldl (λ s j, clickListeners j s) s (target :: ancestors target).

(** The keydown listeners of the element [j]: each keyboard handler turns
    Enter and Space into a click on its own trigger. *)
Definition keydownListeners (j : nat) (key : string) (s : State) : State :=
  match document s !! j with
  | Some e =>
      foldl (λ s l, match l with
                    | OnKeydown =>
                        if String.eqb key "Enter" || String.eqb key " "
                        then click j s else s
                    | OnClick _ => s
                    end)
        s (listeners e)
  | None => s
  end.

(** Dispatch of a keydown: the listeners of the target, then those of its
    ancestors. *)
Definition keydown (target : nat) (key : string) (s : State) : State :=
  foldl (λ s j, keydownListeners j key s) s (target :: ancestors target).

(** Firing the k-th pending timer. *)
Definition timeout (k : nat) (s : State) : State :=
  match timers s !! k with
  | Some cb => settle (runCallback cb) (with_timers (delete k (timers s)) s)
  | None => s
  end.

Definition step (s : State) (ev : Event) : State :=
  match ev with
  | InitAllTabs => settle initAllTabs s
  | SwitchTab g t => settle (switchTab g t) s
  | Click i => click i s
  | Keydown i key => keydown i key s
  | Timeout k => timeout k s
  end.

Definition run (evs : list Event) (s : State) : State := foldl step s evs.

End Browser.

End Browser.

(** * The map utilities and the studios map

    The parts of the map code that do not reach into the map library: the
    template helpers, the run-once style injection and the extraction of
    locations from list items.  The browser is taken as it is found:
    [document.querySelector], [instanceof HTMLElement], the serialisation of
    an inline style, [node.querySelector], [textContent], [innerHTML],
    [parseFloat] and [isNaN] are parameters.  Templates are HTML elements of
    an HTML document, modelled without their content. *)

(** ** Template helpers *)

(** An element together with its inline display style ([el.style.display],
    the empty string when unset). *)
Record StyledElement : Type := mkStyled {
  node : HTMLElement;
  display : string;
}.

(** [el.cloneNode(true)]: the copy has the attributes, classes and inline
    style of the original, and none of its event listeners. *)
Definition cloneNode (e : StyledElement) : StyledElement :=
  mkStyled (mkElement (tagName (node e)) (attributes (node e)) (classList (node e)) [])
    (display e).

(** A character in ASCII lower case. *)
Definition ascii_lower (c : Ascii.ascii) : Ascii.ascii :=
  let n := Ascii.nat_of_ascii c in
  if (65 <=? n)%nat && (n <=? 90)%nat then Ascii.ascii_of_nat (n + 32) else c.

Fixpoint toASCIILowerCase (s : string) : string :=
  match s with
  | EmptyString => EmptyString
  | String c s' => String (ascii_lower c) (toASCIILowerCase s')
  end.

(** [el.removeAttribute(k)]: on an HTML element of an HTML document the
    name is first put in ASCII lower case; the attribute of that name goes,
    and with the class attribute the class tokens, with the style attribute
    the inline style. *)
Definition removeAttribute (k : string) (e : StyledElement) : StyledElement :=
  let name := toASCIILowerCase k in
  mkStyled
    (mkElement (tagName (node e)) (delete name (attributes (node e)))
       (if String.eqb name "class" then [] else classList (node e))
       (listeners (node e)))
    (if String.eqb name "style" then "" else display e).

(** The characters "[" and "]". *)
Definition open_bracket : Ascii.ascii := Ascii.ascii_of_nat 91.
Definition close_bracket : Ascii.ascii := Ascii.ascii_of_nat 93.

(** The characters of [s] before its first "]"; nothing when it has none. *)
Fixpoint before_close (s : string) : option string :=
  match s with
  | EmptyString => None
  | String c s' =>
      if Ascii.eqb c close_bracket then Some EmptyString else String c <$> before_close s'
  end.

(** [selector.match(/\[([^\]]+)\]/)], reduced to its capture group: at the
    leftmost "[" that is followed by at least one character other than "]"
    and then by a "]", the characters in between. *)
Fixpoint attrMatch (selector : string) : option string :=
  match selector with
  | EmptyString => None
  | String c s' =>
      if Ascii.eqb c open_bracket
      then match before_close s' with
           | Some (String c1 s1) => Some (String c1 s1)
           | _ => attrMatch s'
           end
      else attrMatch s'
  end.

Section Templates.

(** [document.querySelector(selector)] on the page at hand. *)
Variable querySelector : string → option StyledElement.

(** [template instanceof HTMLElement] *)
Variable isHTMLElement : StyledElement → bool.

(** The text of the style attribute once the display property of the
    inline style is set to a value, given the text it had (if any): the
    serialisation of the element's declaration block. *)
Variable styleText : option string → string → string.

(** [el.style.display = v]: the inline style changes, and the style
    attribute is written anew from it. *)
Definition set_display (v : string) (e : StyledElement) : StyledElement :=
  mkStyled
    (with_attributes
       (<["style" := styleText (attributes (node e) !! "style") v]> (attributes (node e)))
       (node e))
    v.

(** Creates an HTML element from a Webflow template; falls back to the
    provided fallback creator if no template is found. *)
Definition createElementFromTemplate (selector : string)
    (createFallback : unit → StyledElement) : StyledElement :=
  match querySelector selector with
  | Some template =>
      if isHTMLElement template then
        let element := cloneNode template in
        (* Extract attribute name from selector *)
        let element :=
          match attrMatch selector with
          | Some name => removeAttribute name element
          | None => element
          end in
        set_display "block" element
      else createFallback tt
  | None => createFallback tt
  end.

(** Checks if a template element exists in the DOM. *)
Definition hasTemplate (selector : string) : bool :=
  bool_decide (is_Some (querySelector selector)).

End Templates.

(** ** Run-once style injection *)

Record StyleElement : Type := mkStyle {
  style_id : string;
  textContent : string;
}.

(** The module variable [popupStylesInjected] and the children of
    [document.head]. *)
Record StyleState : Type := mkStyleState {
  popupStylesInjected : bool;
  headChildren : list StyleElement;
}.

Definition POPUP_RESET_STYLES : string := "
    /* Neutralize Mapbox popup defaults for custom templates */
    .mapboxgl-popup-content {
      background: transparent !important;
      padding: 0 !important;
      box-shadow: none !important;
      border-radius: 0 !important;
    }
    .mapboxgl-popup-tip {
      display: none !important;
    }
    .mapboxgl-popup-close-button {
      display: none !important;
    }
  ".

(** Injects CSS to neutralize Mapbox popup default styles; [None] is a call
    without argument. *)
Definition injectPopupResetStyles (styleId : option string) (s : StyleState) : StyleState :=
  if popupStylesInjected s then s
  else
    let styles := mkStyle (default "mapbox-popup-reset-styles" styleId)
                    POPUP_RESET_STYLES in
    mkStyleState true (headChildren s ++ [styles]).

(** ** Locations from list items *)

(** Helpers to create data attribute selectors. *)
Definition squote : string := String (Ascii.ascii_of_nat 39) EmptyString.

Definition elementAttr (name : string) : string :=
  ("[data-map-element=" ++ squote ++ name ++ squote ++ "]")%string.

Definition fieldAttr (name : string) : string :=
  ("[data-map-field=" ++ squote ++ name ++ squote ++ "]")%string.

(** All selectors in one place. *)
Module S.
Definition list : string := elementAttr "list".
Definition lat : string := fieldAttr "lat".
Definition lng : string := fieldAttr "lng".
Definition id : string := fieldAttr "id".
Definition popupInfo : string := elementAttr "popup-info".
Definition marker : string := elementAttr "marker".
Definition popup : string := elementAttr "popup".
Definition popupContent : string := elementAttr "popup-content".
End S.

(** A GeoJSON point feature with the properties of a location. *)
Record PointFeature (coordinate : Type) : Type := mkFeature {
  coordinates : coordinate * coordinate;
  feature_id : string;
  description : string;
}.

Arguments mkFeature {coordinate}.
Arguments coordinates {coordinate}.
Arguments feature_id {coordinate}.
Arguments description {coordinate}.

Section Locations.

(** List items, and JavaScript numbers. *)
Variables (Item float : Type).

(** [node.querySelector(selector)], [el.textContent], [el.innerHTML]. *)
Variable querySelectorIn : Item → string → option Item.
Variable itemText : Item → option string.
Variable innerHTML : Item → string.

Variable parseFloat : string → float.
Variable isNaN : float → bool.

(** The body of the loop of [extractLocationsFromElements], on the features
    collected so far and the console.  The objects a warning is given
    besides its text (the node, the coordinates) are not part of the
    transcript. *)
Definition extractLocation (acc : list (PointFeature float) * list LogEntry)
    (node : Item) : list (PointFeature float) * list LogEntry :=
  let '(features, console) := acc in
  match querySelectorIn node S.lat, querySelectorIn node S.lng,
        querySelectorIn node S.popupInfo, querySelectorIn node S.id with
  | Some latElement, Some lngElement, Some infoElement, Some idElement =>
      let lat := parseFloat (or_else (itemText latElement) "") in
      let lng := parseFloat (or_else (itemText lngElement) "") in
      if isNaN lat || isNaN lng
      then (features, console ++ [Warn "[Studios Map] Invalid coordinates"])
      else
        let feature := mkFeature (lng, lat) (or_else (itemText idElement) "")
                         (innerHTML infoElement) in
        (features ++ [feature], console)
  | _, _, _, _ =>
      (features, console ++ [Warn "[Studios Map] Missing required fields in location item"])
  end.

(** Extracts location data from a list of elements and converts it to
    GeoJSON format. *)
Definition extractLocationsFromElements (elements : list Item) (console : list LogEntry)
    : list (PointFeature float) * list LogEntry :=
  foldl extractLocation ([], console) elements.

End Locations.

(** * Vocabulary of the specification and of the proofs *)

(** ** The element callbacks *)

(** The callbacks passed to [forEach], named after what they do to one
    element.  [A] is the group's active class. *)
Definition deselect (A : string) (e : HTMLElement) : HTMLElement :=
  setAttribute "aria-selected" "false" (classList.remove A e).

Definition select (A : string) (e : HTMLElement) : HTMLElement :=
  setAttribute "aria-selected" "true" (classList.add A e).

Definition hide (A : string) (e : HTMLElement) : HTMLElement :=
  setAttribute "aria-hidden" "true" (classList.remove A e).

Definition hideClean (A : string) (e : HTMLElement) : HTMLElement :=
  setAttribute "aria-hidden" "true"
    (classList.remove ANIM_CLASS.entering
      (classList.remove ANIM_CLASS.leaving (classList.remove A e))).

Definition show (A : string) (e : HTMLElement) : HTMLElement :=
  setAttribute "aria-hidden" "false" (classList.add A e).

(** ** Instant activation, element by element *)

(** What [activateTabInstant] does to the element with handle [i]. *)
Definition instant_reset (group : TabsGroup) (i : nat) (e : HTMLElement) : HTMLElement :=
  let e := if includes (triggers group) i then deselect (activeClass group) e else e in
  if includes (panels group) i then hideClean (activeClass group) e else e.

Definition instant_set (group : TabsGroup) (tabId : string) (i : nat)
    (e : HTMLElement) : HTMLElement :=
  let e := if includes (triggers group) i && attribute_is ATTR.trigger tabId e
           then select (activeClass group) e else e in
  if includes (panels group) i && attribute_is ATTR.content tabId e
  then show (activeClass group) e else e.

Definition instant_el (group : TabsGroup) (tabId : string) (i : nat)
    (e : HTMLElement) : HTMLElement :=
  instant_set group tabId i (instant_reset group i e).

(** ** The activation state machine, step by step *)

(** The trigger update of [activateTab]. *)
Definition updateTriggers (group : TabsGroup) (tabId : string) (d : Document) : Document :=
  let d1 := forEach (triggers group) (λ _, deselect (activeClass group)) d in
  forEach (filterEl d1 (attribute_is ATTR.trigger tabId) (triggers group))
    (λ _, select (activeClass group)) d1.

(** The instant panel switch of [activateTab]. *)
Definition switchPanels (group : TabsGroup) (nextPanels : list nat) (d : Document) : Document :=
  forEach nextPanels (λ _, show (activeClass group))
    (forEach (panels group) (λ _, hide (activeClass group)) d).

(** The current panel and the next panels as [activateTab] computes them. *)
Definition currentPanelOf (group : TabsGroup) (d : Document) : option nat :=
  findEl d (classList.contains (activeClass group)) (panels group).

Definition nextPanelsOf (group : TabsGroup) (tabId : string) (d : Document) : list nat :=
  filterEl d (attribute_is ATTR.content tabId) (panels group).

(** "Clicking the same tab". *)
Definition sameTab (group : TabsGroup) (tabId : string) (d : Document) : bool :=
  match currentPanelOf group d with
  | Some p => includes (nextPanelsOf group tabId d) p
  | None => false
  end.

(** What the trigger update does to the element with handle [i]. *)
Definition updateTriggers_el (group : TabsGroup) (tabId : string) (i : nat)
    (e : HTMLElement) : HTMLElement :=
  if includes (triggers group) i then
    if attribute_is ATTR.trigger tabId e
    then select (activeClass group) (deselect (activeClass group) e)
    else deselect (activeClass group) e
  else e.

(** What the instant panel switch does to the element with handle [i]. *)
Definition switchPanels_el (group : TabsGroup) (nextPanels : list nat) (i : nat)
    (e : HTMLElement) : HTMLElement :=
  let e := if includes (panels group) i then hide (activeClass group) e else e in
  if includes nextPanels i then show (activeClass group) e else e.

(** ** The active-tab query *)

(** A trigger of the group carries the group's active class. *)
Definition carries (group : TabsGroup) (d : Document) (i : nat) : Prop :=
  ∃ e, d !! i = Some e ∧ activeClass group ∈ classList e.

(** [i] is the first handle of the list at which the test holds. *)
Definition first_with (d : Document) (p : HTMLElement → bool) (l : list nat) (i : nat) : Prop :=
  ∃ l1 l2, l = l1 ++ i :: l2 ∧ test d p i = true ∧ ∀ j, j ∈ l1 → test d p j = false.

(** The query as first specified: null for an unknown group or a group
    none of whose triggers carries the active class, and otherwise the tab
    identifier of a trigger that carries it. *)
Definition getActiveTab_claim (groupName : string) (s : State) : Prop :=
  match get groupName s with
  | None => getActiveTab groupName s = None
  | Some (_, group) =>
      ((∀ i, i ∈ triggers group → ¬ carries group (document s) i) →
       getActiveTab groupName s = None) ∧
      ((∃ i, i ∈ triggers group ∧ carries group (document s) i) →
       ∃ i e tabId, i ∈ triggers group ∧ document s !! i = Some e ∧
         activeClass group ∈ classList e ∧
         getAttribute ATTR.trigger e = Some tabId ∧
         getActiveTab groupName s = Some tabId)
  end.

(** ** Group initialisation *)

(** Being a trigger, or a panel, of the group called [groupName]. *)
Definition isTrigger (groupName : string) (e : HTMLElement) : bool :=
  attribute_is ATTR.group groupName e && hasAttribute ATTR.trigger e.

Definition isPanel (groupName : string) (e : HTMLElement) : bool :=
  attribute_is ATTR.group groupName e && hasAttribute ATTR.content e.

(** The default tab identifier as [initTabsGroup] determines it. *)
Definition defaultTabId (d : Document) (triggers : list nat) : option string :=
  match findEl d (hasAttribute ATTR.default) triggers with
  | Some defaultTrigger => getAttributeAt d ATTR.trigger defaultTrigger
  | None => head triggers ≫= getAttributeAt d ATTR.trigger
  end.

(** Handlers, focusability and roles, for the whole group. *)
Definition wire (groupName : string) (triggers panels : list nat) (d : Document) : Document :=
  forEach panels (λ _, setAttribute "role" "tabpanel")
    (forEach triggers (λ _, wireTrigger groupName) d).

(** ** What the code never changes *)

(** The attributes the module writes; every other attribute, in particular
    each of the bw-tabs attributes, keeps the value the page came with. *)
Definition dynamic_keys : list string :=
  ["aria-selected"; "aria-hidden"; "role"; "tabindex"].

Definition same_static (e e' : HTMLElement) : Prop :=
  ∀ k, k ∉ dynamic_keys → attributes e !! k = attributes e' !! k.

Definition static_eq : relation Document := Forall2 same_static.

(** An element test that only looks at attributes the code never changes. *)
Definition static_pred (p : HTMLElement → bool) : Prop :=
  ∀ e e', same_static e e' → p e = p e'.

(** ** What initialisation guarantees *)

(** The guarantee for the elements the group object lists: the default tab
    identifier (read off the page the call started from) is the one active
    tab: some listed trigger has it, exactly the listed triggers and exactly
    the listed panels that have it carry the active class, and aria-selected
    / aria-hidden are set accordingly on every one of them. *)
Definition init_guarantee_listed (d0 : Document) (groupName : string) (s' : State) : Prop :=
  ∃ a group tabId,
    get groupName s' = Some (a, group) ∧
    defaultTabId d0 (queryTriggers d0 groupName) = Some tabId ∧
    (∃ i e, i ∈ triggers group ∧ document s' !! i = Some e ∧
            getAttribute ATTR.trigger e = Some tabId) ∧
    (∀ i e, i ∈ triggers group → document s' !! i = Some e →
       (activeClass group ∈ classList e ↔ getAttribute ATTR.trigger e = Some tabId) ∧
       getAttribute "aria-selected" e
         = Some (if attribute_is ATTR.trigger tabId e then "true" else "false")) ∧
    (∀ i e, i ∈ panels group → document s' !! i = Some e →
       (activeClass group ∈ classList e ↔ getAttribute ATTR.content e = Some tabId) ∧
       getAttribute "aria-hidden" e
         = Some (if attribute_is ATTR.content tabId e then "false" else "true")).

(** ** The transition executor, step by step *)

(** The page transformation of the first timer callback. *)
Definition phaseTwo (panels : list nat) (A : string) (currentPanel : nat)
    (nextPanels : list nat) (d : Document) : Document :=
  let d := alter (λ e, setAttribute "aria-hidden" "true"
                         (classList.remove ANIM_CLASS.leaving e)) currentPanel d in
  let d := forEach panels (λ i panel,
             if includes nextPanels i then panel else hideClean A panel) d in
  let d := forEach nextPanels (λ _ panel,
             setAttribute "aria-hidden" "false"
               (classList.add ANIM_CLASS.entering panel)) d in
  forEach nextPanels (λ _ panel,
    classList.remove ANIM_CLASS.entering (classList.add A panel)) d.

(** What the first timer callback does to the element with handle [i]. *)
Definition phaseTwo_el (panels : list nat) (A : string) (currentPanel : nat)
    (nextPanels : list nat) (i : nat) (e : HTMLElement) : HTMLElement :=
  let e := if decide (currentPanel = i)
           then setAttribute "aria-hidden" "true" (classList.remove ANIM_CLASS.leaving e)
           else e in
  let e := if includes panels i && negb (includes nextPanels i)
           then hideClean A e else e in
  if includes nextPanels i
  then classList.remove ANIM_CLASS.entering
         (classList.add A
            (setAttribute "aria-hidden" "false" (classList.add ANIM_CLASS.entering e)))
  else e.

(** ** The protocol invariant *)

(** The group object a callback was created for. *)
Definition cb_group (cb : Callback) : nat :=
  match cb with
  | PhaseTwo a _ _ _ _ => a
  | Unlock a => a
  end.

(** The pending timers of the group object at address [a]. *)
Definition pending (a : nat) (ts : list Callback) : list Callback :=
  List.filter (λ cb, Nat.eqb (cb_group cb) a) ts.

(** The elements of a group: its triggers and its panels. *)
Definition members (d0 : Document) (g : string) (i : nat) : Prop :=
  i ∈ queryTriggers d0 g ∨ i ∈ queryPanels d0 g.

(** The pages the invariant is proved for: no element is both a trigger and
    a panel, no trigger has the empty string as its tab identifier, no
    element asks for the entering class as active class, and, the page being
    freshly loaded, no handler is attached yet. *)
Record wf_page (d : Document) : Prop := mk_wf_page {
  wf_roles : ∀ e, e ∈ d →
    ¬ (is_Some (getAttribute ATTR.trigger e) ∧ is_Some (getAttribute ATTR.content e));
  wf_tab : ∀ e, e ∈ d → getAttribute ATTR.trigger e ≠ Some "";
  wf_class : ∀ e, e ∈ d → getAttribute ATTR.activeClass e ≠ Some ANIM_CLASS.entering;
  wf_fresh : ∀ e, e ∈ d → listeners e = [];
}.

(** Exactly the triggers, and exactly the panels, with tab identifier [c]
    carry the group's active class. *)
Definition triggers_settled (d : Document) (group : TabsGroup) (c : string) : Prop :=
  ∀ i e, i ∈ triggers group → d !! i = Some e →
    (activeClass group ∈ classList e ↔ getAttribute ATTR.trigger e = Some c).

Definition panels_settled (d : Document) (group : TabsGroup) (c : string) : Prop :=
  ∀ i e, i ∈ panels group → d !! i = Some e →
    (activeClass group ∈ classList e ↔ getAttribute ATTR.content e = Some c).

Definition settled (d : Document) (group : TabsGroup) (c : string) : Prop :=
  triggers_settled d group c ∧ panels_settled d group c.

(** A registered group object agrees with the page it was built from. *)
Definition group_ok (d0 : Document) (g : string) (group : TabsGroup) : Prop :=
  name group = g ∧ triggers group = queryTriggers d0 g ∧
  panels group = queryPanels d0 g ∧ activeClass group ≠ ANIM_CLASS.entering.

(** Where a group stands in the protocol, read off its pending timers:
    idle, exit phase running, enter phase running. *)
Definition phase_ok (d0 d : Document) (ts : list Callback) (a : nat)
    (group : TabsGroup) : Prop :=
  match pending a ts with
  | [] => isAnimating group = false ∧ ∃ c, settled d group c
  | [PhaseTwo _ ps A cur next] =>
      isAnimating group = true ∧ ps = panels group ∧ A = activeClass group ∧
      cur ∈ panels group ∧
      ∃ c, next = nextPanelsOf group c d0 ∧ triggers_settled d group c
  | [Unlock _] => isAnimating group = true ∧ ∃ c, settled d group c
  | _ => False
  end.

Record Inv (d0 : Document) (s : State) : Prop := mk_Inv {
  inv_static : static_eq d0 (document s);
  inv_groups : ∀ g a, tabsGroups s !! g = Some a →
    ∃ group, heap s !! a = Some group ∧ group_ok d0 g group ∧
             phase_ok d0 (document s) (timers s) a group;
  inv_timers : ∀ cb, cb ∈ timers s → ∃ g, tabsGroups s !! g = Some (cb_group cb);
}.

(** The registry only ever holds groups for which the page has triggers and
    panels; this holds whatever happens, re-initialisation included. *)
Definition registry_sound (d0 : Document) (s : State) : Prop :=
  static_eq d0 (document s) ∧
  ∀ g, is_Some (tabsGroups s !! g) →
       queryTriggers d0 g ≠ [] ∧ queryPanels d0 g ≠ [].

(** [tabId] is the tab identifier of a trigger of the group [g]. *)
Definition is_tab (d0 : Document) (g tabId : string) : Prop :=
  ∃ i, i ∈ queryTriggers d0 g ∧ getAttributeAt d0 ATTR.trigger i = Some tabId.

(** Every programmatic switch of the trace asks for a tab some trigger of
    the group has. *)
Definition valid_targets (d0 : Document) (evs : list Event) : Prop :=
  ∀ g tabId, SwitchTab g tabId ∈ evs → is_tab d0 g tabId.

(** The click handlers sit on triggers of the group they were made for. *)
Definition listeners_ok (d0 d : Document) : Prop :=
  ∀ i e g, d !! i = Some e → OnClick g ∈ listeners e → i ∈ queryTriggers d0 g.

(** Every registered group has a trigger that carries its active class. *)
Record Live (d0 : Document) (s : State) : Prop := mk_Live {
  live_listeners : listeners_ok d0 (document s);
  live_groups : ∀ g a group,
    tabsGroups s !! g = Some a → heap s !! a = Some group →
    ∃ i, i ∈ triggers group ∧ carries group (document s) i;
}.

Definition same_listeners (e e' : HTMLElement) : Prop := listeners e = listeners e'.

Definition listeners_eq : relation Document := Forall2 same_listeners.

(** ** More pages to run the model on *)

(** A group whose only trigger has the empty tab identifier. *)
Definition untitled : Document :=
  [ el "BUTTON" [("bw-tabs-trigger", ""); ("bw-tabs-group", "g")] [];
    el "DIV" [("bw-tabs-content", "x"); ("bw-tabs-group", "g")] [] ].

(** A trigger without any panel. *)
Definition orphan : Document :=
  [ el "BUTTON" [("bw-tabs-trigger", "a"); ("bw-tabs-group", "g")] [] ].

(** The group objects [initAllTabs] builds for the example pages. *)
Definition galleryGroup : TabsGroup :=
  mkTabsGroup "gallery" [0; 1] [2; 3] "is-tab-active" false (Finite 300) false.

Definition galleryAnimatedGroup (isAnimating : bool) : TabsGroup :=
  mkTabsGroup "gallery" [0; 1] [2; 3] "is-tab-active" true (Finite 200) isAnimating.

Definition untitledGroup : TabsGroup :=
  mkTabsGroup "g" [0] [1] "is-tab-active" false (Finite 300) false.

(** ** Why the amended claims name the pages they do *)

(** An element that is a trigger (tab b) and a panel (tab a) at once. *)
Definition aliasPage : Document :=
  [ el "BUTTON" [("bw-tabs-trigger", "a"); ("bw-tabs-group", "g")] [];
    el "DIV" [("bw-tabs-trigger", "b"); ("bw-tabs-content", "a");
              ("bw-tabs-group", "g")] [] ].

Definition aliasGroup : TabsGroup :=
  mkTabsGroup "g" [0; 1] [1] "is-tab-active" false (Finite 300) false.

(** An empty default tab identifier, and markup that already carries the
    active class on two panels. *)
Definition stalePage : Document :=
  [ el "BUTTON" [("bw-tabs-trigger", ""); ("bw-tabs-group", "g")] [];
    el "DIV" [("bw-tabs-content", "x"); ("bw-tabs-group", "g")] ["is-tab-active"];
    el "DIV" [("bw-tabs-content", "y"); ("bw-tabs-group", "g")] ["is-tab-active"] ].

Definition staleGroup : TabsGroup :=
  mkTabsGroup "g" [0] [1; 2] "is-tab-active" false (Finite 300) false.

(** The animated gallery with the entering class as its active class. *)
Definition enteringPage : Document :=
  [ el "BUTTON" [("bw-tabs-trigger", "photos"); ("bw-tabs-group", "gallery");
                 ("bw-tabs-default", ""); ("bw-tabs-animate", "");
                 ("bw-tabs-class", "is-entering")] [];
    el "BUTTON" [("bw-tabs-trigger", "videos"); ("bw-tabs-group", "gallery")] [];
    el "DIV" [("bw-tabs-content", "photos"); ("bw-tabs-group", "gallery")] [];
    el "DIV" [("bw-tabs-content", "videos"); ("bw-tabs-group", "gallery")] [] ].

Definition enteringGroup : TabsGroup :=
  mkTabsGroup "gallery" [0; 1] [2; 3] "is-entering" true (Finite 300) false.

(** ** The object and the page [initTabsGroup] builds *)

Section Vocabulary.

Variable parseInt : string → number.

(** The object [initTabsGroup] builds. *)
Definition newGroup (groupName : string) (d : Document) (firstTrigger : nat) : TabsGroup :=
  mkTabsGroup groupName (queryTriggers d groupName) (queryPanels d groupName)
    (configActiveClass d firstTrigger) (configAnimate d firstTrigger)
    (configDuration parseInt d firstTrigger) false.

(** The page [initTabsGroup] leaves behind. *)
Definition initDocument (group : TabsGroup) (d : Document) : Document :=
  let d := wire (name group) (triggers group) (panels group) d in
  match defaultTabId d (triggers group) with
  | Some tabId => if truthy tabId then activateTabInstant group tabId d else d
  | None => d
  end.

End Vocabulary.

(** ** Discovery and wiring *)

(** The group names [initAllTabs] collects, in the order in which it
    initialises them. *)
Definition groupNames (d : Document) : list string :=
  foldl (λ names el,
           match getAttributeAt d ATTR.group el with
           | Some groupName => if truthy groupName then Set_add groupName names else names
           | None => names
           end) [] (querySelectorAll d (hasAttribute ATTR.group)).

(** A freshly loaded page: no handler attached yet. *)
Definition fresh (d : Document) : Prop := ∀ e, e ∈ d → listeners e = [].

(** The handlers an element carries, given which groups are registered: a
    trigger of a registered group has the click handler made for its group
    and the keydown handler, in the order [initTabsGroup] attaches them;
    every other element has none. *)
Definition handlers (d0 : Document) (registry : gmap string nat) (i : nat) : list Listener :=
  match getAttributeAt d0 ATTR.group i with
  | Some g =>
      if bool_decide (is_Some (registry !! g)) && test d0 (hasAttribute ATTR.trigger) i
      then [OnClick g; OnKeydown]
      else []
  | None => []
  end.

Record Wiring (d0 : Document) (s : State) : Prop := mk_Wiring {
  wiring_static : static_eq d0 (document s);
  wiring_listeners : ∀ i e, document s !! i = Some e →
    listeners e = handlers d0 (tabsGroups s) i;
}.

(** ** Timers still to fire *)

(** The timer firings a list of pending timers stands for: the callback of
    an exit timer sets one more timer, the callback of an enter timer
    none. *)
Definition firings (ts : list Callback) : nat :=
  foldr (λ cb n, match cb with
                 | PhaseTwo _ _ _ _ _ => 2 + n
                 | Unlock _ => 1 + n
                 end) 0 ts.

(** ** What the module leaves alone *)

(** [e'] is [e] up to the attributes in [K] and the class tokens [T]
    accepts: the same tag name, the same value for every other attribute,
    the same other tokens in the same order. *)
Definition keeps (K : list string) (T : string → bool) (e e' : HTMLElement) : Prop :=
  tagName e = tagName e' ∧
  (∀ k, k ∉ K → attributes e !! k = attributes e' !! k) ∧
  List.filter (λ c, negb (T c)) (classList e)
    = List.filter (λ c, negb (T c)) (classList e').

(** The class tokens the module can come to write on a page: the default
    active class, the two animation classes, and the values of the
    bw-tabs-class attributes of the page. *)
Definition touchable (d0 : Document) : list string :=
  DEFAULT_ACTIVE_CLASS :: ANIM_CLASS.leaving :: ANIM_CLASS.entering
    :: omap (getAttribute ATTR.activeClass) d0.

Definition is_touchable (d0 : Document) (c : string) : bool :=
  bool_decide (c ∈ touchable d0).

(** The two attributes activation writes. *)
Definition aria_keys : list string := ["aria-selected"; "aria-hidden"].

Record Touch (d0 : Document) (s : State) : Prop := mk_Touch {
  touch_page : Forall2 (keeps dynamic_keys (is_touchable d0)) d0 (document s);
  touch_heap : ∀ a group, heap s !! a = Some group →
    is_touchable d0 (activeClass group) = true;
  touch_timers : ∀ a ps A cur next, PhaseTwo a ps A cur next ∈ timers s →
    is_touchable d0 A = true;
}.

(** ** Roles and focus *)

(** Reachable with the keyboard: a button, a link, or an element with a
    tabindex attribute. *)
Definition focusable (e : HTMLElement) : Prop :=
  is_Some (getAttribute "tabindex" e) ∨ tagName e = "BUTTON" ∨ tagName e = "A".

(** The ARIA role an element of the group [g] is given: tabpanel for a
    panel, tab (and keyboard focus) for a trigger that is not also a
    panel. *)
Definition roles_ok (g : string) (e : HTMLElement) : Prop :=
  (isPanel g e = true → getAttribute "role" e = Some "tabpanel") ∧
  (isTrigger g e = true → isPanel g e = false →
   getAttribute "role" e = Some "tab" ∧ focusable e).

Definition Roles (s : State) : Prop :=
  ∀ g i e, is_Some (tabsGroups s !! g) → document s !! i = Some e → roles_ok g e.

(** What the wiring pass of [initTabsGroup] does to one element. *)
Definition wire_el (g : string) (e : HTMLElement) : HTMLElement :=
  let e1 := if isTrigger g e then wireTrigger g e else e in
  if isPanel g e then setAttribute "role" "tabpanel" e1 else e1.

(** ** The animated transition, start to end *)

(** No stray animation class: a token is-leaving or is-entering on the
    element is there as the group's active class. *)
Definition clean (A : string) (e : HTMLElement) : Prop :=
  ∀ c, c ∈ classList e → c = ANIM_CLASS.leaving ∨ c = ANIM_CLASS.entering → c = A.

(** Element properties a group keeps.  [P] is a property of its triggers;
    [Q] is a property of its panels, which a running transition may break,
    but only on the panel its exit timer is about to clean up. *)
Definition triggers_keep (P : string → HTMLElement → Prop) (d : Document)
    (group : TabsGroup) : Prop :=
  ∀ i e, i ∈ triggers group → d !! i = Some e → P (activeClass group) e.

Definition panels_keep (Q : string → HTMLElement → Prop) (d : Document)
    (ts : list Callback) (a : nat) (group : TabsGroup) : Prop :=
  ∀ i e, i ∈ panels group → d !! i = Some e →
    (∀ ps A cur next, PhaseTwo a ps A cur next ∈ ts → i ≠ cur) →
    Q (activeClass group) e.

Definition Kept (P Q : string → HTMLElement → Prop) (s : State) : Prop :=
  ∀ g a group, tabsGroups s !! g = Some a → heap s !! a = Some group →
    triggers_keep P (document s) group ∧
    panels_keep Q (document s) (timers s) a group.

(** aria-selected says whether the trigger carries the active class [A];
    aria-hidden says whether the panel does not. *)
Definition trigger_sync (A : string) (e : HTMLElement) : Prop :=
  getAttribute "aria-selected" e
    = Some (if bool_decide (A ∈ classList e) then "true" else "false").

Definition panel_sync (A : string) (e : HTMLElement) : Prop :=
  getAttribute "aria-hidden" e
    = Some (if bool_decide (A ∈ classList e) then "false" else "true").

(** Phase 1 of the transition, on the current panel. *)
Definition exit_el (A : string) (e : HTMLElement) : HTMLElement :=
  classList.remove A (classList.add ANIM_CLASS.leaving e).

(** The state in which the group object at [a] has its animation flag set
    to [b]. *)
Definition with_animate (b : bool) (g : TabsGroup) : TabsGroup :=
  mkTabsGroup (name g) (triggers g) (panels g) (activeClass g) b (duration g)
    (isAnimating g).

Definition set_animate (a : nat) (b : bool) (s : State) : State :=
  mkState (document s) (alter (with_animate b) a (heap s)) (tabsGroups s)
    (timers s) (console s).

(** ** Selectors and list items *)

(** Whether the character [c] occurs in [s]. *)
Fixpoint has_char (c : Ascii.ascii) (s : string) : bool :=
  match s with
  | EmptyString => false
  | String c' s' => Ascii.eqb c' c || has_char c s'
  end.

Definition equals_sign : Ascii.ascii := Ascii.ascii_of_nat 61.

Section LocationsVocabulary.

Variables (Item float : Type).
Variable querySelectorIn : Item → string → option Item.
Variable itemText : Item → option string.
Variable innerHTML : Item → string.
Variable parseFloat : string → float.
Variable isNaN : float → bool.

(** The feature a list item gives, if it gives one. *)
Definition featureOf (node : Item) : option (PointFeature float) :=
  latElement ← querySelectorIn node S.lat;
  lngElement ← querySelectorIn node S.lng;
  infoElement ← querySelectorIn node S.popupInfo;
  idElement ← querySelectorIn node S.id;
  let lat := parseFloat (or_else (itemText latElement) "") in
  let lng := parseFloat (or_else (itemText lngElement) "") in
  if isNaN lat || isNaN lng then None
  else Some (mkFeature (lng, lat) (or_else (itemText idElement) "")
               (innerHTML infoElement)).

End LocationsVocabulary.

(** A toy list to run the extraction on: an item is a number, its fields
    are itself, its text is its decimal notation, and the numbers from 100
    on do not parse. *)
Definition toyQuery (n : nat) (selector : string) : option nat :=
  if decide (n = 0) then None else Some n.

Definition toyText (n : nat) : option string := Some (pretty n).

Definition toyParse (s : string) : option Z :=
  match digits s None with
  | Some z => if decide (z < 100)%Z then Some z else None
  | None => None
  end.

Definition toyIsNaN (x : option Z) : bool := bool_decide (x = None).

(** A marker template, hidden on the page, found by either selector. *)
Definition markerTemplate : StyledElement :=
  mkStyled (el "DIV" [("data-map-marker", ""); ("data-map-element", "marker");
                      ("style", "display: none;")] ["pin"])
    "none".

(** The style attribute of an element whose inline style declares nothing
    but its display. *)
Definition displayOnly (before : option string) (v : string) : string :=
  ("display: " ++ v ++ ";")%string.

(** ** The module in the browser *)

(** A class token [classList.add] and [classList.remove] accept. *)
Definition valid_token (c : string) : Prop := Browser.validate c = Normal.

Section BrowserVocabulary.

Variable parseInt : string → number.

(** [initTabsGroup] up to the default activation: the group is registered,
    its triggers carry their handlers, roles are set. *)
Definition registerAndWire (g : string) (s : State) : State :=
  match queryTriggers (document s) g with
  | firstTrigger :: _ =>
      let group := newGroup parseInt g (document s) firstTrigger in
      with_document (wire g (triggers group) (panels group) (document s))
        (register g group s)
  | [] => s
  end.

End BrowserVocabulary.

(** ** Groups side by side *)

(** What a pending callback made for the group [h] may touch: panels of
    [h], with a class that is a valid token. *)
Definition cb_ok (d0 : Document) (h : string) (cb : Callback) : Prop :=
  match cb with
  | PhaseTwo _ ps A cur next =>
      valid_token A ∧ ps = queryPanels d0 h ∧ cur ∈ queryPanels d0 h ∧
      (∀ i, i ∈ next → i ∈ queryPanels d0 h)
  | Unlock _ => True
  end.

(** What holds of every registered group, whatever its markup: handlers
    sit where [initTabsGroup] put them, a group object lists the triggers
    and panels the page has for its name, and a pending callback belongs to
    a registered group. *)
Record Reg (d0 : Document) (s : State) : Prop := mk_Reg {
  reg_wiring : Wiring d0 s;
  reg_groups : ∀ h a, tabsGroups s !! h = Some a →
    ∃ group, heap s !! a = Some group ∧ name group = h ∧
             triggers group = queryTriggers d0 h ∧ panels group = queryPanels d0 h ∧
             queryTriggers d0 h ≠ [];
  reg_timers : ∀ cb, cb ∈ timers s →
    ∃ h, tabsGroups s !! h = Some (cb_group cb) ∧ cb_ok d0 h cb;
}.

(** The markup one group needs for the single-active-tab property: no
    element is a trigger and a panel of it at once, its default tab
    identifier is not the empty string, and the active class its first
    trigger asks for is a valid class token, other than the entering class
    when the group animates. *)
Record wf_group (d0 : Document) (g : string) : Prop := mk_wf_group {
  wf_disjoint : ∀ i, i ∈ queryTriggers d0 g → i ∉ queryPanels d0 g;
  wf_default : defaultTabId d0 (queryTriggers d0 g) ≠ Some "";
  wf_token : ∀ i, head (queryTriggers d0 g) = Some i →
    valid_token (configActiveClass d0 i);
  wf_entering : ∀ i, head (queryTriggers d0 g) = Some i →
    configAnimate d0 i = true → configActiveClass d0 i ≠ ANIM_CLASS.entering;
}.

(** Where one group stands in the protocol, read off its pending timers:
    idle, exit phase running, enter phase running.  [T] holds of the tab
    identifier it is settled on, or switching to. *)
Definition gphase (T : string → Prop) (d0 d : Document) (ts : list Callback) (a : nat)
    (group : TabsGroup) : Prop :=
  match pending a ts with
  | [] => isAnimating group = false ∧ ∃ c, T c ∧ settled d group c
  | [PhaseTwo _ ps A cur next] =>
      isAnimating group = true ∧ animate group = true ∧
      ps = panels group ∧ A = activeClass group ∧ cur ∈ panels group ∧
      ∃ c, T c ∧ next = nextPanelsOf group c d0 ∧ triggers_settled d group c
  | [Unlock _] => isAnimating group = true ∧ ∃ c, T c ∧ settled d group c
  | _ => False
  end.

Definition Good (T : string → Prop) (d0 : Document) (g : string) (s : State) : Prop :=
  ∀ a group, get g s = Some (a, group) →
    valid_token (activeClass group) ∧
    (animate group = true → activeClass group ≠ ANIM_CLASS.entering) ∧
    gphase T d0 (document s) (timers s) a group.

(** Exactly the triggers of the group [g] on the page, and exactly its
    panels, with tab identifier [c] carry the class [A]. *)
Definition page_settled (d : Document) (g A c : string) : Prop :=
  ∀ e, e ∈ d →
    (isTrigger g e = true → (A ∈ classList e ↔ getAttribute ATTR.trigger e = Some c)) ∧
    (isPanel g e = true → (A ∈ classList e ↔ getAttribute ATTR.content e = Some c)).

(** Every group name on the page, and every group name a [switchTab] call
    of the trace gives, is plain. *)
Definition plain_names (d0 : Document) (evs : list Event) : Prop :=
  (∀ e h, e ∈ d0 → getAttribute ATTR.group e = Some h → plain h = true) ∧
  (∀ h t, SwitchTab h t ∈ evs → plain h = true).

(** Every [switchTab] call of the trace for the group [g] asks for a tab
    identifier that some trigger of [g] has. *)
Definition valid_targets_of (d0 : Document) (g : string) (evs : list Event) : Prop :=
  ∀ tabId, SwitchTab g tabId ∈ evs → is_tab d0 g tabId.

Section Moves.

Variable parseInt : string → number.

(** The active class [initTabsGroup] would configure for the group [h]. *)
Definition configuredClass (d : Document) (h : string) : string :=
  match queryTriggers d h with
  | firstTrigger :: _ => configActiveClass d firstTrigger
  | [] => DEFAULT_ACTIVE_CLASS
  end.

(** What a browser run is made of, seen from the group [g]: calls that
    complete, reports, and initialisations cut short by an exception.  [T]
    holds of the tab identifiers requested for [g]. *)
Inductive move (T : string → Prop) (g : string) (s : State) : State → Prop :=
  | move_report c :
      move T g s (mkState (document s) (heap s) (tabsGroups s) (timers s) c)
  | move_activate h t a group :
      get h s = Some (a, group) → valid_token (activeClass group) →
      (h = g → T t) →
      move T g s (activateTab h t s)
  | move_timeout k :
      move T g s (timeout k s)
  | move_init h :
      tabsGroups s !! h = None →
      queryTriggers (document s) h ≠ [] → queryPanels (document s) h ≠ [] →
      valid_token (configuredClass (document s) h)
      ∨ (∀ tabId, defaultTabId (document s) (queryTriggers (document s) h) = Some tabId
                  → tabId = "") →
      move T g s (initTabsGroup parseInt h s)
  | move_wire h :
      tabsGroups s !! h = None →
      queryTriggers (document s) h ≠ [] → queryPanels (document s) h ≠ [] →
      ¬ valid_token (configuredClass (document s) h) →
      move T g s (registerAndWire parseInt h s).

End Moves.

(** ** The claims as first specified *)

(** The single-active-tab property as first specified: in a settled group
    there is a tab identifier that some trigger of the group has, and
    exactly its triggers and exactly its panels carry the active class. *)
Definition single_active_claim (groupName : string) (s : State) : Prop :=
  ∀ a group, get groupName s = Some (a, group) → isAnimating group = false →
    ∃ c, (∃ e, e ∈ document s ∧ isTrigger groupName e = true ∧
               getAttribute ATTR.trigger e = Some c) ∧
         page_settled (document s) groupName (activeClass group) c.

(** The guarantee of initialisation as first specified: after
    [initTabsGroup] registered the group, the default tab identifier (read
    off the page the call started from) is the one active tab: some trigger
    of the group has it, exactly the triggers and exactly the panels of the
    group that have it carry the active class, and aria-selected /
    aria-hidden are set accordingly on every trigger and panel of the
    group. *)
Definition init_guarantee (d0 : Document) (groupName : string) (s' : State) : Prop :=
  ∃ a group tabId,
    get groupName s' = Some (a, group) ∧
    defaultTabId d0 (queryTriggers d0 groupName) = Some tabId ∧
    (∃ e, e ∈ document s' ∧ isTrigger groupName e = true ∧
          getAttribute ATTR.trigger e = Some tabId) ∧
    (∀ e, e ∈ document s' → isTrigger groupName e = true →
       (activeClass group ∈ classList e ↔ getAttribute ATTR.trigger e = Some tabId) ∧
       getAttribute "aria-selected" e
         = Some (if attribute_is ATTR.trigger tabId e then "true" else "false")) ∧
    (∀ e, e ∈ document s' → isPanel groupName e = true →
       (activeClass group ∈ classList e ↔ getAttribute ATTR.content e = Some tabId) ∧
       getAttribute "aria-hidden" e
         = Some (if attribute_is ATTR.content tabId e then "false" else "true")).

(** Nothing was activated between [s] and [s']: every element has the
    classes, the aria-selected and the aria-hidden it had. *)
Definition nothing_activated (s s' : State) : Prop :=
  ∀ i e, document s !! i = Some e →
    ∃ e', document s' !! i = Some e' ∧ classList e' = classList e ∧
          getAttribute "aria-selected" e' = getAttribute "aria-selected" e ∧
          getAttribute "aria-hidden" e' = getAttribute "aria-hidden" e.

(** What [activateTab] leaves when no panel of the group has the target:
    nothing reported; every trigger with aria-selected "true" or "false"
    according to whether its tab identifier is the target, and only
    triggers matching the target with the active class (each of them that
    is not also a panel has it); and on the instant path (animation off, or
    no panel currently active) the group idle, no timer set, and every
    panel without the active class and with aria-hidden "true". *)
Definition without_panels_result (group : TabsGroup) (tabId : string) (s s' : State) : Prop :=
  console s' = console s ∧
  (∀ i e, i ∈ triggers group → document s !! i = Some e →
     ∃ e', document s' !! i = Some e' ∧
       getAttribute "aria-selected" e'
         = Some (if attribute_is ATTR.trigger tabId e then "true" else "false") ∧
       (activeClass group ∈ classList e' → getAttribute ATTR.trigger e = Some tabId) ∧
       (i ∉ panels group → getAttribute ATTR.trigger e = Some tabId →
        activeClass group ∈ classList e')) ∧
  ((animate group = false
    ∨ findEl (document s) (classList.contains (activeClass group)) (panels group) = None) →
   heap s' = heap s ∧ timers s' = timers s ∧
   ∀ i e, i ∈ panels group → document s !! i = Some e →
     ∃ e', document s' !! i = Some e' ∧
       (activeClass group ∉ classList e') ∧
       getAttribute "aria-hidden" e' = Some "true").

(** The claim as first specified: for every registered idle group. *)
Definition target_without_panels_claim (groupName tabId : string) (s : State) : Prop :=
  ∀ a group, get groupName s = Some (a, group) → isAnimating group = false →
    (∀ p, p ∈ panels group →
          getAttributeAt (document s) ATTR.content p ≠ Some tabId) →
    without_panels_result group tabId s (fst (Browser.activateTab groupName tabId s)).

(** ** Pages and browsers to run the module on *)

(** A selector engine that rejects whatever it is asked.  With plain group
    names it is never asked. *)
Definition rejectAll (selector : string) (d : Document) : list nat + DOMException :=
  inr SyntaxError.

(** A page without nesting. *)
Definition flat (i : nat) : list nat := [].

(** A gallery whose first trigger asks for two classes at once. *)
Definition spacedGallery : Document :=
  [ el "BUTTON" [("bw-tabs-trigger", "photos"); ("bw-tabs-group", "gallery");
                 ("bw-tabs-class", "my class")] [];
    el "BUTTON" [("bw-tabs-trigger", "videos"); ("bw-tabs-group", "gallery")] [];
    el "DIV" [("bw-tabs-content", "photos"); ("bw-tabs-group", "gallery")] [];
    el "DIV" [("bw-tabs-content", "videos"); ("bw-tabs-group", "gallery")] [] ].

Definition spacedGroup : TabsGroup :=
  mkTabsGroup "gallery" [0; 1] [2; 3] "my class" false (Finite 300) false.

(** A group name with double quotes in it: say "hi". *)
Definition quoted : string := "say " ++ dquote ++ "hi" ++ dquote.

Section ClaimsAsSpecified.

Variable parseInt : string → number.
Variable selectAll : string → Document → list nat + DOMException.

(** The programmatic switch as first specified: on a registered group it
    is [activateTab]; on an unregistered group it first runs
    [initTabsGroup], and then is [activateTab] if the group got registered;
    if the group is still unregistered it reports that it cannot switch and
    leaves the page as it was. *)
Definition switchTab_claim (groupName tabId : string) (s : State) : Prop :=
  (is_Some (tabsGroups s !! groupName) →
   Browser.switchTab parseInt selectAll groupName tabId s
   = Browser.activateTab groupName tabId s) ∧
  (tabsGroups s !! groupName = None →
   let s1 := fst (Browser.initTabsGroup parseInt selectAll groupName s) in
   let r := Browser.switchTab parseInt selectAll groupName tabId s in
   (is_Some (tabsGroups s1 !! groupName) →
    r = Browser.activateTab groupName tabId s1) ∧
   (tabsGroups s1 !! groupName = None →
    document (fst r) = document s ∧
    console (fst r) =
      console s1 ++
        [Warn ("[Tabs] Cannot switch tab - group " ++ dquote ++ groupName
                 ++ dquote ++ " not found")%string])).

End ClaimsAsSpecified.


(** ** Pages that initialise without an exception *)

(** Every group of the page is configured with an active class that is a
    valid class token. *)
Definition valid_classes (d0 : Document) : Prop :=
  ∀ h, valid_token (configuredClass d0 h).

(** The pages [initAllTabs] gets through without an exception: every group
    name on the page is plain, and every group is configured with an active
    class that is a valid class token. *)
Definition initialisable (d : Document) : Prop :=
  ∀ h, h ∈ groupNames d → plain h = true ∧ valid_token (configuredClass d h).

(** ** Nesting, and a group name that is not plain *)

(** The gallery with an icon inside its videos trigger. *)
Definition iconGallery : Document := gallery ++ [ el "SPAN" [] ["icon"] ].

(** The nesting of that page: the icon (element 4) sits in the videos
    trigger (element 1). *)
Definition inTrigger (i : nat) : list nat := if Nat.eqb i 4 then [1] else [].

(** A group name that closes the attribute selector it is spliced into and
    goes on with selectors of its own:
    x"],[bw-tabs-trigger="videos"],[bw-tabs-content="photos"],[y=" *)
Definition injected : string :=
  "x" ++ dquote ++ "],[bw-tabs-trigger=" ++ dquote ++ "videos" ++ dquote
      ++ "],[bw-tabs-content=" ++ dquote ++ "photos" ++ dquote ++ "],[y=".

(** What a selector engine answers on the gallery for the two selectors
    built from that name.  Each has become a list of four selectors, of
    which the second selects the videos trigger (element 1) and the third
    the photos panel (element 2). *)
Definition galleryEngine (selector : string) (d : Document) : list nat + DOMException :=
  if String.eqb selector (Browser.triggerSelector injected)
     || String.eqb selector (Browser.panelSelector injected)
  then inl [1; 2] else inr SyntaxError.

(** * Properties *)

(** ** Elements: attributes and class tokens *)

Lemma truthy_true s : truthy s = true ↔ s ≠ "".
Proof.
  unfold truthy. rewrite negb_true_iff.
  destruct (String.eqb_spec s ""); split; congruence.
Qed.

Lemma truthy_false s : truthy s = false ↔ s = "".
Proof.
  unfold truthy. rewrite negb_false_iff. apply String.eqb_eq.
Qed.

Lemma getAttribute_setAttribute k k' v e :
  getAttribute k (setAttribute k' v e) =
    if decide (k' = k) then Some v else getAttribute k e.
Proof. unfold getAttribute, setAttribute; simpl. apply lookup_insert. Qed.

Lemma getAttribute_setAttribute_ne k k' v e :
  k' ≠ k → getAttribute k (setAttribute k' v e) = getAttribute k e.
Proof. intros. rewrite getAttribute_setAttribute. by case_decide. Qed.

Lemma attributes_add c e : attributes (classList.add c e) = attributes e.
Proof. done. Qed.

Lemma attributes_remove c e : attributes (classList.remove c e) = attributes e.
Proof. done. Qed.

Lemma classList_setAttribute k v e : classList (setAttribute k v e) = classList e.
Proof. done. Qed.

Lemma contains_true c e : classList.contains c e = true ↔ c ∈ classList e.
Proof. unfold classList.contains. apply bool_decide_eq_true. Qed.

Lemma contains_false c e : classList.contains c e = false ↔ c ∉ classList e.
Proof. unfold classList.contains. apply bool_decide_eq_false. Qed.

Lemma classList_remove c e : classList (classList.remove c e) = rm c (classList e).
Proof. done. Qed.

Lemma classList_add c e : classList (classList.add c e) = ad c (classList e).
Proof. done. Qed.

Lemma elem_of_rm x c l : x ∈ rm c l ↔ x ∈ l ∧ x ≠ c.
Proof.
  unfold rm. rewrite !list_elem_of_In, filter_In, negb_true_iff.
  destruct (String.eqb_spec x c); split; intros []; split; congruence.
Qed.

Lemma elem_of_ad x c l : x ∈ ad c l ↔ x ∈ l ∨ x = c.
Proof.
  unfold ad. case_bool_decide.
  - split; [auto | intros [|]; by subst].
  - rewrite elem_of_app, list_elem_of_singleton. done.
Qed.

Lemma rm_notin c l : c ∉ l → rm c l = l.
Proof.
  induction l as [|x l IH]; [done|]. intros Hn.
  apply not_elem_of_cons in Hn as [Hne Hn]. unfold rm in *. simpl.
  destruct (String.eqb_spec x c); [congruence|]. simpl. by rewrite IH.
Qed.

Lemma rm_app c l l' : rm c (l ++ l') = rm c l ++ rm c l'.
Proof. apply List.filter_app. Qed.

Lemma rm_self c : rm c [c] = [].
Proof. unfold rm. simpl. by rewrite String.eqb_refl. Qed.

Lemma rm_other x c : x ≠ c → rm c [x] = [x].
Proof. intros. unfold rm. simpl. by destruct (String.eqb_spec x c). Qed.

Lemma rm_rm_notin c l : c ∉ rm c l.
Proof. rewrite elem_of_rm. tauto. Qed.

Lemma ad_in c l : c ∈ l → ad c l = l.
Proof. intros. unfold ad. by rewrite bool_decide_eq_true_2. Qed.

Lemma ad_notin c l : c ∉ l → ad c l = l ++ [c].
Proof. intros. unfold ad. by rewrite bool_decide_eq_false_2. Qed.

Lemma element_eq e e' :
  tagName e = tagName e' → attributes e = attributes e' →
  classList e = classList e' → listeners e = listeners e' → e = e'.
Proof. destruct e, e'; simpl; congruence. Qed.

(** ** Handles: [forEach], [filter], [find] *)

Lemma test_lookup d p i e : d !! i = Some e → test d p i = p e.
Proof. unfold test. by intros ->. Qed.

Lemma elem_of_filterEl d p l i : i ∈ filterEl d p l ↔ i ∈ l ∧ test d p i = true.
Proof. unfold filterEl. by rewrite !list_elem_of_In, filter_In. Qed.

Lemma includes_true l i : includes l i = true ↔ i ∈ l.
Proof. apply bool_decide_eq_true. Qed.

Lemma includes_false l i : includes l i = false ↔ i ∉ l.
Proof. apply bool_decide_eq_false. Qed.

Lemma findEl_Some d p l i :
  findEl d p l = Some i → i ∈ l ∧ test d p i = true.
Proof. unfold findEl. intros H%find_some. by rewrite list_elem_of_In. Qed.

Lemma findEl_None d p l i : findEl d p l = None → i ∈ l → test d p i = false.
Proof.
  unfold findEl. intros H Hi%list_elem_of_In. by eapply find_none in H.
Qed.

Lemma forEach_cons i l f d : forEach (i :: l) f d = forEach l f (alter (f i) i d).
Proof. done. Qed.

Lemma forEach_length l f d : length (forEach l f d) = length d.
Proof.
  revert d. induction l as [|j l IH]; intros d; [done|].
  rewrite forEach_cons, IH. apply length_alter.
Qed.

Lemma forEach_lookup_notin l f d i : i ∉ l → forEach l f d !! i = d !! i.
Proof.
  revert d. induction l as [|j l IH]; intros d Hi; [done|].
  apply not_elem_of_cons in Hi as [Hne Hi].
  rewrite forEach_cons, IH by done. by apply list_lookup_alter_ne.
Qed.

(** A callback applied to a handle that occurs in the list is applied at
    least once; when applying it twice is the same as once, the number of
    occurrences does not matter. *)
Lemma forEach_lookup_in l f d i :
  (∀ e, f i (f i e) = f i e) → i ∈ l → forEach l f d !! i = f i <$> d !! i.
Proof.
  intros Hidem. revert d. induction l as [|j l IH]; intros d Hi.
  - by apply elem_of_nil in Hi.
  - rewrite forEach_cons. destruct (decide (i ∈ l)) as [Hin|Hin].
    + rewrite IH by done. destruct (decide (j = i)) as [->|Hne].
      * rewrite list_lookup_alter_eq. destruct (d !! i); simpl; by rewrite ?Hidem.
      * by rewrite list_lookup_alter_ne.
    + apply elem_of_cons in Hi as [->|]; [|done].
      rewrite forEach_lookup_notin by done. apply list_lookup_alter_eq.
Qed.

Lemma forEach_lookup l f d i :
  (∀ e, f i (f i e) = f i e) →
  forEach l f d !! i = (if includes l i then f i else id) <$> d !! i.
Proof.
  intros Hidem. destruct (includes l i) eqn:E.
  - apply includes_true in E. by apply forEach_lookup_in.
  - apply includes_false in E. rewrite forEach_lookup_notin by done.
    by destruct (d !! i).
Qed.

(** With each handle listed once, the callback runs exactly once. *)
Lemma forEach_lookup_NoDup l f d i :
  NoDup l → i ∈ l → forEach l f d !! i = f i <$> d !! i.
Proof.
  intros Hnd. revert d. induction Hnd as [|j l Hj Hnd IH]; intros d Hi.
  - by apply elem_of_nil in Hi.
  - rewrite forEach_cons. apply elem_of_cons in Hi as [->|Hi].
    + rewrite forEach_lookup_notin by done. apply list_lookup_alter_eq.
    + rewrite IH by done. rewrite list_lookup_alter_ne; [done|]. intros ->. done.
Qed.

Lemma includes_filterEl d p l i :
  includes (filterEl d p l) i = includes l i && test d p i.
Proof.
  apply eq_true_iff_eq.
  rewrite andb_true_iff, !includes_true. apply elem_of_filterEl.
Qed.

(** ** The element callbacks *)

Lemma filter_filter_bool {X} (p q : X → bool) (l : list X) :
  List.filter p (List.filter q l) = List.filter (λ x, q x && p x) l.
Proof.
  induction l as [|x l IH]; [done|]. simpl.
  destruct (q x); simpl; [destruct (p x)|]; by rewrite IH.
Qed.

(** Equations between compositions of token removals. *)
Ltac rm_solve :=
  unfold rm; rewrite ?filter_filter_bool; apply List.filter_ext; intros ?x;
  repeat match goal with
         | |- context [String.eqb ?y ?c] => destruct (String.eqb y c)
         end; done.

Lemma rm_ad_same c l : rm c (ad c l) = rm c l.
Proof.
  unfold ad. case_bool_decide; [done|].
  by rewrite rm_app, rm_self, app_nil_r.
Qed.

Lemma rm_comm c c' l : rm c (rm c' l) = rm c' (rm c l).
Proof. rm_solve. Qed.

Lemma rm_idem c l : rm c (rm c l) = rm c l.
Proof. rm_solve. Qed.

Lemma ad_idem c l : ad c (ad c l) = ad c l.
Proof. apply ad_in. rewrite elem_of_ad. by right. Qed.

(** Equality of attribute maps built from insertions. *)
Ltac attrs_solve :=
  apply map_eq; intros ?k; rewrite ?lookup_insert;
  repeat case_decide; congruence.

Ltac el_simpl :=
  unfold deselect, select, hide, hideClean, show;
  repeat (rewrite ?classList_setAttribute, ?classList_remove, ?classList_add,
            ?attributes_add, ?attributes_remove; simpl).

Lemma tagName_add c e : tagName (classList.add c e) = tagName e.
Proof. done. Qed.

Lemma listeners_add c e : listeners (classList.add c e) = listeners e.
Proof. done. Qed.

Ltac el_eq :=
  apply element_eq;
  [ simpl; rewrite ?tagName_add; simpl; rewrite ?tagName_add; done
  | el_simpl; try attrs_solve
  | el_simpl; try reflexivity
  | simpl; rewrite ?listeners_add; simpl; rewrite ?listeners_add; done ].

Lemma deselect_idem A e : deselect A (deselect A e) = deselect A e.
Proof. el_eq. apply rm_idem. Qed.

Lemma select_idem A e : select A (select A e) = select A e.
Proof. el_eq. apply ad_idem. Qed.

Lemma hide_idem A e : hide A (hide A e) = hide A e.
Proof. el_eq. apply rm_idem. Qed.

Lemma hideClean_idem A e : hideClean A (hideClean A e) = hideClean A e.
Proof. el_eq. rm_solve. Qed.

Lemma show_idem A e : show A (show A e) = show A e.
Proof. el_eq. apply ad_idem. Qed.

Lemma deselect_select A e : deselect A (select A e) = deselect A e.
Proof. el_eq. apply rm_ad_same. Qed.

Lemma hideClean_show A e : hideClean A (show A e) = hideClean A e.
Proof. el_eq. by rewrite rm_ad_same. Qed.

Lemma deselect_show A e :
  deselect A (show A e) = setAttribute "aria-hidden" "false" (deselect A e).
Proof. el_eq. apply rm_ad_same. Qed.

Lemma hideClean_setHidden A v e :
  hideClean A (setAttribute "aria-hidden" v e) = hideClean A e.
Proof. el_eq. Qed.

Lemma hideClean_deselect_select A e :
  hideClean A (deselect A (select A e)) = hideClean A (deselect A e).
Proof. by rewrite deselect_select. Qed.

(** The tab attributes are not touched by any callback. *)
Lemma getAttribute_deselect k A e :
  k ≠ "aria-selected" → getAttribute k (deselect A e) = getAttribute k e.
Proof. intros. unfold deselect. by rewrite getAttribute_setAttribute_ne. Qed.

Lemma getAttribute_select k A e :
  k ≠ "aria-selected" → getAttribute k (select A e) = getAttribute k e.
Proof.
  intros. unfold select. rewrite getAttribute_setAttribute_ne by done.
  unfold getAttribute. by rewrite attributes_add.
Qed.

Lemma getAttribute_hide k A e :
  k ≠ "aria-hidden" → getAttribute k (hide A e) = getAttribute k e.
Proof. intros. unfold hide. by rewrite getAttribute_setAttribute_ne. Qed.

Lemma getAttribute_hideClean k A e :
  k ≠ "aria-hidden" → getAttribute k (hideClean A e) = getAttribute k e.
Proof. intros. unfold hideClean. by rewrite getAttribute_setAttribute_ne. Qed.

Lemma getAttribute_show k A e :
  k ≠ "aria-hidden" → getAttribute k (show A e) = getAttribute k e.
Proof.
  intros. unfold show. rewrite getAttribute_setAttribute_ne by done.
  unfold getAttribute. by rewrite attributes_add.
Qed.

(** ** Instant activation, element by element *)

Lemma activateTabInstant_eq group tabId d :
  activateTabInstant group tabId d =
    let A := activeClass group in
    let d1 := forEach (triggers group) (λ _, deselect A) d in
    let d2 := forEach (panels group) (λ _, hideClean A) d1 in
    let d3 := forEach (filterEl d2 (attribute_is ATTR.trigger tabId) (triggers group))
                (λ _, select A) d2 in
    forEach (filterEl d3 (attribute_is ATTR.content tabId) (panels group))
      (λ _, show A) d3.
Proof. reflexivity. Qed.

Lemma forEach_lookup_Some l f d i e :
  (∀ x, f i (f i x) = f i x) → d !! i = Some e →
  forEach l f d !! i = Some (if includes l i then f i e else e).
Proof.
  intros Hidem He. rewrite forEach_lookup, He by done.
  by destruct (includes l i).
Qed.

Lemma forEach_lookup_None l f d i : d !! i = None → forEach l f d !! i = None.
Proof.
  rewrite !lookup_ge_None. by rewrite forEach_length.
Qed.

Lemma forEach_filterEl_lookup d0 p l f d i e0 e :
  (∀ x, f i (f i x) = f i x) → d0 !! i = Some e0 → d !! i = Some e →
  forEach (filterEl d0 p l) f d !! i =
    Some (if includes l i && p e0 then f i e else e).
Proof.
  intros Hidem H0 He. rewrite (forEach_lookup_Some _ _ _ _ e) by done.
  by rewrite includes_filterEl, (test_lookup _ _ _ _ H0).
Qed.

Lemma activateTabInstant_lookup group tabId d i :
  activateTabInstant group tabId d !! i = instant_el group tabId i <$> d !! i.
Proof.
  rewrite activateTabInstant_eq. cbv zeta.
  set (A := activeClass group).
  set (d1 := forEach (triggers group) _ d).
  set (d2 := forEach (panels group) _ d1).
  set (d3 := forEach (filterEl d2 _ _) _ d2).
  destruct (d !! i) as [e|] eqn:He; simpl.
  - assert (d1 !! i = Some (if includes (triggers group) i then deselect A e else e)) as H1.
    { apply (forEach_lookup_Some _ (λ _, deselect A)); [intros; apply deselect_idem|done]. }
    pose proof (forEach_lookup_Some (panels group) (λ _, hideClean A) d1 i _
                  (λ _, hideClean_idem _ _) H1) as H2. fold d2 in H2.
    pose proof (forEach_filterEl_lookup d2 (attribute_is ATTR.trigger tabId)
                  (triggers group) (λ _, select A) d2 i _ _
                  (λ _, select_idem _ _) H2 H2) as H3. fold d3 in H3.
    rewrite (forEach_filterEl_lookup d3 (attribute_is ATTR.content tabId)
               (panels group) (λ _, show A) d3 i _ _
               (λ _, show_idem _ _) H3 H3).
    done.
  - repeat (apply forEach_lookup_None). done.
Qed.

Lemma instant_reset_set group tabId i x :
  instant_reset group i (instant_set group tabId i x) = instant_reset group i x.
Proof.
  unfold instant_reset, instant_set.
  destruct (includes (triggers group) i), (includes (panels group) i); simpl;
    repeat match goal with
           | |- context [attribute_is ?k ?v ?y] => destruct (attribute_is k v y)
           end;
    rewrite ?deselect_show, ?hideClean_setHidden, ?deselect_select, ?hideClean_show;
    done.
Qed.

Lemma instant_reset_idem group i x :
  instant_reset group i (instant_reset group i x) = instant_reset group i x.
Proof.
  unfold instant_reset.
  destruct (includes (triggers group) i), (includes (panels group) i);
    rewrite ?deselect_idem, ?hideClean_idem; try done.
  el_eq. rm_solve.
Qed.

Lemma instant_el_idem group tabId i e :
  instant_el group tabId i (instant_el group tabId i e) = instant_el group tabId i e.
Proof.
  unfold instant_el. by rewrite instant_reset_set, instant_reset_idem.
Qed.

(** C3. Instant activation is idempotent: for every group record, target
    tab identifier and page, running [activateTabInstant] a second time with
    the same target leaves the whole page (hence the classes, aria-selected
    and aria-hidden of every trigger and panel) as the first run left it. *)
Theorem activateTabInstant_idempotent (group : TabsGroup) (tabId : string) (d : Document) :
  activateTabInstant group tabId (activateTabInstant group tabId d)
  = activateTabInstant group tabId d.
Proof.
  apply list_eq. intros i.
  rewrite !activateTabInstant_lookup.
  destruct (d !! i) as [e|]; simpl; [|done].
  by rewrite instant_el_idem.
Qed.

(** ** The activation state machine, step by step *)

Lemma activateTab_eq groupName tabId s :
  activateTab groupName tabId s =
    match get groupName s with
    | None =>
        console_warn ("[Tabs] Group " ++ dquote ++ groupName ++ dquote ++ " not found")%string s
    | Some (a, group) =>
        if isAnimating group then s
        else if sameTab group tabId (document s) then s
        else
          let d := updateTriggers group tabId (document s) in
          match animate group, currentPanelOf group (document s) with
          | true, Some p =>
              animateTransition a group p (nextPanelsOf group tabId (document s))
                (with_document d s)
          | _, _ =>
              with_document
                (switchPanels group (nextPanelsOf group tabId (document s)) d) s
          end
    end.
Proof. reflexivity. Qed.

Lemma activateTab_unregistered g t s :
  get g s = None →
  activateTab g t s =
    console_warn ("[Tabs] Group " ++ dquote ++ g ++ dquote ++ " not found")%string s.
Proof. intros H. by rewrite activateTab_eq, H. Qed.

Lemma activateTab_animating g t s a group :
  get g s = Some (a, group) → isAnimating group = true → activateTab g t s = s.
Proof. intros H1 H2. by rewrite activateTab_eq, H1, H2. Qed.

Lemma activateTab_sameTab g t s a group :
  get g s = Some (a, group) → sameTab group t (document s) = true →
  activateTab g t s = s.
Proof.
  intros H1 H2. rewrite activateTab_eq, H1, H2. by destruct (isAnimating group).
Qed.

Lemma activateTab_instant g t s a group :
  get g s = Some (a, group) → isAnimating group = false →
  sameTab group t (document s) = false →
  animate group = false ∨ currentPanelOf group (document s) = None →
  activateTab g t s =
    with_document
      (switchPanels group (nextPanelsOf group t (document s))
         (updateTriggers group t (document s))) s.
Proof.
  intros H1 H2 H3 H4. rewrite activateTab_eq, H1, H2, H3. cbv zeta.
  destruct H4 as [-> | ->]; [done|]. by destruct (animate group).
Qed.

Lemma activateTab_animated g t s a group p :
  get g s = Some (a, group) → isAnimating group = false →
  sameTab group t (document s) = false →
  animate group = true → currentPanelOf group (document s) = Some p →
  activateTab g t s =
    animateTransition a group p (nextPanelsOf group t (document s))
      (with_document (updateTriggers group t (document s)) s).
Proof.
  intros H1 H2 H3 H4 H5. by rewrite activateTab_eq, H1, H2, H3, H4, H5.
Qed.

Lemma attribute_is_deselect k v A e :
  k ≠ "aria-selected" → attribute_is k v (deselect A e) = attribute_is k v e.
Proof. intros. unfold attribute_is. by rewrite getAttribute_deselect. Qed.

Lemma updateTriggers_lookup group tabId d i :
  updateTriggers group tabId d !! i = updateTriggers_el group tabId i <$> d !! i.
Proof.
  unfold updateTriggers. cbv zeta.
  set (A := activeClass group).
  set (d1 := forEach (triggers group) _ d).
  destruct (d !! i) as [e|] eqn:He; simpl.
  - assert (d1 !! i = Some (if includes (triggers group) i then deselect A e else e)) as H1.
    { apply (forEach_lookup_Some _ (λ _, deselect A)); [intros; apply deselect_idem|done]. }
    rewrite (forEach_filterEl_lookup d1 (attribute_is ATTR.trigger tabId)
               (triggers group) (λ _, select A) d1 i _ _
               (λ _, select_idem _ _) H1 H1).
    unfold updateTriggers_el. fold A.
    destruct (includes (triggers group) i); simpl; [|done].
    by rewrite attribute_is_deselect.
  - repeat (apply forEach_lookup_None). done.
Qed.

Lemma switchPanels_lookup group nextPanels d i :
  switchPanels group nextPanels d !! i = switchPanels_el group nextPanels i <$> d !! i.
Proof.
  unfold switchPanels.
  set (A := activeClass group).
  destruct (d !! i) as [e|] eqn:He; simpl.
  - pose proof (forEach_lookup_Some (panels group) (λ _, hide A) d i _
                  (λ _, hide_idem _ _) He) as H1.
    by rewrite (forEach_lookup_Some nextPanels (λ _, show A) _ i _
                  (λ _, show_idem _ _) H1).
  - repeat (apply forEach_lookup_None). done.
Qed.

Lemma get_Some g s a group :
  get g s = Some (a, group) ↔ tabsGroups s !! g = Some a ∧ heap s !! a = Some group.
Proof.
  unfold get. destruct (tabsGroups s !! g) as [a'|]; simpl; [|naive_solver].
  destruct (heap s !! a') as [g'|] eqn:E; simpl; naive_solver.
Qed.

Lemma get_has g s a group : get g s = Some (a, group) → has g s = true.
Proof.
  intros [H _]%get_Some. unfold has. rewrite H. by apply bool_decide_eq_true.
Qed.

(** C4. Same-tab no-op: in a registered idle group, when the current panel
    (the first panel carrying the active class) is one of the panels whose
    content attribute is the requested tab identifier, [activateTab] changes
    nothing at all: page, registry, timers and console are as before. *)
Theorem activateTab_same_tab_noop (groupName tabId : string) (s : State)
    (a : nat) (group : TabsGroup) (currentPanel : nat) :
  get groupName s = Some (a, group) →
  isAnimating group = false →
  findEl (document s) (classList.contains (activeClass group)) (panels group)
    = Some currentPanel →
  getAttributeAt (document s) ATTR.content currentPanel = Some tabId →
  activateTab groupName tabId s = s.
Proof.
  intros Hget Hidle Hcur Hattr.
  apply (activateTab_sameTab _ _ _ _ _ Hget).
  unfold sameTab, currentPanelOf. rewrite Hcur.
  apply includes_true, elem_of_filterEl.
  apply findEl_Some in Hcur as [Hin _]. split; [done|].
  unfold getAttributeAt in Hattr. unfold test.
  destruct (document s !! currentPanel) as [e|]; [|done]. simpl in Hattr.
  unfold attribute_is. by apply bool_decide_eq_true.
Qed.

Lemma attribute_is_true k v e : attribute_is k v e = true ↔ getAttribute k e = Some v.
Proof. apply bool_decide_eq_true. Qed.

Lemma attribute_is_false k v e : attribute_is k v e = false ↔ getAttribute k e ≠ Some v.
Proof. apply bool_decide_eq_false. Qed.

Lemma getAttribute_add k c e : getAttribute k (classList.add c e) = getAttribute k e.
Proof. unfold getAttribute. by rewrite attributes_add. Qed.

Lemma getAttribute_remove k c e : getAttribute k (classList.remove c e) = getAttribute k e.
Proof. done. Qed.

Lemma getAttribute_select_eq A e :
  getAttribute "aria-selected" (select A e) = Some "true".
Proof. unfold select. by rewrite getAttribute_setAttribute. Qed.

Lemma getAttribute_deselect_eq A e :
  getAttribute "aria-selected" (deselect A e) = Some "false".
Proof. unfold deselect. by rewrite getAttribute_setAttribute. Qed.

Lemma getAttribute_hide_eq A e :
  getAttribute "aria-hidden" (hide A e) = Some "true".
Proof. unfold hide. by rewrite getAttribute_setAttribute. Qed.

Lemma getAttribute_hideClean_eq A e :
  getAttribute "aria-hidden" (hideClean A e) = Some "true".
Proof. unfold hideClean. by rewrite getAttribute_setAttribute. Qed.

Lemma getAttribute_show_eq A e :
  getAttribute "aria-hidden" (show A e) = Some "false".
Proof. unfold show. by rewrite getAttribute_setAttribute. Qed.

Lemma nextPanelsOf_nil group tabId d :
  (∀ p, p ∈ panels group → getAttributeAt d ATTR.content p ≠ Some tabId) →
  nextPanelsOf group tabId d = [].
Proof.
  intros H. apply elem_of_nil_inv. intros p [Hp Ht]%elem_of_filterEl.
  apply (H p Hp). unfold test in Ht. unfold getAttributeAt.
  destruct (d !! p) as [e|]; [|done]. simpl. by apply attribute_is_true.
Qed.

Lemma sameTab_nil group tabId d :
  nextPanelsOf group tabId d = [] → sameTab group tabId d = false.
Proof.
  intros H. unfold sameTab. rewrite H. by destruct (currentPanelOf group d).
Qed.

Lemma document_with_document d s : document (with_document d s) = d.
Proof. done. Qed.

Lemma document_animateTransition a group p next s :
  document (animateTransition a group p next s) =
    alter (λ e, classList.remove (activeClass group)
                  (classList.add ANIM_CLASS.leaving e)) p (document s).
Proof. done. Qed.

Lemma currentPanelOf_Some group d p :
  currentPanelOf group d = Some p →
  p ∈ panels group ∧ ∃ e, d !! p = Some e ∧ activeClass group ∈ classList e.
Proof.
  intros [Hin Ht]%findEl_Some. split; [done|]. unfold test in Ht.
  destruct (d !! p) as [e|]; [|done]. exists e. split; [done|].
  by apply contains_true.
Qed.

(** When every DOM call succeeds, a target that matches no panel is not
    rejected.  In a registered idle group, when no panel has the requested
    tab identifier: nothing is reported; afterwards every trigger has
    aria-selected "true" or "false" according to whether its tab identifier
    is the target, only triggers matching the target carry the active class
    (and each of them that is not also a panel does); and on the instant
    path (animation off, or no panel currently active) the group stays idle,
    no timer is set, and every panel is left without the active class and
    with aria-hidden "true". *)
Theorem activateTab_target_without_panels_total (groupName tabId : string) (s : State)
    (a : nat) (group : TabsGroup) :
  get groupName s = Some (a, group) →
  isAnimating group = false →
  (∀ p, p ∈ panels group →
        getAttributeAt (document s) ATTR.content p ≠ Some tabId) →
  let s' := activateTab groupName tabId s in
  console s' = console s ∧
  (∀ i e, i ∈ triggers group → document s !! i = Some e →
     ∃ e', document s' !! i = Some e' ∧
       getAttribute "aria-selected" e'
         = Some (if attribute_is ATTR.trigger tabId e then "true" else "false") ∧
       (activeClass group ∈ classList e' → getAttribute ATTR.trigger e = Some tabId) ∧
       (i ∉ panels group → getAttribute ATTR.trigger e = Some tabId →
        activeClass group ∈ classList e')) ∧
  ((animate group = false
    ∨ findEl (document s) (classList.contains (activeClass group)) (panels group) = None) →
   heap s' = heap s ∧ timers s' = timers s ∧
   ∀ i e, i ∈ panels group → document s !! i = Some e →
     ∃ e', document s' !! i = Some e' ∧
       (activeClass group ∉ classList e') ∧
       getAttribute "aria-hidden" e' = Some "true").
Proof.
  intros Hget Hidle Hnone s'.
  pose proof (nextPanelsOf_nil _ _ _ Hnone) as Hnext.
  pose proof (sameTab_nil _ _ _ Hnext) as Hsame.
  assert (∀ i e, i ∈ triggers group → document s !! i = Some e →
    ∃ e1, updateTriggers group tabId (document s) !! i = Some e1 ∧
      getAttribute "aria-selected" e1
        = Some (if attribute_is ATTR.trigger tabId e then "true" else "false") ∧
      (activeClass group ∈ classList e1 ↔ getAttribute ATTR.trigger e = Some tabId))
    as Htrig.
  { intros i e Hi He. rewrite updateTriggers_lookup, He. simpl.
    eexists; split; [done|]. unfold updateTriggers_el.
    apply includes_true in Hi. rewrite Hi.
    destruct (attribute_is ATTR.trigger tabId e) eqn:Hm.
    - apply attribute_is_true in Hm. split; [apply getAttribute_select_eq|].
      el_simpl. rewrite elem_of_ad. naive_solver.
    - apply attribute_is_false in Hm. split; [apply getAttribute_deselect_eq|].
      el_simpl. rewrite elem_of_rm. naive_solver. }
  destruct (decide (animate group = false
                    ∨ currentPanelOf group (document s) = None)) as [Hinst|Hanim].
  - (* instant path *)
    assert (s' = with_document
                   (switchPanels group [] (updateTriggers group tabId (document s))) s)
      as Hs'.
    { unfold s'. rewrite (activateTab_instant _ _ _ _ _ Hget Hidle Hsame Hinst).
      by rewrite Hnext. }
    rewrite Hs'. simpl. split; [done|]. split.
    + intros i e Hi He. destruct (Htrig i e Hi He) as (e1 & H1 & Hsel & Hcls).
      rewrite switchPanels_lookup, H1. simpl. eexists; split; [done|].
      unfold switchPanels_el. simpl.
      destruct (includes (panels group) i) eqn:Hp.
      * split; [by rewrite getAttribute_hide|]. split.
        -- el_simpl. rewrite elem_of_rm. naive_solver.
        -- intros Hnp. by apply includes_true in Hp.
      * split; [done|]. naive_solver.
    + intros _. split; [done|]. split; [done|].
      intros i e Hi He. rewrite switchPanels_lookup, updateTriggers_lookup, He.
      simpl. eexists; split; [done|]. unfold switchPanels_el. simpl.
      apply includes_true in Hi. rewrite Hi. split.
      * el_simpl. rewrite elem_of_rm. naive_solver.
      * apply getAttribute_hide_eq.
  - (* animated path *)
    destruct (animate group) eqn:Han; [|by destruct Hanim; left].
    destruct (currentPanelOf group (document s)) as [p|] eqn:Hcur;
      [|by destruct Hanim; right].
    assert (s' = animateTransition a group p []
                   (with_document (updateTriggers group tabId (document s)) s)) as Hs'.
    { unfold s'. rewrite (activateTab_animated _ _ _ _ _ _ Hget Hidle Hsame Han Hcur).
      by rewrite Hnext. }
    rewrite Hs'. split; [done|]. split.
    + intros i e Hi He. destruct (Htrig i e Hi He) as (e1 & H1 & Hsel & Hcls).
      rewrite document_animateTransition, document_with_document.
      destruct (decide (p = i)) as [->|Hne].
      * rewrite list_lookup_alter_eq, H1. simpl. eexists; split; [done|].
        split; [by rewrite getAttribute_remove, getAttribute_add|]. split.
        -- el_simpl. rewrite elem_of_rm, elem_of_ad. naive_solver.
        -- intros Hnp. by apply currentPanelOf_Some in Hcur as [? _].
      * rewrite list_lookup_alter_ne by done. exists e1. naive_solver.
    + unfold currentPanelOf in Hcur. intros [?|?]; congruence.
Qed.

(** ** The active-tab query *)

Lemma findEl_first d p l i : findEl d p l = Some i ↔ first_with d p l i.
Proof.
  unfold findEl, first_with. revert i. induction l as [|j l IH]; intros i; simpl.
  - split; [done|]. intros (l1 & l2 & H & _). by destruct l1.
  - destruct (test d p j) eqn:Hj.
    + split.
      * intros [= ->]. exists [], l. split; [done|]. split; [done|].
        intros k Hk. by apply elem_of_nil in Hk.
      * intros (l1 & l2 & H & Hi & Hl1). destruct l1 as [|k l1]; simpl in H.
        -- congruence.
        -- injection H as -> ->. rewrite Hl1 in Hj; [done|]. apply elem_of_cons; by left.
    + rewrite IH. split.
      * intros (l1 & l2 & -> & Hi & Hl1). exists (j :: l1), l2.
        split; [done|]. split; [done|].
        intros k [->|Hk]%elem_of_cons; [done|]. by apply Hl1.
      * intros (l1 & l2 & H & Hi & Hl1). destruct l1 as [|k l1]; simpl in H.
        -- injection H as -> ->. congruence.
        -- injection H as -> ->. exists l1, l2. split; [done|]. split; [done|].
           intros k' Hk'. apply Hl1. apply elem_of_cons; by right.
Qed.

Lemma findEl_None_iff d p l : findEl d p l = None ↔ ∀ i, i ∈ l → test d p i = false.
Proof.
  split.
  - intros H i Hi. by eapply findEl_None.
  - intros H. destruct (findEl d p l) as [i|] eqn:E; [|done].
    apply findEl_Some in E as [Hi Ht]. rewrite (H i Hi) in Ht. done.
Qed.

Lemma test_contains_carries group d i :
  test d (classList.contains (activeClass group)) i = true ↔ carries group d i.
Proof.
  unfold test, carries. destruct (d !! i) as [e|].
  - rewrite contains_true. naive_solver.
  - naive_solver.
Qed.

(** C9 (as amended). [getActiveTab] answers null for an unregistered group
    and for a group none of whose triggers carries the active class; a
    non-null answer is a non-empty tab identifier, and it is the trigger
    attribute of the first trigger of the group that carries the active
    class; and when some trigger carries the active class yet the answer is
    null, the first such trigger has the empty string (or nothing) as its
    tab identifier. *)
Theorem getActiveTab_result (groupName : string) (s : State) :
  (get groupName s = None → getActiveTab groupName s = None) ∧
  (∀ a group, get groupName s = Some (a, group) →
     (∀ i, i ∈ triggers group → ¬ carries group (document s) i) →
     getActiveTab groupName s = None) ∧
  (∀ tabId, getActiveTab groupName s = Some tabId →
     tabId ≠ "" ∧
     ∃ a group i e, get groupName s = Some (a, group) ∧
       first_with (document s) (classList.contains (activeClass group)) (triggers group) i ∧
       i ∈ triggers group ∧ document s !! i = Some e ∧
       activeClass group ∈ classList e ∧
       getAttribute ATTR.trigger e = Some tabId) ∧
  (∀ a group, get groupName s = Some (a, group) →
     (∃ i, i ∈ triggers group ∧ carries group (document s) i) →
     getActiveTab groupName s = None →
     ∃ i e,
       first_with (document s) (classList.contains (activeClass group)) (triggers group) i ∧
       document s !! i = Some e ∧ activeClass group ∈ classList e ∧
       (getAttribute ATTR.trigger e = Some "" ∨ getAttribute ATTR.trigger e = None)).
Proof.
  unfold getActiveTab. split; [by intros ->|]. split; [|split].
  - intros a group -> Hnone.
    rewrite (proj2 (findEl_None_iff _ _ _)); [done|].
    intros i Hi. apply not_true_is_false. rewrite test_contains_carries. by apply Hnone.
  - intros tabId H. destruct (get groupName s) as [[a group]|] eqn:Hget; [|done].
    destruct (findEl _ _ (triggers group)) as [i|] eqn:Hfind; [|done].
    simpl in H. unfold getAttributeAt in H.
    pose proof (findEl_Some _ _ _ _ Hfind) as [Hi Ht].
    apply test_contains_carries in Ht as (e & He & Hc).
    rewrite He in H. simpl in H. unfold or_null in H.
    destruct (getAttribute ATTR.trigger e) as [t|] eqn:Hattr; [|done].
    destruct (truthy t) eqn:Htr; [|done]. injection H as ->.
    split; [by apply truthy_true|].
    exists a, group, i, e. by rewrite <-findEl_first.
  - intros a group -> [j [Hj Hc]] H.
    destruct (findEl _ _ (triggers group)) as [i|] eqn:Hfind.
    + simpl in H. unfold getAttributeAt in H.
      pose proof (findEl_Some _ _ _ _ Hfind) as [Hi Ht].
      apply test_contains_carries in Ht as (e & He & Hce).
      exists i, e. rewrite <-findEl_first. split; [done|]. split; [done|].
      split; [done|]. rewrite He in H. simpl in H. unfold or_null in H.
      destruct (getAttribute ATTR.trigger e) as [t|]; [|by right].
      destruct (truthy t) eqn:Htr; [done|]. left. f_equal. by apply truthy_false.
    + apply test_contains_carries in Hc.
      by rewrite (findEl_None _ _ _ _ Hfind Hj) in Hc.
Qed.

(** ** Group initialisation *)

Lemma elem_of_querySelectorAll d p i : i ∈ querySelectorAll d p ↔ test d p i = true.
Proof.
  unfold querySelectorAll. rewrite list_elem_of_In, filter_In, <-list_elem_of_In, elem_of_seq.
  split; [tauto|]. intros H. split; [|done]. unfold test in H.
  destruct (d !! i) eqn:E; [|done]. apply lookup_lt_Some in E. lia.
Qed.

Lemma NoDup_filter_bool {X} (p : X → bool) (l : list X) : NoDup l → NoDup (List.filter p l).
Proof.
  induction 1 as [|x l Hx Hnd IH]; simpl; [constructor|].
  destruct (p x); [|done]. constructor; [|done].
  rewrite list_elem_of_In, filter_In, <-list_elem_of_In. tauto.
Qed.

Lemma NoDup_querySelectorAll d p : NoDup (querySelectorAll d p).
Proof. apply NoDup_filter_bool, NoDup_seq. Qed.

Lemma elem_of_queryTriggers d g i :
  i ∈ queryTriggers d g ↔ ∃ e, d !! i = Some e ∧ isTrigger g e = true.
Proof.
  unfold queryTriggers. rewrite elem_of_querySelectorAll. unfold test.
  destruct (d !! i) as [e|]; naive_solver.
Qed.

Lemma elem_of_queryPanels d g i :
  i ∈ queryPanels d g ↔ ∃ e, d !! i = Some e ∧ isPanel g e = true.
Proof.
  unfold queryPanels. rewrite elem_of_querySelectorAll. unfold test.
  destruct (d !! i) as [e|]; naive_solver.
Qed.

Lemma hasAttribute_true k e : hasAttribute k e = true ↔ is_Some (getAttribute k e).
Proof. unfold hasAttribute. apply bool_decide_eq_true. Qed.

Section Initialisation.

Variable parseInt : string → number.

Lemma initTabsGroup_no_triggers g s :
  queryTriggers (document s) g = [] →
  initTabsGroup parseInt g s =
    console_warn ("[Tabs] No triggers found for group " ++ dquote ++ g ++ dquote)%string s.
Proof. intros H. unfold initTabsGroup. by rewrite H. Qed.

Lemma initTabsGroup_no_panels g s :
  queryTriggers (document s) g ≠ [] → queryPanels (document s) g = [] →
  initTabsGroup parseInt g s =
    console_warn ("[Tabs] No panels found for group " ++ dquote ++ g ++ dquote)%string s.
Proof.
  intros H1 H2. unfold initTabsGroup. rewrite H2.
  by destruct (queryTriggers (document s) g).
Qed.

Lemma initTabsGroup_registers g s firstTrigger rest :
  queryTriggers (document s) g = firstTrigger :: rest →
  queryPanels (document s) g ≠ [] →
  initTabsGroup parseInt g s =
    let group := newGroup parseInt g (document s) firstTrigger in
    with_document (initDocument group (document s)) (register g group s).
Proof.
  intros H1 H2. unfold initTabsGroup, newGroup, initDocument, defaultTabId, wire.
  rewrite H1. destruct (queryPanels (document s) g) as [|p ps] eqn:H3; [done|].
  cbv zeta. simpl.
  destruct (findEl _ _ _) as [dt|]; simpl;
    repeat match goal with
           | |- context [match ?x with _ => _ end] => destruct x
           end; done.
Qed.

Lemma get_register g group s :
  get g (register g group s) = Some (length (heap s), group).
Proof.
  unfold get, register. simpl. rewrite lookup_insert_eq. simpl.
  rewrite lookup_app_r by done. by rewrite Nat.sub_diag.
Qed.


End Initialisation.

(** ** What the code never changes *)

#[local] Instance same_static_equiv : Equivalence same_static.
Proof.
  split.
  - by intros e k _.
  - intros e e' H k Hk. symmetry. by apply H.
  - intros e1 e2 e3 H1 H2 k Hk. rewrite H1 by done. by apply H2.
Qed.

#[local] Instance static_eq_equiv : Equivalence static_eq.
Proof. unfold static_eq. apply _. Qed.

Lemma same_static_setAttribute k v e :
  k ∈ dynamic_keys → same_static e (setAttribute k v e).
Proof.
  intros Hk k' Hk'. simpl. rewrite lookup_insert_ne; [done|]. by intros ->.
Qed.

Lemma same_static_add c e : same_static e (classList.add c e).
Proof. intros k _. by rewrite attributes_add. Qed.

Lemma same_static_remove c e : same_static e (classList.remove c e).
Proof. by intros k _. Qed.

Lemma same_static_addEventListener l e : same_static e (addEventListener l e).
Proof. by intros k _. Qed.

Lemma dynamic_aria_selected : "aria-selected" ∈ dynamic_keys.
Proof. set_solver. Qed.

Lemma dynamic_aria_hidden : "aria-hidden" ∈ dynamic_keys.
Proof. set_solver. Qed.

Lemma dynamic_role : "role" ∈ dynamic_keys.
Proof. set_solver. Qed.

Lemma dynamic_tabindex : "tabindex" ∈ dynamic_keys.
Proof. set_solver. Qed.

Create HintDb static.

#[local] Hint Resolve same_static_setAttribute same_static_add same_static_remove
  same_static_addEventListener dynamic_aria_selected dynamic_aria_hidden
  dynamic_role dynamic_tabindex : static.

Ltac static_step :=
  repeat first
    [ reflexivity
    | (etrans; [|apply same_static_setAttribute; auto with static])
    | (etrans; [|apply same_static_add])
    | (etrans; [|apply same_static_remove])
    | (etrans; [|apply same_static_addEventListener]) ].

Lemma same_static_deselect A e : same_static e (deselect A e).
Proof. unfold deselect. static_step. Qed.

Lemma same_static_select A e : same_static e (select A e).
Proof. unfold select. static_step. Qed.

Lemma same_static_hide A e : same_static e (hide A e).
Proof. unfold hide. static_step. Qed.

Lemma same_static_hideClean A e : same_static e (hideClean A e).
Proof. unfold hideClean. static_step. Qed.

Lemma same_static_show A e : same_static e (show A e).
Proof. unfold show. static_step. Qed.

Lemma same_static_wireTrigger g e : same_static e (wireTrigger g e).
Proof.
  unfold wireTrigger. cbv zeta.
  match goal with |- context [if ?b then _ else _] => destruct b end; static_step.
Qed.

#[local] Hint Resolve same_static_deselect same_static_select same_static_hide
  same_static_hideClean same_static_show same_static_wireTrigger : static.

Lemma static_eq_alter f i d :
  (∀ e, same_static e (f e)) → static_eq d (alter f i d).
Proof.
  intros Hf. unfold static_eq. apply Forall2_lookup. intros j.
  destruct (decide (i = j)) as [->|Hne].
  - rewrite list_lookup_alter_eq. destruct (d !! j); simpl; constructor. apply Hf.
  - rewrite list_lookup_alter_ne by done. destruct (d !! j); by constructor.
Qed.

Lemma static_eq_forEach l f d :
  (∀ i e, same_static e (f i e)) → static_eq d (forEach l f d).
Proof.
  intros Hf. revert d. induction l as [|i l IH]; intros d; [done|].
  rewrite forEach_cons. etrans; [|apply IH]. by apply static_eq_alter.
Qed.

Lemma static_eq_length d d' : static_eq d d' → length d = length d'.
Proof. apply Forall2_length. Qed.

Lemma static_eq_lookup d d' i e :
  static_eq d d' → d !! i = Some e → ∃ e', d' !! i = Some e' ∧ same_static e e'.
Proof. intros H He. by eapply Forall2_lookup_l in H. Qed.

Lemma static_eq_test d d' p i : static_eq d d' → static_pred p → test d p i = test d' p i.
Proof.
  intros H Hp. unfold test. destruct (d !! i) as [e|] eqn:He.
  - destruct (static_eq_lookup _ _ _ _ H He) as (e' & -> & Hs). by apply Hp.
  - apply lookup_ge_None in He. rewrite (static_eq_length _ _ H) in He.
    apply lookup_ge_None in He. by rewrite He.
Qed.

Lemma static_eq_filterEl d d' p l :
  static_eq d d' → static_pred p → filterEl d p l = filterEl d' p l.
Proof.
  intros H Hp. unfold filterEl. apply List.filter_ext. intros i.
  by apply static_eq_test.
Qed.

Lemma find_ext {X} (f g : X → bool) l : (∀ x, f x = g x) → List.find f l = List.find g l.
Proof. intros H. induction l as [|x l IH]; simpl; [done|]. by rewrite H, IH. Qed.

Lemma static_eq_findEl d d' p l :
  static_eq d d' → static_pred p → findEl d p l = findEl d' p l.
Proof.
  intros H Hp. unfold findEl. apply find_ext. intros i. by apply static_eq_test.
Qed.

Lemma static_eq_querySelectorAll d d' p :
  static_eq d d' → static_pred p → querySelectorAll d p = querySelectorAll d' p.
Proof.
  intros H Hp. unfold querySelectorAll. rewrite <-(static_eq_length _ _ H).
  apply List.filter_ext. intros i. by apply static_eq_test.
Qed.

Lemma static_key_ne k : k ∉ dynamic_keys → ∀ k', k' ∈ dynamic_keys → k' ≠ k.
Proof. intros Hk k' Hk' ->. done. Qed.

Lemma static_pred_attribute_is k v : k ∉ dynamic_keys → static_pred (attribute_is k v).
Proof.
  intros Hk e e' H. unfold attribute_is, getAttribute. by rewrite (H k Hk).
Qed.

Lemma static_pred_hasAttribute k : k ∉ dynamic_keys → static_pred (hasAttribute k).
Proof.
  intros Hk e e' H. unfold hasAttribute. by rewrite (H k Hk).
Qed.

Ltac not_dynamic :=
  let H := fresh in
  intros H; repeat (apply elem_of_cons in H as [H|H]; [discriminate H|]);
  by apply elem_of_nil in H.

Lemma static_group : ATTR.group ∉ dynamic_keys.
Proof. not_dynamic. Qed.

Lemma static_trigger : ATTR.trigger ∉ dynamic_keys.
Proof. not_dynamic. Qed.

Lemma static_content : ATTR.content ∉ dynamic_keys.
Proof. not_dynamic. Qed.

Lemma static_default : ATTR.default ∉ dynamic_keys.
Proof. not_dynamic. Qed.

Lemma static_activeClass : ATTR.activeClass ∉ dynamic_keys.
Proof. not_dynamic. Qed.

#[local] Hint Resolve static_group static_trigger static_content static_default
  static_activeClass static_pred_attribute_is static_pred_hasAttribute : static.

Lemma static_pred_isTrigger g : static_pred (isTrigger g).
Proof.
  intros e e' H. unfold isTrigger.
  rewrite (static_pred_attribute_is _ _ static_group e e' H).
  by rewrite (static_pred_hasAttribute _ static_trigger e e' H).
Qed.

Lemma static_pred_isPanel g : static_pred (isPanel g).
Proof.
  intros e e' H. unfold isPanel.
  rewrite (static_pred_attribute_is _ _ static_group e e' H).
  by rewrite (static_pred_hasAttribute _ static_content e e' H).
Qed.

#[local] Hint Resolve static_pred_isTrigger static_pred_isPanel : static.

Lemma static_eq_queryTriggers d d' g :
  static_eq d d' → queryTriggers d g = queryTriggers d' g.
Proof. intros. apply static_eq_querySelectorAll; [done|apply static_pred_isTrigger]. Qed.

Lemma static_eq_queryPanels d d' g :
  static_eq d d' → queryPanels d g = queryPanels d' g.
Proof. intros. apply static_eq_querySelectorAll; [done|apply static_pred_isPanel]. Qed.

Lemma static_eq_getAttributeAt d d' k i :
  static_eq d d' → k ∉ dynamic_keys → getAttributeAt d k i = getAttributeAt d' k i.
Proof.
  intros H Hk. unfold getAttributeAt. destruct (d !! i) as [e|] eqn:He.
  - destruct (static_eq_lookup _ _ _ _ H He) as (e' & -> & Hs). simpl. by apply Hs.
  - apply lookup_ge_None in He. rewrite (static_eq_length _ _ H) in He.
    apply lookup_ge_None in He. by rewrite He.
Qed.

Lemma static_eq_defaultTabId d d' l :
  static_eq d d' → defaultTabId d l = defaultTabId d' l.
Proof.
  intros H. unfold defaultTabId.
  rewrite (static_eq_findEl d d') by auto with static.
  destruct (findEl d' _ l); [by apply static_eq_getAttributeAt; auto with static|].
  destruct (head l); simpl; [|done]. apply static_eq_getAttributeAt; auto with static.
Qed.

(** Every page transformation of the module keeps the static part. *)
Lemma static_eq_wire g ts ps d : static_eq d (wire g ts ps d).
Proof.
  unfold wire. etrans; [|apply static_eq_forEach]; [apply static_eq_forEach|];
    intros; auto with static.
Qed.

Lemma static_eq_activateTabInstant group tabId d :
  static_eq d (activateTabInstant group tabId d).
Proof.
  rewrite activateTabInstant_eq. cbv zeta.
  repeat (etrans; [|apply static_eq_forEach; intros; auto with static]).
  reflexivity.
Qed.

Lemma static_eq_updateTriggers group tabId d :
  static_eq d (updateTriggers group tabId d).
Proof.
  unfold updateTriggers. cbv zeta.
  repeat (etrans; [|apply static_eq_forEach; intros; auto with static]).
  reflexivity.
Qed.

Lemma static_eq_switchPanels group next d :
  static_eq d (switchPanels group next d).
Proof.
  unfold switchPanels.
  repeat (etrans; [|apply static_eq_forEach; intros; auto with static]).
  reflexivity.
Qed.

(** ** What initialisation guarantees *)

Lemma same_static_instant_el group tabId i e :
  same_static e (instant_el group tabId i e).
Proof.
  unfold instant_el, instant_set, instant_reset. cbv zeta.
  repeat match goal with
         | |- context [if ?b then _ else _] => destruct b
         end;
    repeat first [ reflexivity
                 | (etrans; [|apply same_static_show])
                 | (etrans; [|apply same_static_select])
                 | (etrans; [|apply same_static_hideClean])
                 | (etrans; [|apply same_static_deselect]) ].
Qed.

Lemma instant_el_trigger group tabId i e1 :
  i ∈ triggers group → i ∉ panels group →
  let e := instant_el group tabId i e1 in
  (activeClass group ∈ classList e ↔ getAttribute ATTR.trigger e = Some tabId) ∧
  getAttribute "aria-selected" e
    = Some (if attribute_is ATTR.trigger tabId e then "true" else "false").
Proof.
  intros Hi Hn e.
  assert (attribute_is ATTR.trigger tabId e = attribute_is ATTR.trigger tabId e1) as Hs.
  { symmetry. apply static_pred_attribute_is; [apply static_trigger|].
    apply same_static_instant_el. }
  rewrite <-attribute_is_true, Hs. subst e.
  unfold instant_el, instant_set, instant_reset.
  apply includes_true in Hi. apply includes_false in Hn. rewrite Hi, Hn. simpl.
  rewrite attribute_is_deselect by done.
  destruct (attribute_is ATTR.trigger tabId e1); simpl.
  - split; [|apply getAttribute_select_eq]. el_simpl. rewrite elem_of_ad. naive_solver.
  - split; [|apply getAttribute_deselect_eq]. el_simpl. rewrite elem_of_rm. naive_solver.
Qed.

Lemma attribute_is_hideClean k v A e :
  k ≠ "aria-hidden" → attribute_is k v (hideClean A e) = attribute_is k v e.
Proof. intros. unfold attribute_is. by rewrite getAttribute_hideClean. Qed.

Lemma instant_el_panel group tabId i e1 :
  i ∈ panels group → i ∉ triggers group →
  let e := instant_el group tabId i e1 in
  (activeClass group ∈ classList e ↔ getAttribute ATTR.content e = Some tabId) ∧
  getAttribute "aria-hidden" e
    = Some (if attribute_is ATTR.content tabId e then "false" else "true").
Proof.
  intros Hi Hn e.
  assert (attribute_is ATTR.content tabId e = attribute_is ATTR.content tabId e1) as Hs.
  { symmetry. apply static_pred_attribute_is; [apply static_content|].
    apply same_static_instant_el. }
  rewrite <-attribute_is_true, Hs. subst e.
  unfold instant_el, instant_set, instant_reset.
  apply includes_true in Hi. apply includes_false in Hn. rewrite Hi, Hn. simpl.
  rewrite attribute_is_hideClean by done.
  destruct (attribute_is ATTR.content tabId e1); simpl.
  - split; [|apply getAttribute_show_eq]. el_simpl. rewrite elem_of_ad. naive_solver.
  - split; [|apply getAttribute_hideClean_eq]. el_simpl. rewrite !elem_of_rm. naive_solver.
Qed.

Lemma defaultTabId_trigger d l tabId :
  defaultTabId d l = Some tabId →
  ∃ j, j ∈ l ∧ getAttributeAt d ATTR.trigger j = Some tabId.
Proof.
  unfold defaultTabId. destruct (findEl d _ l) as [j|] eqn:Hf.
  - intros H. exists j. split; [|done]. by apply findEl_Some in Hf as [? _].
  - destruct l as [|j l]; simpl; [done|]. intros H. exists j. split; [|done].
    apply elem_of_cons; by left.
Qed.

Section PublicAPI.

Variable parseInt : string → number.

Lemma document_initTabsGroup g s firstTrigger rest tabId :
  queryTriggers (document s) g = firstTrigger :: rest →
  queryPanels (document s) g ≠ [] →
  defaultTabId (document s) (queryTriggers (document s) g) = Some tabId →
  tabId ≠ "" →
  document (initTabsGroup parseInt g s) =
    activateTabInstant (newGroup parseInt g (document s) firstTrigger) tabId
      (wire g (queryTriggers (document s) g) (queryPanels (document s) g) (document s)).
Proof.
  intros Ht Hp Hd Hne. rewrite (initTabsGroup_registers _ _ _ _ _ Ht Hp).
  cbv zeta. rewrite document_with_document. unfold initDocument. simpl.
  rewrite <-(static_eq_defaultTabId (document s)) by apply static_eq_wire.
  rewrite Hd. by rewrite (proj2 (truthy_true tabId) Hne).
Qed.

(** When every DOM call succeeds: if [initTabsGroup] finds triggers and
    panels, the default tab identifier is not the empty string, and no
    trigger of the group is also one of its panels, then afterwards the
    group is registered and the default tab is the one active tab among the
    elements the group object lists. *)
Theorem initTabsGroup_activates_default_total (groupName : string) (s : State)
    (tabId : string) :
  queryTriggers (document s) groupName ≠ [] →
  queryPanels (document s) groupName ≠ [] →
  defaultTabId (document s) (queryTriggers (document s) groupName) = Some tabId →
  tabId ≠ "" →
  (∀ i, i ∈ queryTriggers (document s) groupName →
        i ∉ queryPanels (document s) groupName) →
  init_guarantee_listed (document s) groupName (initTabsGroup parseInt groupName s).
Proof.
  intros Ht Hp Hd Hne Hdisj.
  destruct (queryTriggers (document s) groupName) as [|t0 rest] eqn:Hq; [done|].
  rewrite <-Hq in Hd, Hdisj.
  pose proof (document_initTabsGroup _ _ _ _ _ Hq Hp Hd Hne) as Hdoc.
  set (group := newGroup parseInt groupName (document s) t0) in *.
  set (d1 := wire _ _ _ _) in Hdoc.
  assert (static_eq (document s) (document (initTabsGroup parseInt groupName s))) as Hst.
  { rewrite Hdoc. etrans; [apply static_eq_wire|apply static_eq_activateTabInstant]. }
  exists (length (heap s)), group, tabId. split; [|split; [|split; [|split]]].
  - rewrite (initTabsGroup_registers _ _ _ _ _ Hq Hp). apply get_register.
  - exact Hd.
  - destruct (defaultTabId_trigger _ _ _ Hd) as (j & Hj & Hattr).
    rewrite (static_eq_getAttributeAt _ _ _ _ Hst static_trigger) in Hattr.
    unfold getAttributeAt in Hattr.
    destruct (document (initTabsGroup parseInt groupName s) !! j) as [e|] eqn:He; [|done].
    exists j, e. done.
  - intros i e Hi He. rewrite Hdoc, activateTabInstant_lookup in He.
    apply fmap_Some in He as (e1 & _ & ->).
    apply instant_el_trigger; [done|]. by apply Hdisj.
  - intros i e Hi He. rewrite Hdoc, activateTabInstant_lookup in He.
    apply fmap_Some in He as (e1 & _ & ->).
    apply instant_el_panel; [done|]. intros Hc. by apply (Hdisj i).
Qed.

End PublicAPI.

(** ** The transition executor, step by step *)

Lemma runCallback_PhaseTwo a ps A cur next s :
  runCallback (PhaseTwo a ps A cur next) s =
    setTimeout (Unlock a) (with_document (phaseTwo ps A cur next (document s)) s).
Proof. reflexivity. Qed.

Lemma enter_idem e :
  setAttribute "aria-hidden" "false"
    (classList.add ANIM_CLASS.entering
       (setAttribute "aria-hidden" "false" (classList.add ANIM_CLASS.entering e)))
  = setAttribute "aria-hidden" "false" (classList.add ANIM_CLASS.entering e).
Proof. el_eq. apply ad_idem. Qed.

Lemma rm_ad_ad_rm A E l : rm E (ad A (rm E (ad A l))) = rm E (ad A l).
Proof.
  destruct (decide (A = E)) as [->|Hne].
  - by rewrite !rm_ad_same, rm_idem.
  - assert (A ∈ rm E (ad A l)) as Hin.
    { rewrite elem_of_rm, elem_of_ad. auto. }
    by rewrite (ad_in _ _ Hin), rm_idem.
Qed.

Lemma activate_idem A e :
  classList.remove ANIM_CLASS.entering
    (classList.add A (classList.remove ANIM_CLASS.entering (classList.add A e)))
  = classList.remove ANIM_CLASS.entering (classList.add A e).
Proof. el_eq. apply rm_ad_ad_rm. Qed.

Lemma phaseTwo_lookup ps A cur next d i :
  phaseTwo ps A cur next d !! i = phaseTwo_el ps A cur next i <$> d !! i.
Proof.
  unfold phaseTwo. cbv zeta.
  set (d1 := alter _ cur d).
  set (f2 := λ (i : nat) (panel : HTMLElement),
               if includes next i then panel else hideClean A panel).
  set (d2 := forEach ps f2 d1).
  set (f3 := λ (_ : nat) (panel : HTMLElement),
               setAttribute "aria-hidden" "false"
                 (classList.add ANIM_CLASS.entering panel)).
  set (d3 := forEach next f3 d2).
  set (f4 := λ (_ : nat) (panel : HTMLElement),
               classList.remove ANIM_CLASS.entering (classList.add A panel)).
  destruct (d !! i) as [e|] eqn:He; simpl.
  - assert (∃ e1, d1 !! i = Some e1 ∧
              e1 = if decide (cur = i)
                   then setAttribute "aria-hidden" "true"
                          (classList.remove ANIM_CLASS.leaving e)
                   else e) as (e1 & H1 & E1).
    { eexists. split; [|done]. unfold d1. destruct (decide (cur = i)) as [->|Hne].
      - by rewrite list_lookup_alter_eq, He.
      - by rewrite list_lookup_alter_ne. }
    assert (∀ x, f2 i (f2 i x) = f2 i x) as Hf2.
    { intros x. unfold f2. destruct (includes next i); [done|apply hideClean_idem]. }
    pose proof (forEach_lookup_Some ps f2 d1 i e1 Hf2 H1) as H2. fold d2 in H2.
    pose proof (forEach_lookup_Some next f3 d2 i _ (λ x, enter_idem x) H2) as H3.
    fold d3 in H3.
    rewrite (forEach_lookup_Some next f4 d3 i _ (λ x, activate_idem A x) H3).
    f_equal. unfold phaseTwo_el, f2, f3, f4. cbv zeta. rewrite <-E1.
    by destruct (includes ps i), (includes next i).
  - repeat (apply forEach_lookup_None). unfold d1.
    destruct (decide (cur = i)) as [->|Hne].
    + by rewrite list_lookup_alter_eq, He.
    + by rewrite list_lookup_alter_ne.
Qed.

Lemma static_eq_phaseTwo ps A cur next d : static_eq d (phaseTwo ps A cur next d).
Proof.
  unfold phaseTwo. cbv zeta.
  do 3 (etrans; [|apply static_eq_forEach; intros i e;
                   try destruct (includes next i); static_step;
                   auto with static]).
  apply static_eq_alter. intros e. static_step.
Qed.

(** ** The protocol invariant *)

Lemma isTrigger_true g e :
  isTrigger g e = true ↔
  getAttribute ATTR.group e = Some g ∧ is_Some (getAttribute ATTR.trigger e).
Proof.
  unfold isTrigger. by rewrite andb_true_iff, attribute_is_true, hasAttribute_true.
Qed.

Lemma isPanel_true g e :
  isPanel g e = true ↔
  getAttribute ATTR.group e = Some g ∧ is_Some (getAttribute ATTR.content e).
Proof.
  unfold isPanel. by rewrite andb_true_iff, attribute_is_true, hasAttribute_true.
Qed.

Lemma members_group d0 g i :
  members d0 g i → ∃ e, d0 !! i = Some e ∧ getAttribute ATTR.group e = Some g.
Proof.
  intros [H|H].
  - apply elem_of_queryTriggers in H as (e & He & Ht). exists e.
    apply isTrigger_true in Ht. tauto.
  - apply elem_of_queryPanels in H as (e & He & Ht). exists e.
    apply isPanel_true in Ht. tauto.
Qed.

Lemma members_disjoint d0 g g' i : members d0 g i → members d0 g' i → g = g'.
Proof.
  intros (e & He & Hg)%members_group (e' & He' & Hg')%members_group. congruence.
Qed.

Lemma roles_disjoint d0 g g' i :
  wf_page d0 → i ∈ queryTriggers d0 g → i ∉ queryPanels d0 g'.
Proof.
  intros Hwf (e & He & Ht)%elem_of_queryTriggers (e' & He' & Hp)%elem_of_queryPanels.
  assert (e' = e) as -> by congruence.
  apply isTrigger_true in Ht. apply isPanel_true in Hp.
  apply (wf_roles _ Hwf e); [by eapply list_elem_of_lookup_2|]. tauto.
Qed.

Lemma settled_frame d d' group c :
  (∀ i, i ∈ triggers group ∨ i ∈ panels group → d' !! i = d !! i) →
  settled d group c → settled d' group c.
Proof.
  intros Hfr [Ht Hp]. split.
  - intros i e Hi He. rewrite Hfr in He by auto. by apply (Ht i).
  - intros i e Hi He. rewrite Hfr in He by auto. by apply (Hp i).
Qed.

Lemma triggers_settled_frame d d' group c :
  (∀ i, i ∈ triggers group → d' !! i = d !! i) →
  triggers_settled d group c → triggers_settled d' group c.
Proof.
  intros Hfr Ht i e Hi He. rewrite Hfr in He by auto. by apply (Ht i).
Qed.

Lemma phase_ok_frame d0 d d' ts ts' a group :
  (∀ i, i ∈ triggers group ∨ i ∈ panels group → d' !! i = d !! i) →
  pending a ts' = pending a ts →
  phase_ok d0 d ts a group → phase_ok d0 d' ts' a group.
Proof.
  intros Hfr Hpen. unfold phase_ok. rewrite Hpen.
  destruct (pending a ts) as [|[a1 ps A cur next|a1] [|cb2 rest]]; try done.
  - intros [Hidle [c Hc]]. split; [done|]. exists c. by eapply settled_frame.
  - intros (Han & Hps & HA & Hcur & c & Hnext & Hc). repeat (split; [done|]).
    exists c. split; [done|]. eapply triggers_settled_frame; [|done]. auto.
  - intros [Hidle [c Hc]]. split; [done|]. exists c. by eapply settled_frame.
Qed.

Lemma Inv_update d0 s s' g a group' :
  Inv d0 s →
  tabsGroups s !! g = Some a →
  tabsGroups s' = tabsGroups s →
  heap s' !! a = Some group' →
  (∀ a', a' ≠ a → heap s' !! a' = heap s !! a') →
  group_ok d0 g group' →
  static_eq (document s) (document s') →
  (∀ i, ¬ members d0 g i → document s' !! i = document s !! i) →
  (∀ a', a' ≠ a → pending a' (timers s') = pending a' (timers s)) →
  (∀ cb, cb ∈ timers s' → cb ∈ timers s ∨ cb_group cb = a) →
  phase_ok d0 (document s') (timers s') a group' →
  Inv d0 s'.
Proof.
  intros [Hst Hgr Htm] Hg Hreg Hheap Hheap' Hok Hst' Hfr Hpen Hcb Hph.
  destruct (Hgr g a Hg) as (group & Hgroup & (Hname & _) & _).
  split.
  - by etrans.
  - intros g1 a1 Hg1. rewrite Hreg in Hg1.
    destruct (Hgr g1 a1 Hg1) as (group1 & Hgroup1 & Hok1 & Hph1).
    destruct (decide (a1 = a)) as [->|Hne].
    + assert (g1 = g) as -> by (destruct Hok1 as [? _]; congruence).
      by exists group'.
    + exists group1. rewrite Hheap' by done. split; [done|]. split; [done|].
      apply (phase_ok_frame d0 (document s) _ (timers s)); [|by apply Hpen|done].
      intros i Hi. apply Hfr. intros Hm.
      assert (members d0 g1 i) as Hm1.
      { destruct Hok1 as (_ & Ht1 & Hp1 & _). unfold members.
        rewrite <-Ht1, <-Hp1. done. }
      assert (g1 = g) by (by eapply members_disjoint). congruence.
  - intros cb Hin. rewrite Hreg. destruct (Hcb cb Hin) as [Hold| ->].
    + by apply Htm.
    + by exists g.
Qed.

Lemma Inv_console d0 s c : Inv d0 s → Inv d0 (mkState (document s) (heap s) (tabsGroups s) (timers s) c).
Proof. intros [H1 H2 H3]. by split. Qed.

Lemma pending_app a l l' : pending a (l ++ l') = pending a l ++ pending a l'.
Proof. apply List.filter_app. Qed.

Lemma pending_cons_eq a cb l : cb_group cb = a → pending a (cb :: l) = cb :: pending a l.
Proof. intros <-. unfold pending. simpl. by rewrite Nat.eqb_refl. Qed.

Lemma pending_cons_ne a cb l : cb_group cb ≠ a → pending a (cb :: l) = pending a l.
Proof.
  intros H. unfold pending. simpl. by rewrite (proj2 (Nat.eqb_neq _ _) H).
Qed.

Lemma pending_snoc_eq a cb l : cb_group cb = a → pending a (l ++ [cb]) = pending a l ++ [cb].
Proof. intros H. by rewrite pending_app, (pending_cons_eq _ _ _ H). Qed.

Lemma pending_snoc_ne a cb l : cb_group cb ≠ a → pending a (l ++ [cb]) = pending a l.
Proof.
  intros H. by rewrite pending_app, (pending_cons_ne _ _ _ H), app_nil_r.
Qed.

Lemma lookup_delete_split {X} (l : list X) k x :
  l !! k = Some x → ∃ l1 l2, l = l1 ++ x :: l2 ∧ delete k l = l1 ++ l2.
Proof.
  intros H. exists (take k l), (drop (S k) l). split.
  - by rewrite take_drop_middle.
  - apply delete_take_drop.
Qed.

Lemma phase_idle d0 d ts a group :
  phase_ok d0 d ts a group → isAnimating group = false →
  pending a ts = [] ∧ ∃ c, settled d group c.
Proof.
  unfold phase_ok. intros H Hidle.
  destruct (pending a ts) as [|[a1 ps A cur next|a1] [|cb2 rest]]; try done.
  - by destruct H.
  - destruct H as [H _]. congruence.
  - destruct H as [H _]. congruence.
Qed.

Lemma updateTriggers_el_settled group tabId i e :
  i ∈ triggers group →
  let e' := updateTriggers_el group tabId i e in
  activeClass group ∈ classList e' ↔ getAttribute ATTR.trigger e' = Some tabId.
Proof.
  intros Hi e'. subst e'. unfold updateTriggers_el.
  apply includes_true in Hi. rewrite Hi.
  destruct (attribute_is ATTR.trigger tabId e) eqn:Hm.
  - apply attribute_is_true in Hm.
    rewrite getAttribute_select, getAttribute_deselect by done.
    el_simpl. rewrite elem_of_ad. naive_solver.
  - apply attribute_is_false in Hm. rewrite getAttribute_deselect by done.
    el_simpl. rewrite elem_of_rm. naive_solver.
Qed.

Lemma switchPanels_el_settled group next tabId i e :
  i ∈ panels group →
  includes next i = attribute_is ATTR.content tabId e →
  let e' := switchPanels_el group next i e in
  activeClass group ∈ classList e' ↔ getAttribute ATTR.content e' = Some tabId.
Proof.
  intros Hi Hnext e'. subst e'. unfold switchPanels_el.
  apply includes_true in Hi. rewrite Hi, Hnext. simpl.
  destruct (attribute_is ATTR.content tabId e) eqn:Hm.
  - apply attribute_is_true in Hm.
    rewrite getAttribute_show, getAttribute_hide by done.
    el_simpl. rewrite elem_of_ad. naive_solver.
  - apply attribute_is_false in Hm. rewrite getAttribute_hide by done.
    el_simpl. rewrite elem_of_rm. naive_solver.
Qed.

Lemma includes_nextPanelsOf group tabId d i e :
  d !! i = Some e →
  includes (nextPanelsOf group tabId d) i =
    includes (panels group) i && attribute_is ATTR.content tabId e.
Proof.
  intros He. unfold nextPanelsOf. by rewrite includes_filterEl, (test_lookup _ _ _ _ He).
Qed.

Lemma nextPanelsOf_subset group tabId d i :
  i ∈ nextPanelsOf group tabId d → i ∈ panels group.
Proof. by intros [? _]%elem_of_filterEl. Qed.

Lemma nextPanelsOf_static group tabId d d' :
  static_eq d d' → nextPanelsOf group tabId d = nextPanelsOf group tabId d'.
Proof.
  intros H. apply static_eq_filterEl; [done|].
  apply static_pred_attribute_is, static_content.
Qed.

(** Instant switch: afterwards the group is settled on the target. *)
Lemma instant_switch_settled d0 g group tabId d :
  wf_page d0 → group_ok d0 g group →
  settled (switchPanels group (nextPanelsOf group tabId d)
             (updateTriggers group tabId d)) group tabId.
Proof.
  intros Hwf (_ & Ht & Hp & _). split.
  - intros i e' Hi He'.
    rewrite switchPanels_lookup, updateTriggers_lookup in He'.
    destruct (d !! i) as [e|] eqn:He; [|done]. simpl in He'. injection He' as <-.
    assert (i ∉ panels group) as Hnp.
    { rewrite Hp. apply (roles_disjoint d0 g); [done|]. by rewrite <-Ht. }
    assert (i ∉ nextPanelsOf group tabId d) as Hnn.
    { intros H. by apply nextPanelsOf_subset in H. }
    unfold switchPanels_el. apply includes_false in Hnp, Hnn. rewrite Hnp, Hnn.
    simpl. by apply updateTriggers_el_settled.
  - intros i e' Hi He'.
    rewrite switchPanels_lookup, updateTriggers_lookup in He'.
    destruct (d !! i) as [e|] eqn:He; [|done]. simpl in He'. injection He' as <-.
    assert (i ∉ triggers group) as Hnt.
    { intros H. rewrite Ht in H. apply (roles_disjoint d0 g g) in H; [|done].
      by rewrite <-Hp in H. }
    unfold updateTriggers_el. apply includes_false in Hnt. rewrite Hnt.
    apply switchPanels_el_settled; [done|].
    rewrite (includes_nextPanelsOf _ _ _ _ _ He).
    apply includes_true in Hi. by rewrite Hi.
Qed.

Lemma updateTriggers_frame group tabId d i :
  i ∉ triggers group → updateTriggers group tabId d !! i = d !! i.
Proof.
  intros H. rewrite updateTriggers_lookup. unfold updateTriggers_el.
  apply includes_false in H. rewrite H. by destruct (d !! i).
Qed.

Lemma switchPanels_frame group next d i :
  i ∉ panels group → i ∉ next → switchPanels group next d !! i = d !! i.
Proof.
  intros H1 H2. rewrite switchPanels_lookup. unfold switchPanels_el.
  apply includes_false in H1, H2. rewrite H1, H2. by destruct (d !! i).
Qed.

Lemma not_members d0 g group i :
  group_ok d0 g group → ¬ members d0 g i →
  (i ∉ triggers group) ∧ (i ∉ panels group).
Proof.
  intros (_ & Ht & Hp & _) H. rewrite Ht, Hp. unfold members in H. tauto.
Qed.

Lemma group_ok_with_isAnimating d0 g group b :
  group_ok d0 g group → group_ok d0 g (with_isAnimating b group).
Proof. done. Qed.

Lemma activateTab_Inv d0 g tabId s :
  wf_page d0 → Inv d0 s → Inv d0 (activateTab g tabId s).
Proof.
  intros Hwf HI. rewrite activateTab_eq.
  destruct (get g s) as [[a group]|] eqn:Hget; [|by apply Inv_console].
  apply get_Some in Hget as [Hreg Hheap].
  destruct (inv_groups _ _ HI g a Hreg) as (group1 & Hheap1 & Hok & Hph).
  assert (group1 = group) as -> by congruence. clear Hheap1.
  destruct (isAnimating group) eqn:Hidle; [done|].
  destruct (sameTab group tabId (document s)) eqn:Hsame; [done|].
  destruct (phase_idle _ _ _ _ _ Hph Hidle) as [Hpen [c Hc]].
  pose proof (inv_static _ _ HI) as Hst.
  cbv zeta.
  destruct (animate group) eqn:Han;
    [destruct (currentPanelOf group (document s)) as [p|] eqn:Hcur|].
  - (* animated transition starts *)
    apply currentPanelOf_Some in Hcur as [Hp _].
    assert (∀ i, i ∈ triggers group → i ≠ p) as Hnp.
    { intros i Hi ->. destruct Hok as (_ & Ht & Hpp & _).
      rewrite Ht in Hi. apply (roles_disjoint d0 g g) in Hi; [|done].
      by rewrite <-Hpp in Hi. }
    apply (Inv_update d0 s _ g a (with_isAnimating true group)); try done.
    + simpl. by rewrite list_lookup_alter_eq, Hheap.
    + intros a' Hne. simpl. by rewrite list_lookup_alter_ne.
    + simpl. etrans; [apply static_eq_updateTriggers|].
      apply static_eq_alter. intros e. static_step.
    + intros i Hi. simpl. destruct (not_members _ _ _ _ Hok Hi) as [Hnt Hnpn].
      rewrite list_lookup_alter_ne; [by apply updateTriggers_frame|].
      by intros <-.
    + intros a' Hne. simpl. by apply pending_snoc_ne.
    + intros cb. simpl. rewrite elem_of_app, list_elem_of_singleton.
      intros [?| ->]; auto.
    + unfold phase_ok. simpl. rewrite pending_snoc_eq, Hpen by done. simpl.
      repeat (split; [done|]). exists tabId. split.
      * symmetry. exact (nextPanelsOf_static group tabId d0 (document s) Hst).
      * intros i e Hi. cbn [activeClass triggers panels with_isAnimating] in *.
        rewrite list_lookup_alter_ne by (by apply not_eq_sym, Hnp).
        rewrite updateTriggers_lookup. intros (e1 & _ & ->)%fmap_Some.
        by apply updateTriggers_el_settled.
  - (* animation on, nothing active yet: instant switch *)
    apply (Inv_update d0 s _ g a group); try done; try (by intros; left).
    + simpl. etrans; [apply static_eq_updateTriggers|apply static_eq_switchPanels].
    + intros i Hi. simpl. destruct (not_members _ _ _ _ Hok Hi) as [Hnt Hnpn].
      rewrite switchPanels_frame, updateTriggers_frame; try done.
      intros H. by apply nextPanelsOf_subset in H.
    + unfold phase_ok. cbn [timers document with_document]. rewrite Hpen.
      split; [done|]. exists tabId. by eapply instant_switch_settled.
  - (* animation off: instant switch *)
    assert (Inv d0 (with_document
                      (switchPanels group (nextPanelsOf group tabId (document s))
                         (updateTriggers group tabId (document s))) s)) as HI'.
    { apply (Inv_update d0 s _ g a group); try done; try (by intros; left).
      + simpl. etrans; [apply static_eq_updateTriggers|apply static_eq_switchPanels].
      + intros i Hi. simpl. destruct (not_members _ _ _ _ Hok Hi) as [Hnt Hnpn].
        rewrite switchPanels_frame, updateTriggers_frame; try done.
        intros H. by apply nextPanelsOf_subset in H.
      + unfold phase_ok. cbn [timers document with_document]. rewrite Hpen.
        split; [done|]. exists tabId. by eapply instant_switch_settled. }
    by destruct (currentPanelOf group (document s)).
Qed.

Lemma same_static_phaseTwo_el ps A cur next i e :
  same_static e (phaseTwo_el ps A cur next i e).
Proof.
  unfold phaseTwo_el. cbv zeta.
  repeat match goal with
         | |- context [if ?b then _ else _] => destruct b
         end;
    repeat first [ reflexivity
                 | (etrans; [|apply same_static_hideClean])
                 | (etrans; [|apply same_static_remove])
                 | (etrans; [|apply same_static_add])
                 | (etrans; [|apply same_static_setAttribute; auto with static]) ].
Qed.

Lemma phaseTwo_el_panel ps A cur next i e :
  A ≠ ANIM_CLASS.entering → includes ps i = true →
  A ∈ classList (phaseTwo_el ps A cur next i e) ↔ includes next i = true.
Proof.
  intros HA Hps. unfold phaseTwo_el. cbv zeta. rewrite Hps.
  destruct (includes next i); simpl.
  - el_simpl. rewrite elem_of_rm, !elem_of_ad. naive_solver.
  - el_simpl. rewrite !elem_of_rm. naive_solver.
Qed.

Lemma phaseTwo_frame ps A cur next d i :
  i ≠ cur → i ∉ ps → i ∉ next → phaseTwo ps A cur next d !! i = d !! i.
Proof.
  intros H1 H2 H3. rewrite phaseTwo_lookup. unfold phaseTwo_el. cbv zeta.
  apply includes_false in H2, H3. rewrite H2, H3.
  destruct (decide (cur = i)); [congruence|]. by destruct (d !! i).
Qed.

Lemma phaseTwo_settled d0 g group cur c d :
  wf_page d0 → group_ok d0 g group → static_eq d0 d →
  cur ∈ panels group →
  triggers_settled d group c →
  settled (phaseTwo (panels group) (activeClass group) cur
             (nextPanelsOf group c d0) d) group c.
Proof.
  intros Hwf Hok Hst Hcur Htrig. pose proof Hok as (_ & Ht & Hp & HA). split.
  - eapply triggers_settled_frame; [|done]. intros i Hi.
    assert (i ∉ panels group) as Hnp.
    { rewrite Hp. apply (roles_disjoint d0 g); [done|]. by rewrite <-Ht. }
    apply phaseTwo_frame; [by intros ->|done|].
    intros H. by apply nextPanelsOf_subset in H.
  - intros i e' Hi He'. rewrite phaseTwo_lookup in He'.
    apply fmap_Some in He' as (e & He & ->).
    rewrite phaseTwo_el_panel by (by try apply includes_true).
    rewrite (nextPanelsOf_static _ _ _ _ Hst), (includes_nextPanelsOf _ _ _ _ _ He).
    apply includes_true in Hi. rewrite Hi. simpl.
    rewrite attribute_is_true. unfold getAttribute.
    by rewrite <-(same_static_phaseTwo_el _ _ _ _ _ _ ATTR.content static_content).
Qed.

Lemma timeout_Inv d0 k s : wf_page d0 → Inv d0 s → Inv d0 (timeout k s).
Proof.
  intros Hwf HI. unfold timeout.
  destruct (timers s !! k) as [cb|] eqn:Hk; [|done].
  destruct (inv_timers _ _ HI cb (list_elem_of_lookup_2 _ _ _ Hk)) as [g Hreg].
  destruct (inv_groups _ _ HI g _ Hreg) as (group & Hheap & Hok & Hph).
  destruct (lookup_delete_split _ _ _ Hk) as (l1 & l2 & Hts & Hdel).
  pose proof (inv_static _ _ HI) as Hst.
  unfold phase_ok in Hph.
  rewrite Hts, pending_app, pending_cons_eq in Hph by done.
  assert (pending (cb_group cb) l1 = [] ∧ pending (cb_group cb) l2 = []) as [Hl1 Hl2].
  { destruct (pending (cb_group cb) l1) as [|[] [|? ?]],
             (pending (cb_group cb) l2) as [|? ?], cb; simpl in Hph; done. }
  rewrite Hl1, Hl2 in Hph. simpl in Hph.
  assert (∀ a', a' ≠ cb_group cb →
            pending a' (delete k (timers s)) = pending a' (timers s)) as Hother.
  { intros a' Hne. rewrite Hdel, Hts, !pending_app.
    by rewrite pending_cons_ne by (by apply not_eq_sym). }
  assert (pending (cb_group cb) (delete k (timers s)) = []) as Hmine.
  { by rewrite Hdel, pending_app, Hl1, Hl2. }
  destruct cb as [a ps A cur next|a]; cbn [cb_group] in *.
  - (* exit phase boundary *)
    destruct Hph as (Han & -> & -> & Hcur & c & -> & Htrig).
    rewrite runCallback_PhaseTwo.
    apply (Inv_update d0 s _ g a group); try done.
    + simpl. apply static_eq_phaseTwo.
    + intros i Hi. simpl. destruct (not_members _ _ _ _ Hok Hi) as [Hnt Hnp].
      apply phaseTwo_frame; [by intros ->|done|].
      intros H. by apply nextPanelsOf_subset in H.
    + intros a' Hne. simpl. rewrite pending_snoc_ne by (by apply not_eq_sym).
      by apply Hother.
    + intros cb. simpl. rewrite elem_of_app, list_elem_of_singleton.
      intros [H%list_elem_of_delete_inv| ->]; auto.
    + unfold phase_ok. cbn [timers document with_document setTimeout with_timers].
      rewrite pending_snoc_eq, Hmine by done. simpl. split; [done|].
      exists c. by eapply phaseTwo_settled.
  - (* enter phase boundary *)
    destruct Hph as (Han & c & Hc). cbn [runCallback].
    apply (Inv_update d0 s _ g a (with_isAnimating false group)); try done.
    + simpl. by rewrite list_lookup_alter_eq, Hheap.
    + intros a' Hne. simpl. by rewrite list_lookup_alter_ne.
    + intros cb. simpl. intros H%list_elem_of_delete_inv. auto.
    + unfold phase_ok. cbn [timers document set_isAnimating with_timers].
      rewrite Hmine. split; [done|]. by exists c.
Qed.

Lemma pending_nil a ts : (∀ cb, cb ∈ ts → cb_group cb ≠ a) → pending a ts = [].
Proof.
  intros H. induction ts as [|cb ts IH]; [done|].
  rewrite pending_cons_ne by (apply H, elem_of_cons; by left).
  apply IH. intros cb' Hcb'. apply H, elem_of_cons. by right.
Qed.

Lemma wire_frame g ts ps d i : i ∉ ts → i ∉ ps → wire g ts ps d !! i = d !! i.
Proof. intros H1 H2. unfold wire. by rewrite !forEach_lookup_notin. Qed.

Lemma activateTabInstant_frame group tabId d i :
  i ∉ triggers group → i ∉ panels group →
  activateTabInstant group tabId d !! i = d !! i.
Proof.
  intros H1 H2. rewrite activateTabInstant_lookup.
  unfold instant_el, instant_set, instant_reset.
  apply includes_false in H1, H2. rewrite H1, H2. by destruct (d !! i).
Qed.

Lemma defaultTabId_is_Some d l :
  l ≠ [] → (∀ j, j ∈ l → is_Some (getAttributeAt d ATTR.trigger j)) →
  ∃ j tabId, j ∈ l ∧ getAttributeAt d ATTR.trigger j = Some tabId ∧
             defaultTabId d l = Some tabId.
Proof.
  intros Hl Hall. unfold defaultTabId.
  destruct (findEl d _ l) as [j|] eqn:Hf.
  - apply findEl_Some in Hf as [Hj _]. destruct (Hall j Hj) as [t Ht]. by exists j, t.
  - destruct l as [|j l]; [done|]. simpl.
    assert (j ∈ j :: l) as Hj by (apply elem_of_cons; by left).
    destruct (Hall j Hj) as [t Ht]. by exists j, t.
Qed.

Lemma queryTriggers_attribute d g j :
  j ∈ queryTriggers d g → is_Some (getAttributeAt d ATTR.trigger j).
Proof.
  intros (e & He & Ht)%elem_of_queryTriggers. unfold getAttributeAt.
  rewrite He. simpl. apply isTrigger_true in Ht. tauto.
Qed.

Lemma getAttributeAt_elem d k i v :
  getAttributeAt d k i = Some v → ∃ e, e ∈ d ∧ getAttribute k e = Some v.
Proof.
  unfold getAttributeAt. destruct (d !! i) as [e|] eqn:He; [|done]. simpl.
  intros H. exists e. split; [|done]. by eapply list_elem_of_lookup_2.
Qed.

Lemma configActiveClass_not_entering d0 d i :
  wf_page d0 → static_eq d0 d → configActiveClass d i ≠ ANIM_CLASS.entering.
Proof.
  intros Hwf Hst. unfold configActiveClass.
  rewrite <-(static_eq_getAttributeAt d0 d) by auto with static.
  destruct (getAttributeAt d0 ATTR.activeClass i) as [c|] eqn:Hc; simpl; [|done].
  destruct (truthy c); [|done]. intros ->.
  apply getAttributeAt_elem in Hc as (e & He & Hattr).
  by apply (wf_class _ Hwf e).
Qed.

(** ** Some trigger stays selected *)

#[local] Instance same_listeners_equiv : Equivalence same_listeners.
Proof.
  unfold same_listeners. split.
  - by intros e.
  - by intros e e' H.
  - intros e1 e2 e3 H1 H2. by rewrite H1.
Qed.

#[local] Instance listeners_eq_equiv : Equivalence listeners_eq.
Proof. unfold listeners_eq. apply _. Qed.

Lemma listeners_eq_alter f i d :
  (∀ e, listeners (f e) = listeners e) → listeners_eq d (alter f i d).
Proof.
  intros Hf. unfold listeners_eq. apply Forall2_lookup. intros j.
  destruct (decide (i = j)) as [->|Hne].
  - rewrite list_lookup_alter_eq. destruct (d !! j); simpl; constructor.
    symmetry. apply Hf.
  - rewrite list_lookup_alter_ne by done. destruct (d !! j); by constructor.
Qed.

Lemma listeners_eq_forEach l f d :
  (∀ i e, listeners (f i e) = listeners e) → listeners_eq d (forEach l f d).
Proof.
  intros Hf. revert d. induction l as [|i l IH]; intros d; [done|].
  rewrite forEach_cons. etrans; [|apply IH]. by apply listeners_eq_alter.
Qed.

Lemma listeners_eq_updateTriggers group tabId d :
  listeners_eq d (updateTriggers group tabId d).
Proof.
  unfold updateTriggers. cbv zeta.
  do 2 (etrans; [|apply listeners_eq_forEach; intros; done]). reflexivity.
Qed.

Lemma listeners_eq_switchPanels group next d :
  listeners_eq d (switchPanels group next d).
Proof.
  unfold switchPanels.
  do 2 (etrans; [|apply listeners_eq_forEach; intros; done]). reflexivity.
Qed.

Lemma listeners_eq_phaseTwo ps A cur next d :
  listeners_eq d (phaseTwo ps A cur next d).
Proof.
  unfold phaseTwo. cbv zeta.
  do 3 (etrans; [|apply listeners_eq_forEach; intros i e;
                   try destruct (includes next i); done]).
  by apply listeners_eq_alter.
Qed.

Lemma listeners_eq_activateTabInstant group tabId d :
  listeners_eq d (activateTabInstant group tabId d).
Proof.
  rewrite activateTabInstant_eq. cbv zeta.
  do 4 (etrans; [|apply listeners_eq_forEach; intros; done]). reflexivity.
Qed.

Lemma listeners_ok_eq d0 d d' :
  listeners_eq d d' → listeners_ok d0 d → listeners_ok d0 d'.
Proof.
  intros Heq Hok i e' g He' Hin.
  eapply Forall2_lookup_r in Heq as (e & He & Hl); [|done].
  apply (Hok i e g He). unfold same_listeners in Hl. by rewrite Hl.
Qed.

Lemma Live_console d0 s c :
  Live d0 s → Live d0 (mkState (document s) (heap s) (tabsGroups s) (timers s) c).
Proof. intros [H1 H2]. by split. Qed.

Lemma carries_frame group d d' i :
  d' !! i = d !! i → carries group d i → carries group d' i.
Proof. intros H. unfold carries. by rewrite H. Qed.

Lemma is_tab_trigger d0 d g group tabId :
  static_eq d0 d → group_ok d0 g group → is_tab d0 g tabId →
  ∃ j e, j ∈ triggers group ∧ d !! j = Some e ∧
         getAttribute ATTR.trigger e = Some tabId.
Proof.
  intros Hst (_ & Ht & _) (j & Hj & Hattr).
  rewrite (static_eq_getAttributeAt d0 d) in Hattr by auto with static.
  unfold getAttributeAt in Hattr. destruct (d !! j) as [e|] eqn:He; [|done].
  exists j, e. by rewrite Ht.
Qed.

Lemma updateTriggers_carries group tabId d j e :
  j ∈ triggers group → d !! j = Some e →
  getAttribute ATTR.trigger e = Some tabId →
  carries group (updateTriggers group tabId d) j.
Proof.
  intros Hj He Hattr. eexists. rewrite updateTriggers_lookup, He. split; [done|].
  apply updateTriggers_el_settled; [done|].
  unfold updateTriggers_el. apply includes_true in Hj. rewrite Hj.
  apply attribute_is_true in Hattr. rewrite Hattr.
  by rewrite getAttribute_select, getAttribute_deselect, <-attribute_is_true.
Qed.

Lemma Live_update d0 s s' g a group group' :
  Inv d0 s → Live d0 s →
  tabsGroups s !! g = Some a → heap s !! a = Some group →
  tabsGroups s' = tabsGroups s →
  heap s' !! a = Some group' →
  triggers group' = triggers group → activeClass group' = activeClass group →
  (∀ a', a' ≠ a → heap s' !! a' = heap s !! a') →
  (∀ i, ¬ members d0 g i → document s' !! i = document s !! i) →
  listeners_eq (document s) (document s') →
  (∃ i, i ∈ triggers group ∧ carries group (document s') i) →
  Live d0 s'.
Proof.
  intros HI [Hls Hgr] Hg Hheap Hreg Hheap' Htr HA Hother Hfr Hleq Hwit. split.
  - by eapply listeners_ok_eq.
  - intros g1 a1 group1 Hg1 Hh1. rewrite Hreg in Hg1.
    destruct (decide (a1 = a)) as [->|Hne].
    + assert (group1 = group') as -> by congruence.
      destruct Hwit as (i & Hi & Hc). exists i. rewrite Htr. split; [done|].
      unfold carries in *. by rewrite HA.
    + rewrite Hother in Hh1 by done.
      destruct (Hgr g1 a1 group1 Hg1 Hh1) as (i & Hi & Hc). exists i.
      split; [done|]. apply (carries_frame _ (document s)); [|done].
      apply Hfr. intros Hm.
      destruct (inv_groups _ _ HI g1 a1 Hg1) as (group1' & Hh1' & Hok1 & _).
      assert (group1' = group1) as -> by congruence.
      assert (members d0 g1 i) as Hm1.
      { destruct Hok1 as (_ & Ht1 & _). left. by rewrite <-Ht1. }
      assert (g1 = g) as -> by (by eapply members_disjoint). congruence.
Qed.

Lemma trigger_not_panel d0 g group i :
  wf_page d0 → group_ok d0 g group → i ∈ triggers group → i ∉ panels group.
Proof.
  intros Hwf (_ & Ht & Hp & _) Hi. rewrite Hp.
  apply (roles_disjoint d0 g); [done|]. by rewrite <-Ht.
Qed.

Lemma activateTab_Live d0 g tabId s :
  wf_page d0 → Inv d0 s → Live d0 s → is_tab d0 g tabId →
  Live d0 (activateTab g tabId s).
Proof.
  intros Hwf HI HL Htab. rewrite activateTab_eq.
  destruct (get g s) as [[a group]|] eqn:Hget; [|by apply Live_console].
  apply get_Some in Hget as [Hreg Hheap].
  destruct (inv_groups _ _ HI g a Hreg) as (group1 & Hheap1 & Hok & Hph).
  assert (group1 = group) as -> by congruence. clear Hheap1.
  destruct (isAnimating group) eqn:Hidle; [done|].
  destruct (sameTab group tabId (document s)) eqn:Hsame; [done|].
  pose proof (inv_static _ _ HI) as Hst.
  destruct (is_tab_trigger _ _ _ _ _ Hst Hok Htab) as (j & e & Hj & He & Hattr).
  pose proof (trigger_not_panel _ _ _ _ Hwf Hok Hj) as Hjp.
  pose proof (updateTriggers_carries _ _ _ _ _ Hj He Hattr) as Hcar.
  assert (Live d0 (with_document
                     (switchPanels group (nextPanelsOf group tabId (document s))
                        (updateTriggers group tabId (document s))) s)) as Hinst.
  { apply (Live_update d0 s _ g a group group); try done.
    - intros i Hi. simpl. destruct (not_members _ _ _ _ Hok Hi) as [Hnt Hnpn].
      rewrite switchPanels_frame, updateTriggers_frame; try done.
      intros H. by apply nextPanelsOf_subset in H.
    - simpl. etrans; [apply listeners_eq_updateTriggers|apply listeners_eq_switchPanels].
    - exists j. split; [done|]. simpl.
      eapply carries_frame; [|exact Hcar]. apply switchPanels_frame; [done|].
      intros H. by apply nextPanelsOf_subset in H. }
  cbv zeta. destruct (animate group); [|done].
  destruct (currentPanelOf group (document s)) as [p|] eqn:Hcur; [|done].
  apply currentPanelOf_Some in Hcur as [Hp _].
  apply (Live_update d0 s _ g a group (with_isAnimating true group)); try done.
  - simpl. by rewrite list_lookup_alter_eq, Hheap.
  - intros a' Hne. simpl. by rewrite list_lookup_alter_ne.
  - intros i Hi. simpl. destruct (not_members _ _ _ _ Hok Hi) as [Hnt Hnpn].
    rewrite list_lookup_alter_ne; [by apply updateTriggers_frame|]. by intros <-.
  - simpl. etrans; [apply listeners_eq_updateTriggers|]. by apply listeners_eq_alter.
  - exists j. split; [done|]. simpl.
    eapply carries_frame; [|exact Hcar]. apply list_lookup_alter_ne. by intros ->.
Qed.

Lemma phase_of_timer d0 s k cb g group :
  Inv d0 s → timers s !! k = Some cb →
  tabsGroups s !! g = Some (cb_group cb) → heap s !! cb_group cb = Some group →
  match cb with
  | PhaseTwo _ ps A cur next =>
      ps = panels group ∧ A = activeClass group ∧ cur ∈ panels group ∧
      ∃ c, next = nextPanelsOf group c d0
  | Unlock _ => True
  end.
Proof.
  intros HI Hk Hreg Hheap.
  destruct (inv_groups _ _ HI g _ Hreg) as (group1 & Hheap1 & Hok & Hph).
  assert (group1 = group) as -> by congruence.
  destruct (lookup_delete_split _ _ _ Hk) as (l1 & l2 & Hts & _).
  unfold phase_ok in Hph.
  rewrite Hts, pending_app, pending_cons_eq in Hph by done.
  destruct (pending (cb_group cb) l1) as [|[] [|? ?]],
           (pending (cb_group cb) l2) as [|? ?], cb; simpl in Hph; try done.
  destruct Hph as (_ & -> & -> & Hcur & c & -> & _). eauto.
Qed.

Lemma timeout_Live d0 k s :
  wf_page d0 → Inv d0 s → Live d0 s → Live d0 (timeout k s).
Proof.
  intros Hwf HI HL. unfold timeout.
  destruct (timers s !! k) as [cb|] eqn:Hk; [|done].
  destruct (inv_timers _ _ HI cb (list_elem_of_lookup_2 _ _ _ Hk)) as [g Hreg].
  destruct (inv_groups _ _ HI g _ Hreg) as (group & Hheap & Hok & _).
  pose proof (phase_of_timer _ _ _ _ _ _ HI Hk Hreg Hheap) as Hcb.
  destruct (live_groups _ _ HL g _ group Hreg Hheap) as (j & Hj & Hcar).
  pose proof (trigger_not_panel _ _ _ _ Hwf Hok Hj) as Hjp.
  destruct cb as [a ps A cur next|a]; cbn [cb_group] in *.
  - destruct Hcb as (-> & -> & Hcur & c & ->). rewrite runCallback_PhaseTwo.
    apply (Live_update d0 s _ g a group group); try done.
    + intros i Hi. simpl. destruct (not_members _ _ _ _ Hok Hi) as [Hnt Hnp].
      apply phaseTwo_frame; [by intros ->|done|].
      intros H. by apply nextPanelsOf_subset in H.
    + simpl. apply listeners_eq_phaseTwo.
    + exists j. split; [done|]. simpl. eapply carries_frame; [|exact Hcar].
      apply phaseTwo_frame; [by intros ->|done|].
      intros H. by apply nextPanelsOf_subset in H.
  - cbn [runCallback].
    apply (Live_update d0 s _ g a group (with_isAnimating false group)); try done.
    + simpl. by rewrite list_lookup_alter_eq, Hheap.
    + intros a' Hne. simpl. by rewrite list_lookup_alter_ne.
    + by exists j.
Qed.

Lemma listeners_wireTrigger g e :
  listeners (wireTrigger g e) = listeners e ++ [OnClick g; OnKeydown].
Proof.
  unfold wireTrigger. cbv zeta.
  match goal with |- context [if ?b then _ else _] => destruct b end;
    simpl; by rewrite <-app_assoc.
Qed.

Lemma forEach_wireTrigger_listeners g ts d i e' x :
  forEach ts (λ _, wireTrigger g) d !! i = Some e' → x ∈ listeners e' →
  ∃ e, d !! i = Some e ∧
       (x ∈ listeners e ∨ (i ∈ ts ∧ (x = OnClick g ∨ x = OnKeydown))).
Proof.
  revert d. induction ts as [|j ts IH]; intros d He' Hx.
  - exists e'. auto.
  - rewrite forEach_cons in He'. destruct (IH _ He' Hx) as (e1 & He1 & Hcase).
    destruct (decide (j = i)) as [->|Hne].
    + rewrite list_lookup_alter_eq in He1.
      apply fmap_Some in He1 as (e & He & ->). exists e. split; [done|].
      destruct Hcase as [Hin|[Hin Hx']].
      * rewrite listeners_wireTrigger, elem_of_app in Hin.
        destruct Hin as [?|Hin]; [by left|]. right. split; [apply elem_of_cons; by left|].
        apply elem_of_cons in Hin as [?|Hin]; [by left|].
        apply list_elem_of_singleton in Hin. by right.
      * right. split; [apply elem_of_cons; by right|done].
    + rewrite list_lookup_alter_ne in He1 by done. exists e1. split; [done|].
      destruct Hcase as [?|[Hin Hx']]; [by left|].
      right. split; [apply elem_of_cons; by right|done].
Qed.

Lemma wire_listeners_ok d0 g ts ps d :
  (∀ i, i ∈ ts → i ∈ queryTriggers d0 g) →
  listeners_ok d0 d → listeners_ok d0 (wire g ts ps d).
Proof.
  intros Hts Hok. unfold wire.
  eapply listeners_ok_eq; [apply listeners_eq_forEach; intros; done|].
  intros i e' g' He' Hin.
  destruct (forEach_wireTrigger_listeners _ _ _ _ _ _ He' Hin) as (e & He & Hcase).
  destruct Hcase as [Hold|[Hi [Heq|Heq]]].
  - by apply (Hok i e g').
  - injection Heq as ->. by apply Hts.
  - discriminate Heq.
Qed.

Section Reachability.

Variable parseInt : string → number.

Lemma static_eq_initDocument group d : static_eq d (initDocument group d).
Proof.
  unfold initDocument. cbv zeta.
  destruct (defaultTabId _ _) as [t|]; [destruct (truthy t)|];
    try apply static_eq_wire.
  etrans; [apply static_eq_wire|apply static_eq_activateTabInstant].
Qed.

Lemma initDocument_frame group d i :
  i ∉ triggers group → i ∉ panels group → initDocument group d !! i = d !! i.
Proof.
  intros H1 H2. unfold initDocument. cbv zeta.
  destruct (defaultTabId _ _) as [t|]; [destruct (truthy t)|];
    rewrite ?activateTabInstant_frame by done; by apply wire_frame.
Qed.

Lemma initDocument_settled d0 g d firstTrigger :
  wf_page d0 → static_eq d0 d →
  queryTriggers d g ≠ [] →
  let group := newGroup parseInt g d firstTrigger in
  ∃ c, settled (initDocument group d) group c.
Proof.
  intros Hwf Hst Hne group.
  destruct (defaultTabId_is_Some d (queryTriggers d g) Hne)
    as (j & tabId & Hj & Hattr & Hdef).
  { intros j. apply queryTriggers_attribute. }
  assert (tabId ≠ "") as Htab.
  { rewrite <-(static_eq_getAttributeAt d0 d) in Hattr by auto with static.
    apply getAttributeAt_elem in Hattr as (e & He & Hattr).
    intros ->. by apply (wf_tab _ Hwf e). }
  exists tabId. unfold initDocument. cbv zeta.
  rewrite <-(static_eq_defaultTabId d) by apply static_eq_wire.
  change (triggers group) with (queryTriggers d g). rewrite Hdef.
  rewrite (proj2 (truthy_true tabId) Htab).
  assert (∀ i, i ∈ queryTriggers d g → i ∉ queryPanels d g) as Hdisj.
  { intros i Hi. rewrite <-(static_eq_queryTriggers d0 d) in Hi by done.
    rewrite <-(static_eq_queryPanels d0 d) by done. by eapply roles_disjoint. }
  split.
  - intros i e Hi He. rewrite activateTabInstant_lookup in He.
    apply fmap_Some in He as (e1 & _ & ->).
    apply instant_el_trigger; [done|]. by apply Hdisj.
  - intros i e Hi He. rewrite activateTabInstant_lookup in He.
    apply fmap_Some in He as (e1 & _ & ->).
    apply instant_el_panel; [done|]. intros Hc. by apply (Hdisj i).
Qed.

Lemma initTabsGroup_Inv d0 g s :
  wf_page d0 → Inv d0 s → tabsGroups s !! g = None →
  Inv d0 (initTabsGroup parseInt g s).
Proof.
  intros Hwf HI Hnone. pose proof (inv_static _ _ HI) as Hst.
  destruct (queryTriggers (document s) g) as [|t0 rest] eqn:Ht.
  { rewrite initTabsGroup_no_triggers by done. by apply Inv_console. }
  destruct (queryPanels (document s) g) as [|p0 ps] eqn:Hp.
  { rewrite initTabsGroup_no_panels by (by rewrite ?Ht). by apply Inv_console. }
  rewrite (initTabsGroup_registers _ _ _ _ _ Ht) by (by rewrite Hp). cbv zeta.
  set (group := newGroup parseInt g (document s) t0).
  assert (group_ok d0 g group) as Hok.
  { split; [done|]. split; [|split].
    - symmetry. by apply static_eq_queryTriggers.
    - symmetry. by apply static_eq_queryPanels.
    - by eapply configActiveClass_not_entering. }
  assert (∀ a, is_Some (heap s !! a) → a ≠ length (heap s)) as Hfresh.
  { intros a Ha%lookup_lt_is_Some. lia. }
  split.
  - simpl. etrans; [done|apply static_eq_initDocument].
  - intros g1 a1. simpl. destruct (decide (g1 = g)) as [->|Hne].
    + rewrite lookup_insert_eq. intros [= <-]. exists group.
      split; [by rewrite lookup_app_r, Nat.sub_diag|]. split; [done|].
      unfold phase_ok. rewrite pending_nil.
      * split; [done|]. eapply initDocument_settled; [done..|]. by rewrite Ht.
      * intros cb Hcb. destruct (inv_timers _ _ HI cb Hcb) as [g' Hg'].
        destruct (inv_groups _ _ HI g' _ Hg') as (group' & Hh & _).
        apply Hfresh. by rewrite Hh.
    + rewrite lookup_insert_ne by done. intros Hg1.
      destruct (inv_groups _ _ HI g1 a1 Hg1) as (group1 & Hh1 & Hok1 & Hph1).
      exists group1. split; [by apply lookup_app_l_Some|]. split; [done|].
      eapply phase_ok_frame; [|done|exact Hph1].
      intros i Hi. apply initDocument_frame.
      * intros Hm. change (triggers group) with (queryTriggers (document s) g) in Hm.
        rewrite <-(static_eq_queryTriggers d0) in Hm by done.
        destruct Hok1 as (_ & Ht1 & Hp1 & _). rewrite Ht1, Hp1 in Hi.
        apply Hne. eapply (members_disjoint d0 g1 g i); [done|by left].
      * intros Hm. change (panels group) with (queryPanels (document s) g) in Hm.
        rewrite <-(static_eq_queryPanels d0) in Hm by done.
        destruct Hok1 as (_ & Ht1 & Hp1 & _). rewrite Ht1, Hp1 in Hi.
        apply Hne. eapply (members_disjoint d0 g1 g i); [done|by right].
  - intros cb Hcb. simpl in *. destruct (inv_timers _ _ HI cb Hcb) as [g' Hg'].
    exists g'. rewrite lookup_insert_ne; [done|]. intros ->. congruence.
Qed.

Lemma switchTab_Inv d0 g tabId s :
  wf_page d0 → Inv d0 s → Inv d0 (switchTab parseInt g tabId s).
Proof.
  intros Hwf HI. unfold switchTab. destruct (has g s) eqn:Hhas.
  - by apply activateTab_Inv.
  - assert (tabsGroups s !! g = None) as Hnone.
    { unfold has in Hhas. apply bool_decide_eq_false in Hhas.
      by apply eq_None_not_Some. }
    pose proof (initTabsGroup_Inv d0 g s Hwf HI Hnone) as HI'.
    cbv zeta. destruct (has g (initTabsGroup parseInt g s));
      [by apply activateTab_Inv|by apply Inv_console].
Qed.

Lemma click_Inv d0 i s : wf_page d0 → Inv d0 s → Inv d0 (click i s).
Proof.
  intros Hwf HI. unfold click. destruct (document s !! i) as [e|]; [|done].
  generalize (listeners e). intros ls. revert s HI.
  induction ls as [|l ls IH]; intros s HI; [done|]. simpl. apply IH.
  destruct l as [g|]; [|done]. unfold onClick.
  destruct (getAttributeAt _ _ _) as [t|]; [|done].
  destruct (truthy t); [|done]. by apply activateTab_Inv.
Qed.

Lemma keydown_Inv d0 i key s : wf_page d0 → Inv d0 s → Inv d0 (keydown i key s).
Proof.
  intros Hwf HI. unfold keydown. destruct (document s !! i) as [e|]; [|done].
  generalize (listeners e). intros ls. revert s HI.
  induction ls as [|l ls IH]; intros s HI; [done|]. simpl. apply IH.
  destruct l as [g|]; [done|].
  destruct (_ || _); [|done]. by apply click_Inv.
Qed.

Lemma NoDup_Set_add x l : NoDup l → NoDup (Set_add x l).
Proof.
  intros H. unfold Set_add. case_bool_decide; [done|].
  apply NoDup_app. split; [done|]. split.
  - intros y Hy ->%list_elem_of_singleton. done.
  - apply NoDup_singleton.
Qed.

Lemma initTabsGroup_registry_other g g' s :
  g' ≠ g → tabsGroups (initTabsGroup parseInt g s) !! g' = tabsGroups s !! g'.
Proof.
  intros Hne.
  destruct (queryTriggers (document s) g) as [|t0 rest] eqn:Ht.
  { by rewrite initTabsGroup_no_triggers. }
  destruct (queryPanels (document s) g) as [|p0 ps] eqn:Hp.
  { rewrite initTabsGroup_no_panels; by rewrite ?Ht. }
  rewrite (initTabsGroup_registers _ _ _ _ _ Ht) by (by rewrite Hp).
  simpl. by rewrite lookup_insert_ne.
Qed.

Lemma initAllTabs_Inv d0 : wf_page d0 → Inv d0 (initAllTabs parseInt (page d0)).
Proof.
  intros Hwf. unfold initAllTabs. cbv zeta.
  match goal with
  | |- context [foldl ?f [] ?l] => set (names := foldl f [] l)
  end.
  apply Inv_console.
  assert (NoDup names) as Hnd.
  { unfold names. generalize (querySelectorAll (document (page d0)) (hasAttribute ATTR.group)).
    intros l. assert (NoDup (@nil string)) as H0 by constructor. revert H0.
    generalize (@nil string). induction l as [|i l IH]; intros acc Hacc; [done|].
    simpl. apply IH. destruct (getAttributeAt _ _ _) as [n|]; [|done].
    destruct (truthy n); [|done]. by apply NoDup_Set_add. }
  assert (Inv d0 (page d0)) as H0.
  { split; [done| |]; simpl; intros; [by rewrite lookup_empty in *|by apply elem_of_nil in H]. }
  assert (∀ g, g ∈ names → tabsGroups (page d0) !! g = None) as Hfree by done.
  clearbody names. revert H0 Hfree. generalize (page d0).
  induction Hnd as [|g names Hg Hnd IH]; intros s HI Hfree; [done|].
  simpl. apply IH.
  - apply initTabsGroup_Inv; [done..|]. apply Hfree, elem_of_cons. by left.
  - intros g' Hg'. rewrite initTabsGroup_registry_other by (by intros ->).
    apply Hfree, elem_of_cons. by right.
Qed.

Lemma step_Inv d0 s ev :
  wf_page d0 → ev ≠ InitAllTabs → Inv d0 s → Inv d0 (step parseInt s ev).
Proof.
  intros Hwf Hev HI. destruct ev; simpl; [done|..].
  - by apply switchTab_Inv.
  - by apply click_Inv.
  - by apply keydown_Inv.
  - by apply timeout_Inv.
Qed.

Lemma run_Inv d0 evs s :
  wf_page d0 → InitAllTabs ∉ evs → Inv d0 s → Inv d0 (run parseInt evs s).
Proof.
  intros Hwf. revert s. induction evs as [|ev evs IH]; intros s Hev HI; [done|].
  apply not_elem_of_cons in Hev as [Hne Hev]. simpl. apply IH; [done|].
  by apply step_Inv.
Qed.

Lemma initDocument_live d0 g d firstTrigger :
  wf_page d0 → static_eq d0 d → queryTriggers d g ≠ [] →
  let group := newGroup parseInt g d firstTrigger in
  ∃ j, j ∈ triggers group ∧ carries group (initDocument group d) j.
Proof.
  intros Hwf Hst Hne group.
  destruct (defaultTabId_is_Some d (queryTriggers d g) Hne)
    as (j & tabId & Hj & Hattr & Hdef).
  { intros j. apply queryTriggers_attribute. }
  assert (tabId ≠ "") as Htab.
  { rewrite <-(static_eq_getAttributeAt d0 d) in Hattr by auto with static.
    apply getAttributeAt_elem in Hattr as (e & He & Hattr).
    intros ->. by apply (wf_tab _ Hwf e). }
  exists j. split; [done|]. unfold initDocument. cbv zeta.
  rewrite <-(static_eq_defaultTabId d) by apply static_eq_wire.
  change (triggers group) with (queryTriggers d g). rewrite Hdef.
  rewrite (proj2 (truthy_true tabId) Htab).
  set (d1 := wire _ _ _ d).
  assert (static_eq d (activateTabInstant group tabId d1)) as Hst'.
  { etrans; [apply static_eq_wire|apply static_eq_activateTabInstant]. }
  rewrite (static_eq_getAttributeAt _ _ _ _ Hst' static_trigger) in Hattr.
  unfold getAttributeAt in Hattr.
  destruct (activateTabInstant group tabId d1 !! j) as [e|] eqn:He; [|done].
  simpl in Hattr. exists e. split; [done|].
  rewrite activateTabInstant_lookup in He. apply fmap_Some in He as (e1 & _ & ->).
  apply instant_el_trigger; [done| |done].
  change (panels group) with (queryPanels d g).
  rewrite <-(static_eq_queryTriggers d0 d) in Hj by done.
  rewrite <-(static_eq_queryPanels d0 d) by done. by eapply roles_disjoint.
Qed.

Lemma initTabsGroup_Live d0 g s :
  wf_page d0 → Inv d0 s → Live d0 s → tabsGroups s !! g = None →
  Live d0 (initTabsGroup parseInt g s).
Proof.
  intros Hwf HI HL Hnone. pose proof (inv_static _ _ HI) as Hst.
  destruct (queryTriggers (document s) g) as [|t0 rest] eqn:Ht.
  { rewrite initTabsGroup_no_triggers by done. by apply Live_console. }
  destruct (queryPanels (document s) g) as [|p0 ps] eqn:Hp.
  { rewrite initTabsGroup_no_panels by (by rewrite ?Ht). by apply Live_console. }
  rewrite (initTabsGroup_registers _ _ _ _ _ Ht) by (by rewrite Hp). cbv zeta.
  set (group := newGroup parseInt g (document s) t0).
  split.
  - simpl. unfold initDocument. cbv zeta.
    assert (listeners_ok d0 (wire (name group) (triggers group) (panels group)
                               (document s))) as Hw.
    { apply wire_listeners_ok; [|apply (live_listeners _ _ HL)].
      intros i Hi. change (triggers group) with (queryTriggers (document s) g) in Hi.
      by rewrite (static_eq_queryTriggers d0 (document s)). }
    destruct (defaultTabId _ _) as [t|]; [destruct (truthy t)|]; try done.
    eapply listeners_ok_eq; [apply listeners_eq_activateTabInstant|done].
  - intros g1 a1 group1. simpl. destruct (decide (g1 = g)) as [->|Hne].
    + rewrite lookup_insert_eq. intros [= <-].
      rewrite lookup_app_r, Nat.sub_diag by done. intros [= <-].
      eapply initDocument_live; [done..|]. by rewrite Ht.
    + rewrite lookup_insert_ne by done. intros Hg1 Hh1.
      destruct (inv_groups _ _ HI g1 a1 Hg1) as (group1' & Hh1' & Hok1 & _).
      rewrite (lookup_app_l_Some _ _ _ _ Hh1') in Hh1. injection Hh1 as <-.
      destruct (live_groups _ _ HL g1 a1 group1' Hg1 Hh1') as (i & Hi & Hc).
      exists i. split; [done|]. eapply carries_frame; [|exact Hc].
      assert (members d0 g1 i) as Hm1.
      { destruct Hok1 as (_ & Ht1 & _). left. by rewrite <-Ht1. }
      apply initDocument_frame.
      * intros Hm. change (triggers group) with (queryTriggers (document s) g) in Hm.
        rewrite <-(static_eq_queryTriggers d0) in Hm by done.
        apply Hne. eapply (members_disjoint d0 g1 g i); [done|by left].
      * intros Hm. change (panels group) with (queryPanels (document s) g) in Hm.
        rewrite <-(static_eq_queryPanels d0) in Hm by done.
        apply Hne. eapply (members_disjoint d0 g1 g i); [done|by right].
Qed.

Lemma switchTab_Live d0 g tabId s :
  wf_page d0 → Inv d0 s → Live d0 s → is_tab d0 g tabId →
  Live d0 (switchTab parseInt g tabId s).
Proof.
  intros Hwf HI HL Htab. unfold switchTab. destruct (has g s) eqn:Hhas.
  - by apply activateTab_Live.
  - assert (tabsGroups s !! g = None) as Hnone.
    { unfold has in Hhas. apply bool_decide_eq_false in Hhas.
      by apply eq_None_not_Some. }
    pose proof (initTabsGroup_Inv d0 g s Hwf HI Hnone) as HI'.
    pose proof (initTabsGroup_Live d0 g s Hwf HI HL Hnone) as HL'.
    cbv zeta. destruct (has g (initTabsGroup parseInt g s));
      [by apply activateTab_Live|by apply Live_console].
Qed.

Lemma click_Inv_Live d0 i s :
  wf_page d0 → Inv d0 s → Live d0 s → Inv d0 (click i s) ∧ Live d0 (click i s).
Proof.
  intros Hwf HI HL. unfold click.
  destruct (document s !! i) as [e|] eqn:He; [|done].
  assert (∀ g, OnClick g ∈ listeners e → i ∈ queryTriggers d0 g) as Hls.
  { intros g. by apply (live_listeners _ _ HL i e g). }
  clear He. revert Hls. generalize (listeners e). intros ls. revert s HI HL.
  induction ls as [|l ls IH]; intros s HI HL Hls; [done|]. simpl.
  assert (∀ g, OnClick g ∈ ls → i ∈ queryTriggers d0 g) as Hls'.
  { intros g Hg. apply Hls, elem_of_cons. by right. }
  destruct l as [g|]; [|by apply IH]. unfold onClick.
  destruct (getAttributeAt (document s) ATTR.trigger i) as [t|] eqn:Hattr;
    [|by apply IH].
  destruct (truthy t); [|by apply IH].
  assert (is_tab d0 g t) as Htab.
  { exists i. split; [apply Hls, elem_of_cons; by left|].
    rewrite (static_eq_getAttributeAt d0 (document s)); [done| |apply static_trigger].
    apply (inv_static _ _ HI). }
  apply IH; [by apply activateTab_Inv|by apply activateTab_Live|done].
Qed.

Lemma keydown_Inv_Live d0 i key s :
  wf_page d0 → Inv d0 s → Live d0 s →
  Inv d0 (keydown i key s) ∧ Live d0 (keydown i key s).
Proof.
  intros Hwf HI HL. unfold keydown. destruct (document s !! i) as [e|]; [|done].
  generalize (listeners e). intros ls. revert s HI HL.
  induction ls as [|l ls IH]; intros s HI HL; [done|]. simpl.
  destruct l as [g|]; [by apply IH|].
  destruct (_ || _); [|by apply IH].
  destruct (click_Inv_Live d0 i s Hwf HI HL). by apply IH.
Qed.

Lemma initAllTabs_Live d0 : wf_page d0 → Live d0 (initAllTabs parseInt (page d0)).
Proof.
  intros Hwf. unfold initAllTabs. cbv zeta.
  match goal with
  | |- context [foldl ?f [] ?l] => set (names := foldl f [] l)
  end.
  apply Live_console.
  assert (NoDup names) as Hnd.
  { unfold names. generalize (querySelectorAll (document (page d0)) (hasAttribute ATTR.group)).
    intros l. assert (NoDup (@nil string)) as H0 by constructor. revert H0.
    generalize (@nil string). induction l as [|i l IH]; intros acc Hacc; [done|].
    simpl. apply IH. destruct (getAttributeAt _ _ _) as [n|]; [|done].
    destruct (truthy n); [|done]. by apply NoDup_Set_add. }
  assert (Inv d0 (page d0)) as H0.
  { split; [done| |]; simpl; intros; [by rewrite lookup_empty in *|by apply elem_of_nil in H]. }
  assert (Live d0 (page d0)) as H1.
  { split.
    - intros i e g He Hin. simpl in He.
      rewrite (wf_fresh _ Hwf e) in Hin by (by eapply list_elem_of_lookup_2).
      by apply elem_of_nil in Hin.
    - intros g a group H. simpl in H. by rewrite lookup_empty in H. }
  assert (∀ g, g ∈ names → tabsGroups (page d0) !! g = None) as Hfree by done.
  clearbody names. revert H0 H1 Hfree. generalize (page d0).
  induction Hnd as [|g names Hg Hnd IH]; intros s HI HL Hfree; [done|].
  assert (tabsGroups s !! g = None) as Hnone.
  { apply Hfree, elem_of_cons. by left. }
  simpl. apply IH.
  - by apply initTabsGroup_Inv.
  - by apply initTabsGroup_Live.
  - intros g' Hg'. rewrite initTabsGroup_registry_other by (by intros ->).
    apply Hfree, elem_of_cons. by right.
Qed.

Lemma run_Inv_Live d0 evs s :
  wf_page d0 → InitAllTabs ∉ evs → valid_targets d0 evs →
  Inv d0 s → Live d0 s →
  Inv d0 (run parseInt evs s) ∧ Live d0 (run parseInt evs s).
Proof.
  intros Hwf. revert s. induction evs as [|ev evs IH]; intros s Hev Hval HI HL; [done|].
  apply not_elem_of_cons in Hev as [Hne Hev].
  assert (valid_targets d0 evs) as Hval'.
  { intros g t Hin. apply Hval, elem_of_cons. by right. }
  simpl.
  assert (Inv d0 (step parseInt s ev) ∧ Live d0 (step parseInt s ev)) as [HI' HL'].
  { destruct ev as [|g t|i|i key|k]; simpl; [done|..].
    - split; [by apply switchTab_Inv|]. apply switchTab_Live; [done..|].
      apply Hval, elem_of_cons. by left.
    - by apply click_Inv_Live.
    - by apply keydown_Inv_Live.
    - split; [by apply timeout_Inv|by apply timeout_Live]. }
  by apply IH.
Qed.

(** C2. While a group is animating, an activation request is dropped:
    [activateTab] (and so [switchTab]) returns the state it was given, so
    nothing is queued (the pending timers are the same), nothing is reported
    (the console is the same), the page is untouched, and whatever happens
    afterwards happens exactly as if the request had never been made; in
    particular the active tab after the transition settles is the same. *)
Theorem activateTab_dropped_while_animating (groupName tabId : string) (s : State)
    (a : nat) (group : TabsGroup) :
  get groupName s = Some (a, group) →
  isAnimating group = true →
  let s' := activateTab groupName tabId s in
  timers s' = timers s ∧ console s' = console s ∧ document s' = document s ∧
  heap s' = heap s ∧ tabsGroups s' = tabsGroups s ∧
  switchTab parseInt groupName tabId s = s ∧
  ∀ evs, run parseInt evs s' = run parseInt evs s ∧
         getActiveTab groupName (run parseInt evs s')
           = getActiveTab groupName (run parseInt evs s).
Proof.
  intros Hget Han s'.
  assert (s' = s) as -> by (by eapply activateTab_animating).
  repeat (split; [done|]). split; [|done].
  unfold switchTab. rewrite (get_has _ _ _ _ Hget).
  by eapply activateTab_animating.
Qed.

Lemma registry_sound_keep d0 s s' :
  registry_sound d0 s → static_eq (document s) (document s') →
  tabsGroups s' = tabsGroups s → registry_sound d0 s'.
Proof. intros [H1 H2] Hst Hreg. split; [by etrans|]. by rewrite Hreg. Qed.

Lemma activateTab_keeps g tabId s :
  static_eq (document s) (document (activateTab g tabId s)) ∧
  tabsGroups (activateTab g tabId s) = tabsGroups s.
Proof.
  rewrite activateTab_eq. destruct (get g s) as [[a group]|]; [|done].
  destruct (isAnimating group); [done|].
  destruct (sameTab group tabId (document s)); [done|]. cbv zeta.
  assert (static_eq (document s)
            (switchPanels group (nextPanelsOf group tabId (document s))
               (updateTriggers group tabId (document s)))) as Hinst.
  { etrans; [apply static_eq_updateTriggers|apply static_eq_switchPanels]. }
  destruct (animate group); [|done].
  destruct (currentPanelOf group (document s)) as [p|]; [|done].
  split; [|done]. rewrite document_animateTransition, document_with_document.
  etrans; [apply static_eq_updateTriggers|].
  apply static_eq_alter. intros e. static_step.
Qed.

Lemma activateTab_sound d0 g tabId s :
  registry_sound d0 s → registry_sound d0 (activateTab g tabId s).
Proof.
  intros H. destruct (activateTab_keeps g tabId s). by eapply registry_sound_keep.
Qed.

Lemma timeout_sound d0 k s : registry_sound d0 s → registry_sound d0 (timeout k s).
Proof.
  intros H. unfold timeout. destruct (timers s !! k) as [cb|]; [|done].
  eapply registry_sound_keep; [done| |].
  - destruct cb; simpl; [apply static_eq_phaseTwo|done].
  - by destruct cb.
Qed.

Lemma initTabsGroup_sound d0 g s :
  registry_sound d0 s → registry_sound d0 (initTabsGroup parseInt g s).
Proof.
  intros [Hst Hreg].
  destruct (queryTriggers (document s) g) as [|t0 rest] eqn:Ht.
  { by rewrite initTabsGroup_no_triggers. }
  destruct (queryPanels (document s) g) as [|p0 ps] eqn:Hp.
  { rewrite initTabsGroup_no_panels; by rewrite ?Ht. }
  rewrite (initTabsGroup_registers _ _ _ _ _ Ht) by (by rewrite Hp). cbv zeta.
  split.
  - simpl. etrans; [done|apply static_eq_initDocument].
  - intros g'. simpl. destruct (decide (g' = g)) as [->|Hne].
    + intros _. rewrite (static_eq_queryTriggers d0 (document s)) by done.
      rewrite (static_eq_queryPanels d0 (document s)) by done.
      by rewrite Ht, Hp.
    + rewrite lookup_insert_ne by done. apply Hreg.
Qed.

Lemma switchTab_sound d0 g tabId s :
  registry_sound d0 s → registry_sound d0 (switchTab parseInt g tabId s).
Proof.
  intros H. unfold switchTab. destruct (has g s); [by apply activateTab_sound|].
  cbv zeta. pose proof (initTabsGroup_sound d0 g s H) as H'.
  destruct (has g (initTabsGroup parseInt g s)); [by apply activateTab_sound|done].
Qed.

Lemma click_sound d0 i s : registry_sound d0 s → registry_sound d0 (click i s).
Proof.
  intros H. unfold click. destruct (document s !! i) as [e|]; [|done].
  generalize (listeners e). intros ls. revert s H.
  induction ls as [|l ls IH]; intros s H; [done|]. simpl. apply IH.
  destruct l as [g|]; [|done]. unfold onClick.
  destruct (getAttributeAt _ _ _) as [t|]; [|done].
  destruct (truthy t); [|done]. by apply activateTab_sound.
Qed.

Lemma keydown_sound d0 i key s : registry_sound d0 s → registry_sound d0 (keydown i key s).
Proof.
  intros H. unfold keydown. destruct (document s !! i) as [e|]; [|done].
  generalize (listeners e). intros ls. revert s H.
  induction ls as [|l ls IH]; intros s H; [done|]. simpl. apply IH.
  destruct l as [g|]; [done|].
  destruct (_ || _); [|done]. by apply click_sound.
Qed.

Lemma initAllTabs_sound d0 s : registry_sound d0 s → registry_sound d0 (initAllTabs parseInt s).
Proof.
  intros H. unfold initAllTabs. cbv zeta.
  match goal with
  | |- context [foldl ?f [] ?l] => generalize (foldl f [] l)
  end.
  intros names.
  assert (registry_sound d0 (foldl (λ s g, initTabsGroup parseInt g s) s names)) as H'.
  { revert s H. induction names as [|g names IH]; intros s H; [done|].
    simpl. apply IH. by apply initTabsGroup_sound. }
  done.
Qed.

Lemma run_sound d0 evs s :
  registry_sound d0 s → registry_sound d0 (run parseInt evs s).
Proof.
  revert s. induction evs as [|ev evs IH]; intros s H; [done|].
  simpl. apply IH. destruct ev; simpl.
  - by apply initAllTabs_sound.
  - by apply switchTab_sound.
  - by apply click_sound.
  - by apply keydown_sound.
  - by apply timeout_sound.
Qed.


End Reachability.

(** * The claims on concrete pages *)

Ltac elem_cases H :=
  repeat (apply elem_of_cons in H as [H|H]; [try subst|]);
  [..|by apply elem_of_nil in H].

Ltac wf_page_solve :=
  split;
  [ intros e He; elem_cases He;
    (let x := fresh in let y := fresh in let Hx := fresh in let Hy := fresh in
     intros [[x Hx] [y Hy]]; vm_compute in Hx, Hy; discriminate)
  | intros e He; elem_cases He;
    (let H := fresh in intros H; vm_compute in H; discriminate H)
  | intros e He; elem_cases He;
    (let H := fresh in intros H; vm_compute in H; discriminate H)
  | intros e He; elem_cases He; reflexivity ].

Lemma wf_page_gallery : wf_page gallery.
Proof. wf_page_solve. Defined.

Lemma wf_page_galleryAnimated : wf_page galleryAnimated.
Proof. wf_page_solve. Defined.

Ltac no_reinit :=
  let H := fresh in
  intros H; repeat (apply elem_of_cons in H as [H|H]; [discriminate H|]);
  by apply elem_of_nil in H.

(** C2, on the animated gallery: while the switch to videos is in flight, a
    request for photos is dropped. *)
Lemma activateTab_dropped_while_animating_witness :
  let s := run parseInt10 [Click 1] (initAllTabs parseInt10 (page galleryAnimated)) in
  let s' := activateTab "gallery" "photos" s in
  get "gallery" s = Some (0, galleryAnimatedGroup true) ∧
  isAnimating (galleryAnimatedGroup true) = true ∧
  timers s' = timers s ∧ console s' = console s ∧ document s' = document s ∧
  heap s' = heap s ∧ tabsGroups s' = tabsGroups s ∧
  switchTab parseInt10 "gallery" "photos" s = s ∧
  ∀ evs, run parseInt10 evs s' = run parseInt10 evs s ∧
         getActiveTab "gallery" (run parseInt10 evs s')
           = getActiveTab "gallery" (run parseInt10 evs s).
Proof.
  intros s s'.
  assert (get "gallery" s = Some (0, galleryAnimatedGroup true)) as Hget
    by (vm_compute; reflexivity).
  split; [exact Hget|]. split; [reflexivity|].
  exact (activateTab_dropped_while_animating parseInt10 "gallery" "photos" s 0
           (galleryAnimatedGroup true) Hget eq_refl).
Defined.

(** C4, on the gallery: asking for photos while photos is shown changes
    nothing. *)
Lemma activateTab_same_tab_noop_witness :
  let s := initAllTabs parseInt10 (page gallery) in
  get "gallery" s = Some (0, galleryGroup) ∧
  isAnimating galleryGroup = false ∧
  findEl (document s) (classList.contains (activeClass galleryGroup)) (panels galleryGroup)
    = Some 2 ∧
  getAttributeAt (document s) ATTR.content 2 = Some "photos" ∧
  activateTab "gallery" "photos" s = s.
Proof.
  intros s.
  assert (get "gallery" s = Some (0, galleryGroup)) as Hget by (vm_compute; reflexivity).
  assert (findEl (document s) (classList.contains (activeClass galleryGroup))
            (panels galleryGroup) = Some 2) as Hcur by (vm_compute; reflexivity).
  assert (getAttributeAt (document s) ATTR.content 2 = Some "photos") as Hattr
    by (vm_compute; reflexivity).
  split; [exact Hget|]. split; [reflexivity|]. split; [exact Hcur|].
  split; [exact Hattr|].
  exact (activateTab_same_tab_noop "gallery" "photos" s 0 galleryGroup 2
           Hget eq_refl Hcur Hattr).
Defined.



(** C9 fails as first stated: after switching this group to the empty tab
    identifier its trigger carries the active class, yet the query answers
    null. *)
Lemma getActiveTab_claim_counterexample :
  ¬ getActiveTab_claim "g"
      (switchTab parseInt10 "g" "" (initAllTabs parseInt10 (page untitled))).
Proof.
  set (s := switchTab _ _ _ _). unfold getActiveTab_claim.
  assert (get "g" s = Some (0, untitledGroup)) as Hget by (vm_compute; reflexivity).
  rewrite Hget. intros [_ H].
  destruct H as (i & e & tabId & _ & _ & _ & _ & Hres).
  - exists 0. split; [apply elem_of_cons; by left|].
    apply test_contains_carries. vm_compute. reflexivity.
  - vm_compute in Hres. discriminate Hres.
Qed.

(** ** Why the amended claims name the pages they do *)

Lemma triggers_settled_at d group c i :
  triggers_settled d group c → i ∈ triggers group →
  test d (classList.contains (activeClass group)) i = true →
  getAttributeAt d ATTR.trigger i = Some c.
Proof.
  intros Ht Hi (e & He & Hc)%test_contains_carries.
  unfold getAttributeAt. rewrite He. simpl. by apply (Ht i e Hi He).
Qed.

Lemma panels_settled_at d group c i :
  panels_settled d group c → i ∈ panels group →
  test d (classList.contains (activeClass group)) i = true →
  getAttributeAt d ATTR.content i = Some c.
Proof.
  intros Hp Hi (e & He & Hc)%test_contains_carries.
  unfold getAttributeAt. rewrite He. simpl. by apply (Hp i e Hi He).
Qed.

Lemma panels_settled_carries d group c i :
  panels_settled d group c → i ∈ panels group →
  getAttributeAt d ATTR.content i = Some c →
  test d (classList.contains (activeClass group)) i = true.
Proof.
  intros Hp Hi Hattr. unfold getAttributeAt in Hattr.
  destruct (d !! i) as [e|] eqn:He; [|done]. simpl in Hattr.
  apply test_contains_carries. exists e. split; [done|]. by apply (Hp i e Hi He).
Qed.

(** With an element in both roles the group is not settled after
    initialisation: the trigger of tab b carries the active class that it
    received as a panel of tab a. *)
Remark settled_needs_disjoint_roles :
  let s := initAllTabs parseInt10 (page aliasPage) in
  get "g" s = Some (0, aliasGroup) ∧ isAnimating aliasGroup = false ∧
  ¬ ∃ c, settled (document s) aliasGroup c.
Proof.
  intros s. split; [vm_compute; reflexivity|]. split; [reflexivity|].
  intros [c [Ht _]].
  assert (getAttributeAt (document s) ATTR.trigger 0 = Some c) as H0.
  { apply (triggers_settled_at _ aliasGroup); [exact Ht| |vm_compute; reflexivity].
    apply elem_of_cons; by left. }
  assert (getAttributeAt (document s) ATTR.trigger 1 = Some c) as H1.
  { apply (triggers_settled_at _ aliasGroup); [exact Ht| |vm_compute; reflexivity].
    apply elem_of_cons; right. apply elem_of_cons; by left. }
  vm_compute in H0, H1. congruence.
Qed.

(** With an empty default tab identifier nothing is activated, and what
    the markup carried stays: here two panels of different tabs. *)
Remark settled_needs_default_tab :
  let s := initAllTabs parseInt10 (page stalePage) in
  get "g" s = Some (0, staleGroup) ∧ isAnimating staleGroup = false ∧
  ¬ ∃ c, settled (document s) staleGroup c.
Proof.
  intros s. split; [vm_compute; reflexivity|]. split; [reflexivity|].
  intros [c [_ Hp]].
  assert (getAttributeAt (document s) ATTR.content 1 = Some c) as H1.
  { apply (panels_settled_at _ staleGroup); [exact Hp| |vm_compute; reflexivity].
    apply elem_of_cons; by left. }
  assert (getAttributeAt (document s) ATTR.content 2 = Some c) as H2.
  { apply (panels_settled_at _ staleGroup); [exact Hp| |vm_compute; reflexivity].
    apply elem_of_cons; right. apply elem_of_cons; by left. }
  vm_compute in H1, H2. congruence.
Qed.

(** With the entering class as active class, an animated transition ends
    with the target's trigger selected and its panel without the class:
    the enter phase adds the active class and then removes the entering
    class, which is the same token. *)
Remark settled_needs_distinct_entering_class :
  let s := run parseInt10 [Click 1; Timeout 0; Timeout 0]
             (initAllTabs parseInt10 (page enteringPage)) in
  get "gallery" s = Some (0, enteringGroup) ∧ isAnimating enteringGroup = false ∧
  ¬ ∃ c, settled (document s) enteringGroup c.
Proof.
  intros s. split; [vm_compute; reflexivity|]. split; [reflexivity|].
  intros [c [Ht Hp]].
  assert (getAttributeAt (document s) ATTR.trigger 1 = Some c) as H1.
  { apply (triggers_settled_at _ enteringGroup); [exact Ht| |vm_compute; reflexivity].
    apply elem_of_cons; right. apply elem_of_cons; by left. }
  assert (c = "videos") as -> by (vm_compute in H1; congruence).
  assert (test (document s) (classList.contains (activeClass enteringGroup)) 3 = true)
    as H3.
  { apply (panels_settled_carries _ enteringGroup "videos"); [exact Hp| |vm_compute; reflexivity].
    apply elem_of_cons; right. apply elem_of_cons; by left. }
  vm_compute in H3. discriminate H3.
Qed.

(** * Further properties of the tabs module *)

(** ** Discovery: which groups [initAllTabs] registers, and what it reports *)

Lemma elem_of_Set_add x y l : x ∈ Set_add y l ↔ x ∈ l ∨ x = y.
Proof.
  unfold Set_add. case_bool_decide.
  - split; [auto|]. intros [?| ->]; done.
  - by rewrite elem_of_app, list_elem_of_singleton.
Qed.

Lemma NoDup_groupNames d : NoDup (groupNames d).
Proof.
  unfold groupNames. generalize (querySelectorAll d (hasAttribute ATTR.group)).
  intros l. assert (NoDup (@nil string)) as H0 by constructor. revert H0.
  generalize (@nil string). induction l as [|i l IH]; intros acc Hacc; [done|].
  simpl. apply IH. destruct (getAttributeAt _ _ _) as [n|]; [|done].
  destruct (truthy n); [|done]. by apply NoDup_Set_add.
Qed.

Lemma elem_of_groupNames d g :
  g ∈ groupNames d ↔ g ≠ "" ∧ ∃ i, getAttributeAt d ATTR.group i = Some g.
Proof.
  unfold groupNames.
  assert (∀ l acc,
    g ∈ foldl (λ names el,
                 match getAttributeAt d ATTR.group el with
                 | Some groupName =>
                     if truthy groupName then Set_add groupName names else names
                 | None => names
                 end) acc l
    ↔ g ∈ acc ∨ (g ≠ "" ∧ ∃ i, i ∈ l ∧ getAttributeAt d ATTR.group i = Some g)) as Hfold.
  { induction l as [|j l IH]; intros acc; simpl.
    - split; [auto|]. intros [?|(_ & i & Hi & _)]; [done|]. by apply elem_of_nil in Hi.
    - rewrite IH. destruct (getAttributeAt d ATTR.group j) as [n|] eqn:Hn.
      + destruct (truthy n) eqn:Htr.
        * rewrite elem_of_Set_add. apply truthy_true in Htr. split.
          -- intros [[?| ->]|(Hg & i & Hi & Hattr)]; [by left| |].
             ++ right. split; [done|]. exists j. split; [apply elem_of_cons; by left|done].
             ++ right. split; [done|]. exists i. split; [apply elem_of_cons; by right|done].
          -- intros [?|(Hg & i & Hi & Hattr)]; [by left; left|].
             apply elem_of_cons in Hi as [->|Hi].
             ++ left. right. congruence.
             ++ right. split; [done|]. by exists i.
        * apply truthy_false in Htr. subst n. split.
          -- intros [?|(Hg & i & Hi & Hattr)]; [by left|].
             right. split; [done|]. exists i. split; [apply elem_of_cons; by right|done].
          -- intros [?|(Hg & i & Hi & Hattr)]; [by left|].
             apply elem_of_cons in Hi as [->|Hi]; [congruence|].
             right. split; [done|]. by exists i.
      + split.
        * intros [?|(Hg & i & Hi & Hattr)]; [by left|].
          right. split; [done|]. exists i. split; [apply elem_of_cons; by right|done].
        * intros [?|(Hg & i & Hi & Hattr)]; [by left|].
          apply elem_of_cons in Hi as [->|Hi]; [congruence|].
          right. split; [done|]. by exists i. }
  rewrite Hfold. split.
  - intros [H|(Hg & i & _ & Hattr)]; [by apply elem_of_nil in H|]. split; [done|]. by exists i.
  - intros (Hg & i & Hattr). right. split; [done|]. exists i. split; [|done].
    apply elem_of_querySelectorAll. unfold getAttributeAt in Hattr. unfold test.
    destruct (d !! i) as [e|]; [|done]. simpl in Hattr.
    apply hasAttribute_true. by rewrite Hattr.
Qed.

Lemma queryTriggers_groupNames d g :
  g ≠ "" → queryTriggers d g ≠ [] → g ∈ groupNames d.
Proof.
  intros Hg Hne. apply elem_of_groupNames. split; [done|].
  destruct (queryTriggers d g) as [|i l] eqn:Hq; [done|].
  assert (i ∈ queryTriggers d g) as Hi by (rewrite Hq; apply elem_of_cons; by left).
  apply elem_of_queryTriggers in Hi as (e & He & Ht). apply isTrigger_true in Ht as [Hgr _].
  exists i. unfold getAttributeAt. by rewrite He.
Qed.

Section Discovery.

Variable parseInt : string → number.

Lemma initAllTabs_eq s :
  initAllTabs parseInt s =
    console_log ("[Tabs] Initialized " ++ pretty (length (groupNames (document s)))
                   ++ " tabs group(s)")%string
      (foldl (λ s g, initTabsGroup parseInt g s) s (groupNames (document s))).
Proof. reflexivity. Qed.

Lemma initTabsGroup_static g s :
  static_eq (document s) (document (initTabsGroup parseInt g s)).
Proof.
  destruct (queryTriggers (document s) g) as [|t0 rest] eqn:Ht.
  { by rewrite initTabsGroup_no_triggers. }
  destruct (queryPanels (document s) g) as [|p0 ps] eqn:Hp.
  { rewrite initTabsGroup_no_panels; by rewrite ?Ht. }
  rewrite (initTabsGroup_registers _ _ _ _ _ Ht) by (by rewrite Hp). cbv zeta.
  simpl. apply static_eq_initDocument.
Qed.

(** One call of [initTabsGroup] either reports and changes nothing else, or
    registers the group under a fresh address and reports nothing. *)
Lemma initTabsGroup_cases g s :
  ((queryTriggers (document s) g = [] ∨ queryPanels (document s) g = []) ∧
   ∃ report, initTabsGroup parseInt g s = console_warn report s)
  ∨ (queryTriggers (document s) g ≠ [] ∧ queryPanels (document s) g ≠ [] ∧
     console (initTabsGroup parseInt g s) = console s ∧
     timers (initTabsGroup parseInt g s) = timers s ∧
     tabsGroups (initTabsGroup parseInt g s) = <[g := length (heap s)]> (tabsGroups s)).
Proof.
  destruct (queryTriggers (document s) g) as [|t0 rest] eqn:Ht.
  { left. split; [by left|]. eexists. by apply initTabsGroup_no_triggers. }
  destruct (queryPanels (document s) g) as [|p0 ps] eqn:Hp.
  { left. split; [by right|]. eexists. apply initTabsGroup_no_panels; by rewrite ?Ht. }
  right. rewrite (initTabsGroup_registers _ _ _ _ _ Ht) by (by rewrite Hp). done.
Qed.

Lemma initTabsGroup_registry g g' s :
  is_Some (tabsGroups (initTabsGroup parseInt g s) !! g') ↔
  is_Some (tabsGroups s !! g')
  ∨ (g' = g ∧ queryTriggers (document s) g ≠ [] ∧ queryPanels (document s) g ≠ []).
Proof.
  destruct (initTabsGroup_cases g s) as [[Hempty [m ->]]|(Ht & Hp & _ & _ & ->)].
  - simpl. split; [auto|]. intros [?|(_ & ? & ?)]; [done|]. by destruct Hempty.
  - destruct (decide (g' = g)) as [->|Hne].
    + rewrite lookup_insert_eq. split; [auto|]. by eexists.
    + rewrite lookup_insert_ne by done. split; [auto|]. by intros [?|[? _]].
Qed.

Lemma foldl_initTabsGroup_static names s :
  static_eq (document s)
    (document (foldl (λ s g, initTabsGroup parseInt g s) s names)).
Proof.
  revert s. induction names as [|n names IH]; intros s; [done|].
  simpl. etrans; [apply initTabsGroup_static|apply IH].
Qed.

Lemma foldl_initTabsGroup_registry names s g :
  is_Some (tabsGroups (foldl (λ s g, initTabsGroup parseInt g s) s names) !! g) ↔
  is_Some (tabsGroups s !! g)
  ∨ (g ∈ names ∧ queryTriggers (document s) g ≠ [] ∧ queryPanels (document s) g ≠ []).
Proof.
  revert s. induction names as [|n names IH]; intros s; simpl.
  - split; [auto|]. intros [?|[H _]]; [done|]. by apply elem_of_nil in H.
  - rewrite IH, initTabsGroup_registry.
    pose proof (initTabsGroup_static n s) as Hst.
    rewrite <-(static_eq_queryTriggers _ _ g Hst), <-(static_eq_queryPanels _ _ g Hst).
    rewrite elem_of_cons. split.
    + intros [[?|(-> & ? & ?)]|(? & ? & ?)]; auto.
    + intros [?|([->|?] & ? & ?)]; auto.
Qed.

(** When every DOM call succeeds, [initAllTabs] registers exactly the groups
    it can build: afterwards a name is in the registry if and only if it was
    there before, or it is not the empty string and the page has at least
    one trigger and at least one panel with that group name. *)
Theorem initAllTabs_registers_exactly_total (s : State) (groupName : string) :
  is_Some (tabsGroups (initAllTabs parseInt s) !! groupName) ↔
  is_Some (tabsGroups s !! groupName)
  ∨ (groupName ≠ "" ∧ queryTriggers (document s) groupName ≠ []
     ∧ queryPanels (document s) groupName ≠ []).
Proof.
  rewrite initAllTabs_eq. cbn [tabsGroups console_log].
  rewrite foldl_initTabsGroup_registry. split.
  - intros [?|(Hin & ? & ?)]; [by left|]. right.
    apply elem_of_groupNames in Hin as [? _]. done.
  - intros [?|(? & ? & ?)]; [by left|]. right.
    split; [by apply queryTriggers_groupNames|done].
Qed.

Lemma foldl_initTabsGroup_console names s :
  NoDup names → (∀ g, g ∈ names → tabsGroups s !! g = None) →
  let s' := foldl (λ s g, initTabsGroup parseInt g s) s names in
  ∃ ws, console s' = console s ++ (Warn <$> ws) ∧
        size (tabsGroups s') + length ws = size (tabsGroups s) + length names.
Proof.
  intros Hnd. revert s. induction Hnd as [|n names Hn Hnd IH]; intros s Hfree.
  - exists []. simpl. by rewrite app_nil_r.
  - simpl. assert (tabsGroups s !! n = None) as Hnone.
    { apply Hfree, elem_of_cons. by left. }
    destruct (IH (initTabsGroup parseInt n s)) as (ws & Hc & Hsz).
    { intros g Hg. apply eq_None_not_Some. rewrite initTabsGroup_registry.
      intros [H|(-> & _)]; [|done].
      rewrite Hfree in H by (apply elem_of_cons; by right). by destruct H. }
    destruct (initTabsGroup_cases n s) as [[_ [m Hm]]|(_ & _ & Hcon & _ & Hreg)].
    + exists (m :: ws). rewrite Hc, Hm in *. simpl in *. rewrite <-app_assoc.
      split; [done|]. lia.
    + exists ws. rewrite Hc, Hcon. split; [done|].
      rewrite Hsz, Hreg, map_size_insert_None by done. lia.
Qed.

(** When every DOM call succeeds, on a freshly loaded page the console
    after [initAllTabs] holds one warning for each group that was not
    registered and then one log line, whose count is the number of
    registered groups plus the number of those warnings. *)
Theorem initAllTabs_reports_names_total (d0 : Document) :
  let s' := initAllTabs parseInt (page d0) in
  ∃ ws, console s' =
          (Warn <$> ws) ++
          [Log ("[Tabs] Initialized " ++ pretty (size (tabsGroups s') + length ws)
                  ++ " tabs group(s)")%string].
Proof.
  intros s'. unfold s'. rewrite initAllTabs_eq.
  destruct (foldl_initTabsGroup_console (groupNames d0) (page d0))
    as (ws & Hc & Hsz); [apply NoDup_groupNames|done|].
  exists ws. cbn [console tabsGroups console_log document page] in *.
  rewrite Hc, Hsz. simpl. by rewrite map_size_empty.
Qed.

End Discovery.

(** ** Handlers: who has them, and what a click and a key press do *)

Lemma activateTab_listeners g t s :
  listeners_eq (document s) (document (activateTab g t s)).
Proof.
  rewrite activateTab_eq. destruct (get g s) as [[a group]|]; [|done].
  destruct (isAnimating group); [done|].
  destruct (sameTab group t (document s)); [done|]. cbv zeta.
  assert (listeners_eq (document s)
            (switchPanels group (nextPanelsOf group t (document s))
               (updateTriggers group t (document s)))) as Hinst.
  { etrans; [apply listeners_eq_updateTriggers|apply listeners_eq_switchPanels]. }
  destruct (animate group); [|done].
  destruct (currentPanelOf group (document s)) as [p|]; [|done].
  rewrite document_animateTransition, document_with_document.
  etrans; [apply listeners_eq_updateTriggers|]. by apply listeners_eq_alter.
Qed.

Lemma timeout_keeps k s :
  static_eq (document s) (document (timeout k s)) ∧
  listeners_eq (document s) (document (timeout k s)) ∧
  tabsGroups (timeout k s) = tabsGroups s.
Proof.
  unfold timeout. destruct (timers s !! k) as [cb|]; [|done].
  destruct cb; simpl; [|done].
  split; [apply static_eq_phaseTwo|]. split; [apply listeners_eq_phaseTwo|done].
Qed.

Lemma Wiring_keep d0 s s' :
  Wiring d0 s → static_eq (document s) (document s') →
  listeners_eq (document s) (document s') → tabsGroups s' = tabsGroups s →
  Wiring d0 s'.
Proof.
  intros [Hst Hls] Hst' Hleq Hreg. split; [by etrans|].
  intros i e' He'. rewrite Hreg.
  eapply Forall2_lookup_r in Hleq as (e & He & Hl); [|done].
  unfold same_listeners in Hl. rewrite <-Hl. by apply Hls.
Qed.

Lemma activateTab_Wiring d0 g t s : Wiring d0 s → Wiring d0 (activateTab g t s).
Proof.
  intros H. destruct (activateTab_keeps g t s).
  eapply Wiring_keep; [done..|apply activateTab_listeners|done].
Qed.

Lemma timeout_Wiring d0 k s : Wiring d0 s → Wiring d0 (timeout k s).
Proof.
  intros H. destruct (timeout_keeps k s) as (? & ? & ?). by eapply Wiring_keep.
Qed.

(** What the wiring pass does to the handlers of an element. *)
Lemma wire_listeners g ts ps d i e' :
  NoDup ts → wire g ts ps d !! i = Some e' →
  ∃ e, d !! i = Some e ∧
       listeners e' = listeners e ++ (if includes ts i then [OnClick g; OnKeydown] else []).
Proof.
  intros Hnd He'. unfold wire in He'.
  set (d1 := forEach ts (λ _, wireTrigger g) d) in *.
  assert (listeners_eq d1 (forEach ps (λ _, setAttribute "role" "tabpanel") d1)) as Hleq.
  { apply listeners_eq_forEach. intros; done. }
  eapply Forall2_lookup_r in Hleq as (e1 & He1 & Hl); [|done].
  unfold same_listeners in Hl. rewrite <-Hl. unfold d1 in He1.
  destruct (includes ts i) eqn:Hin.
  - apply includes_true in Hin. rewrite forEach_lookup_NoDup in He1 by done.
    apply fmap_Some in He1 as (e & He & ->). exists e. split; [done|].
    apply listeners_wireTrigger.
  - apply includes_false in Hin. rewrite forEach_lookup_notin in He1 by done.
    exists e1. by rewrite app_nil_r.
Qed.

Lemma handlers_register d0 registry g a i :
  registry !! g = None →
  handlers d0 (<[g := a]> registry) i =
    handlers d0 registry i
      ++ (if includes (queryTriggers d0 g) i then [OnClick g; OnKeydown] else []).
Proof.
  intros Hnone. unfold handlers.
  destruct (includes (queryTriggers d0 g) i) eqn:Hin.
  - apply includes_true, elem_of_queryTriggers in Hin as (e & He & Ht).
    apply isTrigger_true in Ht as [Hg Ht]. unfold getAttributeAt, test.
    rewrite He. simpl. rewrite Hg, lookup_insert_eq, Hnone.
    rewrite (proj2 (hasAttribute_true _ _) Ht).
    rewrite bool_decide_eq_true_2 by (by eexists).
    rewrite bool_decide_eq_false_2 by (by intros [? ?]). done.
  - rewrite app_nil_r. apply includes_false in Hin.
    destruct (getAttributeAt d0 ATTR.group i) as [g'|] eqn:Hg'; [|done].
    destruct (decide (g' = g)) as [->|Hne].
    + assert (test d0 (hasAttribute ATTR.trigger) i = false) as ->.
      { apply not_true_is_false. intros Ht. apply Hin, elem_of_queryTriggers.
        unfold getAttributeAt in Hg'. unfold test in Ht.
        destruct (d0 !! i) as [e|]; [|done]. exists e. split; [done|].
        apply isTrigger_true. split; [done|]. by apply hasAttribute_true. }
      by rewrite !andb_false_r.
    + by rewrite lookup_insert_ne.
Qed.

Section Handlers.

Variable parseInt : string → number.

Lemma initTabsGroup_Wiring d0 g s :
  Wiring d0 s → tabsGroups s !! g = None → Wiring d0 (initTabsGroup parseInt g s).
Proof.
  intros HW Hnone. pose proof (wiring_static _ _ HW) as Hst.
  destruct (queryTriggers (document s) g) as [|t0 rest] eqn:Ht.
  { rewrite initTabsGroup_no_triggers by done. by destruct HW. }
  destruct (queryPanels (document s) g) as [|p0 ps] eqn:Hp.
  { rewrite initTabsGroup_no_panels by (by rewrite ?Ht). by destruct HW. }
  rewrite (initTabsGroup_registers _ _ _ _ _ Ht) by (by rewrite Hp). cbv zeta.
  set (group := newGroup parseInt g (document s) t0).
  split; [simpl; etrans; [done|apply static_eq_initDocument]|].
  intros i e' He'. cbn [document tabsGroups with_document register] in *.
  rewrite handlers_register by done.
  assert (∃ e1, wire g (triggers group) (panels group) (document s) !! i = Some e1
                ∧ listeners e' = listeners e1) as (e1 & He1 & ->).
  { unfold initDocument in He'. cbv zeta in He'. change (name group) with g in He'.
    destruct (defaultTabId _ _) as [t|]; [destruct (truthy t)|]; eauto.
    pose proof (listeners_eq_activateTabInstant group t
                  (wire g (triggers group) (panels group) (document s))) as Hleq.
    eapply Forall2_lookup_r in Hleq as (e1 & He1 & Hl); [|done]. eauto. }
  apply wire_listeners in He1 as (e & He & ->); [|apply NoDup_querySelectorAll].
  rewrite (wiring_listeners _ _ HW i e He).
  change (triggers group) with (queryTriggers (document s) g).
  by rewrite (static_eq_queryTriggers d0 (document s)).
Qed.

Lemma switchTab_Wiring d0 g t s : Wiring d0 s → Wiring d0 (switchTab parseInt g t s).
Proof.
  intros HW. unfold switchTab. destruct (has g s) eqn:Hhas.
  - by apply activateTab_Wiring.
  - assert (tabsGroups s !! g = None) as Hnone.
    { unfold has in Hhas. apply bool_decide_eq_false in Hhas.
      by apply eq_None_not_Some. }
    pose proof (initTabsGroup_Wiring d0 g s HW Hnone) as HW'.
    cbv zeta. destruct (has g (initTabsGroup parseInt g s));
      [by apply activateTab_Wiring|by destruct HW'].
Qed.

Lemma click_Wiring d0 i s : Wiring d0 s → Wiring d0 (click i s).
Proof.
  intros HW. unfold click. destruct (document s !! i) as [e|]; [|done].
  generalize (listeners e). intros ls. revert s HW.
  induction ls as [|l ls IH]; intros s HW; [done|]. simpl. apply IH.
  destruct l as [g|]; [|done]. unfold onClick.
  destruct (getAttributeAt _ _ _) as [t|]; [|done].
  destruct (truthy t); [|done]. by apply activateTab_Wiring.
Qed.

Lemma keydown_Wiring d0 i key s : Wiring d0 s → Wiring d0 (keydown i key s).
Proof.
  intros HW. unfold keydown. destruct (document s !! i) as [e|]; [|done].
  generalize (listeners e). intros ls. revert s HW.
  induction ls as [|l ls IH]; intros s HW; [done|]. simpl. apply IH.
  destruct l as [g|]; [done|].
  destruct (_ || _); [|done]. by apply click_Wiring.
Qed.

Lemma page_Wiring d0 : fresh d0 → Wiring d0 (page d0).
Proof.
  intros Hfresh. split; [done|]. intros i e He. simpl in He.
  rewrite (Hfresh e) by (by eapply list_elem_of_lookup_2).
  unfold handlers. simpl. destruct (getAttributeAt d0 ATTR.group i); [|done].
  rewrite lookup_empty, bool_decide_eq_false_2; [done|]. by intros [? ?].
Qed.

Lemma initAllTabs_Wiring d0 : fresh d0 → Wiring d0 (initAllTabs parseInt (page d0)).
Proof.
  intros Hfresh. rewrite initAllTabs_eq.
  assert (∀ names s, NoDup names → Wiring d0 s →
            (∀ g, g ∈ names → tabsGroups s !! g = None) →
            Wiring d0 (foldl (λ s g, initTabsGroup parseInt g s) s names)) as Hfold.
  { intros names s Hnd. revert s.
    induction Hnd as [|g names Hg Hnd IH]; intros s HW Hfree; [done|].
    simpl. apply IH.
    - apply initTabsGroup_Wiring; [done|]. apply Hfree, elem_of_cons. by left.
    - intros g' Hg'. rewrite initTabsGroup_registry_other by (by intros ->).
      apply Hfree, elem_of_cons. by right. }
  destruct (Hfold (groupNames d0) (page d0)) as [H1 H2];
    [apply NoDup_groupNames|by apply page_Wiring|done|].
  by split.
Qed.

Lemma run_Wiring d0 evs s :
  InitAllTabs ∉ evs → Wiring d0 s → Wiring d0 (run parseInt evs s).
Proof.
  revert s. induction evs as [|ev evs IH]; intros s Hev HW; [done|].
  apply not_elem_of_cons in Hev as [Hne Hev]. simpl. apply IH; [done|].
  destruct ev; simpl; [done|..].
  - by apply switchTab_Wiring.
  - by apply click_Wiring.
  - by apply keydown_Wiring.
  - by apply timeout_Wiring.
Qed.

Lemma reachable_Wiring d0 evs :
  fresh d0 → InitAllTabs ∉ evs →
  Wiring d0 (run parseInt evs (initAllTabs parseInt (page d0))).
Proof. intros. by apply run_Wiring, initAllTabs_Wiring. Qed.

End Handlers.

(** A click, on a page wired as [initAllTabs] leaves it. *)
Lemma click_wired d0 i s :
  Wiring d0 s →
  click i s =
    match getAttributeAt d0 ATTR.group i with
    | Some g => if has g s && test d0 (hasAttribute ATTR.trigger) i
                then onClick g i s else s
    | None => s
    end.
Proof.
  intros [Hst Hls]. unfold click.
  destruct (document s !! i) as [e|] eqn:He.
  - rewrite (Hls i e He). unfold handlers, has.
    destruct (getAttributeAt d0 ATTR.group i) as [g|]; [|done].
    by destruct (_ && _).
  - assert (d0 !! i = None) as H0.
    { apply lookup_ge_None. rewrite (static_eq_length _ _ Hst).
      by apply lookup_ge_None. }
    unfold getAttributeAt, test. by rewrite H0.
Qed.

Lemma keydown_wired d0 i key s :
  Wiring d0 s →
  keydown i key s =
    if String.eqb key "Enter" || String.eqb key " " then click i s else s.
Proof.
  intros [Hst Hls]. unfold keydown, click.
  destruct (document s !! i) as [e|] eqn:He; [|by destruct (_ || _)].
  assert (listeners e = [] ∨ ∃ g, listeners e = [OnClick g; OnKeydown]) as [Hl|[g Hl]].
  { rewrite (Hls i e He). unfold handlers.
    destruct (getAttributeAt d0 ATTR.group i) as [g|]; [|by left].
    destruct (_ && _); [right; by exists g|by left]. }
  - rewrite Hl. simpl. by destruct (_ || _).
  - rewrite Hl. simpl. destruct (_ || _); [|done]. by rewrite He, Hl.
Qed.

Section HandlerTheorems.

Variable parseInt : string → number.



End HandlerTheorems.

(** ** The query after a switch *)

Lemma sameTab_settled group t d c :
  settled d group c → sameTab group t d = true → c = t.
Proof.
  intros [_ Hp] Hsame. unfold sameTab in Hsame.
  destruct (currentPanelOf group d) as [p|] eqn:Hcur; [|done].
  apply includes_true, elem_of_filterEl in Hsame as [_ Ht].
  apply currentPanelOf_Some in Hcur as [Hin (e & He & HA)].
  rewrite (test_lookup _ _ _ _ He) in Ht. apply attribute_is_true in Ht.
  apply (Hp p e Hin He) in HA. congruence.
Qed.

Lemma activateTab_triggers_settled d0 g t s a group a' group' :
  wf_page d0 → Inv d0 s →
  get g s = Some (a, group) → isAnimating group = false →
  get g (activateTab g t s) = Some (a', group') →
  triggers_settled (document (activateTab g t s)) group' t.
Proof.
  intros Hwf HI Hget Hidle Hget'.
  pose proof Hget as [Hreg Hheap]%get_Some.
  destruct (inv_groups _ _ HI g a Hreg) as (group1 & Hheap1 & Hok & Hph).
  assert (group1 = group) as -> by congruence. clear Hheap1.
  destruct (phase_idle _ _ _ _ _ Hph Hidle) as [_ [c Hc]].
  destruct (sameTab group t (document s)) eqn:Hsame.
  { rewrite (activateTab_sameTab _ _ _ _ _ Hget Hsame) in *.
    assert (group' = group) as -> by congruence.
    rewrite <-(sameTab_settled _ _ _ _ Hc Hsame). apply Hc. }
  destruct (animate group) eqn:Han;
    [destruct (currentPanelOf group (document s)) as [p|] eqn:Hcur|].
  - rewrite (activateTab_animated _ _ _ _ _ _ Hget Hidle Hsame Han Hcur) in *.
    assert (group' = with_isAnimating true group) as ->.
    { apply get_Some in Hget' as [Hreg' Hheap']. simpl in *.
      assert (a' = a) as -> by congruence.
      rewrite list_lookup_alter_eq, Hheap in Hheap'. simpl in Hheap'. congruence. }
    apply currentPanelOf_Some in Hcur as [Hp _].
    intros i e Hi. cbn [activeClass triggers with_isAnimating] in *.
    rewrite document_animateTransition, document_with_document.
    rewrite list_lookup_alter_ne.
    + rewrite updateTriggers_lookup. intros (e1 & _ & ->)%fmap_Some.
      by apply updateTriggers_el_settled.
    + intros <-. by apply (trigger_not_panel _ _ _ _ Hwf Hok Hi).
  - rewrite (activateTab_instant _ _ _ _ _ Hget Hidle Hsame) in * by (by right).
    assert (group' = group) as ->.
    { apply get_Some in Hget' as [Hreg' Hheap']. simpl in *. congruence. }
    simpl. eapply instant_switch_settled; done.
  - rewrite (activateTab_instant _ _ _ _ _ Hget Hidle Hsame) in * by (by left).
    assert (group' = group) as ->.
    { apply get_Some in Hget' as [Hreg' Hheap']. simpl in *. congruence. }
    simpl. eapply instant_switch_settled; done.
Qed.

Lemma getActiveTab_settled g s a group t :
  get g s = Some (a, group) → triggers_settled (document s) group t → t ≠ "" →
  (∃ j e, j ∈ triggers group ∧ document s !! j = Some e ∧
          getAttribute ATTR.trigger e = Some t) →
  getActiveTab g s = Some t.
Proof.
  intros Hget Hset Ht (j & e & Hj & He & Hattr).
  unfold getActiveTab. rewrite Hget.
  destruct (findEl (document s) (classList.contains (activeClass group))
              (triggers group)) as [j'|] eqn:Hfind.
  - apply findEl_Some in Hfind as [Hj' Htest]. unfold test in Htest.
    destruct (document s !! j') as [e'|] eqn:He'; [|done].
    apply contains_true in Htest. apply (Hset j' e' Hj' He') in Htest.
    simpl. unfold getAttributeAt. rewrite He'. simpl. rewrite Htest. simpl.
    by rewrite (proj2 (truthy_true t) Ht).
  - apply (findEl_None _ _ _ j) in Hfind; [|done].
    rewrite (test_lookup _ _ _ _ He) in Hfind. apply contains_false in Hfind.
    destruct Hfind. by apply (Hset j e Hj He).
Qed.

Lemma firings_app ts ts' : firings (ts ++ ts') = firings ts + firings ts'.
Proof.
  induction ts as [|cb ts IH]; [done|]. simpl. rewrite IH. destruct cb; lia.
Qed.

Lemma firings_le ts : (firings ts ≤ 2 * length ts)%nat.
Proof. induction ts as [|cb ts IH]; simpl; [lia|]. destruct cb; lia. Qed.

Lemma firings_0 ts : firings ts = 0 → ts = [].
Proof. destruct ts as [|cb ts]; [done|]. simpl. destruct cb; lia. Qed.

Lemma timeout_0_firings s :
  timers s ≠ [] → firings (timers (timeout 0 s)) + 1 = firings (timers s).
Proof.
  unfold timeout. destruct (timers s) as [|cb ts] eqn:Hts; [done|]. intros _.
  simpl. destruct cb as [a ps A cur next|a]; simpl.
  - rewrite firings_app. simpl. lia.
  - lia.
Qed.

Lemma timeout_0_idle s : timers s = [] → timeout 0 s = s.
Proof. intros H. unfold timeout. by rewrite H. Qed.

Section AfterASwitch.

Variable parseInt : string → number.

Lemma firing_all n s :
  (firings (timers s) ≤ n)%nat →
  timers (run parseInt (replicate n (Timeout 0)) s) = [].
Proof.
  revert s. induction n as [|n IH]; intros s Hn.
  - simpl. apply firings_0. lia.
  - simpl. apply IH. destruct (timers s) as [|cb ts] eqn:Hts.
    + rewrite timeout_0_idle by done. rewrite Hts. simpl. lia.
    + pose proof (timeout_0_firings s) as H. rewrite Hts in H.
      specialize (H ltac:(done)). lia.
Qed.


End AfterASwitch.

(** ** What the module leaves alone *)

#[local] Instance keeps_preorder K T : PreOrder (keeps K T).
Proof.
  split.
  - by intros e.
  - intros e1 e2 e3 (H1 & H2 & H3) (H1' & H2' & H3'). split; [congruence|]. split.
    + intros k Hk. rewrite H2 by done. by apply H2'.
    + congruence.
Qed.

#[local] Instance Forall2_keeps_preorder K T : PreOrder (Forall2 (keeps K T)).
Proof. split; apply _. Qed.

Lemma keeps_static T e e' : keeps dynamic_keys T e e' → same_static e e'.
Proof. by intros (_ & H & _). Qed.

Lemma Forall2_keeps_static T d d' :
  Forall2 (keeps dynamic_keys T) d d' → static_eq d d'.
Proof. intros H. eapply Forall2_impl; [exact H|]. apply keeps_static. Qed.

Lemma keeps_weaken K K' T e e' : K ⊆ K' → keeps K T e e' → keeps K' T e e'.
Proof.
  intros Hsub (H1 & H2 & H3). split; [done|]. split; [|done].
  intros k Hk. apply H2. intros Hin. by apply Hk, Hsub.
Qed.

Lemma aria_keys_dynamic : aria_keys ⊆ dynamic_keys.
Proof. unfold aria_keys, dynamic_keys. set_solver. Qed.

Section Keeps.

Context (K : list string) (T : string → bool).

Lemma keeps_setAttribute k v e : k ∈ K → keeps K T e (setAttribute k v e).
Proof.
  intros Hk. split; [done|]. split; [|done]. intros k' Hk'. simpl.
  rewrite lookup_insert_ne; [done|]. by intros ->.
Qed.

Lemma keeps_add c e : T c = true → keeps K T e (classList.add c e).
Proof.
  intros Hc. split; [done|]. split; [done|]. rewrite classList_add.
  unfold ad. case_bool_decide; [done|].
  rewrite List.filter_app. simpl. rewrite Hc. simpl. by rewrite app_nil_r.
Qed.

Lemma keeps_remove c e : T c = true → keeps K T e (classList.remove c e).
Proof.
  intros Hc. split; [done|]. split; [done|]. rewrite classList_remove.
  unfold rm. rewrite filter_filter_bool. apply List.filter_ext. intros x.
  destruct (String.eqb_spec x c) as [->|]; [|done]. by rewrite Hc.
Qed.

Lemma keeps_addEventListener l e : keeps K T e (addEventListener l e).
Proof. done. Qed.

Lemma keeps_alter f i d : (∀ e, keeps K T e (f e)) → Forall2 (keeps K T) d (alter f i d).
Proof.
  intros Hf. apply Forall2_lookup. intros j.
  destruct (decide (i = j)) as [->|Hne].
  - rewrite list_lookup_alter_eq. destruct (d !! j); simpl; constructor. apply Hf.
  - rewrite list_lookup_alter_ne by done. destruct (d !! j); by constructor.
Qed.

Lemma keeps_forEach l f d :
  (∀ i e, keeps K T e (f i e)) → Forall2 (keeps K T) d (forEach l f d).
Proof.
  intros Hf. revert d. induction l as [|i l IH]; intros d; [done|].
  rewrite forEach_cons. etrans; [|apply IH]. by apply keeps_alter.
Qed.

Ltac keeps_step :=
  unfold deselect, select, hide, hideClean, show;
  repeat first
    [ reflexivity
    | (etrans; [|apply keeps_setAttribute; done])
    | (etrans; [|apply keeps_add; done])
    | (etrans; [|apply keeps_remove; done])
    | (etrans; [|apply keeps_addEventListener]) ].

Hypothesis Hselected : "aria-selected" ∈ K.
Hypothesis Hhidden : "aria-hidden" ∈ K.
Hypothesis Hleaving : T ANIM_CLASS.leaving = true.
Hypothesis Hentering : T ANIM_CLASS.entering = true.

Lemma keeps_updateTriggers group t d :
  T (activeClass group) = true → Forall2 (keeps K T) d (updateTriggers group t d).
Proof.
  intros HA. unfold updateTriggers. cbv zeta.
  do 2 (etrans; [|apply keeps_forEach; intros; keeps_step]). reflexivity.
Qed.

Lemma keeps_switchPanels group next d :
  T (activeClass group) = true → Forall2 (keeps K T) d (switchPanels group next d).
Proof.
  intros HA. unfold switchPanels.
  do 2 (etrans; [|apply keeps_forEach; intros; keeps_step]). reflexivity.
Qed.

Lemma keeps_phaseTwo ps A cur next d :
  T A = true → Forall2 (keeps K T) d (phaseTwo ps A cur next d).
Proof.
  intros HA. unfold phaseTwo. cbv zeta.
  do 3 (etrans; [|apply keeps_forEach; intros i e;
                   try destruct (includes next i); keeps_step]).
  apply keeps_alter. intros e. keeps_step.
Qed.

Lemma keeps_activateTabInstant group t d :
  T (activeClass group) = true → Forall2 (keeps K T) d (activateTabInstant group t d).
Proof.
  intros HA. rewrite activateTabInstant_eq. cbv zeta.
  do 4 (etrans; [|apply keeps_forEach; intros; keeps_step]). reflexivity.
Qed.

Lemma keeps_activateTab g t s :
  (∀ a group, get g s = Some (a, group) → T (activeClass group) = true) →
  Forall2 (keeps K T) (document s) (document (activateTab g t s)).
Proof.
  intros HA. rewrite activateTab_eq.
  destruct (get g s) as [[a group]|] eqn:Hget; [|reflexivity].
  specialize (HA a group eq_refl).
  destruct (isAnimating group); [reflexivity|].
  destruct (sameTab group t (document s)); [reflexivity|]. cbv zeta.
  assert (Forall2 (keeps K T) (document s)
            (switchPanels group (nextPanelsOf group t (document s))
               (updateTriggers group t (document s)))) as Hinst.
  { etrans; [by apply keeps_updateTriggers|by apply keeps_switchPanels]. }
  destruct (animate group); [|done].
  destruct (currentPanelOf group (document s)) as [p|]; [|done].
  rewrite document_animateTransition, document_with_document.
  etrans; [by apply keeps_updateTriggers|]. apply keeps_alter. intros e. keeps_step.
Qed.

Lemma keeps_timeout k s :
  (∀ a ps A cur next, timers s !! k = Some (PhaseTwo a ps A cur next) → T A = true) →
  Forall2 (keeps K T) (document s) (document (timeout k s)).
Proof.
  intros HA. unfold timeout. destruct (timers s !! k) as [cb|]; [|reflexivity].
  destruct cb as [a ps A cur next|a]; [|reflexivity].
  rewrite runCallback_PhaseTwo. simpl. apply keeps_phaseTwo. by eapply HA.
Qed.

Hypothesis Hrole : "role" ∈ K.
Hypothesis Htabindex : "tabindex" ∈ K.

Lemma keeps_wire g ts ps d : Forall2 (keeps K T) d (wire g ts ps d).
Proof.
  unfold wire. etrans; [|apply keeps_forEach; intros; keeps_step].
  apply keeps_forEach. intros i e. unfold wireTrigger. cbv zeta.
  match goal with |- context [if ?b then _ else _] => destruct b end; keeps_step.
Qed.

Lemma keeps_initDocument group d :
  T (activeClass group) = true → Forall2 (keeps K T) d (initDocument group d).
Proof.
  intros HA. unfold initDocument. cbv zeta.
  destruct (defaultTabId _ _) as [t|]; [destruct (truthy t)|];
    try apply keeps_wire.
  etrans; [apply keeps_wire|by apply keeps_activateTabInstant].
Qed.

End Keeps.

(** The group objects and timers a call leaves behind. *)
Lemma activateTab_heap g t s a' group' :
  heap (activateTab g t s) !! a' = Some group' →
  ∃ group, heap s !! a' = Some group ∧ activeClass group' = activeClass group.
Proof.
  rewrite activateTab_eq. destruct (get g s) as [[a group]|] eqn:Hget; [|by eauto].
  destruct (isAnimating group); [by eauto|].
  destruct (sameTab group t (document s)); [by eauto|]. cbv zeta.
  destruct (animate group); [|by eauto].
  destruct (currentPanelOf group (document s)) as [p|]; [|by eauto].
  simpl. destruct (decide (a = a')) as [->|Hne].
  - rewrite list_lookup_alter_eq. intros (g1 & Hg1 & ->)%fmap_Some. by exists g1.
  - rewrite list_lookup_alter_ne by done. by eauto.
Qed.

Lemma activateTab_timers g t s cb :
  cb ∈ timers (activateTab g t s) →
  cb ∈ timers s
  ∨ ∃ a group p next, get g s = Some (a, group)
                      ∧ cb = PhaseTwo a (panels group) (activeClass group) p next.
Proof.
  rewrite activateTab_eq. destruct (get g s) as [[a group]|] eqn:Hget; [|by left].
  destruct (isAnimating group); [by left|].
  destruct (sameTab group t (document s)); [by left|]. cbv zeta.
  destruct (animate group); [|by left].
  destruct (currentPanelOf group (document s)) as [p|]; [|by left].
  simpl. rewrite elem_of_app, list_elem_of_singleton. intros [?| ->]; [by left|].
  right. by exists a, group, p, (nextPanelsOf group t (document s)).
Qed.

Lemma timeout_heap k s a' group' :
  heap (timeout k s) !! a' = Some group' →
  ∃ group, heap s !! a' = Some group ∧ activeClass group' = activeClass group.
Proof.
  unfold timeout. destruct (timers s !! k) as [cb|]; [|by eauto].
  destruct cb as [a ps A cur next|a]; simpl; [by eauto|].
  destruct (decide (a = a')) as [->|Hne].
  - rewrite list_lookup_alter_eq. intros (g1 & Hg1 & ->)%fmap_Some. by exists g1.
  - rewrite list_lookup_alter_ne by done. by eauto.
Qed.

Lemma timeout_timers k s cb :
  cb ∈ timers (timeout k s) → cb ∈ timers s ∨ ∃ a, cb = Unlock a.
Proof.
  unfold timeout. destruct (timers s !! k) as [cb'|]; [|by left].
  destruct cb' as [a ps A cur next|a]; simpl.
  - rewrite elem_of_app, list_elem_of_singleton.
    intros [H%list_elem_of_delete_inv| ->]; [by left|right; by exists a].
  - intros H%list_elem_of_delete_inv. by left.
Qed.

Lemma touchable_config d0 d i :
  static_eq d0 d → is_touchable d0 (configActiveClass d i) = true.
Proof.
  intros Hst. apply bool_decide_eq_true. unfold configActiveClass, touchable.
  rewrite <-(static_eq_getAttributeAt d0 d) by auto with static.
  destruct (getAttributeAt d0 ATTR.activeClass i) as [c|] eqn:Hc; simpl;
    [|apply elem_of_cons; by left].
  destruct (truthy c); [|apply elem_of_cons; by left].
  do 3 (apply elem_of_cons; right).
  apply getAttributeAt_elem in Hc as (e & He & Hattr).
  apply list_elem_of_omap. by exists e.
Qed.

Lemma touchable_leaving d0 : is_touchable d0 ANIM_CLASS.leaving = true.
Proof.
  apply bool_decide_eq_true. unfold touchable.
  apply elem_of_cons; right. apply elem_of_cons; by left.
Qed.

Lemma touchable_entering d0 : is_touchable d0 ANIM_CLASS.entering = true.
Proof.
  apply bool_decide_eq_true. unfold touchable.
  do 2 (apply elem_of_cons; right). apply elem_of_cons; by left.
Qed.

Ltac touch_side :=
  solve [ apply dynamic_aria_selected | apply dynamic_aria_hidden
        | apply dynamic_role | apply dynamic_tabindex
        | apply touchable_leaving | apply touchable_entering ].

Lemma Touch_activateTab d0 g t s : Touch d0 s → Touch d0 (activateTab g t s).
Proof.
  intros [Hp Hh Ht]. split.
  - etrans; [done|]. apply keeps_activateTab; try touch_side.
    intros a group [_ Hheap]%get_Some. by eapply Hh.
  - intros a' group' (group & Hheap & ->)%activateTab_heap. by eapply Hh.
  - intros a ps A cur next [Hin|(a1 & group & p & nx & Hget & Heq)]%activateTab_timers.
    + by eapply Ht.
    + injection Heq as -> -> -> -> ->. apply get_Some in Hget as [_ Hheap].
      by eapply Hh.
Qed.

Lemma Touch_timeout d0 k s : Touch d0 s → Touch d0 (timeout k s).
Proof.
  intros [Hp Hh Ht]. split.
  - etrans; [done|]. apply keeps_timeout; try touch_side.
    intros a ps A cur next Hk. eapply Ht. by eapply list_elem_of_lookup_2.
  - intros a' group' (group & Hheap & ->)%timeout_heap. by eapply Hh.
  - intros a ps A cur next [Hin|[a1 Heq]]%timeout_timers; [by eapply Ht|done].
Qed.

Section Untouched.

Variable parseInt : string → number.

Lemma Touch_initTabsGroup d0 g s : Touch d0 s → Touch d0 (initTabsGroup parseInt g s).
Proof.
  intros [Hp Hh Ht].
  destruct (queryTriggers (document s) g) as [|t0 rest] eqn:Htr.
  { by rewrite initTabsGroup_no_triggers. }
  destruct (queryPanels (document s) g) as [|p0 ps] eqn:Hpn.
  { rewrite initTabsGroup_no_panels; by rewrite ?Htr. }
  rewrite (initTabsGroup_registers _ _ _ _ _ Htr) by (by rewrite Hpn). cbv zeta.
  assert (is_touchable d0 (configActiveClass (document s) t0) = true) as HA.
  { apply touchable_config. by eapply Forall2_keeps_static. }
  split.
  - simpl. etrans; [done|]. by apply keeps_initDocument; try touch_side.
  - intros a group. simpl. intros [?|[_ Heq]]%lookup_app_Some; [by eapply Hh|].
    apply list_lookup_singleton_Some in Heq as [_ <-]. done.
  - done.
Qed.

Lemma Touch_switchTab d0 g t s : Touch d0 s → Touch d0 (switchTab parseInt g t s).
Proof.
  intros H. unfold switchTab. destruct (has g s); [by apply Touch_activateTab|].
  cbv zeta. pose proof (Touch_initTabsGroup d0 g s H) as H'.
  destruct (has g (initTabsGroup parseInt g s)); [by apply Touch_activateTab|].
  by destruct H'.
Qed.

Lemma Touch_click d0 i s : Touch d0 s → Touch d0 (click i s).
Proof.
  intros H. unfold click. destruct (document s !! i) as [e|]; [|done].
  generalize (listeners e). intros ls. revert s H.
  induction ls as [|l ls IH]; intros s H; [done|]. simpl. apply IH.
  destruct l as [g|]; [|done]. unfold onClick.
  destruct (getAttributeAt _ _ _) as [t|]; [|done].
  destruct (truthy t); [|done]. by apply Touch_activateTab.
Qed.

Lemma Touch_keydown d0 i key s : Touch d0 s → Touch d0 (keydown i key s).
Proof.
  intros H. unfold keydown. destruct (document s !! i) as [e|]; [|done].
  generalize (listeners e). intros ls. revert s H.
  induction ls as [|l ls IH]; intros s H; [done|]. simpl. apply IH.
  destruct l as [g|]; [done|].
  destruct (_ || _); [|done]. by apply Touch_click.
Qed.

Lemma Touch_initAllTabs d0 s : Touch d0 s → Touch d0 (initAllTabs parseInt s).
Proof.
  intros H. rewrite initAllTabs_eq.
  assert (Touch d0 (foldl (λ s g, initTabsGroup parseInt g s) s
                      (groupNames (document s)))) as [H1 H2 H3].
  { generalize (groupNames (document s)). intros names. revert s H.
    induction names as [|g names IH]; intros s H; [done|].
    simpl. apply IH. by apply Touch_initTabsGroup. }
  by split.
Qed.

Lemma Touch_run d0 evs s : Touch d0 s → Touch d0 (run parseInt evs s).
Proof.
  revert s. induction evs as [|ev evs IH]; intros s H; [done|].
  simpl. apply IH. destruct ev; simpl.
  - by apply Touch_initAllTabs.
  - by apply Touch_switchTab.
  - by apply Touch_click.
  - by apply Touch_keydown.
  - by apply Touch_timeout.
Qed.

(** X9. The module leaves the rest of the page alone.  Whatever happens on
    a page after it was loaded ([initAllTabs], [switchTab], clicks, key
    presses, timers, in any order and number), the page keeps its elements
    in their order, and every element keeps its tag name, every attribute
    other than aria-selected, aria-hidden, role and tabindex, and, in their
    order, all its class tokens other than "is-tab-active", "is-leaving",
    "is-entering" and the values of the bw-tabs-class attributes of the
    page. *)
Theorem page_left_alone (d0 : Document) (evs : list Event) :
  Forall2 (keeps dynamic_keys (is_touchable d0)) d0
    (document (run parseInt evs (page d0))).
Proof.
  apply Touch_run. split; [reflexivity|..]; simpl.
  - intros a group H. by rewrite lookup_nil in H.
  - intros a ps A cur next H. by apply elem_of_nil in H.
Qed.

End Untouched.

(** ** Roles and focus *)

Lemma wire_lookup g d i :
  wire g (queryTriggers d g) (queryPanels d g) d !! i = wire_el g <$> d !! i.
Proof.
  unfold wire. set (d1 := forEach (queryTriggers d g) _ d).
  destruct (d !! i) as [e|] eqn:He; simpl.
  - assert (d1 !! i = Some (if isTrigger g e then wireTrigger g e else e)) as H1.
    { unfold d1. destruct (isTrigger g e) eqn:Ht.
      - rewrite forEach_lookup_NoDup, He; [done|apply NoDup_querySelectorAll|].
        apply elem_of_queryTriggers. by exists e.
      - rewrite forEach_lookup_notin; [done|].
        intros (e' & He' & Ht')%elem_of_queryTriggers. congruence. }
    unfold wire_el. cbv zeta. destruct (isPanel g e) eqn:Hp.
    + rewrite forEach_lookup_NoDup, H1; [done|apply NoDup_querySelectorAll|].
      apply elem_of_queryPanels. by exists e.
    + rewrite forEach_lookup_notin; [done|].
      intros (e' & He' & Hp')%elem_of_queryPanels. congruence.
  - apply forEach_lookup_None, forEach_lookup_None. done.
Qed.

Lemma same_static_wire_el g e : same_static e (wire_el g e).
Proof.
  unfold wire_el. cbv zeta. destruct (isPanel g e), (isTrigger g e); try reflexivity.
  - etrans; [apply same_static_wireTrigger|apply same_static_setAttribute, dynamic_role].
  - apply same_static_setAttribute, dynamic_role.
  - apply same_static_wireTrigger.
Qed.

Lemma focusable_wireTrigger g e : focusable (wireTrigger g e).
Proof.
  unfold wireTrigger, focusable. cbv zeta.
  set (t := addEventListener OnKeydown (addEventListener (OnClick g) e)).
  destruct (hasAttribute "tabindex" t) eqn:Hti; simpl.
  - left. rewrite getAttribute_setAttribute_ne by done. by apply hasAttribute_true.
  - destruct (String.eqb_spec (tagName e) "BUTTON") as [Hb|Hb]; simpl; [by right; left|].
    destruct (String.eqb_spec (tagName e) "A") as [Ha|Ha]; simpl; [by right; right|].
    left. rewrite getAttribute_setAttribute_ne by done.
    rewrite getAttribute_setAttribute. by case_decide.
Qed.

Lemma roles_ok_wire_el g e : roles_ok g (wire_el g e).
Proof.
  pose proof (same_static_wire_el g e) as Hst.
  unfold roles_ok.
  rewrite <-(static_pred_isPanel g _ _ Hst), <-(static_pred_isTrigger g _ _ Hst).
  unfold wire_el. cbv zeta. split.
  - intros ->. rewrite getAttribute_setAttribute. by case_decide.
  - intros -> ->. split; [|apply focusable_wireTrigger].
    unfold wireTrigger. cbv zeta. rewrite getAttribute_setAttribute. by case_decide.
Qed.

Lemma roles_ok_wire_other g g' e : g' ≠ g → roles_ok g' e → roles_ok g' (wire_el g e).
Proof.
  intros Hne Hok.
  destruct (isTrigger g e) eqn:Ht; [|destruct (isPanel g e) eqn:Hp].
  - pose proof (same_static_wire_el g e) as Hst. unfold roles_ok.
    rewrite <-(static_pred_isPanel g' _ _ Hst), <-(static_pred_isTrigger g' _ _ Hst).
    apply isTrigger_true in Ht as [Hg _].
    assert (attribute_is ATTR.group g' e = false) as Hno.
    { apply attribute_is_false. congruence. }
    unfold isPanel, isTrigger. rewrite Hno. done.
  - pose proof (same_static_wire_el g e) as Hst. unfold roles_ok.
    rewrite <-(static_pred_isPanel g' _ _ Hst), <-(static_pred_isTrigger g' _ _ Hst).
    apply isPanel_true in Hp as [Hg _].
    assert (attribute_is ATTR.group g' e = false) as Hno.
    { apply attribute_is_false. congruence. }
    unfold isPanel, isTrigger. rewrite Hno. done.
  - unfold wire_el. by rewrite Ht, Hp.
Qed.

Lemma roles_ok_keeps T g e e' : keeps aria_keys T e e' → roles_ok g e → roles_ok g e'.
Proof.
  intros Hk [H1 H2].
  assert (same_static e e') as Hst.
  { eapply keeps_static, keeps_weaken; [apply aria_keys_dynamic|done]. }
  destruct Hk as (Htag & Hattr & _). unfold roles_ok, focusable, getAttribute in *.
  rewrite <-(static_pred_isPanel g _ _ Hst), <-(static_pred_isTrigger g _ _ Hst).
  rewrite <-Htag, <-!Hattr by (unfold aria_keys; set_solver). done.
Qed.

Lemma Roles_keep T s s' :
  Roles s → Forall2 (keeps aria_keys T) (document s) (document s') →
  tabsGroups s' = tabsGroups s → Roles s'.
Proof.
  intros HR Hk Hreg g i e' Hg He'. rewrite Hreg in Hg.
  eapply Forall2_lookup_r in Hk as (e & He & Hke); [|done].
  eapply roles_ok_keeps; [done|]. by eapply HR.
Qed.

Ltac aria_side :=
  solve [ unfold aria_keys; set_solver | reflexivity ].

Lemma Roles_activateTab g t s : Roles s → Roles (activateTab g t s).
Proof.
  intros HR. eapply (Roles_keep (λ _, true)); [done| |].
  - apply keeps_activateTab; aria_side.
  - by destruct (activateTab_keeps g t s).
Qed.

Lemma Roles_timeout k s : Roles s → Roles (timeout k s).
Proof.
  intros HR. eapply (Roles_keep (λ _, true)); [done| |].
  - apply keeps_timeout; aria_side.
  - by destruct (timeout_keeps k s) as (_ & _ & ?).
Qed.

Section RolesAndFocus.

Variable parseInt : string → number.

Lemma Roles_initTabsGroup g s : Roles s → Roles (initTabsGroup parseInt g s).
Proof.
  intros HR.
  destruct (queryTriggers (document s) g) as [|t0 rest] eqn:Htr.
  { by rewrite initTabsGroup_no_triggers. }
  destruct (queryPanels (document s) g) as [|p0 ps] eqn:Hpn.
  { rewrite initTabsGroup_no_panels; by rewrite ?Htr. }
  rewrite (initTabsGroup_registers _ _ _ _ _ Htr) by (by rewrite Hpn). cbv zeta.
  set (group := newGroup parseInt g (document s) t0).
  intros g' i e' Hg' He'. cbn [document tabsGroups with_document register] in *.
  assert (∃ e1, wire g (triggers group) (panels group) (document s) !! i = Some e1
                ∧ keeps aria_keys (λ _, true) e1 e') as (e1 & He1 & Hk).
  { unfold initDocument in He'. cbv zeta in He'. change (name group) with g in He'.
    destruct (defaultTabId _ _) as [t|]; [destruct (truthy t)|];
      try (exists e'; split; [done|reflexivity]).
    pose proof (keeps_activateTabInstant aria_keys (λ _, true)
                  ltac:(aria_side) ltac:(aria_side) ltac:(aria_side) ltac:(aria_side)
                  group t (wire g (triggers group) (panels group) (document s))
                  eq_refl) as Hleq.
    eapply Forall2_lookup_r in Hleq as (e1 & He1 & Hl); [|done]. eauto. }
  change (triggers group) with (queryTriggers (document s) g) in He1.
  change (panels group) with (queryPanels (document s) g) in He1.
  rewrite wire_lookup in He1. apply fmap_Some in He1 as (e & He & ->).
  eapply roles_ok_keeps; [done|].
  destruct (decide (g' = g)) as [->|Hne]; [apply roles_ok_wire_el|].
  apply roles_ok_wire_other; [done|]. rewrite lookup_insert_ne in Hg' by done.
  by eapply HR.
Qed.

Lemma Roles_switchTab g t s : Roles s → Roles (switchTab parseInt g t s).
Proof.
  intros H. unfold switchTab. destruct (has g s); [by apply Roles_activateTab|].
  cbv zeta. pose proof (Roles_initTabsGroup g s H) as H'.
  destruct (has g (initTabsGroup parseInt g s)); [by apply Roles_activateTab|done].
Qed.

Lemma Roles_click i s : Roles s → Roles (click i s).
Proof.
  intros H. unfold click. destruct (document s !! i) as [e|]; [|done].
  generalize (listeners e). intros ls. revert s H.
  induction ls as [|l ls IH]; intros s H; [done|]. simpl. apply IH.
  destruct l as [g|]; [|done]. unfold onClick.
  destruct (getAttributeAt _ _ _) as [t|]; [|done].
  destruct (truthy t); [|done]. by apply Roles_activateTab.
Qed.

Lemma Roles_keydown i key s : Roles s → Roles (keydown i key s).
Proof.
  intros H. unfold keydown. destruct (document s !! i) as [e|]; [|done].
  generalize (listeners e). intros ls. revert s H.
  induction ls as [|l ls IH]; intros s H; [done|]. simpl. apply IH.
  destruct l as [g|]; [done|].
  destruct (_ || _); [|done]. by apply Roles_click.
Qed.

Lemma Roles_initAllTabs s : Roles s → Roles (initAllTabs parseInt s).
Proof.
  intros H. rewrite initAllTabs_eq.
  assert (Roles (foldl (λ s g, initTabsGroup parseInt g s) s
                   (groupNames (document s)))) as H'.
  { generalize (groupNames (document s)). intros names. revert s H.
    induction names as [|g names IH]; intros s H; [done|].
    simpl. apply IH. by apply Roles_initTabsGroup. }
  done.
Qed.

Lemma Roles_run evs s : Roles s → Roles (run parseInt evs s).
Proof.
  revert s. induction evs as [|ev evs IH]; intros s H; [done|].
  simpl. apply IH. destruct ev; simpl.
  - by apply Roles_initAllTabs.
  - by apply Roles_switchTab.
  - by apply Roles_click.
  - by apply Roles_keydown.
  - by apply Roles_timeout.
Qed.


End RolesAndFocus.

(** ** The animated transition, start to end *)

Lemma clean_not_entering A e :
  A ≠ ANIM_CLASS.entering → clean A e → ANIM_CLASS.entering ∉ classList e.
Proof. intros HA Hc Hin. apply HA. symmetry. apply (Hc _ Hin). by right. Qed.

Lemma clean_rm_leaving A l e :
  clean A e → l = classList e → rm ANIM_CLASS.leaving (rm A l) = rm A l.
Proof.
  intros Hc ->. apply rm_notin. rewrite elem_of_rm. intros [Hin Hne].
  apply Hne. apply (Hc _ Hin). by left.
Qed.

Lemma clean_rm_entering A l e :
  clean A e → l = classList e → rm ANIM_CLASS.entering (rm A l) = rm A l.
Proof.
  intros Hc ->. apply rm_notin. rewrite elem_of_rm. intros [Hin Hne].
  apply Hne. apply (Hc _ Hin). by right.
Qed.

(** On a clean panel, cleaning up is hiding. *)
Lemma hideClean_clean A e : clean A e → hideClean A e = hide A e.
Proof.
  intros Hc. unfold hideClean, hide. f_equal. apply element_eq; try done.
  rewrite !classList_remove.
  by rewrite (clean_rm_leaving A _ e Hc), (clean_rm_entering A _ e Hc).
Qed.

(** The current panel, after both phases, is as after hiding it. *)
Lemma exit_clean A e :
  clean A e →
  hideClean A (setAttribute "aria-hidden" "true"
                 (classList.remove ANIM_CLASS.leaving (exit_el A e)))
  = hide A e.
Proof.
  intros Hc. unfold hideClean, hide, exit_el. apply element_eq; try done.
  - simpl. by rewrite insert_insert_eq.
  - rewrite !classList_setAttribute, !classList_remove, classList_setAttribute,
      !classList_remove, classList_add.
    set (L := ANIM_CLASS.leaving). set (E := ANIM_CLASS.entering).
    set (l := classList e).
    assert (rm L (rm A (ad L l)) = rm A l) as H1.
    { rewrite (rm_comm L A), rm_ad_same, (rm_comm A L).
      by apply (clean_rm_leaving A _ e). }
    rewrite H1, rm_idem, (clean_rm_leaving A _ e Hc) by done.
    by apply (clean_rm_entering A _ e).
Qed.

(** A panel that comes in, after both phases, is as after showing it. *)
Lemma enter_clean A e :
  A ≠ ANIM_CLASS.entering → clean A e → A ∉ classList e →
  classList.remove ANIM_CLASS.entering
    (classList.add A
       (setAttribute "aria-hidden" "false" (classList.add ANIM_CLASS.entering e)))
  = show A (hide A e).
Proof.
  intros HA Hc Hn. pose proof (clean_not_entering _ _ HA Hc) as HE.
  unfold show, hide. apply element_eq; try done.
  - simpl. by rewrite insert_insert_eq.
  - rewrite classList_remove, classList_add, !classList_setAttribute, !classList_add,
      classList_setAttribute, classList_remove.
    set (E := ANIM_CLASS.entering) in *. set (l := classList e) in *.
    rewrite (ad_notin E l) by done.
    rewrite (ad_notin A (l ++ [E])).
    + rewrite !rm_app, rm_self, (rm_notin E l), (rm_other A E), app_nil_r by done.
      by rewrite (rm_notin A l), (ad_notin A l).
    + rewrite elem_of_app, list_elem_of_singleton. by intros [?|?].
Qed.

Lemma clean_hideClean A e : clean A (hideClean A e).
Proof.
  intros c Hin Hc. unfold hideClean in Hin.
  rewrite classList_setAttribute, !classList_remove, !elem_of_rm in Hin.
  destruct Hin as [[_ HL] HE]. by destruct Hc.
Qed.

Lemma clean_hide A e : clean A e → clean A (hide A e).
Proof.
  intros H c Hin. unfold hide in Hin.
  rewrite classList_setAttribute, classList_remove, elem_of_rm in Hin.
  apply H. tauto.
Qed.

Lemma clean_show A e : clean A e → clean A (show A e).
Proof.
  intros H c Hin Hc. unfold show in Hin.
  rewrite classList_setAttribute, classList_add, elem_of_ad in Hin.
  destruct Hin as [Hin| ->]; [by apply H|done].
Qed.

Lemma clean_switchPanels_el group next i e :
  clean (activeClass group) e → clean (activeClass group) (switchPanels_el group next i e).
Proof.
  intros H. unfold switchPanels_el. cbv zeta.
  destruct (includes (panels group) i), (includes next i);
    auto using clean_hide, clean_show.
Qed.

Lemma clean_instant_el group t i e :
  i ∈ panels group → i ∉ triggers group →
  clean (activeClass group) (instant_el group t i e).
Proof.
  intros Hi Hn. unfold instant_el, instant_set, instant_reset.
  apply includes_true in Hi. apply includes_false in Hn. rewrite Hi, Hn. simpl.
  destruct (attribute_is _ _ _); [apply clean_show|]; apply clean_hideClean.
Qed.

Lemma clean_phaseTwo_el ps A cur next i e :
  A ≠ ANIM_CLASS.entering → includes ps i = true →
  (i ≠ cur → clean A e) → clean A (phaseTwo_el ps A cur next i e).
Proof.
  intros HA Hps Hc. unfold phaseTwo_el. cbv zeta. rewrite Hps.
  destruct (includes next i); simpl; [|apply clean_hideClean].
  intros c Hin Hcase.
  rewrite classList_remove, classList_add, classList_setAttribute, classList_add in Hin.
  rewrite elem_of_rm, !elem_of_ad in Hin. destruct Hin as [[[Hin|?]|?] HE]; [|done..].
  destruct Hcase as [->|?]; [|done].
  destruct (decide (cur = i)) as [->|Hne].
  - rewrite classList_setAttribute, classList_remove, elem_of_rm in Hin. by destruct Hin.
  - apply Hc; [by apply not_eq_sym|done|by left].
Qed.

Lemma pending_nil_inv a ts cb : pending a ts = [] → cb ∈ ts → cb_group cb ≠ a.
Proof.
  intros Hp Hin Heq. unfold pending in Hp.
  assert (cb ∈ List.filter (λ cb, Nat.eqb (cb_group cb) a) ts) as H.
  { rewrite list_elem_of_In, filter_In, <-list_elem_of_In. split; [done|].
    by apply Nat.eqb_eq. }
  rewrite Hp in H. by apply elem_of_nil in H.
Qed.

Lemma updateTriggers_el_panel d0 g group t i e :
  wf_page d0 → group_ok d0 g group → i ∈ panels group →
  updateTriggers_el group t i e = e.
Proof.
  intros Hwf Hok Hi. unfold updateTriggers_el.
  assert (i ∉ triggers group) as Hn.
  { intros Ht. by apply (trigger_not_panel _ _ _ _ Hwf Hok Ht). }
  apply includes_false in Hn. by rewrite Hn.
Qed.

Lemma elem_of_delete_other {X} (l : list X) k x y :
  l !! k = Some y → x ∈ l → x ≠ y → x ∈ delete k l.
Proof.
  intros Hk Hin Hne. destruct (lookup_delete_split _ _ _ Hk) as (l1 & l2 & -> & ->).
  rewrite elem_of_app in *. rewrite elem_of_cons in Hin. naive_solver.
Qed.

(** Properties of the elements of a group that every operation of the module
    re-establishes or preserves are kept in every state the page reaches. *)
Section Kept.

Context (P Q : string → HTMLElement → Prop).

Hypothesis P_deselect : ∀ A e, P A (deselect A e).
Hypothesis P_select : ∀ A e, P A (select A (deselect A e)).
Hypothesis Q_hide : ∀ A e, Q A e → Q A (hide A e).
Hypothesis Q_show : ∀ A e, Q A e → Q A (show A e).
Hypothesis Q_hideClean : ∀ A e, Q A (hideClean A e).
Hypothesis Q_phaseTwo : ∀ ps A cur next i e,
  A ≠ ANIM_CLASS.entering → includes ps i = true →
  (i ≠ cur → Q A e) → Q A (phaseTwo_el ps A cur next i e).

Lemma Kept_update d0 s s' g a group' :
  Inv d0 s → Kept P Q s →
  tabsGroups s !! g = Some a →
  tabsGroups s' = tabsGroups s →
  heap s' !! a = Some group' →
  (∀ a', a' ≠ a → heap s' !! a' = heap s !! a') →
  (∀ i, ¬ members d0 g i → document s' !! i = document s !! i) →
  (∀ cb, cb ∈ timers s → cb_group cb ≠ a → cb ∈ timers s') →
  triggers_keep P (document s') group' →
  panels_keep Q (document s') (timers s') a group' →
  Kept P Q s'.
Proof.
  intros HI HC Hg Hreg Hheap' Hother Hfr Hts Htrig Hmine g1 a1 group1 Hg1 Hh1.
  rewrite Hreg in Hg1. destruct (decide (a1 = a)) as [->|Hne].
  - assert (group1 = group') as -> by congruence. done.
  - rewrite Hother in Hh1 by done.
    destruct (inv_groups _ _ HI g1 a1 Hg1) as (group1' & Hh1' & Hok1 & _).
    assert (group1' = group1) as -> by congruence.
    destruct (HC g1 a1 group1 Hg1 Hh1) as [HP1 HQ1].
    assert (∀ i, i ∈ triggers group1 ∨ i ∈ panels group1 → ¬ members d0 g i) as Hnm.
    { intros i Hi Hm. assert (members d0 g1 i) as Hm1.
      { destruct Hok1 as (_ & Ht1 & Hp1 & _). unfold members. by rewrite <-Ht1, <-Hp1. }
      assert (g1 = g) as -> by (by eapply members_disjoint). congruence. }
    split.
    + intros i e Hi He. rewrite Hfr in He by auto. by apply (HP1 i e).
    + intros i e Hi He Hcur. rewrite Hfr in He by auto.
      apply (HQ1 i e Hi He).
      intros ps A cur next Hin. eapply Hcur. by apply Hts.
Qed.

Lemma Kept_console s c :
  Kept P Q s → Kept P Q (mkState (document s) (heap s) (tabsGroups s) (timers s) c).
Proof. done. Qed.

Lemma idle_panels_kept d0 s g a group :
  Inv d0 s → Kept P Q s → tabsGroups s !! g = Some a → heap s !! a = Some group →
  isAnimating group = false →
  ∀ i e, i ∈ panels group → document s !! i = Some e → Q (activeClass group) e.
Proof.
  intros HI HC Hreg Hheap Hidle i e Hi He.
  destruct (inv_groups _ _ HI g a Hreg) as (group1 & Hheap1 & Hok & Hph).
  assert (group1 = group) as -> by congruence.
  destruct (phase_idle _ _ _ _ _ Hph Hidle) as [Hpen _].
  apply (proj2 (HC g a group Hreg Hheap) i e Hi He).
  intros ps A cur next Hin. by destruct (pending_nil_inv _ _ _ Hpen Hin).
Qed.

Lemma P_updateTriggers_el group t i e :
  i ∈ triggers group → P (activeClass group) (updateTriggers_el group t i e).
Proof.
  intros Hi. unfold updateTriggers_el. apply includes_true in Hi. rewrite Hi.
  by destruct (attribute_is _ _ _).
Qed.

Lemma activateTab_Kept d0 g t s :
  wf_page d0 → Inv d0 s → Kept P Q s → Kept P Q (activateTab g t s).
Proof.
  intros Hwf HI HC. rewrite activateTab_eq.
  destruct (get g s) as [[a group]|] eqn:Hget; [|by apply Kept_console].
  apply get_Some in Hget as [Hreg Hheap].
  destruct (inv_groups _ _ HI g a Hreg) as (group1 & Hheap1 & Hok & Hph).
  assert (group1 = group) as -> by congruence. clear Hheap1.
  destruct (isAnimating group) eqn:Hidle; [done|].
  destruct (sameTab group t (document s)) eqn:Hsame; [done|].
  pose proof (idle_panels_kept _ _ _ _ _ HI HC Hreg Hheap Hidle) as Hclean.
  assert (Kept P Q (with_document
                      (switchPanels group (nextPanelsOf group t (document s))
                         (updateTriggers group t (document s))) s)) as Hinst.
  { apply (Kept_update d0 s _ g a group); try done.
    - intros i Hi. simpl. destruct (not_members _ _ _ _ Hok Hi) as [Hnt Hnpn].
      rewrite switchPanels_frame, updateTriggers_frame; try done.
      intros H. by apply nextPanelsOf_subset in H.
    - intros i e' Hi He'. simpl in He'.
      rewrite switchPanels_frame in He'.
      + rewrite updateTriggers_lookup in He'. apply fmap_Some in He' as (e & _ & ->).
        by apply P_updateTriggers_el.
      + by apply (trigger_not_panel _ _ _ _ Hwf Hok).
      + intros H%nextPanelsOf_subset. by apply (trigger_not_panel _ _ _ _ Hwf Hok Hi).
    - intros i e' Hi He' _. simpl in He'.
      rewrite switchPanels_lookup, updateTriggers_lookup in He'.
      destruct (document s !! i) as [e|] eqn:He; [|done]. simpl in He'.
      injection He' as <-. rewrite (updateTriggers_el_panel d0 g) by done.
      unfold switchPanels_el. cbv zeta.
      destruct (includes (panels group) i), (includes _ i); eauto. }
  cbv zeta. destruct (animate group); [|done].
  destruct (currentPanelOf group (document s)) as [p|] eqn:Hcur; [|done].
  pose proof Hcur as [Hp _]%currentPanelOf_Some.
  apply (Kept_update d0 s _ g a (with_isAnimating true group)); try done.
  - simpl. by rewrite list_lookup_alter_eq, Hheap.
  - intros a' Hne. simpl. by rewrite list_lookup_alter_ne.
  - intros i Hi. simpl. destruct (not_members _ _ _ _ Hok Hi) as [Hnt Hnpn].
    rewrite list_lookup_alter_ne; [by apply updateTriggers_frame|]. by intros <-.
  - intros cb Hin _. simpl. apply elem_of_app. by left.
  - intros i e' Hi He'. cbn [activeClass triggers with_isAnimating] in *.
    simpl in He'. rewrite list_lookup_alter_ne in He'.
    + rewrite updateTriggers_lookup in He'. apply fmap_Some in He' as (e & _ & ->).
      by apply P_updateTriggers_el.
    + intros <-. by apply (trigger_not_panel _ _ _ _ Hwf Hok Hi).
  - intros i e' Hi He' Hnot. cbn [activeClass panels with_isAnimating] in *.
    simpl in He', Hnot.
    assert (i ≠ p) as Hip.
    { eapply Hnot. apply elem_of_app. right. apply list_elem_of_singleton. done. }
    rewrite list_lookup_alter_ne in He' by (by apply not_eq_sym).
    rewrite updateTriggers_lookup in He'.
    destruct (document s !! i) as [e|] eqn:He; [|done]. simpl in He'.
    injection He' as <-. rewrite (updateTriggers_el_panel d0 g) by done.
    by eapply Hclean.
Qed.

Lemma timeout_Kept d0 k s :
  wf_page d0 → Inv d0 s → Kept P Q s → Kept P Q (timeout k s).
Proof.
  intros Hwf HI HC. unfold timeout.
  destruct (timers s !! k) as [cb|] eqn:Hk; [|done].
  destruct (inv_timers _ _ HI cb (list_elem_of_lookup_2 _ _ _ Hk)) as [g Hreg].
  destruct (inv_groups _ _ HI g _ Hreg) as (group & Hheap & Hok & Hph).
  destruct (HC g _ group Hreg Hheap) as [HP1 HQ1].
  destruct (lookup_delete_split _ _ _ Hk) as (l1 & l2 & Hts & Hdel).
  unfold phase_ok in Hph.
  rewrite Hts, pending_app, pending_cons_eq in Hph by done.
  assert (pending (cb_group cb) l1 = [] ∧ pending (cb_group cb) l2 = []) as [Hl1 Hl2].
  { destruct (pending (cb_group cb) l1) as [|[] [|? ?]],
             (pending (cb_group cb) l2) as [|? ?], cb; simpl in Hph; done. }
  rewrite Hl1, Hl2 in Hph. simpl in Hph.
  assert (∀ cb', cb' ∈ timers s → cb_group cb' = cb_group cb → cb' = cb) as Honly.
  { intros cb' Hin Heq. rewrite Hts, elem_of_app, elem_of_cons in Hin.
    destruct Hin as [Hin|[?|Hin]]; [|done|].
    - by destruct (pending_nil_inv _ _ _ Hl1 Hin).
    - by destruct (pending_nil_inv _ _ _ Hl2 Hin). }
  assert (∀ cb', cb' ∈ timers s → cb_group cb' ≠ cb_group cb →
                 cb' ∈ delete k (timers s)) as Hkeep.
  { intros cb' Hin Hne. eapply elem_of_delete_other; [done..|]. by intros ->. }
  destruct cb as [a ps A cur next|a]; cbn [cb_group] in *.
  - destruct Hph as (Han & -> & -> & Hcur & c & -> & Htrig).
    rewrite runCallback_PhaseTwo.
    apply (Kept_update d0 s _ g a group); try done.
    + intros i Hi. simpl. destruct (not_members _ _ _ _ Hok Hi) as [Hnt Hnp].
      apply phaseTwo_frame; [by intros ->|done|].
      intros H. by apply nextPanelsOf_subset in H.
    + intros cb' Hin Hne. simpl. apply elem_of_app. left. by apply Hkeep.
    + intros i e' Hi He'. simpl in He'.
      pose proof (trigger_not_panel _ _ _ _ Hwf Hok Hi) as Hnp.
      rewrite phaseTwo_frame in He'; [by apply (HP1 i e')|by intros ->|done|].
      intros H. by apply nextPanelsOf_subset in H.
    + intros i e' Hi He' _. simpl in He'. rewrite phaseTwo_lookup in He'.
      apply fmap_Some in He' as (e & He & ->).
      apply Q_phaseTwo; [by destruct Hok as (_ & _ & _ & ?)|
                         by apply includes_true|].
      intros Hne. apply (HQ1 i e Hi He).
      intros ps' A' cur' next' Hin. apply Honly in Hin; [|done]. congruence.
  - destruct Hph as (Han & c & Hc). cbn [runCallback].
    apply (Kept_update d0 s _ g a (with_isAnimating false group)); try done.
    + simpl. by rewrite list_lookup_alter_eq, Hheap.
    + intros a' Hne. simpl. by rewrite list_lookup_alter_ne.
    + intros i e Hi He _. cbn [activeClass panels with_isAnimating] in *.
      simpl in He. apply (HQ1 i e Hi He).
      intros ps' A' cur' next' Hin. by apply Honly in Hin.
Qed.

Variable parseInt : string → number.

Lemma initTabsGroup_Kept d0 g s :
  wf_page d0 → Inv d0 s → Kept P Q s → tabsGroups s !! g = None →
  Kept P Q (initTabsGroup parseInt g s).
Proof.
  intros Hwf HI HC Hnone. pose proof (inv_static _ _ HI) as Hst.
  destruct (queryTriggers (document s) g) as [|t0 rest] eqn:Ht.
  { rewrite initTabsGroup_no_triggers by done. by apply Kept_console. }
  destruct (queryPanels (document s) g) as [|p0 ps] eqn:Hp.
  { rewrite initTabsGroup_no_panels by (by rewrite ?Ht). by apply Kept_console. }
  rewrite (initTabsGroup_registers _ _ _ _ _ Ht) by (by rewrite Hp). cbv zeta.
  set (group := newGroup parseInt g (document s) t0).
  intros g1 a1 group1. simpl. destruct (decide (g1 = g)) as [->|Hne].
  - rewrite lookup_insert_eq. intros [= <-].
    rewrite lookup_app_r, Nat.sub_diag by done. intros [= <-].
    destruct (defaultTabId_is_Some (document s) (queryTriggers (document s) g))
      as (j & tabId & Hj & Hattr & Hdef); [by rewrite Ht| |].
    { intros j. apply queryTriggers_attribute. }
    assert (tabId ≠ "") as Htab.
    { rewrite <-(static_eq_getAttributeAt d0 (document s)) in Hattr by auto with static.
      apply getAttributeAt_elem in Hattr as (e & He & Hattr).
      intros ->. by apply (wf_tab _ Hwf e). }
    assert (initDocument group (document s)
            = activateTabInstant group tabId
                (wire g (triggers group) (panels group) (document s))) as ->.
    { unfold initDocument. cbv zeta.
      rewrite <-(static_eq_defaultTabId (document s)) by apply static_eq_wire.
      change (triggers group) with (queryTriggers (document s) g).
      by rewrite Hdef, (proj2 (truthy_true tabId) Htab). }
    assert (∀ i, i ∈ triggers group → i ∉ panels group) as Hdisj.
    { intros i Hi Hc.
      change (triggers group) with (queryTriggers (document s) g) in Hi.
      change (panels group) with (queryPanels (document s) g) in Hc.
      rewrite <-(static_eq_queryPanels d0 (document s)) in Hc by done.
      rewrite <-(static_eq_queryTriggers d0 (document s)) in Hi by done.
      by apply (roles_disjoint d0 g g i Hwf Hi). }
    split.
    + intros i e' Hi He'. rewrite activateTabInstant_lookup in He'.
      apply fmap_Some in He' as (e1 & _ & ->).
      unfold instant_el, instant_set, instant_reset.
      pose proof (Hdisj i Hi) as Hn.
      apply includes_true in Hi. apply includes_false in Hn. rewrite Hi, Hn.
      simpl. by destruct (attribute_is _ _ _).
    + intros i e' Hi He' _. rewrite activateTabInstant_lookup in He'.
      apply fmap_Some in He' as (e1 & _ & ->).
      unfold instant_el, instant_set, instant_reset.
      assert (i ∉ triggers group) as Hn by (intros Hc; by apply (Hdisj i)).
      apply includes_true in Hi. apply includes_false in Hn. rewrite Hi, Hn.
      simpl. destruct (attribute_is _ _ _); auto.
  - rewrite lookup_insert_ne by done. intros Hg1 Hh1.
    destruct (inv_groups _ _ HI g1 a1 Hg1) as (group1' & Hh1' & Hok1 & _).
    rewrite (lookup_app_l_Some _ _ _ _ Hh1') in Hh1. injection Hh1 as <-.
    destruct (HC g1 a1 group1' Hg1 Hh1') as [HP1 HQ1].
    assert (∀ i, i ∈ triggers group1' ∨ i ∈ panels group1' →
                 initDocument group (document s) !! i = document s !! i) as Hfr.
    { intros i Hi.
      assert (members d0 g1 i) as Hm1.
      { destruct Hok1 as (_ & Ht1 & Hp1 & _). unfold members. by rewrite <-Ht1, <-Hp1. }
      apply initDocument_frame.
      - intros Hm. change (triggers group) with (queryTriggers (document s) g) in Hm.
        rewrite <-(static_eq_queryTriggers d0) in Hm by done.
        apply Hne. eapply (members_disjoint d0 g1 g i); [done|by left].
      - intros Hm. change (panels group) with (queryPanels (document s) g) in Hm.
        rewrite <-(static_eq_queryPanels d0) in Hm by done.
        apply Hne. eapply (members_disjoint d0 g1 g i); [done|by right]. }
    split.
    + intros i e Hi He. rewrite Hfr in He by auto. by apply (HP1 i e).
    + intros i e Hi He Hcur. rewrite Hfr in He by auto. by apply (HQ1 i e).
Qed.

Lemma switchTab_Inv_Kept d0 g t s :
  wf_page d0 → Inv d0 s → Kept P Q s →
  Inv d0 (switchTab parseInt g t s) ∧ Kept P Q (switchTab parseInt g t s).
Proof.
  intros Hwf HI HC. split; [by apply switchTab_Inv|].
  unfold switchTab. destruct (has g s) eqn:Hhas.
  - by eapply activateTab_Kept.
  - assert (tabsGroups s !! g = None) as Hnone.
    { unfold has in Hhas. apply bool_decide_eq_false in Hhas.
      by apply eq_None_not_Some. }
    pose proof (initTabsGroup_Inv parseInt d0 g s Hwf HI Hnone) as HI'.
    pose proof (initTabsGroup_Kept d0 g s Hwf HI HC Hnone) as HC'.
    cbv zeta. destruct (has g (initTabsGroup parseInt g s));
      [by eapply activateTab_Kept|by apply Kept_console].
Qed.

Lemma click_Inv_Kept d0 i s :
  wf_page d0 → Inv d0 s → Kept P Q s → Inv d0 (click i s) ∧ Kept P Q (click i s).
Proof.
  intros Hwf HI HC. unfold click. destruct (document s !! i) as [e|]; [|done].
  generalize (listeners e). intros ls. revert s HI HC.
  induction ls as [|l ls IH]; intros s HI HC; [done|]. simpl.
  destruct l as [g|]; [|by apply IH]. unfold onClick.
  destruct (getAttributeAt _ _ _) as [t|]; [|by apply IH].
  destruct (truthy t); [|by apply IH].
  apply IH; [by apply activateTab_Inv|by eapply activateTab_Kept].
Qed.

Lemma keydown_Inv_Kept d0 i key s :
  wf_page d0 → Inv d0 s → Kept P Q s →
  Inv d0 (keydown i key s) ∧ Kept P Q (keydown i key s).
Proof.
  intros Hwf HI HC. unfold keydown. destruct (document s !! i) as [e|]; [|done].
  generalize (listeners e). intros ls. revert s HI HC.
  induction ls as [|l ls IH]; intros s HI HC; [done|]. simpl.
  destruct l as [g|]; [by apply IH|].
  destruct (_ || _); [|by apply IH].
  destruct (click_Inv_Kept d0 i s Hwf HI HC). by apply IH.
Qed.

Lemma initAllTabs_Kept d0 : wf_page d0 → Kept P Q (initAllTabs parseInt (page d0)).
Proof.
  intros Hwf. rewrite initAllTabs_eq. apply Kept_console.
  assert (Inv d0 (page d0)) as H0.
  { split; [done| |]; simpl; intros; [by rewrite lookup_empty in *|by apply elem_of_nil in H]. }
  assert (Kept P Q (page d0)) as H1.
  { intros g a group H. simpl in H. by rewrite lookup_empty in H. }
  assert (∀ g, g ∈ groupNames d0 → tabsGroups (page d0) !! g = None) as Hfree by done.
  pose proof (NoDup_groupNames d0) as Hnd. change (document (page d0)) with d0.
  revert H0 H1 Hfree. generalize (page d0). generalize dependent (groupNames d0).
  intros names Hnd.
  induction Hnd as [|g names Hg Hnd IH]; intros s HI HC Hfree; [done|].
  assert (tabsGroups s !! g = None) as Hnone.
  { apply Hfree, elem_of_cons. by left. }
  simpl. apply IH.
  - by apply initTabsGroup_Inv.
  - by apply (initTabsGroup_Kept d0).
  - intros g' Hg'. rewrite initTabsGroup_registry_other by (by intros ->).
    apply Hfree, elem_of_cons. by right.
Qed.

Lemma run_Inv_Kept d0 evs s :
  wf_page d0 → InitAllTabs ∉ evs → Inv d0 s → Kept P Q s →
  Inv d0 (run parseInt evs s) ∧ Kept P Q (run parseInt evs s).
Proof.
  intros Hwf. revert s. induction evs as [|ev evs IH]; intros s Hev HI HC; [done|].
  apply not_elem_of_cons in Hev as [Hne Hev]. simpl.
  assert (Inv d0 (step parseInt s ev) ∧ Kept P Q (step parseInt s ev)) as [HI' HC'].
  { destruct ev as [|g t|i|i key|k]; simpl; [done|..].
    - by apply switchTab_Inv_Kept.
    - by apply click_Inv_Kept.
    - by apply keydown_Inv_Kept.
    - split; [by apply timeout_Inv|by eapply timeout_Kept]. }
  by apply IH.
Qed.

Lemma reachable_Kept d0 evs :
  wf_page d0 → InitAllTabs ∉ evs →
  let s := run parseInt evs (initAllTabs parseInt (page d0)) in
  Inv d0 s ∧ Kept P Q s.
Proof.
  intros Hwf Hev. apply run_Inv_Kept; [done..|by apply initAllTabs_Inv|].
  by apply initAllTabs_Kept.
Qed.

End Kept.

(** The panels of a group carry no stray animation class. *)
Lemma reachable_clean parseInt d0 evs :
  wf_page d0 → InitAllTabs ∉ evs →
  let s := run parseInt evs (initAllTabs parseInt (page d0)) in
  Inv d0 s ∧ Kept (λ _ _, True) clean s.
Proof.
  apply reachable_Kept; auto using clean_hide, clean_show, clean_hideClean,
    clean_phaseTwo_el.
Qed.

Lemma delete_last {X} (l : list X) x : delete (length l) (l ++ [x]) = l.
Proof. induction l as [|y l IH]; [done|]. simpl. by rewrite IH. Qed.

Lemma timeout_last ts cb s :
  timers s = ts ++ [cb] → timeout (length ts) s = runCallback cb (with_timers ts s).
Proof.
  intros H. unfold timeout. rewrite H, lookup_app_r, Nat.sub_diag by done.
  simpl. by rewrite delete_last.
Qed.

Lemma timeout_none k s : (length (timers s) ≤ k)%nat → timeout k s = s.
Proof. intros H. unfold timeout. by rewrite (proj2 (lookup_ge_None _ _) H). Qed.

Lemma heap_unlocked (a : nat) (group : TabsGroup) (h : list TabsGroup) :
  h !! a = Some group → isAnimating group = false →
  alter (with_isAnimating false) a (alter (with_isAnimating true) a h) = h.
Proof.
  intros Ha Hidle. apply list_eq. intros j. destruct (decide (a = j)) as [->|Hne].
  - rewrite !list_lookup_alter_eq, Ha. simpl. f_equal.
    destruct group. simpl in *. by subst.
  - by rewrite !list_lookup_alter_ne.
Qed.

Lemma settled_current_sameTab group d c p :
  settled d group c → currentPanelOf group d = Some p → sameTab group c d = true.
Proof.
  intros [_ Hp] Hcur. unfold sameTab. rewrite Hcur.
  apply currentPanelOf_Some in Hcur as [Hin (e & He & HA)].
  apply includes_true, elem_of_filterEl. split; [done|].
  rewrite (test_lookup _ _ _ _ He). apply attribute_is_true. by apply (Hp p e).
Qed.

(** The page after the two phases is the page of the instant switch. *)
Lemma animation_page d0 g group t d c p :
  wf_page d0 → group_ok d0 g group → settled d group c →
  (∀ i e, i ∈ panels group → d !! i = Some e → clean (activeClass group) e) →
  currentPanelOf group d = Some p → sameTab group t d = false →
  phaseTwo (panels group) (activeClass group) p (nextPanelsOf group t d)
    (alter (exit_el (activeClass group)) p (updateTriggers group t d))
  = switchPanels group (nextPanelsOf group t d) (updateTriggers group t d).
Proof.
  intros Hwf Hok Hset Hclean Hcur Hsame.
  assert (c ≠ t) as Hct.
  { intros ->. by rewrite (settled_current_sameTab _ _ _ _ Hset Hcur) in Hsame. }
  assert (includes (nextPanelsOf group t d) p = false) as Hpn.
  { unfold sameTab in Hsame. by rewrite Hcur in Hsame. }
  pose proof Hcur as [Hp _]%currentPanelOf_Some.
  apply list_eq. intros i. rewrite phaseTwo_lookup, switchPanels_lookup.
  assert (alter (exit_el (activeClass group)) p (updateTriggers group t d) !! i
          = (if decide (p = i) then exit_el (activeClass group) else id)
              <$> updateTriggers group t d !! i) as ->.
  { destruct (decide (p = i)) as [->|Hne].
    - by rewrite list_lookup_alter_eq.
    - rewrite list_lookup_alter_ne by done. by destruct (_ !! i). }
  rewrite updateTriggers_lookup. destruct (d !! i) as [e|] eqn:He; [|done].
  simpl. f_equal. destruct (decide (i ∈ panels group)) as [Hi|Hi].
  - rewrite (updateTriggers_el_panel d0 g) by done.
    pose proof (Hclean i e Hi He) as Hc.
    unfold phaseTwo_el, switchPanels_el. cbv zeta.
    rewrite (proj2 (includes_true _ _) Hi).
    destruct (decide (p = i)) as [->|Hne].
    + rewrite Hpn. simpl. by apply exit_clean.
    + destruct (includes (nextPanelsOf group t d) i) eqn:Hnext; simpl.
      * apply enter_clean; [by destruct Hok as (_ & _ & _ & ?)|done|].
        intros HA. apply (proj2 Hset i e Hi He) in HA.
        rewrite (includes_nextPanelsOf _ _ _ _ _ He) in Hnext.
        apply andb_true_iff in Hnext as [_ Hattr%attribute_is_true]. congruence.
      * by apply hideClean_clean.
  - assert (p ≠ i) as Hne by (by intros <-).
    assert (i ∉ nextPanelsOf group t d) as Hnn.
    { intros H. by apply nextPanelsOf_subset in H. }
    unfold phaseTwo_el, switchPanels_el. cbv zeta.
    apply includes_false in Hi, Hnn. rewrite Hi, Hnn.
    by destruct (decide (p = i)).
Qed.

Lemma get_set_animate g a group b s :
  get g s = Some (a, group) →
  get g (set_animate a b s) = Some (a, with_animate b group).
Proof.
  intros [Hreg Hheap]%get_Some. apply get_Some. split; [done|].
  simpl. by rewrite list_lookup_alter_eq, Hheap.
Qed.

Lemma transition_result d0 g t s a group :
  wf_page d0 → Inv d0 s → Kept (λ _ _, True) clean s →
  get g s = Some (a, group) → isAnimating group = false →
  let k := length (timers s) in
  let s_anim := timeout k (timeout k (activateTab g t s)) in
  let s_inst := activateTab g t (set_animate a false s) in
  document s_anim = document s_inst ∧ heap s_anim = heap s ∧
  timers s_anim = timers s ∧ tabsGroups s_anim = tabsGroups s ∧
  console s_anim = console s.
Proof.
  intros Hwf HI HC Hget Hidle. cbv zeta.
  pose proof Hget as [Hreg Hheap]%get_Some.
  destruct (inv_groups _ _ HI g a Hreg) as (group1 & Hheap1 & Hok & Hph).
  assert (group1 = group) as -> by congruence. clear Hheap1.
  destruct (phase_idle _ _ _ _ _ Hph Hidle) as [_ [c Hc]].
  pose proof (get_set_animate g a group false s Hget) as Hget'.
  destruct (sameTab group t (document s)) eqn:Hsame.
  { rewrite (activateTab_sameTab _ _ _ _ _ Hget' Hsame).
    rewrite (activateTab_sameTab _ _ _ _ _ Hget Hsame).
    by rewrite !(timeout_none (length (timers s)) s) by lia. }
  assert (document (activateTab g t (set_animate a false s))
          = switchPanels group (nextPanelsOf group t (document s))
              (updateTriggers group t (document s))) as ->.
  { by rewrite (activateTab_instant _ _ _ _ _ Hget' Hidle Hsame) by (by left). }
  destruct (animate group) eqn:Han;
    [destruct (currentPanelOf group (document s)) as [p|] eqn:Hcur|].
  - rewrite (activateTab_animated _ _ _ _ _ _ Hget Hidle Hsame Han Hcur).
    set (s1 := animateTransition _ _ _ _ _).
    rewrite (timeout_last (timers s)
               (PhaseTwo a (panels group) (activeClass group) p
                  (nextPanelsOf group t (document s))) s1) by done.
    rewrite runCallback_PhaseTwo.
    set (s2 := setTimeout _ _).
    rewrite (timeout_last (timers s) (Unlock a) s2) by done.
    cbn [runCallback]. split; [|split; [|done]].
    + cbn [document set_isAnimating with_timers setTimeout with_document s2].
      unfold s1. rewrite document_animateTransition, document_with_document.
      eapply (animation_page d0 g); try done.
      by eapply (idle_panels_kept (λ _ _, True) clean).
    + cbn [heap set_isAnimating with_timers setTimeout with_document s2 s1
             animateTransition].
      by apply heap_unlocked with group.
  - rewrite (activateTab_instant _ _ _ _ _ Hget Hidle Hsame) by (by right).
    set (s1 := with_document _ s).
    by rewrite !(timeout_none (length (timers s)) s1) by done.
  - rewrite (activateTab_instant _ _ _ _ _ Hget Hidle Hsame) by (by left).
    set (s1 := with_document _ s).
    by rewrite !(timeout_none (length (timers s)) s1) by done.
Qed.

Section TransitionTheorem.

Variable parseInt : string → number.


End TransitionTheorem.

(** ** ARIA state follows the classes *)

Lemma trigger_sync_deselect A e : trigger_sync A (deselect A e).
Proof.
  unfold trigger_sync, deselect. rewrite getAttribute_setAttribute.
  rewrite classList_setAttribute, classList_remove.
  rewrite bool_decide_eq_false_2 by apply rm_rm_notin. by case_decide.
Qed.

Lemma trigger_sync_select A e : trigger_sync A (select A e).
Proof.
  unfold trigger_sync, select. rewrite getAttribute_setAttribute.
  rewrite classList_setAttribute, classList_add.
  rewrite bool_decide_eq_true_2 by (apply elem_of_ad; by right). by case_decide.
Qed.

Lemma panel_sync_hide A e : panel_sync A (hide A e).
Proof.
  unfold panel_sync, hide. rewrite getAttribute_setAttribute.
  rewrite classList_setAttribute, classList_remove.
  rewrite bool_decide_eq_false_2 by apply rm_rm_notin. by case_decide.
Qed.

Lemma panel_sync_show A e : panel_sync A (show A e).
Proof.
  unfold panel_sync, show. rewrite getAttribute_setAttribute.
  rewrite classList_setAttribute, classList_add.
  rewrite bool_decide_eq_true_2 by (apply elem_of_ad; by right). by case_decide.
Qed.

Lemma panel_sync_hideClean A e : panel_sync A (hideClean A e).
Proof.
  unfold panel_sync, hideClean. rewrite getAttribute_setAttribute.
  rewrite classList_setAttribute, !classList_remove.
  rewrite bool_decide_eq_false_2; [by case_decide|].
  rewrite !elem_of_rm. tauto.
Qed.

Lemma panel_sync_phaseTwo_el ps A cur next i e :
  A ≠ ANIM_CLASS.entering → includes ps i = true →
  panel_sync A (phaseTwo_el ps A cur next i e).
Proof.
  intros HA Hps. unfold phaseTwo_el. cbv zeta. rewrite Hps.
  destruct (includes next i); simpl; [|apply panel_sync_hideClean].
  unfold panel_sync.
  rewrite getAttribute_remove, getAttribute_add, getAttribute_setAttribute.
  rewrite classList_remove, classList_add.
  rewrite bool_decide_eq_true_2; [by case_decide|].
  rewrite elem_of_rm, elem_of_ad. auto.
Qed.

Lemma reachable_sync parseInt d0 evs :
  wf_page d0 → InitAllTabs ∉ evs →
  let s := run parseInt evs (initAllTabs parseInt (page d0)) in
  Inv d0 s ∧ Kept trigger_sync panel_sync s.
Proof.
  apply reachable_Kept;
    auto using trigger_sync_deselect, trigger_sync_select, panel_sync_hide,
      panel_sync_show, panel_sync_hideClean, panel_sync_phaseTwo_el.
Qed.

(** ** Groups do not interfere *)

Lemma activateTab_frame d0 g t s i :
  Inv d0 s → ¬ members d0 g i →
  document (activateTab g t s) !! i = document s !! i.
Proof.
  intros HI Hi. rewrite activateTab_eq.
  destruct (get g s) as [[a group]|] eqn:Hget; [|done].
  apply get_Some in Hget as [Hreg Hheap].
  destruct (inv_groups _ _ HI g a Hreg) as (group1 & Hheap1 & Hok & _).
  assert (group1 = group) as -> by congruence.
  destruct (not_members _ _ _ _ Hok Hi) as [Hnt Hnp].
  destruct (isAnimating group); [done|].
  destruct (sameTab group t (document s)); [done|]. cbv zeta.
  assert (switchPanels group (nextPanelsOf group t (document s))
            (updateTriggers group t (document s)) !! i = document s !! i) as Hinst.
  { rewrite switchPanels_frame, updateTriggers_frame; try done.
    intros H. by apply nextPanelsOf_subset in H. }
  destruct (animate group); [|done].
  destruct (currentPanelOf group (document s)) as [p|] eqn:Hcur; [|done].
  apply currentPanelOf_Some in Hcur as [Hp _].
  rewrite document_animateTransition, document_with_document.
  rewrite list_lookup_alter_ne; [by apply updateTriggers_frame|]. by intros <-.
Qed.

Lemma not_member_of_other_group d0 g i :
  getAttributeAt d0 ATTR.group i ≠ Some g → ¬ members d0 g i.
Proof.
  intros Hne (e & He & Hg)%members_group. apply Hne.
  unfold getAttributeAt. by rewrite He.
Qed.

Section Interference.

Variable parseInt : string → number.

Lemma initTabsGroup_frame d0 g s i :
  static_eq d0 (document s) → ¬ members d0 g i →
  document (initTabsGroup parseInt g s) !! i = document s !! i.
Proof.
  intros Hst Hi.
  destruct (queryTriggers (document s) g) as [|t0 rest] eqn:Ht.
  { by rewrite initTabsGroup_no_triggers. }
  destruct (queryPanels (document s) g) as [|p0 ps] eqn:Hp.
  { rewrite initTabsGroup_no_panels; by rewrite ?Ht. }
  rewrite (initTabsGroup_registers _ _ _ _ _ Ht) by (by rewrite Hp). cbv zeta.
  simpl. apply initDocument_frame; simpl.
  - rewrite <-(static_eq_queryTriggers d0) by done. intros H. apply Hi. by left.
  - rewrite <-(static_eq_queryPanels d0) by done. intros H. apply Hi. by right.
Qed.


End Interference.

(** ** Timers do not pile up *)

Lemma lookup_middle_other {X} (l1 l2 : list X) (x y : X) k :
  (l1 ++ x :: l2) !! k = Some y → k ≠ length l1 → y ∈ l1 ∨ y ∈ l2.
Proof.
  intros Hk Hne. apply lookup_app_Some in Hk as [Hk|[Hge Hk]].
  - left. by eapply list_elem_of_lookup_2.
  - destruct (k - length l1) as [|n] eqn:Hn; [lia|]. simpl in Hk.
    right. by eapply list_elem_of_lookup_2.
Qed.

Section TimersDoNotPileUp.

Variable parseInt : string → number.

(** X14. Timers do not pile up.  In any state reached from a page that
    satisfies [wf_page], however fast requests come in,
    a group has at most one timer pending: two pending timers always belong
    to different group objects. *)
Theorem one_timer_per_group (d0 : Document) (evs : list Event)
    (k1 k2 : nat) (cb1 cb2 : Callback) :
  wf_page d0 → InitAllTabs ∉ evs →
  let s := run parseInt evs (initAllTabs parseInt (page d0)) in
  timers s !! k1 = Some cb1 → timers s !! k2 = Some cb2 →
  cb_group cb1 = cb_group cb2 → k1 = k2.
Proof.
  intros Hwf Hev s Hk1 Hk2 Hsame.
  assert (Inv d0 s) as HI by (by apply run_Inv, initAllTabs_Inv).
  destruct (inv_timers _ _ HI cb1 (list_elem_of_lookup_2 _ _ _ Hk1)) as [g Hreg].
  destruct (inv_groups _ _ HI g _ Hreg) as (group & Hheap & Hok & Hph).
  destruct (lookup_delete_split _ _ _ Hk1) as (l1 & l2 & Hts & _).
  unfold phase_ok in Hph.
  rewrite Hts, pending_app, pending_cons_eq in Hph by done.
  assert (pending (cb_group cb1) l1 = [] ∧ pending (cb_group cb1) l2 = []) as [Hl1 Hl2].
  { destruct (pending (cb_group cb1) l1) as [|[] [|? ?]],
             (pending (cb_group cb1) l2) as [|? ?], cb1; simpl in Hph; done. }
  assert (length l1 = k1) as Hlen.
  { destruct (decide (length l1 = k1)) as [?|Hne]; [done|].
    rewrite Hts in Hk1.
    destruct (lookup_middle_other _ _ _ _ _ Hk1) as [Hin|Hin]; [by apply not_eq_sym| |].
    - by destruct (pending_nil_inv _ _ _ Hl1 Hin).
    - by destruct (pending_nil_inv _ _ _ Hl2 Hin). }
  destruct (decide (k1 = k2)) as [?|Hne]; [done|].
  rewrite Hts in Hk2.
  destruct (lookup_middle_other _ _ _ _ _ Hk2) as [Hin|Hin]; [by rewrite Hlen| |].
  - by destruct (pending_nil_inv _ _ _ Hl1 Hin).
  - by destruct (pending_nil_inv _ _ _ Hl2 Hin).
Qed.

End TimersDoNotPileUp.

(** ** The further properties on concrete pages *)

Lemma fresh_gallery : fresh gallery.
Proof. exact (wf_fresh _ wf_page_gallery). Defined.

Lemma fresh_untitled : fresh untitled.
Proof. intros e He. elem_cases He; reflexivity. Defined.







(** On the animated gallery, after a click that starts a transition: one
    timer is pending. *)
Lemma one_timer_per_group_witness :
  let evs := [Click 1] in
  let s := run parseInt10 evs (initAllTabs parseInt10 (page galleryAnimated)) in
  wf_page galleryAnimated ∧ (InitAllTabs ∉ evs) ∧
  ∃ cb, timers s !! 0 = Some cb ∧ cb_group cb = cb_group cb ∧ 0 = 0.
Proof.
  intros evs. assert (InitAllTabs ∉ evs) as Hev by no_reinit. intros s.
  assert (∃ cb, timers s !! 0 = Some cb) as [cb Hcb]
    by (eexists; vm_compute; reflexivity).
  split; [exact wf_page_galleryAnimated|]. split; [exact Hev|].
  exists cb. split; [exact Hcb|]. split; [reflexivity|].
  exact (one_timer_per_group parseInt10 galleryAnimated evs 0 0 cb cb
           wf_page_galleryAnimated Hev Hcb Hcb eq_refl).
Defined.

(** * Properties of the map utilities *)

(** ** Run-once style injection *)

Lemma injectPopupResetStyles_done id s :
  popupStylesInjected s = true → injectPopupResetStyles id s = s.
Proof. intros H. unfold injectPopupResetStyles. by rewrite H. Qed.

Lemma injectPopupResetStyles_all_done ids s :
  popupStylesInjected s = true →
  foldl (λ s id, injectPopupResetStyles id s) s ids = s.
Proof.
  intros H. induction ids as [|id ids IH]; [done|].
  simpl. by rewrite injectPopupResetStyles_done.
Qed.

(** X15. The popup reset styles are injected once.  Starting with the
    flag unset, any number of calls of [injectPopupResetStyles], with
    whatever style ids, appends exactly one style element to the document
    head: the one of the first call, with that call's id (the default id
    when it gave none); later calls change nothing, also when they give a
    different id. *)
Theorem popup_styles_injected_once (styleId : option string)
    (later : list (option string)) (s : StyleState) :
  popupStylesInjected s = false →
  foldl (λ s id, injectPopupResetStyles id s) s (styleId :: later)
  = mkStyleState true
      (headChildren s ++
         [mkStyle (default "mapbox-popup-reset-styles" styleId) POPUP_RESET_STYLES]).
Proof.
  intros H. simpl. rewrite injectPopupResetStyles_all_done.
  - unfold injectPopupResetStyles. by rewrite H.
  - unfold injectPopupResetStyles. by rewrite H.
Qed.

(** ** The attribute name taken from a selector *)

Lemma append_nil_l (s : string) : ("" ++ s)%string = s.
Proof. reflexivity. Qed.

Lemma append_cons (c : Ascii.ascii) (s t : string) :
  (String c s ++ t)%string = String c (s ++ t)%string.
Proof. reflexivity. Qed.

Lemma before_close_name name post :
  has_char close_bracket name = false →
  before_close (name ++ String close_bracket post)%string = Some name.
Proof.
  induction name as [|c name IH]; rewrite ?append_nil_l, ?append_cons;
    cbn [before_close has_char].
  - intros _. by rewrite Ascii.eqb_refl.
  - intros [Hc Hn]%orb_false_iff. rewrite Hc, IH by done. done.
Qed.

Lemma attrMatch_bracketed pre name post :
  has_char open_bracket pre = false →
  has_char close_bracket name = false → name ≠ "" →
  attrMatch (pre ++ String open_bracket (name ++ String close_bracket post))%string
    = Some name.
Proof.
  intros Hpre Hname Hne. induction pre as [|c pre IH];
    rewrite ?append_nil_l, ?append_cons; cbn [attrMatch].
  - rewrite Ascii.eqb_refl, before_close_name by done.
    by destruct name.
  - cbn [has_char] in Hpre. apply orb_false_iff in Hpre as [Hc Hpre].
    rewrite Hc. by apply IH.
Qed.

Lemma before_close_append n t :
  is_Some (before_close t) → is_Some (before_close (n ++ t)%string).
Proof.
  intros Ht. induction n as [|c n IH]; rewrite ?append_nil_l, ?append_cons;
    cbn [before_close]; [done|].
  destruct (Ascii.eqb c close_bracket); [by eexists|].
  destruct IH as [r ->]. by eexists.
Qed.

Lemma before_close_prefix p t r :
  has_char close_bracket p = false → before_close t = Some r →
  before_close (p ++ t)%string = Some (p ++ r)%string.
Proof.
  intros Hp Ht. induction p as [|c p IH]; rewrite ?append_nil_l, ?append_cons;
    cbn [before_close]; [done|].
  cbn [has_char] in Hp. apply orb_false_iff in Hp as [Hc Hp].
  by rewrite Hc, IH.
Qed.

Lemma attrMatch_elementAttr name :
  ∃ r, attrMatch (elementAttr name) = Some ("data-map-element=" ++ r)%string.
Proof.
  assert (is_Some (before_close (squote ++ name ++ squote ++ "]")%string)) as [r Hr].
  { do 3 apply before_close_append. by eexists. }
  exists r. unfold elementAttr.
  change ("[data-map-element=" ++ squote ++ name ++ squote ++ "]")%string
    with (String open_bracket
            ("data-map-element=" ++ squote ++ name ++ squote ++ "]")%string).
  cbn [attrMatch]. rewrite Ascii.eqb_refl.
  by rewrite (before_close_prefix "data-map-element=" _ r).
Qed.

Lemma has_char_append c s t : has_char c (s ++ t)%string = has_char c s || has_char c t.
Proof.
  induction s as [|c' s IH]; rewrite ?append_nil_l, ?append_cons; cbn [has_char];
    [done|]. by rewrite IH, orb_assoc.
Qed.

(** ** Locations from list items *)

Section LocationTheorems.

Variables (Item float : Type).
Variable querySelectorIn : Item → string → option Item.
Variable itemText : Item → option string.
Variable innerHTML : Item → string.
Variable parseFloat : string → float.
Variable isNaN : float → bool.

Abbreviation extract := (extractLocationsFromElements Item float querySelectorIn itemText
                       innerHTML parseFloat isNaN).
Abbreviation step := (extractLocation Item float querySelectorIn itemText innerHTML
                    parseFloat isNaN).
Abbreviation feature := (featureOf Item float querySelectorIn itemText innerHTML
                       parseFloat isNaN).

Lemma extractLocation_feature fs c node :
  ∃ ws, step (fs, c) node = (fs ++ option_list (feature node), c ++ (Warn <$> ws)) ∧
        length (option_list (feature node)) + length ws = 1.
Proof.
  unfold extractLocation, featureOf.
  destruct (querySelectorIn node S.lat) as [latEl|]; simpl;
    [|eexists [_]; by rewrite app_nil_r].
  destruct (querySelectorIn node S.lng) as [lngEl|]; simpl;
    [|eexists [_]; by rewrite app_nil_r].
  destruct (querySelectorIn node S.popupInfo) as [infoEl|]; simpl;
    [|eexists [_]; by rewrite app_nil_r].
  destruct (querySelectorIn node S.id) as [idEl|]; simpl;
    [|eexists [_]; by rewrite app_nil_r].
  destruct (_ || _); simpl.
  - eexists [_]. by rewrite app_nil_r.
  - exists []. by rewrite app_nil_r.
Qed.

Lemma foldl_extractLocation fs c elements :
  ∃ ws, foldl step (fs, c) elements = (fs ++ omap feature elements, c ++ (Warn <$> ws)) ∧
        length (omap feature elements) + length ws = length elements.
Proof.
  revert fs c. induction elements as [|node elements IH]; intros fs c.
  - exists []. simpl. by rewrite !app_nil_r.
  - change (foldl step (fs, c) (node :: elements))
      with (foldl step (step (fs, c) node) elements).
    destruct (extractLocation_feature fs c node) as (w1 & -> & Hl1).
    destruct (IH (fs ++ option_list (feature node)) (c ++ (Warn <$> w1)))
      as (w2 & -> & Hl2).
    exists (w1 ++ w2). rewrite fmap_app, <-!app_assoc. split.
    + simpl. by destruct (feature node).
    + rewrite length_app.
      assert (length (omap feature (node :: elements))
              = length (option_list (feature node)) + length (omap feature elements))
        as ->.
      { simpl. by destruct (feature node). }
      change (length (node :: elements)) with (S (length elements)). lia.
Qed.

Lemma featureOf_not_NaN node f :
  feature node = Some f →
  isNaN (fst (coordinates f)) = false ∧ isNaN (snd (coordinates f)) = false.
Proof.
  unfold featureOf.
  destruct (querySelectorIn node S.lat) as [latEl|]; simpl; [|done].
  destruct (querySelectorIn node S.lng) as [lngEl|]; simpl; [|done].
  destruct (querySelectorIn node S.popupInfo) as [infoEl|]; simpl; [|done].
  destruct (querySelectorIn node S.id) as [idEl|]; simpl; [|done].
  destruct (isNaN (parseFloat (or_else (itemText latEl) ""))) eqn:H1; simpl; [done|].
  destruct (isNaN (parseFloat (or_else (itemText lngEl) ""))) eqn:H2; simpl; [done|].
  intros [= <-]. done.
Qed.

(** X18. Every list item is accounted for, and bad coordinates never reach
    the map.  [extractLocationsFromElements] adds only warnings to the
    console; the number of features it returns plus the number of warnings
    it adds is the number of elements it was given; and no feature it
    returns has a longitude or latitude that is NaN. *)
Theorem extractLocations_accounts_for_every_item (elements : list Item)
    (console : list LogEntry) :
  ∃ ws,
    snd (extract elements console) = console ++ (Warn <$> ws) ∧
    length (fst (extract elements console)) + length ws = length elements ∧
    ∀ f, f ∈ fst (extract elements console) →
      isNaN (fst (coordinates f)) = false ∧ isNaN (snd (coordinates f)) = false.
Proof.
  unfold extractLocationsFromElements.
  destruct (foldl_extractLocation [] console elements) as (ws & -> & Hl).
  exists ws. simpl. split; [done|]. split; [done|].
  intros f (node & _ & Hf)%list_elem_of_omap. by eapply featureOf_not_NaN.
Qed.

Lemma sublist_omap_feature (l1 l2 : list Item) :
  sublist l1 l2 → sublist (omap feature l1) (omap feature l2).
Proof.
  induction 1 as [|x l1 l2 H IH|x l1 l2 H IH]; simpl.
  - constructor.
  - destruct (feature x); [by constructor|done].
  - destruct (feature x); [by constructor|done].
Qed.

(** X19. Filtering the list filters the locations.  When the elements of
    one call are a selection of the elements of another, in the same order,
    the features of the first call are a selection of the features of the
    second, in the same order: a filtered list never shows a location the
    full list does not have. *)
Theorem extractLocations_of_a_selection (selected elements : list Item)
    (console console' : list LogEntry) :
  sublist selected elements →
  sublist (fst (extract selected console)) (fst (extract elements console')).
Proof.
  intros H. unfold extractLocationsFromElements.
  destruct (foldl_extractLocation [] console selected) as (ws & -> & _).
  destruct (foldl_extractLocation [] console' elements) as (ws' & -> & _).
  simpl. by apply sublist_omap_feature.
Qed.

End LocationTheorems.

(** ** The map utilities on concrete inputs *)

(** Two calls, the second with another id: one style element, with the
    default id. *)
Lemma popup_styles_injected_once_witness :
  popupStylesInjected (mkStyleState false []) = false ∧
  foldl (λ s id, injectPopupResetStyles id s) (mkStyleState false [])
    [None; Some "other"]
  = mkStyleState true
      [mkStyle (default "mapbox-popup-reset-styles" None) POPUP_RESET_STYLES].
Proof.
  split; [reflexivity|].
  exact (popup_styles_injected_once None [Some "other"] (mkStyleState false []) eq_refl).
Defined.

(** On the toy list: the features of items 3 and 7 are among those of
    items 3, 0, 7 and 250. *)
Lemma extractLocations_of_a_selection_witness :
  sublist [3; 7] [3; 0; 7; 250] ∧
  sublist
    (fst (extractLocationsFromElements nat (option Z) toyQuery toyText pretty
            toyParse toyIsNaN [3; 7] []))
    (fst (extractLocationsFromElements nat (option Z) toyQuery toyText pretty
            toyParse toyIsNaN [3; 0; 7; 250] [])).
Proof.
  assert (sublist [3; 7] [3; 0; 7; 250]) as H.
  { apply sublist_skip, sublist_cons, sublist_skip, sublist_cons, sublist_nil. }
  split; [exact H|].
  exact (extractLocations_of_a_selection nat (option Z) toyQuery toyText pretty
           toyParse toyIsNaN [3; 7] [3; 0; 7; 250] [] [] H).
Defined.

(** * The module in the browser *)

(** ** Statements that do not raise *)

Lemma andThen_normal {X} (p q : Stmt X) x x' :
  p x = (x', Normal) → (p >>> q) x = q x'.
Proof. intros H. unfold andThen. by rewrite H. Qed.

Lemma andThen_throw {X} (p q : Stmt X) x x' exn :
  p x = (x', Throw exn) → (p >>> q) x = (x', Throw exn).
Proof. intros H. unfold andThen. by rewrite H. Qed.

Lemma validate_leaving : Browser.validate ANIM_CLASS.leaving = Normal.
Proof. reflexivity. Qed.

Lemma validate_entering : Browser.validate ANIM_CLASS.entering = Normal.
Proof. reflexivity. Qed.

Lemma add_valid A e :
  valid_token A → Browser.classList.add [A] e = (classList.add A e, Normal).
Proof. intros H. unfold Browser.classList.add. simpl. by rewrite H. Qed.

Lemma remove_valid A e :
  valid_token A → Browser.classList.remove [A] e = (classList.remove A e, Normal).
Proof. intros H. unfold Browser.classList.remove. simpl. by rewrite H. Qed.

Lemma remove3_valid A e :
  valid_token A →
  Browser.classList.remove [A; ANIM_CLASS.leaving; ANIM_CLASS.entering] e
  = (classList.remove ANIM_CLASS.entering
       (classList.remove ANIM_CLASS.leaving (classList.remove A e)), Normal).
Proof. intros H. unfold Browser.classList.remove. simpl. by rewrite H. Qed.

Lemma invalid_token A : ¬ valid_token A → ∃ exn, Browser.validate A = Throw exn.
Proof. unfold valid_token. destruct (Browser.validate A) as [|exn]; [done|]. by exists exn. Qed.

Lemma alter_insert {X} (f : X → X) i (l : list X) x :
  l !! i = Some x → <[i := f x]> l = alter f i l.
Proof.
  intros H. apply list_eq. intros j. destruct (decide (i = j)) as [<-|Hne].
  - rewrite list_lookup_alter_eq, H. simpl. apply list_lookup_insert_eq.
    by eapply lookup_lt_Some.
  - by rewrite list_lookup_alter_ne, list_lookup_insert_ne.
Qed.

Lemma on_total i p f d :
  (∀ e, p e = (f e, Normal)) → Browser.on i p d = (alter f i d, Normal).
Proof.
  intros Hp. unfold Browser.on. destruct (d !! i) as [e|] eqn:He.
  - rewrite Hp. by rewrite (alter_insert f i d e He).
  - f_equal. apply list_eq. intros j. destruct (decide (i = j)) as [<-|Hne].
    + by rewrite list_lookup_alter_eq, He.
    + by rewrite list_lookup_alter_ne.
Qed.

Lemma forEach_total l p f d :
  (∀ i e, p i e = (f i e, Normal)) →
  Browser.forEach l p d = (forEach l f d, Normal).
Proof.
  intros Hp. revert d. induction l as [|i l IH]; intros d; [done|].
  rewrite forEach_cons. unfold Browser.forEach. simpl.
  rewrite (andThen_normal _ _ d (alter (f i) i d)) by (by apply on_total).
  apply IH.
Qed.

Lemma stmt_deselect A e :
  valid_token A →
  (Browser.classList.remove [A] >>> ret (setAttribute "aria-selected" "false")) e
  = (deselect A e, Normal).
Proof. intros H. by rewrite (andThen_normal _ _ _ _ (remove_valid A e H)). Qed.

Lemma stmt_select A e :
  valid_token A →
  (Browser.classList.add [A] >>> ret (setAttribute "aria-selected" "true")) e
  = (select A e, Normal).
Proof. intros H. by rewrite (andThen_normal _ _ _ _ (add_valid A e H)). Qed.

Lemma stmt_hide A e :
  valid_token A →
  (Browser.classList.remove [A] >>> ret (setAttribute "aria-hidden" "true")) e
  = (hide A e, Normal).
Proof. intros H. by rewrite (andThen_normal _ _ _ _ (remove_valid A e H)). Qed.

Lemma stmt_hideClean A e :
  valid_token A →
  (Browser.classList.remove [A; ANIM_CLASS.leaving; ANIM_CLASS.entering]
     >>> ret (setAttribute "aria-hidden" "true")) e
  = (hideClean A e, Normal).
Proof. intros H. by rewrite (andThen_normal _ _ _ _ (remove3_valid A e H)). Qed.

Lemma stmt_show A e :
  valid_token A →
  (Browser.classList.add [A] >>> ret (setAttribute "aria-hidden" "false")) e
  = (show A e, Normal).
Proof. intros H. by rewrite (andThen_normal _ _ _ _ (add_valid A e H)). Qed.

Lemma onDocument_total p f s :
  p (document s) = (f (document s), Normal) →
  Browser.onDocument p s = (with_document (f (document s)) s, Normal).
Proof. intros H. unfold Browser.onDocument. by rewrite H. Qed.

Lemma with_document_id s : with_document (document s) s = s.
Proof. by destruct s. Qed.

(** With a valid active class, instant activation completes, and does what
    it does when every DOM call succeeds. *)
Lemma activateTabInstant_valid group tabId d :
  valid_token (activeClass group) →
  Browser.activateTabInstant group tabId d = (activateTabInstant group tabId d, Normal).
Proof.
  intros HA. unfold Browser.activateTabInstant. rewrite activateTabInstant_eq. cbv zeta.
  set (A := activeClass group) in *.
  rewrite (andThen_normal _ _ d (forEach (triggers group) (λ _, deselect A) d))
    by (apply forEach_total; intros; by apply stmt_deselect).
  set (d1 := forEach (triggers group) (λ _, deselect A) d).
  rewrite (andThen_normal _ _ d1 (forEach (panels group) (λ _, hideClean A) d1))
    by (apply forEach_total; intros; by apply stmt_hideClean).
  set (d2 := forEach (panels group) (λ _, hideClean A) d1).
  rewrite (andThen_normal _ _ d2
             (forEach (filterEl d2 (attribute_is ATTR.trigger tabId) (triggers group))
                (λ _, select A) d2))
    by (apply forEach_total; intros; by apply stmt_select).
  apply forEach_total. intros. by apply stmt_show.
Qed.

Lemma updateTriggers_valid group tabId d :
  valid_token (activeClass group) →
  (Browser.forEach (triggers group) (λ _,
     Browser.classList.remove [activeClass group] >>>
     ret (setAttribute "aria-selected" "false")) >>>
   (λ d, Browser.forEach (filterEl d (attribute_is ATTR.trigger tabId) (triggers group))
           (λ _, Browser.classList.add [activeClass group] >>>
                 ret (setAttribute "aria-selected" "true")) d)) d
  = (updateTriggers group tabId d, Normal).
Proof.
  intros HA. unfold updateTriggers. cbv zeta.
  rewrite (andThen_normal _ _ d
             (forEach (triggers group) (λ _, deselect (activeClass group)) d))
    by (apply forEach_total; intros; by apply stmt_deselect).
  apply forEach_total. intros. by apply stmt_select.
Qed.

Lemma switchPanels_valid group next d :
  valid_token (activeClass group) →
  (Browser.forEach (panels group) (λ _,
     Browser.classList.remove [activeClass group] >>>
     ret (setAttribute "aria-hidden" "true")) >>>
   Browser.forEach next (λ _,
     Browser.classList.add [activeClass group] >>>
     ret (setAttribute "aria-hidden" "false"))) d
  = (switchPanels group next d, Normal).
Proof.
  intros HA. unfold switchPanels.
  rewrite (andThen_normal _ _ d
             (forEach (panels group) (λ _, hide (activeClass group)) d))
    by (apply forEach_total; intros; by apply stmt_hide).
  apply forEach_total. intros. by apply stmt_show.
Qed.

Lemma animateTransition_valid a group p next s :
  valid_token (activeClass group) →
  Browser.animateTransition a group p next s = (animateTransition a group p next s, Normal).
Proof.
  intros HA. unfold Browser.animateTransition, animateTransition. cbv zeta.
  rewrite (andThen_normal _ _ s (set_isAnimating a true s)) by done.
  set (s1 := set_isAnimating a true s).
  rewrite (andThen_normal _ _ s1
             (with_document
                (alter (λ e, classList.remove (activeClass group)
                               (classList.add ANIM_CLASS.leaving e)) p (document s1)) s1)).
  - done.
  - apply (onDocument_total _ (alter _ p)). apply on_total. intros e.
    rewrite (andThen_normal _ _ e (classList.add ANIM_CLASS.leaving e))
      by (apply add_valid, validate_leaving).
    by apply remove_valid.
Qed.

(** With a valid active class, or on a group that is not registered,
    [activateTab] completes, and does what it does when every DOM call
    succeeds. *)
Lemma activateTab_valid g t s :
  (∀ a group, get g s = Some (a, group) → valid_token (activeClass group)) →
  Browser.activateTab g t s = (activateTab g t s, Normal).
Proof.
  intros HA. rewrite activateTab_eq. unfold Browser.activateTab.
  destruct (get g s) as [[a group]|] eqn:Hget; [|done].
  specialize (HA a group eq_refl).
  destruct (isAnimating group); [done|].
  fold (currentPanelOf group (document s)).
  fold (nextPanelsOf group t (document s)).
  fold (sameTab group t (document s)).
  destruct (sameTab group t (document s)); [done|]. cbv zeta.
  rewrite (andThen_normal _ _ s (with_document (updateTriggers group t (document s)) s))
    by (apply onDocument_total; by apply updateTriggers_valid).
  set (s1 := with_document (updateTriggers group t (document s)) s).
  destruct (animate group), (currentPanelOf group (document s)) as [p|];
    try (by apply animateTransition_valid);
    by rewrite (onDocument_total _ (switchPanels group (nextPanelsOf group t (document s))) s1)
      by (by apply switchPanels_valid).
Qed.

(** With an active class that is not a valid token, [activateTab] leaves
    the state as it is: it returns early, or raises at the first trigger. *)
Lemma activateTab_invalid g t s a group i rest e :
  get g s = Some (a, group) → ¬ valid_token (activeClass group) →
  triggers group = i :: rest → document s !! i = Some e →
  ∃ c, Browser.activateTab g t s = (s, c) ∧
       (c = Normal ↔ isAnimating group = true ∨ sameTab group t (document s) = true).
Proof.
  intros Hget HA Ht He. unfold Browser.activateTab. rewrite Hget.
  destruct (isAnimating group); [exists Normal; split; [done|naive_solver]|].
  fold (currentPanelOf group (document s)).
  fold (nextPanelsOf group t (document s)).
  fold (sameTab group t (document s)).
  destruct (sameTab group t (document s)); [exists Normal; split; [done|naive_solver]|].
  cbv zeta.
  apply invalid_token in HA as [exn Hexn]. exists (Throw exn). split; [|naive_solver].
  apply andThen_throw. unfold Browser.onDocument.
  assert (∀ q, (Browser.forEach (triggers group) (λ _,
             Browser.classList.remove [activeClass group] >>>
             ret (setAttribute "aria-selected" "false")) >>> q) (document s)
          = (document s, Throw exn)) as ->.
  { intros q. apply andThen_throw. rewrite Ht. unfold Browser.forEach. simpl.
    apply andThen_throw. unfold Browser.on. rewrite He.
    unfold andThen, Browser.classList.remove. simpl. rewrite Hexn.
    by rewrite list_insert_id. }
  by rewrite with_document_id.
Qed.

Lemma activateTabInstant_invalid group tabId d i rest e :
  ¬ valid_token (activeClass group) →
  triggers group = i :: rest → d !! i = Some e →
  ∃ exn, Browser.activateTabInstant group tabId d = (d, Throw exn).
Proof.
  intros HA Ht He. apply invalid_token in HA as [exn Hexn]. exists exn.
  unfold Browser.activateTabInstant. cbv zeta. apply andThen_throw.
  rewrite Ht. unfold Browser.forEach. simpl. apply andThen_throw.
  unfold Browser.on. rewrite He.
  unfold andThen, Browser.classList.remove. simpl. rewrite Hexn.
  by rewrite list_insert_id.
Qed.

(** A timer callback made for a valid active class completes. *)
Lemma runCallback_valid cb s :
  (∀ a ps A cur next, cb = PhaseTwo a ps A cur next → valid_token A) →
  Browser.runCallback cb s = (runCallback cb s, Normal).
Proof.
  intros HA. destruct cb as [a ps A cur next|a]; [|done].
  specialize (HA a ps A cur next eq_refl).
  rewrite runCallback_PhaseTwo. unfold Browser.runCallback.
  rewrite (andThen_normal _ _ s (with_document (phaseTwo ps A cur next (document s)) s));
    [done|].
  apply onDocument_total. unfold phaseTwo. cbv zeta.
  set (d := document s).
  set (d1 := alter (λ e, setAttribute "aria-hidden" "true"
                           (classList.remove ANIM_CLASS.leaving e)) cur d).
  rewrite (andThen_normal _ _ d d1).
  2:{ apply on_total. intros e.
      by rewrite (andThen_normal _ _ e _ (remove_valid _ e validate_leaving)). }
  set (d2 := forEach ps (λ i panel, if includes next i then panel else hideClean A panel) d1).
  rewrite (andThen_normal _ _ d1 d2).
  2:{ apply forEach_total. intros i e. destruct (includes next i); [done|].
      by apply stmt_hideClean. }
  set (d3 := forEach next (λ _ panel, setAttribute "aria-hidden" "false"
                                        (classList.add ANIM_CLASS.entering panel)) d2).
  rewrite (andThen_normal _ _ d2 d3).
  2:{ apply forEach_total. intros i e.
      by rewrite (andThen_normal _ _ e _ (add_valid _ e validate_entering)). }
  apply forEach_total. intros i e.
  rewrite (andThen_normal _ _ e _ (add_valid _ e HA)).
  apply remove_valid, validate_entering.
Qed.

Section BrowserAgreement.

Variable parseInt : string → number.
Variable selectAll : string → Document → list nat + DOMException.
Variable ancestors : nat → list nat.

Lemma wire_total g ts ps d :
  (Browser.forEach ts (λ _, ret (wireTrigger g)) >>>
   Browser.forEach ps (λ _, ret (setAttribute "role" "tabpanel"))) d
  = (wire g ts ps d, Normal).
Proof.
  unfold wire.
  rewrite (andThen_normal _ _ d (forEach ts (λ _, wireTrigger g) d))
    by (by apply forEach_total).
  by apply forEach_total.
Qed.

(** What [initTabsGroup] does with a plain group name that has triggers and
    panels: the group is registered and wired, and then the default tab is
    activated, if there is one. *)
Lemma initTabsGroup_plain_registers g s firstTrigger rest :
  plain g = true →
  queryTriggers (document s) g = firstTrigger :: rest →
  queryPanels (document s) g ≠ [] →
  Browser.initTabsGroup parseInt selectAll g s =
    let group := newGroup parseInt g (document s) firstTrigger in
    let s1 := registerAndWire parseInt g s in
    match defaultTabId (document s1) (triggers group) with
    | Some tabId =>
        if truthy tabId then Browser.onDocument (Browser.activateTabInstant group tabId) s1
        else (s1, Normal)
    | None => (s1, Normal)
    end.
Proof.
  intros Hplain Ht Hp. unfold Browser.initTabsGroup, Browser.queryTriggers,
    Browser.queryPanels, registerAndWire. rewrite Hplain, Ht.
  destruct (queryPanels (document s) g) as [|p ps] eqn:Hps; [done|]. cbv zeta.
  assert (newGroup parseInt g (document s) firstTrigger
          = mkTabsGroup g (firstTrigger :: rest) (p :: ps)
              (configActiveClass (document s) firstTrigger)
              (configAnimate (document s) firstTrigger)
              (configDuration parseInt (document s) firstTrigger) false) as ->.
  { unfold newGroup. by rewrite Ht, Hps. }
  set (group := mkTabsGroup g (firstTrigger :: rest) (p :: ps) _ _ _ false).
  rewrite (andThen_normal _ _ s (register g group s)) by done.
  set (s1 := register g group s).
  rewrite (andThen_normal _ _ s1
             (with_document (wire g (firstTrigger :: rest) (p :: ps) (document s1)) s1))
    by (apply onDocument_total, wire_total).
  unfold defaultTabId. simpl.
  by destruct (findEl _ _ _).
Qed.

Lemma first_trigger_on_page d0 d h i rest :
  static_eq d0 d → queryTriggers d0 h = i :: rest → is_Some (d !! i).
Proof.
  intros Hst Ht.
  assert (i ∈ queryTriggers d0 h) as (e & He & _)%elem_of_queryTriggers
    by (rewrite Ht; apply elem_of_cons; by left).
  destruct (static_eq_lookup _ _ _ _ Hst He) as (e' & He' & _). by exists e'.
Qed.

Lemma configuredClass_newGroup g d firstTrigger rest :
  queryTriggers d g = firstTrigger :: rest →
  activeClass (newGroup parseInt g d firstTrigger) = configuredClass d g.
Proof. intros Ht. unfold configuredClass. by rewrite Ht. Qed.

Lemma document_registerAndWire g s :
  document (registerAndWire parseInt g s)
  = match queryTriggers (document s) g with
    | _ :: _ => wire g (queryTriggers (document s) g) (queryPanels (document s) g)
                  (document s)
    | [] => document s
    end.
Proof.
  unfold registerAndWire. destruct (queryTriggers (document s) g) eqn:E; [done|].
  simpl. by rewrite E.
Qed.

(** With a plain name, [initTabsGroup] completes and does what it does when
    every DOM call succeeds, unless there is a default tab to activate and
    the configured class is not a valid token. *)
Lemma initTabsGroup_plain_total g s :
  plain g = true →
  queryTriggers (document s) g = [] ∨ queryPanels (document s) g = []
  ∨ valid_token (configuredClass (document s) g)
  ∨ (∀ tabId, defaultTabId (document s) (queryTriggers (document s) g) = Some tabId
              → tabId = "") →
  Browser.initTabsGroup parseInt selectAll g s = (initTabsGroup parseInt g s, Normal).
Proof.
  intros Hplain Hcase.
  destruct (queryTriggers (document s) g) as [|t0 rest] eqn:Ht.
  { rewrite initTabsGroup_no_triggers by done.
    unfold Browser.initTabsGroup, Browser.queryTriggers, Browser.queryPanels.
    by rewrite Hplain, Ht. }
  destruct (queryPanels (document s) g) as [|p0 ps] eqn:Hp.
  { rewrite initTabsGroup_no_panels by (by rewrite ?Ht).
    unfold Browser.initTabsGroup, Browser.queryTriggers, Browser.queryPanels.
    by rewrite Hplain, Ht, Hp. }
  rewrite (initTabsGroup_plain_registers g s t0 rest Hplain Ht) by (by rewrite Hp).
  rewrite (initTabsGroup_registers _ _ _ _ _ Ht) by (by rewrite Hp). cbv zeta.
  set (group := newGroup parseInt g (document s) t0).
  unfold registerAndWire. rewrite Ht. fold group.
  unfold initDocument. cbv zeta. change (name group) with g.
  set (d1 := wire g (triggers group) (panels group) (document s)).
  change (document (with_document d1 (register g group s))) with d1.
  destruct (defaultTabId d1 (triggers group)) as [tabId|] eqn:Hd; [|done].
  destruct (truthy tabId) eqn:Htr; [|done].
  destruct Hcase as [?|[?|[HA|Hne]]]; [done..| |].
  - rewrite <-(configuredClass_newGroup g (document s) t0 rest Ht) in HA. fold group in HA.
    unfold Browser.onDocument.
    change (document (with_document d1 (register g group s))) with d1.
    by rewrite (activateTabInstant_valid group tabId d1 HA).
  - exfalso. apply truthy_true in Htr. apply Htr, Hne.
    change (triggers group) with (queryTriggers (document s) g) in Hd.
    rewrite Ht in Hd.
    by rewrite (static_eq_defaultTabId (document s) d1) by apply static_eq_wire.
Qed.

(** With a plain name, a default tab to activate and a configured class
    that is not a valid token, [initTabsGroup] registers and wires the group
    and then raises. *)
Lemma initTabsGroup_plain_raises g s tabId :
  plain g = true →
  queryTriggers (document s) g ≠ [] → queryPanels (document s) g ≠ [] →
  ¬ valid_token (configuredClass (document s) g) →
  defaultTabId (document s) (queryTriggers (document s) g) = Some tabId → tabId ≠ "" →
  ∃ exn, Browser.initTabsGroup parseInt selectAll g s
         = (registerAndWire parseInt g s, Throw exn).
Proof.
  intros Hplain Ht Hp HA Hd Htab.
  destruct (queryTriggers (document s) g) as [|t0 rest] eqn:Ht'; [done|].
  rewrite (initTabsGroup_plain_registers g s t0 rest Hplain Ht' Hp). cbv zeta.
  rewrite <-(configuredClass_newGroup g (document s) t0 rest Ht') in HA.
  set (group := newGroup parseInt g (document s) t0) in *.
  set (s1 := registerAndWire parseInt g s).
  assert (static_eq (document s) (document s1)) as Hst.
  { unfold s1. rewrite document_registerAndWire, Ht'. apply static_eq_wire. }
  change (triggers group) with (queryTriggers (document s) g). rewrite Ht'.
  rewrite <-(static_eq_defaultTabId (document s) (document s1)) by done.
  rewrite Hd, (proj2 (truthy_true tabId) Htab).
  destruct (first_trigger_on_page (document s) (document s1) g t0 rest Hst Ht') as [e He].
  destruct (activateTabInstant_invalid group tabId (document s1) t0 rest e HA)
    as [exn Hexn]; [by unfold group, newGroup; simpl; rewrite Ht'|done|].
  exists exn. unfold Browser.onDocument. rewrite Hexn. by rewrite with_document_id.
Qed.

End BrowserAgreement.

(** ** What every registered group keeps *)

(** What a call of [activateTab] on a registered group changes: nothing
    outside the group's triggers and panels; and either no object and no
    timer, or it locks the group and sets the exit timer. *)
Lemma activateTab_effect h t s a group :
  get h s = Some (a, group) →
  let s' := activateTab h t s in
  tabsGroups s' = tabsGroups s ∧
  (∀ i, i ∉ triggers group → i ∉ panels group → document s' !! i = document s !! i) ∧
  ((heap s' = heap s ∧ timers s' = timers s)
   ∨ (isAnimating group = false ∧ animate group = true ∧
      ∃ p, p ∈ panels group ∧
        heap s' = alter (with_isAnimating true) a (heap s) ∧
        timers s' = timers s ++ [PhaseTwo a (panels group) (activeClass group) p
                                   (nextPanelsOf group t (document s))])).
Proof.
  intros Hget. cbv zeta. rewrite activateTab_eq, Hget.
  destruct (isAnimating group) eqn:Hidle; [by auto|].
  destruct (sameTab group t (document s)); [by auto|]. cbv zeta.
  assert (∀ i, i ∉ triggers group → i ∉ panels group →
            switchPanels group (nextPanelsOf group t (document s))
              (updateTriggers group t (document s)) !! i = document s !! i) as Hinst.
  { intros i Hnt Hnp. rewrite switchPanels_frame, updateTriggers_frame; try done.
    intros H. by apply nextPanelsOf_subset in H. }
  destruct (animate group) eqn:Han; [|by auto].
  destruct (currentPanelOf group (document s)) as [p|] eqn:Hcur; [|by auto].
  apply currentPanelOf_Some in Hcur as [Hp _].
  split; [done|]. split.
  - intros i Hnt Hnp. rewrite document_animateTransition, document_with_document.
    rewrite list_lookup_alter_ne; [by apply updateTriggers_frame|]. by intros <-.
  - right. split; [done|]. split; [done|]. by exists p.
Qed.

Section RegMoves.

Variable parseInt : string → number.
Variables (T : string → Prop) (g : string) (d0 : Document).

Lemma Reg_on_page s h a group i :
  Reg d0 s → tabsGroups s !! h = Some a → heap s !! a = Some group →
  i ∈ triggers group ∨ i ∈ panels group → members d0 h i.
Proof.
  intros HR Hreg Hheap Hi.
  destruct (reg_groups _ _ HR h a Hreg) as (group' & Hheap' & _ & Ht & Hp & _).
  assert (group' = group) as -> by congruence. unfold members.
  by rewrite <-Ht, <-Hp.
Qed.

Lemma Reg_address s h h' a :
  Reg d0 s → tabsGroups s !! h = Some a → tabsGroups s !! h' = Some a → h = h'.
Proof.
  intros HR H1 H2.
  destruct (reg_groups _ _ HR h a H1) as (group & Hheap & Hname & _).
  destruct (reg_groups _ _ HR h' a H2) as (group' & Hheap' & Hname' & _).
  congruence.
Qed.

Lemma Reg_report s c :
  Reg d0 s → Reg d0 (mkState (document s) (heap s) (tabsGroups s) (timers s) c).
Proof. intros [[H1 H2] H3 H4]. by split. Qed.

Lemma Reg_activateTab s h t a group :
  Reg d0 s → get h s = Some (a, group) → valid_token (activeClass group) →
  Reg d0 (activateTab h t s).
Proof.
  intros HR Hget HA. pose proof Hget as [Hreg Hheap]%get_Some.
  destruct (activateTab_effect h t s a group Hget) as (Hregs & _ & Heff).
  destruct (reg_groups _ _ HR h a Hreg) as (group0 & Hheap0 & Hname & Ht & Hp & Hne).
  assert (group0 = group) as -> by congruence.
  split.
  - apply activateTab_Wiring, HR.
  - intros h' a' Hh'. rewrite Hregs in Hh'.
    destruct (reg_groups _ _ HR h' a' Hh') as (group' & Hheap' & Hrest).
    destruct Heff as [[-> _]|(_ & _ & p & _ & -> & _)]; [by exists group'|].
    destruct (decide (a' = a)) as [->|Hne'].
    + exists (with_isAnimating true group'). by rewrite list_lookup_alter_eq, Hheap'.
    + exists group'. by rewrite list_lookup_alter_ne.
  - intros cb Hcb. rewrite Hregs.
    destruct Heff as [[_ Hts]|(_ & _ & p & Hpin & _ & Hts)]; rewrite Hts in Hcb.
    + by apply (reg_timers _ _ HR).
    + apply elem_of_app in Hcb as [Hcb| ->%list_elem_of_singleton].
      * by apply (reg_timers _ _ HR).
      * exists h. split; [done|]. simpl. rewrite <-Hp. repeat (split; [done|]).
        intros i. apply nextPanelsOf_subset.
Qed.

Lemma Reg_timeout s k : Reg d0 s → Reg d0 (timeout k s).
Proof.
  intros HR. split; [apply timeout_Wiring, HR| |].
  - unfold timeout. destruct (timers s !! k) as [cb|] eqn:Hk; [|by apply HR].
    destruct cb as [a ps A cur next|a]; [rewrite runCallback_PhaseTwo; by apply HR|].
    intros h' a' Hh'. simpl in *.
    destruct (reg_groups _ _ HR h' a' Hh') as (group' & Hheap' & Hrest).
    destruct (decide (a' = a)) as [->|Hne'].
    + exists (with_isAnimating false group'). by rewrite list_lookup_alter_eq, Hheap'.
    + exists group'. by rewrite list_lookup_alter_ne.
  - intros cb' Hcb'. unfold timeout in *.
    destruct (timers s !! k) as [cb|] eqn:Hk; [|by apply HR].
    destruct (reg_timers _ _ HR cb (list_elem_of_lookup_2 _ _ _ Hk)) as (h & Hh & Hok).
    destruct cb as [a ps A cur next|a].
    + rewrite runCallback_PhaseTwo in *. simpl in *.
      apply elem_of_app in Hcb' as [Hcb'%list_elem_of_delete_inv| ->%list_elem_of_singleton].
      * by apply (reg_timers _ _ HR).
      * by exists h.
    + simpl in *. apply list_elem_of_delete_inv in Hcb'. by apply (reg_timers _ _ HR).
Qed.

(** A newly built group object joins the registry. *)
Lemma Reg_register s s' h t0 rest :
  Reg d0 s → tabsGroups s !! h = None →
  queryTriggers (document s) h = t0 :: rest →
  Wiring d0 s' →
  heap s' = heap s ++ [newGroup parseInt h (document s) t0] →
  tabsGroups s' = <[h := length (heap s)]> (tabsGroups s) →
  timers s' = timers s →
  Reg d0 s'.
Proof.
  intros HR Hnone Ht HW Hheap Hreg Hts.
  pose proof (wiring_static _ _ (reg_wiring _ _ HR)) as Hst.
  split; [done| |].
  - intros h' a'. rewrite Hreg, Hheap. destruct (decide (h' = h)) as [->|Hne].
    + rewrite lookup_insert_eq. intros [= <-].
      exists (newGroup parseInt h (document s) t0).
      split; [by rewrite lookup_app_r, Nat.sub_diag|]. split; [done|].
      cbn [triggers panels newGroup].
      rewrite <-(static_eq_queryTriggers d0 (document s)), <-(static_eq_queryPanels d0 (document s))
        by done.
      repeat (split; [done|]).
      rewrite (static_eq_queryTriggers d0 (document s)) by done. by rewrite Ht.
    + rewrite lookup_insert_ne by done. intros Hh'.
      destruct (reg_groups _ _ HR h' a' Hh') as (group' & Hheap' & Hrest).
      exists group'. split; [by apply lookup_app_l_Some|done].
  - intros cb. rewrite Hts, Hreg. intros Hcb.
    destruct (reg_timers _ _ HR cb Hcb) as (h' & Hh' & Hok). exists h'.
    rewrite lookup_insert_ne; [done|]. intros ->. congruence.
Qed.

Lemma Reg_initTabsGroup s h :
  Reg d0 s → tabsGroups s !! h = None → Reg d0 (initTabsGroup parseInt h s).
Proof.
  intros HR Hnone.
  pose proof (initTabsGroup_Wiring parseInt d0 h s (reg_wiring _ _ HR) Hnone) as HW.
  destruct (queryTriggers (document s) h) as [|t0 rest] eqn:Ht.
  { rewrite initTabsGroup_no_triggers by done. by apply Reg_report. }
  destruct (queryPanels (document s) h) as [|p0 ps] eqn:Hp.
  { rewrite initTabsGroup_no_panels by (by rewrite ?Ht). by apply Reg_report. }
  apply (Reg_register s _ h t0 rest); try done;
    by rewrite (initTabsGroup_registers _ _ _ _ _ Ht) by (by rewrite Hp).
Qed.

Lemma Wiring_registerAndWire s h :
  Wiring d0 s → tabsGroups s !! h = None →
  queryTriggers (document s) h ≠ [] → queryPanels (document s) h ≠ [] →
  Wiring d0 (registerAndWire parseInt h s).
Proof.
  intros HW Hnone Ht Hp.
  pose proof (initTabsGroup_Wiring parseInt d0 h s HW Hnone) as HW'.
  destruct (queryTriggers (document s) h) as [|t0 rest] eqn:Ht'; [done|].
  rewrite (initTabsGroup_registers _ _ _ _ _ Ht') in HW' by done.
  cbv zeta in HW'. unfold registerAndWire. rewrite Ht'. cbv zeta.
  set (group := newGroup parseInt h (document s) t0) in *.
  eapply Wiring_keep; [exact HW'| | |done].
  - cbn [document with_document]. unfold initDocument. cbv zeta.
    change (name group) with h.
    destruct (defaultTabId _ _) as [t|]; [destruct (truthy t)|]; try done.
    symmetry. apply static_eq_activateTabInstant.
  - cbn [document with_document]. unfold initDocument. cbv zeta.
    change (name group) with h.
    destruct (defaultTabId _ _) as [t|]; [destruct (truthy t)|]; try done.
    symmetry. apply listeners_eq_activateTabInstant.
Qed.

Lemma Reg_registerAndWire s h :
  Reg d0 s → tabsGroups s !! h = None →
  queryTriggers (document s) h ≠ [] → queryPanels (document s) h ≠ [] →
  Reg d0 (registerAndWire parseInt h s).
Proof.
  intros HR Hnone Ht Hp.
  pose proof (Wiring_registerAndWire s h (reg_wiring _ _ HR) Hnone Ht Hp) as HW.
  destruct (queryTriggers (document s) h) as [|t0 rest] eqn:Ht'; [done|].
  apply (Reg_register s _ h t0 rest); try done;
    unfold registerAndWire; by rewrite Ht'.
Qed.

(** Every move keeps the registry in order. *)
Lemma Reg_move s s' : Reg d0 s → move parseInt T g s s' → Reg d0 s'.
Proof.
  intros HR [c|h t a group Hget HA _|k|h Hnone _ _ _|h Hnone Ht Hp _].
  - by apply Reg_report.
  - by eapply Reg_activateTab.
  - by apply Reg_timeout.
  - by apply Reg_initTabsGroup.
  - by apply Reg_registerAndWire.
Qed.

Lemma Reg_moves s s' : Reg d0 s → rtc (move parseInt T g) s s' → Reg d0 s'.
Proof. intros HR Hrtc. induction Hrtc; [done|]. eauto using Reg_move. Qed.

End RegMoves.

(** ** One group among the others *)

Lemma gphase_frame T d0 d d' ts ts' a group :
  (∀ i, i ∈ triggers group ∨ i ∈ panels group → d' !! i = d !! i) →
  pending a ts' = pending a ts →
  gphase T d0 d ts a group → gphase T d0 d' ts' a group.
Proof.
  intros Hfr Hpen. unfold gphase. rewrite Hpen.
  destruct (pending a ts) as [|[a1 ps A cur next|a1] [|cb2 rest]]; try done.
  - intros [Hidle (c & HT & Hc)]. split; [done|]. exists c. split; [done|].
    by eapply settled_frame.
  - intros (Han & Hanim & Hps & HA & Hcur & c & HT & Hnext & Hc).
    repeat (split; [done|]). exists c. repeat (split; [done|]).
    eapply triggers_settled_frame; [|done]. auto.
  - intros [Hidle (c & HT & Hc)]. split; [done|]. exists c. split; [done|].
    by eapply settled_frame.
Qed.

Lemma gphase_idle T d0 d ts a group :
  gphase T d0 d ts a group → isAnimating group = false →
  pending a ts = [] ∧ ∃ c, T c ∧ settled d group c.
Proof.
  unfold gphase. intros H Hidle.
  destruct (pending a ts) as [|[a1 ps A cur next|a1] [|cb2 rest]]; try done.
  - by destruct H.
  - destruct H as [H _]. congruence.
  - destruct H as [H _]. congruence.
Qed.

Lemma instant_switch_settled_disjoint group tabId d :
  (∀ i, i ∈ triggers group → i ∉ panels group) →
  settled (switchPanels group (nextPanelsOf group tabId d)
             (updateTriggers group tabId d)) group tabId.
Proof.
  intros Hdisj. split.
  - intros i e' Hi He'.
    rewrite switchPanels_lookup, updateTriggers_lookup in He'.
    destruct (d !! i) as [e|] eqn:He; [|done]. simpl in He'. injection He' as <-.
    pose proof (Hdisj i Hi) as Hnp.
    assert (i ∉ nextPanelsOf group tabId d) as Hnn.
    { intros H. by apply nextPanelsOf_subset in H. }
    unfold switchPanels_el. apply includes_false in Hnp, Hnn. rewrite Hnp, Hnn.
    simpl. by apply updateTriggers_el_settled.
  - intros i e' Hi He'.
    rewrite switchPanels_lookup, updateTriggers_lookup in He'.
    destruct (d !! i) as [e|] eqn:He; [|done]. simpl in He'. injection He' as <-.
    assert (i ∉ triggers group) as Hnt by (intros H; by apply (Hdisj i)).
    unfold updateTriggers_el. apply includes_false in Hnt. rewrite Hnt.
    apply switchPanels_el_settled; [done|].
    rewrite (includes_nextPanelsOf _ _ _ _ _ He).
    apply includes_true in Hi. by rewrite Hi.
Qed.

Lemma phaseTwo_settled_disjoint d0 group cur c d :
  (∀ i, i ∈ triggers group → i ∉ panels group) →
  activeClass group ≠ ANIM_CLASS.entering → static_eq d0 d →
  cur ∈ panels group →
  triggers_settled d group c →
  settled (phaseTwo (panels group) (activeClass group) cur
             (nextPanelsOf group c d0) d) group c.
Proof.
  intros Hdisj HA Hst Hcur Htrig. split.
  - eapply triggers_settled_frame; [|done]. intros i Hi.
    pose proof (Hdisj i Hi) as Hnp.
    apply phaseTwo_frame; [by intros ->|done|].
    intros H. by apply nextPanelsOf_subset in H.
  - intros i e' Hi He'. rewrite phaseTwo_lookup in He'.
    apply fmap_Some in He' as (e & He & ->).
    rewrite phaseTwo_el_panel by (by try apply includes_true).
    rewrite (nextPanelsOf_static _ _ _ _ Hst), (includes_nextPanelsOf _ _ _ _ _ He).
    apply includes_true in Hi. rewrite Hi. simpl.
    rewrite attribute_is_true. unfold getAttribute.
    by rewrite <-(same_static_phaseTwo_el _ _ _ _ _ _ ATTR.content static_content).
Qed.

Section GoodMoves.

Variable parseInt : string → number.
Variables (T : string → Prop) (g : string) (d0 : Document).

Hypothesis Hwf : wf_group d0 g.
Hypothesis HT : ∀ c, is_tab d0 g c → T c.

Lemma group_disjoint s a group :
  Reg d0 s → get g s = Some (a, group) →
  ∀ i, i ∈ triggers group → i ∉ panels group.
Proof.
  intros HR [Hreg Hheap]%get_Some i.
  destruct (reg_groups _ _ HR g a Hreg) as (group' & Hheap' & _ & Ht & Hp & _).
  assert (group' = group) as -> by congruence. rewrite Ht, Hp.
  apply (wf_disjoint _ _ Hwf).
Qed.

Lemma Good_report s c :
  Good T d0 g s → Good T d0 g (mkState (document s) (heap s) (tabsGroups s) (timers s) c).
Proof. intros HG a group Hget. by apply (HG a group). Qed.

(** A move that leaves the group object, the elements and the timers of
    [g] alone keeps what holds of [g]. *)
Lemma Good_frame s s' :
  Reg d0 s → Good T d0 g s →
  (∀ a group, get g s' = Some (a, group) → get g s = Some (a, group)) →
  (∀ i, members d0 g i → document s' !! i = document s !! i) →
  (∀ a, tabsGroups s !! g = Some a → pending a (timers s') = pending a (timers s)) →
  Good T d0 g s'.
Proof.
  intros HR HG Hget Hdoc Hpen a group Hget'. apply Hget in Hget'.
  destruct (HG a group Hget') as (HA & Hent & Hph). split; [done|]. split; [done|].
  apply get_Some in Hget' as [Hreg Hheap].
  eapply gphase_frame; [|by apply Hpen|done].
  intros i Hi. apply Hdoc. by eapply Reg_on_page.
Qed.

Lemma get_alter_ne s s' h a a' f group :
  tabsGroups s' = tabsGroups s → heap s' = alter f a' (heap s) →
  tabsGroups s !! h = Some a → a ≠ a' →
  get h s' = Some (a, group) → get h s = Some (a, group).
Proof.
  intros Hreg Hheap Hh Hne. rewrite !get_Some, Hreg, Hheap.
  intros [Ha Hg]. assert (a = a) by done.
  rewrite list_lookup_alter_ne in Hg by done. done.
Qed.

Lemma Good_activateTab_other s h t a group :
  Reg d0 s → Good T d0 g s → get h s = Some (a, group) → h ≠ g →
  Good T d0 g (activateTab h t s).
Proof.
  intros HR HG Hget Hne. pose proof Hget as [Hreg Hheap]%get_Some.
  destruct (activateTab_effect h t s a group Hget) as (Hregs & Hfr & Heff).
  assert (∀ a', tabsGroups s !! g = Some a' → a' ≠ a) as Haddr.
  { intros a' Hg ->. apply Hne. by eapply Reg_address. }
  apply (Good_frame s); try done.
  - intros a' group' Hget'. pose proof Hget' as [Hg' _]%get_Some. rewrite Hregs in Hg'.
    destruct Heff as [[Hh _]|(_ & _ & p & _ & Hh & _)].
    + revert Hget'. by rewrite !get_Some, Hregs, Hh.
    + eapply (get_alter_ne s _ g a' a (with_isAnimating true));
        [exact Hregs|exact Hh|exact Hg'|by apply Haddr|exact Hget'].
  - intros i Hi. apply Hfr.
    + intros Hc. apply Hne. eapply (members_disjoint d0 h g i); [|done].
      eapply Reg_on_page; eauto.
    + intros Hc. apply Hne. eapply (members_disjoint d0 h g i); [|done].
      eapply Reg_on_page; eauto.
  - intros a' Hg. destruct Heff as [[_ ->]|(_ & _ & p & _ & _ & ->)]; [done|].
    apply pending_snoc_ne. simpl. apply not_eq_sym. by apply Haddr.
Qed.

Lemma Good_activateTab_own s t a group :
  Reg d0 s → Good T d0 g s → get g s = Some (a, group) → T t →
  Good T d0 g (activateTab g t s).
Proof.
  intros HR HG Hget HTt. pose proof Hget as [Hreg Hheap]%get_Some.
  destruct (HG a group Hget) as (HA & Hent & Hph).
  pose proof (group_disjoint s a group HR Hget) as Hdisj.
  pose proof (wiring_static _ _ (reg_wiring _ _ HR)) as Hst.
  rewrite activateTab_eq, Hget.
  destruct (isAnimating group) eqn:Hidle; [done|].
  destruct (sameTab group t (document s)) eqn:Hsame; [done|].
  destruct (gphase_idle _ _ _ _ _ _ Hph Hidle) as [Hpen _].
  cbv zeta.
  assert (Good T d0 g
            (with_document
               (switchPanels group (nextPanelsOf group t (document s))
                  (updateTriggers group t (document s))) s)) as Hinst.
  { intros a' group'. rewrite get_Some. cbn [tabsGroups heap with_document].
    intros [Ha' Hg']. assert (a' = a) as -> by congruence.
    assert (group' = group) as -> by congruence.
    split; [done|]. split; [done|].
    unfold gphase. cbn [timers document with_document]. rewrite Hpen.
    split; [done|]. exists t. split; [done|]. by apply instant_switch_settled_disjoint. }
  destruct (animate group) eqn:Han; [|done].
  destruct (currentPanelOf group (document s)) as [p|] eqn:Hcur; [|done].
  apply currentPanelOf_Some in Hcur as [Hp _].
  intros a' group'. rewrite get_Some. unfold animateTransition. cbv zeta.
  cbn [tabsGroups heap with_document setTimeout with_timers set_isAnimating document timers].
  intros [Ha' Hg']. assert (a' = a) as -> by congruence.
  rewrite list_lookup_alter_eq, Hheap in Hg'. injection Hg' as <-.
  split; [exact HA|]. split; [intros _; by apply Hent|].
  unfold gphase. rewrite pending_snoc_eq, Hpen by done. simpl.
  repeat (split; [done|]). exists t. split; [done|]. split.
  - symmetry. exact (nextPanelsOf_static group t d0 (document s) Hst).
  - intros i e Hi. cbn [activeClass triggers panels with_isAnimating] in *.
    rewrite list_lookup_alter_ne by (intros ->; by apply (Hdisj i)).
    rewrite updateTriggers_lookup. intros (e1 & _ & ->)%fmap_Some.
    by apply updateTriggers_el_settled.
Qed.

Lemma static_animate : ATTR.animate ∉ dynamic_keys.
Proof. not_dynamic. Qed.

Lemma static_eq_configActiveClass d d' i :
  static_eq d d' → configActiveClass d i = configActiveClass d' i.
Proof.
  intros H. unfold configActiveClass.
  by rewrite (static_eq_getAttributeAt d d') by auto with static.
Qed.

Lemma static_eq_configAnimate d d' i :
  static_eq d d' → configAnimate d i = configAnimate d' i.
Proof.
  intros H. unfold configAnimate. apply static_eq_test; [done|].
  apply static_pred_hasAttribute, static_animate.
Qed.

Lemma static_eq_configuredClass d d' h :
  static_eq d d' → configuredClass d h = configuredClass d' h.
Proof.
  intros H. unfold configuredClass. rewrite (static_eq_queryTriggers d d') by done.
  destruct (queryTriggers d' h); [done|]. by apply static_eq_configActiveClass.
Qed.

Lemma Good_timeout s k : Reg d0 s → Good T d0 g s → Good T d0 g (timeout k s).
Proof.
  intros HR HG. pose proof (wiring_static _ _ (reg_wiring _ _ HR)) as Hst.
  unfold timeout. destruct (timers s !! k) as [cb|] eqn:Hk; [|done].
  destruct (reg_timers _ _ HR cb (list_elem_of_lookup_2 _ _ _ Hk)) as (h & Hh & Hok).
  destruct (reg_groups _ _ HR h _ Hh) as (group & Hheap & Hname & Htr & Hpa & _).
  destruct (lookup_delete_split _ _ _ Hk) as (l1 & l2 & Hts & Hdel).
  assert (∀ a', a' ≠ cb_group cb →
            pending a' (delete k (timers s)) = pending a' (timers s)) as Hother.
  { intros a' Hne. rewrite Hdel, Hts, !pending_app.
    by rewrite pending_cons_ne by (by apply not_eq_sym). }
  destruct (decide (h = g)) as [->|Hne].
  - (* a timer of the group itself *)
    assert (get g s = Some (cb_group cb, group)) as Hget by (by apply get_Some).
    destruct (HG _ group Hget) as (HA & Hent & Hph).
    pose proof (group_disjoint s _ group HR Hget) as Hdisj.
    unfold gphase in Hph.
    rewrite Hts, pending_app, pending_cons_eq in Hph by done.
    assert (pending (cb_group cb) l1 = [] ∧ pending (cb_group cb) l2 = []) as [Hl1 Hl2].
    { destruct (pending (cb_group cb) l1) as [|[] [|? ?]],
               (pending (cb_group cb) l2) as [|? ?], cb; simpl in Hph; done. }
    rewrite Hl1, Hl2 in Hph. simpl in Hph.
    assert (pending (cb_group cb) (delete k (timers s)) = []) as Hmine.
    { by rewrite Hdel, pending_app, Hl1, Hl2. }
    destruct cb as [a ps A cur next|a]; cbn [cb_group] in *.
    + destruct Hph as (Han & Hanim & -> & -> & Hcur & c & HTc & -> & Htrig).
      rewrite runCallback_PhaseTwo. intros a' group'. rewrite get_Some.
      cbn [tabsGroups heap with_document setTimeout with_timers document timers].
      intros [Ha' Hg']. assert (a' = a) as -> by congruence.
      assert (group' = group) as -> by congruence.
      split; [done|]. split; [done|].
      unfold gphase. rewrite pending_snoc_eq, Hmine by done. simpl. split; [done|].
      exists c. split; [done|]. apply phaseTwo_settled_disjoint; auto.
    + destruct Hph as (Han & c & HTc & Hc). cbn [runCallback].
      intros a' group'. rewrite get_Some.
      cbn [tabsGroups heap with_timers set_isAnimating document timers].
      intros [Ha' Hg']. assert (a' = a) as -> by congruence.
      rewrite list_lookup_alter_eq, Hheap in Hg'. injection Hg' as <-.
      split; [done|]. split; [done|].
      unfold gphase. rewrite Hmine. split; [done|]. by exists c.
  - (* a timer of another group *)
    assert (∀ a', tabsGroups s !! g = Some a' → a' ≠ cb_group cb) as Haddr.
    { intros a' Hg Heq. apply Hne. rewrite Heq in Hg. by eapply Reg_address. }
    assert (∀ i, members d0 g i → i ∉ queryPanels d0 h) as Hnot.
    { intros i Hi Hc. apply Hne. eapply (members_disjoint d0 h g i); [by right|done]. }
    destruct cb as [a ps A cur next|a]; cbn [cb_group cb_ok] in *.
    + destruct Hok as (_ & -> & Hcur & Hnext).
      rewrite runCallback_PhaseTwo. apply (Good_frame s); try done.
      * intros i Hi. cbn [document setTimeout with_timers with_document].
        apply phaseTwo_frame; [|by apply Hnot|].
        -- intros ->. by apply (Hnot cur).
        -- intros Hc. by apply (Hnot i Hi), Hnext.
      * intros a' Hg. cbn [timers setTimeout with_timers with_document].
        rewrite pending_snoc_ne by (simpl; apply not_eq_sym; by apply Haddr).
        by apply Hother, Haddr.
    + cbn [runCallback]. apply (Good_frame s); try done.
      * intros a' group' Hget'. pose proof Hget' as [Hg' _]%get_Some.
        eapply (get_alter_ne s _ g a' a (with_isAnimating false));
          [| | | |exact Hget']; [reflexivity|reflexivity|exact Hg'|by apply Haddr].
      * intros a' Hg. cbn [timers set_isAnimating with_timers].
        by apply Hother, Haddr.
Qed.

Lemma Good_initTabsGroup s h :
  Reg d0 s → Good T d0 g s → tabsGroups s !! h = None →
  Good T d0 g (initTabsGroup parseInt h s).
Proof.
  intros HR HG Hnone. pose proof (wiring_static _ _ (reg_wiring _ _ HR)) as Hst.
  destruct (queryTriggers (document s) h) as [|t0 rest] eqn:Ht.
  { rewrite initTabsGroup_no_triggers by done. by apply Good_report. }
  destruct (queryPanels (document s) h) as [|p0 ps] eqn:Hp.
  { rewrite initTabsGroup_no_panels by (by rewrite ?Ht). by apply Good_report. }
  rewrite (initTabsGroup_registers _ _ _ _ _ Ht) by (by rewrite Hp). cbv zeta.
  set (group := newGroup parseInt h (document s) t0).
  destruct (decide (h = g)) as [->|Hne].
  - (* the group itself is initialised *)
    intros a' group'. rewrite get_Some.
    cbn [tabsGroups heap with_document register document timers].
    rewrite lookup_insert_eq. intros [[= <-] Hg'].
    rewrite lookup_app_r, Nat.sub_diag in Hg' by done. injection Hg' as <-.
    assert (head (queryTriggers d0 g) = Some t0) as Hhead.
    { by rewrite (static_eq_queryTriggers d0 (document s)), Ht by done. }
    split; [|split].
    + cbn [activeClass group newGroup].
      rewrite <-(static_eq_configActiveClass d0 (document s)) by done.
      by apply (wf_token _ _ Hwf).
    + cbn [activeClass animate group newGroup].
      rewrite <-(static_eq_configActiveClass d0 (document s)),
        <-(static_eq_configAnimate d0 (document s)) by done.
      by apply (wf_entering _ _ Hwf).
    + unfold gphase. rewrite pending_nil.
      2:{ intros cb Hcb. destruct (reg_timers _ _ HR cb Hcb) as (h' & Hh' & _).
          destruct (reg_groups _ _ HR h' _ Hh') as (group' & Hheap' & _).
          apply lookup_lt_Some in Hheap'. lia. }
      split; [done|].
      destruct (defaultTabId_is_Some (document s) (queryTriggers (document s) g))
        as (j & tabId & Hj & Hattr & Hdef).
      { by rewrite Ht. }
      { intros j. apply queryTriggers_attribute. }
      assert (tabId ≠ "") as Htab.
      { intros ->. apply (wf_default _ _ Hwf).
        rewrite (static_eq_queryTriggers d0 (document s)) by done.
        by rewrite (static_eq_defaultTabId d0 (document s)). }
      exists tabId. split.
      { apply HT. exists j. rewrite (static_eq_queryTriggers d0 (document s)) by done.
        split; [done|].
        by rewrite (static_eq_getAttributeAt d0 (document s)) by auto with static. }
      unfold initDocument. cbv zeta.
      rewrite <-(static_eq_defaultTabId (document s)) by apply static_eq_wire.
      change (triggers group) with (queryTriggers (document s) g). rewrite Hdef.
      rewrite (proj2 (truthy_true tabId) Htab).
      assert (∀ i, i ∈ queryTriggers (document s) g → i ∉ queryPanels (document s) g)
        as Hdisj.
      { intros i Hi. rewrite <-(static_eq_queryTriggers d0 (document s)) in Hi by done.
        rewrite <-(static_eq_queryPanels d0 (document s)) by done.
        by apply (wf_disjoint _ _ Hwf). }
      split.
      * intros i e Hi He. rewrite activateTabInstant_lookup in He.
        apply fmap_Some in He as (e1 & _ & ->).
        apply instant_el_trigger; [done|]. by apply Hdisj.
      * intros i e Hi He. rewrite activateTabInstant_lookup in He.
        apply fmap_Some in He as (e1 & _ & ->).
        apply instant_el_panel; [done|]. intros Hc. by apply (Hdisj i).
  - (* another group is initialised *)
    apply (Good_frame s); try done.
    + intros a' group'. rewrite !get_Some.
      cbn [tabsGroups heap with_document register].
      rewrite lookup_insert_ne by done. intros [Ha' Hg']. split; [done|].
      destruct (reg_groups _ _ HR g a' Ha') as (group0 & Hheap0 & _).
      rewrite (lookup_app_l_Some _ _ _ _ Hheap0) in Hg'. congruence.
    + intros i Hi. cbn [document with_document].
      apply initDocument_frame.
      * intros Hm. change (triggers group) with (queryTriggers (document s) h) in Hm.
        rewrite <-(static_eq_queryTriggers d0) in Hm by done.
        apply Hne. eapply (members_disjoint d0 h g i); [by left|done].
      * intros Hm. change (panels group) with (queryPanels (document s) h) in Hm.
        rewrite <-(static_eq_queryPanels d0) in Hm by done.
        apply Hne. eapply (members_disjoint d0 h g i); [by right|done].
Qed.

Lemma Good_registerAndWire s h :
  Reg d0 s → Good T d0 g s → tabsGroups s !! h = None →
  queryTriggers (document s) h ≠ [] →
  ¬ valid_token (configuredClass (document s) h) →
  Good T d0 g (registerAndWire parseInt h s).
Proof.
  intros HR HG Hnone Ht HA. pose proof (wiring_static _ _ (reg_wiring _ _ HR)) as Hst.
  destruct (queryTriggers (document s) h) as [|t0 rest] eqn:Ht'; [done|].
  assert (h ≠ g) as Hne.
  { intros ->. apply HA. unfold configuredClass. rewrite Ht'.
    rewrite <-(static_eq_configActiveClass d0 (document s)) by done.
    apply (wf_token _ _ Hwf).
    by rewrite (static_eq_queryTriggers d0 (document s)), Ht' by done. }
  unfold registerAndWire. rewrite Ht'. cbv zeta.
  set (group := newGroup parseInt h (document s) t0).
  apply (Good_frame s); try done.
  - intros a' group'. rewrite !get_Some.
    cbn [tabsGroups heap with_document register].
    rewrite lookup_insert_ne by done. intros [Ha' Hg']. split; [done|].
    destruct (reg_groups _ _ HR g a' Ha') as (group0 & Hheap0 & _).
    rewrite (lookup_app_l_Some _ _ _ _ Hheap0) in Hg'. congruence.
  - intros i Hi. cbn [document with_document]. apply wire_frame.
    + intros Hm. change (triggers group) with (queryTriggers (document s) h) in Hm.
      rewrite <-(static_eq_queryTriggers d0) in Hm by done.
      apply Hne. eapply (members_disjoint d0 h g i); [by left|done].
    + intros Hm. change (panels group) with (queryPanels (document s) h) in Hm.
      rewrite <-(static_eq_queryPanels d0) in Hm by done.
      apply Hne. eapply (members_disjoint d0 h g i); [by right|done].
Qed.

(** Every move keeps what holds of the group [g]. *)
Lemma Good_move s s' :
  Reg d0 s → Good T d0 g s → move parseInt T g s s' → Good T d0 g s'.
Proof.
  intros HR HG [c|h t a group Hget HA HTt|k|h Hnone _ _ _|h Hnone Ht Hp HA].
  - by apply Good_report.
  - destruct (decide (h = g)) as [->|Hne].
    + eapply Good_activateTab_own; eauto.
    + eapply Good_activateTab_other; eauto.
  - by apply Good_timeout.
  - by apply Good_initTabsGroup.
  - by apply Good_registerAndWire.
Qed.

Lemma Good_moves s s' :
  Reg d0 s → Good T d0 g s → rtc (move parseInt T g) s s' →
  Reg d0 s' ∧ Good T d0 g s'.
Proof.
  intros HR HG Hrtc. induction Hrtc as [|s1 s2 s3 Hm _ IH]; [done|].
  apply IH; [by eapply Reg_move|by eapply Good_move].
Qed.

End GoodMoves.

(** ** A browser run, move by move *)

Lemma wired_click d0 s j e h :
  Wiring d0 s → document s !! j = Some e → OnClick h ∈ listeners e →
  is_Some (tabsGroups s !! h) ∧ j ∈ queryTriggers d0 h.
Proof.
  intros HW He Hin. rewrite (wiring_listeners _ _ HW j e He) in Hin.
  unfold handlers in Hin.
  destruct (getAttributeAt d0 ATTR.group j) as [h'|] eqn:Hg; [|by apply elem_of_nil in Hin].
  destruct (bool_decide (is_Some (tabsGroups s !! h'))) eqn:Hreg;
    [|by apply elem_of_nil in Hin].
  destruct (test d0 (hasAttribute ATTR.trigger) j) eqn:Htr;
    [|by apply elem_of_nil in Hin].
  simpl in Hin. apply elem_of_cons in Hin as [[= ->]|Hin].
  - split; [by apply bool_decide_eq_true in Hreg|].
    apply elem_of_queryTriggers. unfold getAttributeAt in Hg. unfold test in Htr.
    destruct (d0 !! j) as [e0|]; [|done]. exists e0. split; [done|].
    simpl in Hg. unfold isTrigger. rewrite Htr, andb_true_r.
    by apply attribute_is_true.
  - apply elem_of_cons in Hin as [?|Hin]; [done|]. by apply elem_of_nil in Hin.
Qed.

Section BrowserMoves.

Variable parseInt : string → number.
Variable selectAll : string → Document → list nat + DOMException.
Variable ancestors : nat → list nat.
Variables (T : string → Prop) (g : string) (d0 : Document).

Hypothesis HT : ∀ c, is_tab d0 g c → T c.

Abbreviation reach := (rtc (move parseInt T g)).

Lemma report_reach s msg : reach s (console_warn msg s).
Proof. apply rtc_once. apply move_report. Qed.

Lemma activateTab_reach h t s :
  Reg d0 s → (h = g → T t) → reach s (fst (Browser.activateTab h t s)).
Proof.
  intros HR HTt. destruct (get h s) as [[a group]|] eqn:Hget.
  - destruct (Browser.validate (activeClass group)) as [|exn] eqn:HA.
    + rewrite activateTab_valid
        by (intros a' group' H; rewrite Hget in H; by injection H as <- <-).
      simpl.
      apply rtc_once. by eapply move_activate.
    + pose proof Hget as [Hreg Hheap]%get_Some.
      destruct (reg_groups _ _ HR h a Hreg) as (group' & Hheap' & _ & Ht & _ & Hne).
      assert (group' = group) as -> by congruence.
      destruct (queryTriggers d0 h) as [|i rest] eqn:Hq; [done|].
      destruct (first_trigger_on_page d0 (document s) h i rest
                  (wiring_static _ _ (reg_wiring _ _ HR)) Hq) as [e He].
      destruct (activateTab_invalid h t s a group i rest e Hget) as (c & -> & _);
        try done.
      unfold valid_token. by rewrite HA.
  - rewrite activateTab_valid by (intros a group; by rewrite Hget). simpl.
    rewrite activateTab_unregistered by done. apply report_reach.
Qed.

(** [initTabsGroup] for a plain name that is not registered: what it
    leaves is a move away, and only that name can have joined the
    registry. *)
Lemma initTabsGroup_reach h s :
  Reg d0 s → plain h = true → tabsGroups s !! h = None →
  let s' := fst (Browser.initTabsGroup parseInt selectAll h s) in
  reach s s' ∧ ∀ h', h' ≠ h → tabsGroups s' !! h' = tabsGroups s !! h'.
Proof.
  intros HR Hplain Hnone.
  destruct (queryTriggers (document s) h) as [|t0 rest] eqn:Ht.
  { rewrite initTabsGroup_plain_total by auto. simpl.
    rewrite initTabsGroup_no_triggers by done. split; [apply report_reach|done]. }
  destruct (queryPanels (document s) h) as [|p0 ps] eqn:Hp.
  { rewrite initTabsGroup_plain_total by auto. simpl.
    rewrite initTabsGroup_no_panels by (by rewrite ?Ht). split; [apply report_reach|done]. }
  assert (∀ s', tabsGroups s' = <[h := length (heap s)]> (tabsGroups s) →
            ∀ h', h' ≠ h → tabsGroups s' !! h' = tabsGroups s !! h') as Hregs.
  { intros s' -> h' Hne. by rewrite lookup_insert_ne. }
  destruct (Browser.validate (configuredClass (document s) h)) as [|exn] eqn:HA.
  { rewrite initTabsGroup_plain_total by auto. simpl. split.
    - apply rtc_once. apply move_init; try done; [by rewrite Ht|by rewrite Hp|by left].
    - apply Hregs. by rewrite (initTabsGroup_registers _ _ _ _ _ Ht) by (by rewrite Hp). }
  destruct (defaultTabId (document s) (queryTriggers (document s) h)) as [tabId|] eqn:Hd.
  2:{ rewrite initTabsGroup_plain_total
        by (try done; right; right; right; by rewrite Hd).
      simpl. split.
      - apply rtc_once. apply move_init; try done; [by rewrite Ht|by rewrite Hp|].
        right. by rewrite Hd.
      - apply Hregs. by rewrite (initTabsGroup_registers _ _ _ _ _ Ht) by (by rewrite Hp). }
  destruct (decide (tabId = "")) as [->|Htab].
  { rewrite initTabsGroup_plain_total
      by (try done; right; right; right; rewrite Hd; by intros ? [= <-]).
    simpl. split.
    - apply rtc_once. apply move_init; try done; [by rewrite Ht|by rewrite Hp|].
      right. rewrite Hd. by intros ? [= <-].
    - apply Hregs. by rewrite (initTabsGroup_registers _ _ _ _ _ Ht) by (by rewrite Hp). }
  assert (¬ valid_token (configuredClass (document s) h)) as HA'
    by (unfold valid_token; by rewrite HA).
  assert (queryTriggers (document s) h ≠ []) as Ht' by (by rewrite Ht).
  assert (queryPanels (document s) h ≠ []) as Hp' by (by rewrite Hp).
  destruct (initTabsGroup_plain_raises parseInt selectAll h s tabId
              Hplain Ht' Hp' HA' Hd Htab) as [exn' ->].
  simpl. split.
  - apply rtc_once. by apply move_wire.
  - apply Hregs. unfold registerAndWire. by rewrite Ht.
Qed.

Lemma switchTab_reach h t s :
  Reg d0 s → plain h = true → (h = g → T t) →
  reach s (fst (Browser.switchTab parseInt selectAll h t s)).
Proof.
  intros HR Hplain HTt. unfold Browser.switchTab.
  destruct (has h s) eqn:Hhas; [by apply activateTab_reach|].
  assert (tabsGroups s !! h = None) as Hnone.
  { unfold has in Hhas. apply bool_decide_eq_false in Hhas.
    by apply eq_None_not_Some. }
  destruct (initTabsGroup_reach h s HR Hplain Hnone) as [Hreach _].
  unfold andThen.
  destruct (Browser.initTabsGroup parseInt selectAll h s) as [s1 [|exn]]; simpl in *;
    [|done].
  etrans; [exact Hreach|].
  destruct (has h s1).
  - apply activateTab_reach; [|done]. by eapply Reg_moves.
  - apply report_reach.
Qed.

Lemma onClick_reach h j s :
  Reg d0 s → (h = g → j ∈ queryTriggers d0 g) →
  reach s (Browser.settle (Browser.onClick h j) s).
Proof.
  intros HR Hj. unfold Browser.settle, Browser.onClick.
  destruct (getAttributeAt (document s) ATTR.trigger j) as [tabId|] eqn:Hattr; [|done].
  destruct (truthy tabId); [|done].
  apply activateTab_reach; [done|]. intros ->. apply HT.
  exists j. split; [by apply Hj|].
  by rewrite (static_eq_getAttributeAt d0 (document s))
    by (auto with static; apply (reg_wiring _ _ HR)).
Qed.

Lemma clickListeners_reach j s : Reg d0 s → reach s (Browser.clickListeners j s).
Proof.
  intros HR. unfold Browser.clickListeners.
  destruct (document s !! j) as [e|] eqn:He; [|done].
  assert (∀ h, OnClick h ∈ listeners e → h = g → j ∈ queryTriggers d0 g) as Hwired.
  { intros h Hin ->. by apply (wired_click d0 s j e g (reg_wiring _ _ HR) He). }
  revert Hwired. generalize (listeners e). intros ls. clear He. revert s HR.
  induction ls as [|l ls IH]; intros s HR Hwired; [done|]. simpl.
  assert (reach s (match l with
                   | OnClick h => Browser.settle (Browser.onClick h j) s
                   | OnKeydown => s
                   end)) as Hstep.
  { destruct l as [h|]; [|done]. apply onClick_reach; [done|].
    apply Hwired, elem_of_cons. by left. }
  etrans; [exact Hstep|].
  apply IH; [by eapply Reg_moves|].
  intros h Hin. apply Hwired, elem_of_cons. by right.
Qed.

Lemma click_reach i s : Reg d0 s → reach s (Browser.click ancestors i s).
Proof.
  intros HR. unfold Browser.click. generalize (i :: ancestors i). intros path.
  revert s HR. induction path as [|j path IH]; intros s HR; [done|]. simpl.
  etrans; [by apply clickListeners_reach|].
  apply IH. eapply Reg_moves; [done|]. by apply clickListeners_reach.
Qed.

Lemma keydownListeners_reach j key s :
  Reg d0 s → reach s (Browser.keydownListeners ancestors j key s).
Proof.
  intros HR. unfold Browser.keydownListeners.
  destruct (document s !! j) as [e|]; [|done].
  generalize (listeners e). intros ls. revert s HR.
  induction ls as [|l ls IH]; intros s HR; [done|]. simpl.
  assert (reach s (match l with
                   | OnClick _ => s
                   | OnKeydown =>
                       if String.eqb key "Enter" || String.eqb key " "
                       then Browser.click ancestors j s else s
                   end)) as Hstep.
  { destruct l as [h|]; [done|]. destruct (_ || _); [|done]. by apply click_reach. }
  etrans; [exact Hstep|]. apply IH. by eapply Reg_moves.
Qed.

Lemma keydown_reach i key s : Reg d0 s → reach s (Browser.keydown ancestors i key s).
Proof.
  intros HR. unfold Browser.keydown. generalize (i :: ancestors i). intros path.
  revert s HR. induction path as [|j path IH]; intros s HR; [done|]. simpl.
  etrans; [by apply keydownListeners_reach|].
  apply IH. eapply Reg_moves; [done|]. by apply keydownListeners_reach.
Qed.

(** In a state the module can reach, every pending callback completes. *)
Lemma timeout_agree k s : Reg d0 s → Browser.timeout k s = timeout k s.
Proof.
  intros HR. unfold Browser.timeout, timeout, Browser.settle.
  destruct (timers s !! k) as [cb|] eqn:Hk; [|done].
  destruct (reg_timers _ _ HR cb (list_elem_of_lookup_2 _ _ _ Hk)) as (h & _ & Hok).
  rewrite runCallback_valid; [done|]. intros a ps A cur next ->. by destruct Hok.
Qed.

Lemma timeout_reach k s : Reg d0 s → reach s (Browser.timeout k s).
Proof. intros HR. rewrite timeout_agree by done. apply rtc_once, move_timeout. Qed.

Lemma each_initTabsGroup_reach names s :
  Reg d0 s → NoDup names →
  (∀ h, h ∈ names → plain h = true ∧ tabsGroups s !! h = None) →
  reach s (fst (each names (Browser.initTabsGroup parseInt selectAll) s)).
Proof.
  revert s. induction names as [|h names IH]; intros s HR Hnd Hnames; [done|].
  apply NoDup_cons in Hnd as [Hnotin Hnd].
  destruct (Hnames h) as [Hplain Hnone]; [apply elem_of_cons; by left|].
  destruct (initTabsGroup_reach h s HR Hplain Hnone) as [Hreach Hregs].
  simpl. unfold andThen.
  destruct (Browser.initTabsGroup parseInt selectAll h s) as [s1 [|exn]]; simpl in *;
    [|done].
  etrans; [exact Hreach|]. apply IH; [by eapply Reg_moves|done|].
  intros h' Hh'. destruct (Hnames h') as [Hplain' Hnone']; [apply elem_of_cons; by right|].
  split; [done|]. rewrite Hregs; [done|]. by intros ->.
Qed.

Lemma initAllTabs_reach s :
  Reg d0 s →
  (∀ h, h ∈ groupNames (document s) → plain h = true ∧ tabsGroups s !! h = None) →
  reach s (Browser.settle (Browser.initAllTabs parseInt selectAll) s).
Proof.
  intros HR Hnames. unfold Browser.settle, Browser.initAllTabs. cbv zeta.
  fold (groupNames (document s)).
  pose proof (each_initTabsGroup_reach (groupNames (document s)) s HR
                (NoDup_groupNames _) Hnames) as Hreach.
  unfold andThen.
  destruct (each (groupNames (document s)) (Browser.initTabsGroup parseInt selectAll) s)
    as [s1 [|exn]]; simpl in *; [|done].
  etrans; [exact Hreach|]. apply rtc_once, move_report.
Qed.

Lemma step_reach s ev :
  Reg d0 s → ev ≠ InitAllTabs →
  (∀ h t, ev = SwitchTab h t → plain h = true ∧ (h = g → T t)) →
  reach s (Browser.step parseInt selectAll ancestors s ev).
Proof.
  intros HR Hev Hsw. destruct ev as [|h t|i|i key|k]; [done|..]; simpl.
  - destruct (Hsw h t eq_refl). by apply switchTab_reach.
  - by apply click_reach.
  - by apply keydown_reach.
  - by apply timeout_reach.
Qed.

Lemma run_reach s evs :
  Reg d0 s → InitAllTabs ∉ evs →
  (∀ h t, SwitchTab h t ∈ evs → plain h = true ∧ (h = g → T t)) →
  reach s (Browser.run parseInt selectAll ancestors evs s).
Proof.
  revert s. induction evs as [|ev evs IH]; intros s HR Hev Hsw; [done|]. simpl.
  assert (reach s (Browser.step parseInt selectAll ancestors s ev)) as Hstep.
  { apply step_reach; [done| |].
    - intros ->. apply Hev, elem_of_cons. by left.
    - intros h t ->. apply Hsw, elem_of_cons. by left. }
  etrans; [exact Hstep|]. apply IH.
  - by eapply Reg_moves.
  - intros Hin. apply Hev, elem_of_cons. by right.
  - intros h t Hin. apply Hsw, elem_of_cons. by right.
Qed.

End BrowserMoves.

(** ** Single active tab per group *)

Lemma Reg_page d0 : fresh d0 → Reg d0 (page d0).
Proof.
  intros Hfresh. split; [by apply page_Wiring| |].
  - intros h a. simpl. by rewrite lookup_empty.
  - intros cb Hcb. simpl in Hcb. by apply elem_of_nil in Hcb.
Qed.

Lemma Good_page T d0 g : Good T d0 g (page d0).
Proof. intros a group. unfold get. simpl. by rewrite lookup_empty. Qed.

Lemma settled_on_page d0 s g a group c :
  Reg d0 s → get g s = Some (a, group) → settled (document s) group c →
  page_settled (document s) g (activeClass group) c.
Proof.
  intros HR [Hreg Hheap]%get_Some [Ht Hp] e He.
  destruct (reg_groups _ _ HR g a Hreg) as (group' & Hheap' & _ & Htr & Hpa & _).
  assert (group' = group) as -> by congruence.
  pose proof (wiring_static _ _ (reg_wiring _ _ HR)) as Hst.
  apply list_elem_of_lookup in He as [i Hi]. split.
  - intros Hrole. apply (Ht i e); [|done].
    rewrite Htr, (static_eq_queryTriggers d0 (document s)) by done.
    apply elem_of_queryTriggers. by exists e.
  - intros Hrole. apply (Hp i e); [|done].
    rewrite Hpa, (static_eq_queryPanels d0 (document s)) by done.
    apply elem_of_queryPanels. by exists e.
Qed.

Section SingleActiveTab.

Variable parseInt : string → number.
Variable selectAll : string → Document → list nat + DOMException.
Variable ancestors : nat → list nat.

(** What holds of a group with the right markup in every state a browser
    run reaches. *)
Lemma run_Good (T : string → Prop) (d0 : Document) (evs : list Event) (g : string) :
  fresh d0 → plain_names d0 evs → InitAllTabs ∉ evs → wf_group d0 g →
  (∀ c, is_tab d0 g c → T c) →
  (∀ t, SwitchTab g t ∈ evs → T t) →
  let s := Browser.run parseInt selectAll ancestors evs
             (Browser.settle (Browser.initAllTabs parseInt selectAll) (page d0)) in
  Reg d0 s ∧ Good T d0 g s.
Proof.
  intros Hfresh [Hpage Hcalls] Hev Hwf HT Hsw s.
  apply (Good_moves parseInt T g d0 Hwf HT (page d0));
    [by apply Reg_page|apply Good_page|].
  etrans.
  - apply (initAllTabs_reach parseInt selectAll T g d0); [by apply Reg_page|].
    intros h (_ & i & Hi)%elem_of_groupNames. split; [|apply lookup_empty].
    apply getAttributeAt_elem in Hi as (e & He & Hattr). by eapply Hpage.
  - apply (run_reach parseInt selectAll ancestors T g d0 HT); [|done|].
    + eapply Reg_moves; [by apply Reg_page|].
      apply (initAllTabs_reach parseInt selectAll T g d0); [by apply Reg_page|].
      intros h (_ & i & Hi)%elem_of_groupNames. split; [|apply lookup_empty].
      apply getAttributeAt_elem in Hi as (e & He & Hattr). by eapply Hpage.
    + intros h t Hin. split; [by eapply Hcalls|]. intros ->. by apply Hsw.
Qed.

(** C1 (as amended). On a freshly loaded page whose group names are plain,
    for a group in which no element is both trigger and panel, whose
    default tab identifier is not empty, and whose active class is a valid
    class token (and not the entering class, if the group animates): after
    [initAllTabs] and any sequence of [switchTab] calls with plain group
    names, clicks, key presses and timer firings, whenever the group is
    registered and not animating there is a tab identifier such that
    exactly the triggers of the group with that identifier, and exactly the
    panels of the group with that identifier, carry the group's active
    class.  When moreover every [switchTab] call for the group asks for a
    tab identifier that some trigger of the group has, some trigger of the
    group has that identifier: exactly one tab identifier is active. *)
Theorem single_active_tab_settled (d0 : Document) (evs : list Event)
    (groupName : string) (a : nat) (group : TabsGroup) :
  fresh d0 → plain_names d0 evs → InitAllTabs ∉ evs → wf_group d0 groupName →
  let s := Browser.run parseInt selectAll ancestors evs
             (Browser.settle (Browser.initAllTabs parseInt selectAll) (page d0)) in
  get groupName s = Some (a, group) →
  isAnimating group = false →
  (∃ c, page_settled (document s) groupName (activeClass group) c) ∧
  (valid_targets_of d0 groupName evs →
   ∃ c, (∃ e, e ∈ document s ∧ isTrigger groupName e = true ∧
              getAttribute ATTR.trigger e = Some c) ∧
        page_settled (document s) groupName (activeClass group) c).
Proof.
  intros Hfresh Hplain Hev Hwf s Hget Hidle. split.
  - destruct (run_Good (λ _, True) d0 evs groupName) as [HR HG]; try done.
    destruct (HG a group Hget) as (_ & _ & Hph).
    destruct (gphase_idle _ _ _ _ _ _ Hph Hidle) as (_ & c & _ & Hc).
    exists c. by eapply settled_on_page.
  - intros Hval.
    destruct (run_Good (is_tab d0 groupName) d0 evs groupName) as [HR HG]; try done.
    destruct (HG a group Hget) as (_ & _ & Hph).
    destruct (gphase_idle _ _ _ _ _ _ Hph Hidle) as (_ & c & (i & Hi & Hattr) & Hc).
    exists c. split; [|by eapply settled_on_page].
    apply elem_of_queryTriggers in Hi as (e0 & He0 & Hrole).
    destruct (static_eq_lookup _ _ _ _ (wiring_static _ _ (reg_wiring _ _ HR)) He0)
      as (e & He & Hsame).
    exists e. split; [by eapply list_elem_of_lookup_2|].
    unfold getAttributeAt in Hattr. rewrite He0 in Hattr. simpl in Hattr.
    split.
    + by rewrite <-(static_pred_isTrigger groupName e0 e Hsame).
    + unfold getAttribute in *. by rewrite <-(Hsame ATTR.trigger static_trigger).
Qed.

End SingleActiveTab.

(** ** A target without panels *)

(** C10 (as amended). A target that matches no panel is not rejected, when
    the group's active class is a valid class token.  In a registered idle
    group with such a class, when no panel has the requested tab identifier,
    [activateTab] completes and nothing is reported; afterwards every
    trigger has aria-selected "true" or "false" according to whether its tab
    identifier is the target, only triggers matching the target carry the
    active class (and each of them that is not also a panel does); and on
    the instant path (animation off, or no panel currently active) the group
    stays idle, no timer is set, and every panel is left without the active
    class and with aria-hidden "true". *)
Theorem activateTab_target_without_panels (groupName tabId : string) (s : State)
    (a : nat) (group : TabsGroup) :
  get groupName s = Some (a, group) →
  isAnimating group = false →
  valid_token (activeClass group) →
  (∀ p, p ∈ panels group →
        getAttributeAt (document s) ATTR.content p ≠ Some tabId) →
  snd (Browser.activateTab groupName tabId s) = Normal ∧
  without_panels_result group tabId s (fst (Browser.activateTab groupName tabId s)).
Proof.
  intros Hget Hidle HA Hnone.
  rewrite activateTab_valid
    by (intros a' group' H; rewrite Hget in H; by injection H as <- <-).
  split; [done|]. simpl.
  exact (activateTab_target_without_panels_total groupName tabId s a group
           Hget Hidle Hnone).
Qed.

(** ** Initialisation and the programmatic switch *)

Lemma tabsGroups_onDocument p s : tabsGroups (fst (Browser.onDocument p s)) = tabsGroups s.
Proof. unfold Browser.onDocument. by destruct (p (document s)). Qed.

Lemma filter_all {X} (l : list X) : List.filter (λ _, true) l = l.
Proof. induction l as [|x l IH]; [done|]. simpl. by rewrite IH. Qed.

Lemma wire_nothing_activated g ts ps d i e :
  d !! i = Some e →
  ∃ e', wire g ts ps d !! i = Some e' ∧ classList e' = classList e ∧
        getAttribute "aria-selected" e' = getAttribute "aria-selected" e ∧
        getAttribute "aria-hidden" e' = getAttribute "aria-hidden" e.
Proof.
  intros He.
  assert (Forall2 (keeps ["role"; "tabindex"] (λ _, false)) d (wire g ts ps d)) as Hk.
  { apply keeps_wire; [apply elem_of_cons; by left|].
    apply elem_of_cons; right. apply elem_of_cons; by left. }
  eapply Forall2_lookup_l in Hk as (e' & He' & _ & Hattr & Hcls);
    [|exact He].
  exists e'. split; [exact He'|]. rewrite !filter_all in Hcls.
  split; [done|]. unfold getAttribute.
  split; symmetry; apply Hattr; intros Hin;
    repeat (apply elem_of_cons in Hin as [Hin|Hin]; [discriminate Hin|]);
    by apply elem_of_nil in Hin.
Qed.

Section Initialisation.

Variable parseInt : string → number.
Variable selectAll : string → Document → list nat + DOMException.

(** What the group object lists is what the page has. *)
Lemma init_guarantee_on_page g s :
  init_guarantee_listed (document s) g (initTabsGroup parseInt g s) →
  queryTriggers (document s) g ≠ [] → queryPanels (document s) g ≠ [] →
  init_guarantee (document s) g (initTabsGroup parseInt g s).
Proof.
  intros (a & group & tabId & Hget & Hdef & (i0 & e0 & Hi0 & He0 & Hattr0) & Ht & Hp) Hne Hnp.
  set (s' := initTabsGroup parseInt g s) in *.
  assert (triggers group = queryTriggers (document s') g
          ∧ panels group = queryPanels (document s') g) as [Htr Hpa].
  { rewrite <-(static_eq_queryTriggers (document s) (document s')),
      <-(static_eq_queryPanels (document s) (document s'))
      by apply initTabsGroup_static.
    destruct (queryTriggers (document s) g) as [|t0 rest] eqn:Hq; [done|].
    unfold s' in Hget. rewrite (initTabsGroup_registers _ _ _ _ _ Hq) in Hget by done.
    cbv zeta in Hget. apply get_Some in Hget as [Hreg Hheap]. simpl in Hreg, Hheap.
    rewrite lookup_insert_eq in Hreg. injection Hreg as <-.
    rewrite lookup_app_r, Nat.sub_diag in Hheap by done. injection Hheap as <-.
    simpl. by rewrite Hq. }
  exists a, group, tabId. split; [done|]. split; [done|]. split; [|split].
  - exists e0. split; [by eapply list_elem_of_lookup_2|]. split; [|done].
    rewrite Htr in Hi0. apply elem_of_queryTriggers in Hi0 as (e & He & Hrole).
    congruence.
  - intros e [i Hi]%list_elem_of_lookup Hrole. apply (Ht i e); [|done].
    rewrite Htr. apply elem_of_queryTriggers. by exists e.
  - intros e [i Hi]%list_elem_of_lookup Hrole. apply (Hp i e); [|done].
    rewrite Hpa. apply elem_of_queryPanels. by exists e.
Qed.

(** C5 (as amended). For a plain group name for which the page has triggers
    and panels, [initTabsGroup] does one of two things, according to the
    default tab identifier (that of the first trigger carrying
    bw-tabs-default, or of the first trigger when none is marked).  When it
    is not the empty string, the active class the first trigger asks for is
    a valid class token and no trigger of the group is also one of its
    panels: the call completes, the group is registered and the default tab
    is the one active tab: some trigger of the group has it; a trigger of
    the group carries the active class exactly when its tab identifier is
    the default, with aria-selected "true", and "false" otherwise; a panel
    of the group carries the active class exactly when its tab identifier is
    the default, with aria-hidden "false", and "true" otherwise.  When it is
    the empty string: the call completes, the group is registered and
    nothing is activated. *)
Theorem initTabsGroup_activates_default (groupName : string) (s : State)
    (tabId : string) :
  plain groupName = true →
  queryTriggers (document s) groupName ≠ [] →
  queryPanels (document s) groupName ≠ [] →
  defaultTabId (document s) (queryTriggers (document s) groupName) = Some tabId →
  let r := Browser.initTabsGroup parseInt selectAll groupName s in
  (tabId ≠ "" →
   valid_token (configuredClass (document s) groupName) →
   (∀ i, i ∈ queryTriggers (document s) groupName →
         i ∉ queryPanels (document s) groupName) →
   snd r = Normal ∧ init_guarantee (document s) groupName (fst r)) ∧
  (tabId = "" →
   snd r = Normal ∧ is_Some (tabsGroups (fst r) !! groupName) ∧
   nothing_activated s (fst r)).
Proof.
  intros Hplain Ht Hp Hd r. split.
  - intros Htab HA Hdisj. unfold r.
    rewrite initTabsGroup_plain_total by auto. split; [done|]. simpl.
    apply init_guarantee_on_page; [|done..].
    by apply (initTabsGroup_activates_default_total parseInt groupName s tabId).
  - intros ->. unfold r.
    rewrite initTabsGroup_plain_total
      by (try done; right; right; right; rewrite Hd; by intros ? [= <-]).
    split; [done|]. simpl.
    destruct (queryTriggers (document s) groupName) as [|t0 rest] eqn:Hq; [done|].
    rewrite (initTabsGroup_registers _ _ _ _ _ Hq) by done. cbv zeta.
    split; [simpl; rewrite lookup_insert_eq; by eexists|].
    intros i e He. cbn [document with_document]. unfold initDocument. cbv zeta.
    rewrite <-(static_eq_defaultTabId (document s)) by apply static_eq_wire.
    cbn [triggers newGroup]. rewrite Hq, Hd. simpl.
    by apply wire_nothing_activated.
Qed.

(** [initTabsGroup] that completes without registering the group has only
    made its report. *)
Lemma initTabsGroup_only_reports g s s1 :
  Browser.initTabsGroup parseInt selectAll g s = (s1, Normal) →
  tabsGroups s1 !! g = None →
  ∃ report, s1 = console_warn report s.
Proof.
  unfold Browser.initTabsGroup.
  destruct (Browser.queryTriggers selectAll (document s) g) as [ts|exn]; [|done].
  destruct (Browser.queryPanels selectAll (document s) g) as [ps|exn]; [|done].
  destruct ts as [|t0 ts]; [intros [= <-] _; by eexists|].
  destruct ps as [|p0 ps]; [intros [= <-] _; by eexists|].
  cbv zeta. intros Hrun Hnone. exfalso.
  set (group := mkTabsGroup g _ _ _ _ _ _) in Hrun.
  rewrite (andThen_normal _ _ s (register g group s)) in Hrun by done.
  unfold andThen in Hrun.
  pose proof (tabsGroups_onDocument
                (Browser.forEach (t0 :: ts) (λ _, ret (wireTrigger g)) >>>
                 Browser.forEach (p0 :: ps) (λ _, ret (setAttribute "role" "tabpanel")))
                (register g group s)) as Hreg.
  destruct (Browser.onDocument _ (register g group s)) as [s2 [|exn]]; [|done].
  simpl in Hreg.
  assert (tabsGroups s1 = tabsGroups s2) as Heq.
  { destruct (match findEl _ _ _ with Some _ => _ | None => _ end) as [t|];
      [destruct (truthy t)|]; try (by injection Hrun as <-).
    pose proof (tabsGroups_onDocument (Browser.activateTabInstant group t) s2) as H.
    rewrite Hrun in H. done. }
  rewrite Heq, Hreg in Hnone. simpl in Hnone. by rewrite lookup_insert_eq in Hnone.
Qed.

(** C8 (as amended). [switchTab] on a registered group is [activateTab].
    On an unregistered group it first runs [initTabsGroup].  If that raises,
    [switchTab] raises the same exception and leaves what [initTabsGroup]
    left.  If it completes and has registered the group, [switchTab] is
    [activateTab] on the initialised state.  If it completes and the group
    is still unregistered, [switchTab] reports that it cannot switch, after
    the initialiser's own report, completes, and leaves page, registry, heap
    and timers as they were. *)
Theorem switchTab_delegates (groupName tabId : string) (s : State) :
  (is_Some (tabsGroups s !! groupName) →
   Browser.switchTab parseInt selectAll groupName tabId s
   = Browser.activateTab groupName tabId s) ∧
  (tabsGroups s !! groupName = None →
   let r1 := Browser.initTabsGroup parseInt selectAll groupName s in
   let r := Browser.switchTab parseInt selectAll groupName tabId s in
   (∀ exn, snd r1 = Throw exn → r = (fst r1, Throw exn)) ∧
   (snd r1 = Normal →
    (is_Some (tabsGroups (fst r1) !! groupName) →
     r = Browser.activateTab groupName tabId (fst r1)) ∧
    (tabsGroups (fst r1) !! groupName = None →
     snd r = Normal ∧
     document (fst r) = document s ∧ tabsGroups (fst r) = tabsGroups s ∧
     heap (fst r) = heap s ∧ timers (fst r) = timers s ∧
     ∃ report,
       console (fst r) =
         console s ++
           [Warn report;
            Warn ("[Tabs] Cannot switch tab - group " ++ dquote ++ groupName
                    ++ dquote ++ " not found")%string]))).
Proof.
  split.
  - intros Hreg. unfold Browser.switchTab, has. by rewrite bool_decide_eq_true_2.
  - intros Hnone r1 r. unfold r, Browser.switchTab, has.
    rewrite bool_decide_eq_false_2 by (rewrite Hnone; by intros [? ?]).
    unfold andThen. fold r1.
    destruct r1 as [s1 [|exn]] eqn:Hr1; simpl; (split; [|split]); try done.
    + intros Hreg. by rewrite bool_decide_eq_true_2.
    + intros Hnone1.
      rewrite bool_decide_eq_false_2 by (rewrite Hnone1; by intros [? ?]).
      destruct (initTabsGroup_only_reports groupName s s1 Hr1 Hnone1) as [report ->].
      simpl. repeat (split; [done|]). exists report. by rewrite <-app_assoc.
    + by intros exn' [= <-].
Qed.

End Initialisation.

(** ** The claims on concrete pages *)

Lemma fresh_galleryAnimated : fresh galleryAnimated.
Proof. exact (wf_fresh _ wf_page_galleryAnimated). Defined.

Ltac plain_page :=
  let e := fresh in let h := fresh in let He := fresh in let H := fresh in
  intros e h He H; elem_cases He; vm_compute in H;
  first [discriminate H | injection H as <-; reflexivity].

Ltac plain_calls :=
  let h := fresh in let t := fresh in let H := fresh in
  intros h t H;
  repeat (apply elem_of_cons in H as [H|H];
          [first [discriminate H | injection H as -> ->; reflexivity]|]);
  by apply elem_of_nil in H.

Ltac wf_group_solve ts ps :=
  split;
  [ let i := fresh in let Hi := fresh in let Hc := fresh in
    intros i Hi Hc;
    change (i ∈ ts) in Hi; change (i ∈ ps) in Hc;
    elem_cases Hi; elem_cases Hc; discriminate
  | let H := fresh in intros H; vm_compute in H; discriminate H
  | let i := fresh in let Hi := fresh in
    intros i Hi; vm_compute in Hi; injection Hi as <-; vm_compute; reflexivity
  | let i := fresh in let Hi := fresh in let H := fresh in
    intros i Hi; vm_compute in Hi; injection Hi as <-;
    first [ intros H; vm_compute in H; discriminate H
          | intros _ H; vm_compute in H; discriminate H ] ].

Lemma wf_group_gallery : wf_group gallery "gallery".
Proof. wf_group_solve [0; 1] [2; 3]. Defined.

Lemma wf_group_galleryAnimated : wf_group galleryAnimated "gallery".
Proof. wf_group_solve [0; 1] [2; 3]. Defined.

(** C1, on the animated gallery: a click on the videos trigger, a
    programmatic switch to photos that is dropped, and both timers later,
    the group is settled on videos. *)
Lemma single_active_tab_settled_witness :
  let evs := [Click 1; SwitchTab "gallery" "photos"; Timeout 0; Timeout 0] in
  let s := Browser.run parseInt10 rejectAll flat evs
             (Browser.settle (Browser.initAllTabs parseInt10 rejectAll)
                (page galleryAnimated)) in
  fresh galleryAnimated ∧ plain_names galleryAnimated evs ∧
  (InitAllTabs ∉ evs) ∧ wf_group galleryAnimated "gallery" ∧
  get "gallery" s = Some (0, galleryAnimatedGroup false) ∧
  isAnimating (galleryAnimatedGroup false) = false ∧
  valid_targets_of galleryAnimated "gallery" evs ∧
  ∃ c, (∃ e, e ∈ document s ∧ isTrigger "gallery" e = true ∧
             getAttribute ATTR.trigger e = Some c) ∧
       page_settled (document s) "gallery" (activeClass (galleryAnimatedGroup false)) c.
Proof.
  intros evs.
  assert (InitAllTabs ∉ evs) as Hev by no_reinit.
  assert (plain_names galleryAnimated evs) as Hplain.
  { split; [plain_page|plain_calls]. }
  assert (valid_targets_of galleryAnimated "gallery" evs) as Hval.
  { intros t Hin.
    apply elem_of_cons in Hin as [Hin|Hin]; [discriminate Hin|].
    apply elem_of_cons in Hin as [Hin|Hin].
    - injection Hin as ->. exists 0.
      split; [apply (list_elem_of_lookup_2 _ 0)|]; vm_compute; reflexivity.
    - apply elem_of_cons in Hin as [Hin|Hin]; [discriminate Hin|].
      apply elem_of_cons in Hin as [Hin|Hin]; [discriminate Hin|].
      apply elem_of_nil in Hin. destruct Hin. }
  intros s.
  assert (get "gallery" s = Some (0, galleryAnimatedGroup false)) as Hget
    by (vm_compute; reflexivity).
  split; [exact fresh_galleryAnimated|]. split; [exact Hplain|]. split; [exact Hev|].
  split; [exact wf_group_galleryAnimated|].
  split; [exact Hget|]. split; [reflexivity|]. split; [exact Hval|].
  exact (proj2 (single_active_tab_settled parseInt10 rejectAll flat galleryAnimated evs
                  "gallery" 0 (galleryAnimatedGroup false) fresh_galleryAnimated Hplain
                  Hev wf_group_galleryAnimated Hget eq_refl)
           Hval).
Defined.

(** C1 fails as first stated: after switching the gallery to a tab
    identifier that no trigger has, the group is idle and no trigger
    carries the active class. *)
Lemma single_active_claim_counterexample :
  ¬ single_active_claim "gallery"
      (Browser.run parseInt10 rejectAll flat [SwitchTab "gallery" "nope"]
         (Browser.settle (Browser.initAllTabs parseInt10 rejectAll) (page gallery))).
Proof.
  set (s := Browser.run _ _ _ _ _). intros H.
  destruct (H 0 galleryGroup) as (c & (e & He & Hrole & Hattr) & Hset).
  { vm_compute. reflexivity. }
  { reflexivity. }
  assert (activeClass galleryGroup ∈ classList e) as Hc.
  { apply (proj1 (Hset e He) Hrole). exact Hattr. }
  apply list_elem_of_lookup in He as [i Hi].
  destruct i as [|[|[|[|i]]]]; vm_compute in Hi; try discriminate Hi;
    injection Hi as <-; vm_compute in Hc; by apply elem_of_nil in Hc.
Qed.

(** With a class that is not a valid token the group is registered, its
    initialisation raises before it has activated anything, and the group
    is left idle with no trigger active. *)
Remark settled_needs_valid_token :
  ¬ single_active_claim "gallery"
      (Browser.settle (Browser.initAllTabs parseInt10 rejectAll) (page spacedGallery)).
Proof.
  set (s := Browser.settle _ _). intros H.
  assert (get "gallery" s = Some (0, spacedGroup)) as Hget by (vm_compute; reflexivity).
  destruct (H 0 spacedGroup Hget eq_refl) as (c & (e0 & He0 & Hrole0 & Hattr0) & Hset).
  destruct (proj1 (Hset e0 He0) Hrole0) as [_ Hback].
  apply Hback in Hattr0.
  elem_cases He0; vm_compute in Hattr0; by apply elem_of_nil in Hattr0.
Qed.

(** With a group name that is not plain, a group object can come to list
    elements of another group.  Here [switchTab] is called with a name that
    makes the selectors select the videos trigger and the photos panel of
    the gallery; the group built from them takes the active class off the
    photos panel, and the gallery is left idle with its photos trigger
    active and no panel active. *)
Remark settled_needs_plain_names :
  let s := Browser.run parseInt10 galleryEngine flat [SwitchTab injected "videos"]
             (Browser.settle (Browser.initAllTabs parseInt10 galleryEngine)
                (page gallery)) in
  get "gallery" s = Some (0, galleryGroup) ∧ isAnimating galleryGroup = false ∧
  ¬ ∃ c, page_settled (document s) "gallery" (activeClass galleryGroup) c.
Proof.
  intros s. split; [vm_compute; reflexivity|]. split; [reflexivity|].
  intros [c Hset].
  assert (∃ e, document s !! 0 = Some e ∧ isTrigger "gallery" e = true
               ∧ activeClass galleryGroup ∈ classList e
               ∧ getAttribute ATTR.trigger e = Some "photos")
    as (e0 & He0 & Hrole0 & Hc0 & Hattr0).
  { eexists. split; [vm_compute; reflexivity|]. split; [vm_compute; reflexivity|].
    split; [|vm_compute; reflexivity].
    apply (list_elem_of_lookup_2 _ 0). vm_compute. reflexivity. }
  assert (∃ e, document s !! 2 = Some e ∧ isPanel "gallery" e = true
               ∧ classList e = []
               ∧ getAttribute ATTR.content e = Some "photos")
    as (e2 & He2 & Hrole2 & Hc2 & Hattr2).
  { eexists. split; [vm_compute; reflexivity|]. repeat split; vm_compute; reflexivity. }
  destruct (proj1 (Hset e0 (list_elem_of_lookup_2 _ _ _ He0)) Hrole0) as [Hto _].
  apply Hto in Hc0. assert (c = "photos") as -> by congruence.
  destruct (proj2 (Hset e2 (list_elem_of_lookup_2 _ _ _ He2)) Hrole2) as [_ Hback].
  apply Hback in Hattr2. rewrite Hc2 in Hattr2. by apply elem_of_nil in Hattr2.
Qed.

(** C5, on the gallery: the default tab is photos. *)
Lemma initTabsGroup_activates_default_witness :
  let s := page gallery in
  let r := Browser.initTabsGroup parseInt10 rejectAll "gallery" s in
  plain "gallery" = true ∧
  queryTriggers (document s) "gallery" ≠ [] ∧
  queryPanels (document s) "gallery" ≠ [] ∧
  defaultTabId (document s) (queryTriggers (document s) "gallery") = Some "photos" ∧
  "photos" ≠ "" ∧
  valid_token (configuredClass (document s) "gallery") ∧
  (∀ i, i ∈ queryTriggers (document s) "gallery" →
        i ∉ queryPanels (document s) "gallery") ∧
  snd r = Normal ∧ init_guarantee (document s) "gallery" (fst r).
Proof.
  intros s r.
  assert (queryTriggers (document s) "gallery" = [0; 1]) as Ht by (vm_compute; reflexivity).
  assert (queryPanels (document s) "gallery" = [2; 3]) as Hp by (vm_compute; reflexivity).
  assert (queryTriggers (document s) "gallery" ≠ []) as Ht' by (rewrite Ht; discriminate).
  assert (queryPanels (document s) "gallery" ≠ []) as Hp' by (rewrite Hp; discriminate).
  assert (defaultTabId (document s) (queryTriggers (document s) "gallery") = Some "photos")
    as Hd by (vm_compute; reflexivity).
  assert ("photos" ≠ "") as Hne by discriminate.
  assert (valid_token (configuredClass (document s) "gallery")) as HA
    by (vm_compute; reflexivity).
  assert (∀ i, i ∈ queryTriggers (document s) "gallery" →
               i ∉ queryPanels (document s) "gallery") as Hdisj.
  { rewrite Ht, Hp. intros i Hi Hc. elem_cases Hi; elem_cases Hc; discriminate Hc. }
  split; [reflexivity|]. split; [exact Ht'|]. split; [exact Hp'|]. split; [exact Hd|].
  split; [exact Hne|]. split; [exact HA|]. split; [exact Hdisj|].
  exact (proj1 (initTabsGroup_activates_default parseInt10 rejectAll "gallery" s "photos"
                  eq_refl Ht' Hp' Hd) Hne HA Hdisj).
Defined.

(** C5 fails as first stated: the one trigger of this group has the empty
    tab identifier, initialisation registers the group and then activates
    nothing, so no aria-selected is ever set. *)
Lemma init_guarantee_counterexample :
  queryTriggers untitled "g" ≠ [] ∧ queryPanels untitled "g" ≠ [] ∧
  ¬ init_guarantee untitled "g"
      (fst (Browser.initTabsGroup parseInt10 rejectAll "g" (page untitled))).
Proof.
  split; [intros H; vm_compute in H; discriminate H|].
  split; [intros H; vm_compute in H; discriminate H|].
  set (s' := fst _).
  intros (a & group & tabId & Hget & _ & _ & Ht & _).
  assert (∃ e, document s' !! 0 = Some e ∧ isTrigger "g" e = true
               ∧ getAttribute "aria-selected" e = None)
    as (e & He & Hrole & Hnone).
  { eexists. split; [vm_compute; reflexivity|]. split; vm_compute; reflexivity. }
  destruct (Ht e (list_elem_of_lookup_2 _ _ _ He) Hrole) as [_ Hsel].
  rewrite Hnone in Hsel. discriminate Hsel.
Qed.

(** With an element in both roles the initialisation guarantee fails too. *)
Remark init_guarantee_needs_disjoint_roles :
  ¬ init_guarantee aliasPage "g"
      (fst (Browser.initTabsGroup parseInt10 rejectAll "g" (page aliasPage))).
Proof.
  set (s' := fst _).
  intros (a & group & tabId & Hget & Hdef & _ & Ht & _).
  assert (get "g" s' = Some (0, aliasGroup)) as Hget' by (vm_compute; reflexivity).
  rewrite Hget' in Hget. injection Hget as <- <-.
  assert (tabId = "a") as -> by (vm_compute in Hdef; congruence).
  assert (∃ e, document s' !! 1 = Some e ∧ isTrigger "g" e = true
               ∧ activeClass aliasGroup ∈ classList e
               ∧ getAttribute ATTR.trigger e = Some "b")
    as (e & He & Hrole & Hc & Hattr).
  { eexists. split; [vm_compute; reflexivity|]. split; [vm_compute; reflexivity|].
    split; [|vm_compute; reflexivity].
    apply (list_elem_of_lookup_2 _ 0). vm_compute. reflexivity. }
  destruct (Ht e (list_elem_of_lookup_2 _ _ _ He) Hrole) as [Hiff _].
  apply Hiff in Hc. rewrite Hattr in Hc. discriminate Hc.
Qed.

(** With a class that is not a valid token, initialisation registers the
    group and raises before it has activated anything. *)
Remark init_guarantee_needs_valid_token :
  let r := Browser.initTabsGroup parseInt10 rejectAll "gallery" (page spacedGallery) in
  snd r = Throw InvalidCharacterError ∧
  get "gallery" (fst r) = Some (0, spacedGroup) ∧
  ¬ init_guarantee spacedGallery "gallery" (fst r).
Proof.
  intros r. split; [vm_compute; reflexivity|]. split; [vm_compute; reflexivity|].
  set (s' := fst r).
  intros (a & group & tabId & Hget & _ & _ & Ht & _).
  assert (∃ e, document s' !! 0 = Some e ∧ isTrigger "gallery" e = true
               ∧ getAttribute "aria-selected" e = None)
    as (e & He & Hrole & Hnone).
  { eexists. split; [vm_compute; reflexivity|]. split; vm_compute; reflexivity. }
  destruct (Ht e (list_elem_of_lookup_2 _ _ _ He) Hrole) as [_ Hsel].
  rewrite Hnone in Hsel. discriminate Hsel.
Qed.

(** C8 fails as first stated: for a group name with a double quote in it
    the selector is rejected, [initTabsGroup] raises, and [switchTab] raises
    without any report. *)
Lemma switchTab_claim_counterexample :
  ¬ switchTab_claim parseInt10 rejectAll quoted "a" (page gallery).
Proof.
  intros [_ H]. destruct (H eq_refl) as [_ H'].
  destruct H' as [_ Hcon]; [vm_compute; reflexivity|].
  vm_compute in Hcon. discriminate Hcon.
Qed.

(** C10, on the gallery: a switch to a tab identifier no panel has. *)
Lemma activateTab_target_without_panels_witness :
  let s := Browser.settle (Browser.initAllTabs parseInt10 rejectAll) (page gallery) in
  get "gallery" s = Some (0, galleryGroup) ∧
  isAnimating galleryGroup = false ∧
  valid_token (activeClass galleryGroup) ∧
  (∀ p, p ∈ panels galleryGroup →
        getAttributeAt (document s) ATTR.content p ≠ Some "nope") ∧
  snd (Browser.activateTab "gallery" "nope" s) = Normal ∧
  without_panels_result galleryGroup "nope" s (fst (Browser.activateTab "gallery" "nope" s)).
Proof.
  intros s.
  assert (get "gallery" s = Some (0, galleryGroup)) as Hget by (vm_compute; reflexivity).
  assert (valid_token (activeClass galleryGroup)) as HA by (vm_compute; reflexivity).
  assert (∀ p, p ∈ panels galleryGroup →
               getAttributeAt (document s) ATTR.content p ≠ Some "nope") as Hnone.
  { intros p Hp H. elem_cases Hp; vm_compute in H; discriminate H. }
  split; [exact Hget|]. split; [reflexivity|]. split; [exact HA|]. split; [exact Hnone|].
  exact (activateTab_target_without_panels "gallery" "nope" s 0 galleryGroup
           Hget eq_refl HA Hnone).
Defined.

(** C10 fails as first stated: the first trigger of this gallery asks for
    the class "my class"; the group is registered with it, and a switch
    raises at the first [classList.remove], before any aria-selected is
    written. *)
Lemma target_without_panels_counterexample :
  ¬ target_without_panels_claim "gallery" "nope"
      (Browser.settle (Browser.initAllTabs parseInt10 rejectAll) (page spacedGallery)).
Proof.
  set (s := Browser.settle _ _). intros H.
  assert (get "gallery" s = Some (0, spacedGroup)) as Hget by (vm_compute; reflexivity).
  assert (∀ p, p ∈ panels spacedGroup →
               getAttributeAt (document s) ATTR.content p ≠ Some "nope") as Hnone.
  { intros p Hp Hc. elem_cases Hp; vm_compute in Hc; discriminate Hc. }
  destruct (H 0 spacedGroup Hget eq_refl Hnone) as (_ & Htr & _).
  assert (∃ e, document s !! 0 = Some e) as [e He] by (eexists; vm_compute; reflexivity).
  destruct (Htr 0 e) as (e' & He' & Haria & _); [apply elem_of_cons; by left|exact He|].
  vm_compute in He'. injection He' as <-. vm_compute in Haria. discriminate Haria.
Qed.

(** * The handlers in the browser *)

Lemma activateTab_browser d0 h t s :
  Reg d0 s →
  fst (Browser.activateTab h t s) = activateTab h t s
  ∨ fst (Browser.activateTab h t s) = s.
Proof.
  intros HR. destruct (get h s) as [[a group]|] eqn:Hget.
  - destruct (Browser.validate (activeClass group)) as [|exn] eqn:HA.
    + left. rewrite activateTab_valid; [done|].
      intros a' group' H. rewrite Hget in H. by injection H as <- <-.
    + right. pose proof Hget as [Hreg Hheap]%get_Some.
      destruct (reg_groups _ _ HR h a Hreg) as (group' & Hheap' & _ & Ht & _ & Hne).
      assert (group' = group) as -> by congruence.
      destruct (queryTriggers d0 h) as [|i rest] eqn:Hq; [done|].
      destruct (first_trigger_on_page d0 (document s) h i rest
                  (wiring_static _ _ (reg_wiring _ _ HR)) Hq) as [e He].
      destruct (activateTab_invalid h t s a group i rest e Hget) as (c & -> & _);
        try done.
      unfold valid_token. by rewrite HA.
  - left. rewrite activateTab_valid; [done|]. intros a group. by rewrite Hget.
Qed.

Lemma activateTab_browser_registry d0 h t s :
  Reg d0 s → tabsGroups (fst (Browser.activateTab h t s)) = tabsGroups s.
Proof.
  intros HR. destruct (activateTab_browser d0 h t s HR) as [-> | ->]; [|done].
  apply activateTab_keeps.
Qed.

Section BrowserClicks.

Variable parseInt : string → number.
Variable selectAll : string → Document → list nat + DOMException.
Variable ancestors : nat → list nat.

(** The click listeners of an element, on a page wired as [initAllTabs]
    leaves it. *)
Lemma clickListeners_wired d0 j s :
  Wiring d0 s →
  Browser.clickListeners j s =
    match getAttributeAt d0 ATTR.group j with
    | Some g => if has g s && test d0 (hasAttribute ATTR.trigger) j
                then Browser.settle (Browser.onClick g j) s else s
    | None => s
    end.
Proof.
  intros [Hst Hls]. unfold Browser.clickListeners.
  destruct (document s !! j) as [e|] eqn:He.
  - rewrite (Hls j e He). unfold handlers, has.
    destruct (getAttributeAt d0 ATTR.group j) as [g|]; [|done].
    by destruct (_ && _).
  - assert (d0 !! j = None) as H0.
    { apply lookup_ge_None. rewrite (static_eq_length _ _ Hst).
      by apply lookup_ge_None. }
    unfold getAttributeAt, test. by rewrite H0.
Qed.

Lemma clickListeners_idle d0 j s :
  Wiring d0 s →
  (∀ g, has g s = true → j ∈ queryTriggers d0 g →
        getAttributeAt d0 ATTR.trigger j = Some "") →
  Browser.clickListeners j s = s.
Proof.
  intros HW Hnot. rewrite (clickListeners_wired d0) by done.
  destruct (getAttributeAt d0 ATTR.group j) as [g|] eqn:Hg; [|done].
  destruct (has g s) eqn:Hhas; [|done].
  destruct (test d0 (hasAttribute ATTR.trigger) j) eqn:Ht; [|done]. simpl.
  assert (j ∈ queryTriggers d0 g) as Hj.
  { apply elem_of_queryTriggers. unfold getAttributeAt in Hg. unfold test in Ht.
    destruct (d0 !! j) as [e|]; [|done]. exists e. split; [done|].
    apply isTrigger_true. split; [done|]. by apply hasAttribute_true. }
  unfold Browser.settle, Browser.onClick.
  rewrite <-(static_eq_getAttributeAt d0 (document s))
    by (auto with static; apply (wiring_static _ _ HW)).
  by rewrite (Hnot g Hhas Hj).
Qed.

Lemma clickListeners_path_idle d0 path s :
  Wiring d0 s →
  (∀ k, k ∈ path → ∀ g, has g s = true → k ∈ queryTriggers d0 g →
        getAttributeAt d0 ATTR.trigger k = Some "") →
  foldl (λ s j, Browser.clickListeners j s) s path = s.
Proof.
  intros HW. induction path as [|j path IH]; intros Hnot; [done|]. simpl.
  rewrite (clickListeners_idle d0) by (try done; apply Hnot, elem_of_cons; by left).
  apply IH. intros k Hk. apply Hnot, elem_of_cons. by right.
Qed.

Lemma clickListeners_trigger d0 i g t s :
  Wiring d0 s → has g s = true → i ∈ queryTriggers d0 g →
  getAttributeAt d0 ATTR.trigger i = Some t → t ≠ "" →
  Browser.clickListeners i s = fst (Browser.activateTab g t s).
Proof.
  intros HW Hhas Hi Hattr Htab. rewrite (clickListeners_wired d0) by done.
  apply elem_of_queryTriggers in Hi as (e & He & Ht).
  apply isTrigger_true in Ht as [Hg Ht].
  unfold getAttributeAt at 1. unfold test. rewrite He. simpl. rewrite Hg, Hhas.
  rewrite (proj2 (hasAttribute_true _ _) Ht). simpl.
  unfold Browser.settle, Browser.onClick.
  rewrite <-(static_eq_getAttributeAt d0 (document s))
    by (auto with static; apply (wiring_static _ _ HW)).
  by rewrite Hattr, (proj2 (truthy_true t) Htab).
Qed.

(** The states a browser run reaches from a freshly loaded page. *)
Lemma run_Reg d0 evs :
  fresh d0 → plain_names d0 evs → InitAllTabs ∉ evs →
  Reg d0 (Browser.run parseInt selectAll ancestors evs
            (Browser.settle (Browser.initAllTabs parseInt selectAll) (page d0))).
Proof.
  intros Hfresh [Hpage Hcalls] Hev.
  assert (∀ c, is_tab d0 "" c → True) as HT by done.
  assert (Reg d0 (Browser.settle (Browser.initAllTabs parseInt selectAll) (page d0)))
    as HR0.
  { eapply (Reg_moves parseInt (λ _, True) ""); [by apply Reg_page|].
    apply (initAllTabs_reach parseInt selectAll (λ _, True) "" d0); [by apply Reg_page|].
    intros h (_ & i & Hi)%elem_of_groupNames. split; [|apply lookup_empty].
    apply getAttributeAt_elem in Hi as (e & He & Hattr). by eapply Hpage. }
  eapply (Reg_moves parseInt (λ _, True) ""); [exact HR0|].
  apply (run_reach parseInt selectAll ancestors (λ _, True) "" d0 HT); [done..|].
  intros h t Hin. split; [by eapply Hcalls|done].
Qed.

(** X5. A click on a trigger is the programmatic switch.  In any state a
    browser run reaches from a freshly loaded page whose group names are
    plain: clicking a trigger of a registered group whose tab identifier is
    not empty, when none of its ancestors is itself a trigger of a
    registered group with a tab identifier, leaves the state that
    [switchTab] with the trigger's group name and tab identifier leaves. *)
Theorem click_is_switchTab (d0 : Document) (evs : list Event) (i : nat)
    (groupName tabId : string) :
  fresh d0 → plain_names d0 evs → InitAllTabs ∉ evs →
  let s := Browser.run parseInt selectAll ancestors evs
             (Browser.settle (Browser.initAllTabs parseInt selectAll) (page d0)) in
  has groupName s = true →
  i ∈ queryTriggers d0 groupName →
  getAttributeAt d0 ATTR.trigger i = Some tabId → tabId ≠ "" →
  (∀ k, k ∈ ancestors i → ∀ g, has g s = true → k ∈ queryTriggers d0 g →
        getAttributeAt d0 ATTR.trigger k = Some "") →
  Browser.click ancestors i s
  = Browser.settle (Browser.switchTab parseInt selectAll groupName tabId) s.
Proof.
  intros Hfresh Hplain Hev s Hhas Hi Hattr Htab Hanc.
  pose proof (run_Reg d0 evs Hfresh Hplain Hev) as HR. fold s in HR.
  unfold Browser.click, Browser.settle, Browser.switchTab. rewrite Hhas. simpl.
  rewrite (clickListeners_trigger d0 i groupName tabId)
    by (try done; apply (reg_wiring _ _ HR)).
  assert (Reg d0 (fst (Browser.activateTab groupName tabId s))) as HR1.
  { eapply (Reg_moves parseInt (λ _, True) ""); [exact HR|].
    by apply (activateTab_reach parseInt (λ _, True) "" d0). }
  apply (clickListeners_path_idle d0); [apply (reg_wiring _ _ HR1)|].
  intros k Hk g Hg. apply Hanc; [done|].
  unfold has in *. by rewrite (activateTab_browser_registry d0) in Hg.
Qed.

(** X6. Clicks elsewhere do nothing.  In the same states, a click on an
    element leaves the whole state (page, registry, timers, console)
    unchanged when neither the element nor any of its ancestors is a
    trigger of a registered group with a tab identifier that is not the
    empty string. *)
Theorem click_elsewhere_noop (d0 : Document) (evs : list Event) (i : nat) :
  fresh d0 → plain_names d0 evs → InitAllTabs ∉ evs →
  let s := Browser.run parseInt selectAll ancestors evs
             (Browser.settle (Browser.initAllTabs parseInt selectAll) (page d0)) in
  (∀ k, k ∈ i :: ancestors i → ∀ g, has g s = true → k ∈ queryTriggers d0 g →
        getAttributeAt d0 ATTR.trigger k = Some "") →
  Browser.click ancestors i s = s.
Proof.
  intros Hfresh Hplain Hev s Hnot.
  pose proof (run_Reg d0 evs Hfresh Hplain Hev) as HR. fold s in HR.
  apply (clickListeners_path_idle d0); [apply (reg_wiring _ _ HR)|done].
Qed.

End BrowserClicks.

(** * The query after a switch, in the browser *)

Lemma activateTab_triggers_settled_group T d0 g t s a group :
  wf_group d0 g → Reg d0 s → Good T d0 g s →
  get g s = Some (a, group) → isAnimating group = false →
  ∃ group', get g (activateTab g t s) = Some (a, group') ∧
            triggers group' = triggers group ∧ activeClass group' = activeClass group ∧
            triggers_settled (document (activateTab g t s)) group' t.
Proof.
  intros Hwf HR HG Hget Hidle. pose proof Hget as [Hreg Hheap]%get_Some.
  destruct (HG a group Hget) as (HA & Hent & Hph).
  pose proof (group_disjoint g d0 Hwf s a group HR Hget) as Hdisj.
  destruct (gphase_idle _ _ _ _ _ _ Hph Hidle) as (Hpen & c & _ & Hset).
  rewrite activateTab_eq, Hget, Hidle.
  destruct (sameTab group t (document s)) eqn:Hsame.
  { exists group. split; [done|]. split; [done|]. split; [done|].
    rewrite <-(sameTab_settled group t (document s) c Hset Hsame). apply Hset. }
  cbv zeta.
  assert (∃ group',
            get g (with_document
                     (switchPanels group (nextPanelsOf group t (document s))
                        (updateTriggers group t (document s))) s) = Some (a, group') ∧
            triggers group' = triggers group ∧ activeClass group' = activeClass group ∧
            triggers_settled
              (switchPanels group (nextPanelsOf group t (document s))
                 (updateTriggers group t (document s))) group' t) as Hinst.
  { exists group. split; [by apply get_Some|]. split; [done|]. split; [done|].
    by apply instant_switch_settled_disjoint. }
  destruct (animate group) eqn:Han; [|exact Hinst].
  destruct (currentPanelOf group (document s)) as [p|] eqn:Hcur; [|exact Hinst].
  apply currentPanelOf_Some in Hcur as [Hp _].
  exists (with_isAnimating true group). split.
  - apply get_Some. unfold animateTransition. cbv zeta.
    cbn [tabsGroups heap with_document setTimeout with_timers set_isAnimating].
    split; [done|]. by rewrite list_lookup_alter_eq, Hheap.
  - split; [done|]. split; [done|].
    intros i e Hi. unfold animateTransition. cbv zeta.
    cbn [activeClass triggers panels with_isAnimating document with_document setTimeout
         with_timers set_isAnimating] in *.
    rewrite list_lookup_alter_ne by (intros ->; by apply (Hdisj i)).
    rewrite updateTriggers_lookup. intros (e1 & _ & ->)%fmap_Some.
    by apply updateTriggers_el_settled.
Qed.

Section QueryAfterSwitch.

Variable parseInt : string → number.
Variable selectAll : string → Document → list nat + DOMException.
Variable ancestors : nat → list nat.

(** X7. The active-tab query answers with the tab just switched to.  On a
    freshly loaded page whose group names are plain, for a group in which
    no element is both trigger and panel, whose default tab identifier is
    not empty, and whose active class is a valid class token (other than
    the entering class when the group animates): in any state a browser run
    reaches, when the group is registered and not animating, and some
    trigger of it has the tab identifier, which is not the empty string,
    then right after [switchTab] to that identifier, also while the
    transition it started is still running, [getActiveTab] returns that
    identifier. *)
Theorem switchTab_then_getActiveTab (d0 : Document) (evs : list Event)
    (groupName tabId : string) (a : nat) (group : TabsGroup) :
  fresh d0 → plain_names d0 evs → InitAllTabs ∉ evs → wf_group d0 groupName →
  let s := Browser.run parseInt selectAll ancestors evs
             (Browser.settle (Browser.initAllTabs parseInt selectAll) (page d0)) in
  get groupName s = Some (a, group) → isAnimating group = false →
  is_tab d0 groupName tabId → tabId ≠ "" →
  getActiveTab groupName
    (Browser.settle (Browser.switchTab parseInt selectAll groupName tabId) s)
  = Some tabId.
Proof.
  intros Hfresh Hplain Hev Hwf s Hget Hidle Htab Hne.
  destruct (run_Good parseInt selectAll ancestors (λ _, True) d0 evs groupName
              Hfresh Hplain Hev Hwf) as [HR HG]; [done..|].
  fold s in HR, HG.
  destruct (HG a group Hget) as (HA & _).
  unfold Browser.settle, Browser.switchTab. rewrite (get_has _ _ _ _ Hget).
  rewrite activateTab_valid
    by (intros a' group' H; rewrite Hget in H; by injection H as <- <-).
  simpl.
  destruct (activateTab_triggers_settled_group (λ _, True) d0 groupName tabId s a group
              Hwf HR HG Hget Hidle) as (group' & Hget' & Htr & _ & Hset).
  apply (getActiveTab_settled _ _ a group'); [done..|].
  destruct Htab as (j & Hj & Hattr).
  assert (static_eq d0 (document (activateTab groupName tabId s))) as Hst.
  { etrans; [apply (wiring_static _ _ (reg_wiring _ _ HR))|apply activateTab_keeps]. }
  rewrite (static_eq_getAttributeAt d0 _ _ _ Hst) in Hattr by auto with static.
  unfold getAttributeAt in Hattr.
  destruct (document (activateTab groupName tabId s) !! j) as [e|] eqn:He; [|done].
  exists j, e. split; [|done]. rewrite Htr.
  pose proof Hget as [Hreg Hheap]%get_Some.
  destruct (reg_groups _ _ HR groupName a Hreg) as (group0 & Hheap0 & _ & Ht0 & _).
  assert (group0 = group) as -> by congruence. by rewrite Ht0.
Qed.

End QueryAfterSwitch.

(** * Element properties along a browser run *)

Section MovesKeep.

Context (P Q : string → HTMLElement → Prop).

Hypothesis P_deselect : ∀ A e, P A (deselect A e).
Hypothesis P_select : ∀ A e, P A (select A (deselect A e)).
Hypothesis Q_hide : ∀ A e, Q A e → Q A (hide A e).
Hypothesis Q_show : ∀ A e, Q A e → Q A (show A e).
Hypothesis Q_hideClean : ∀ A e, Q A (hideClean A e).
Hypothesis Q_phaseTwo : ∀ ps A cur next i e,
  A ≠ ANIM_CLASS.entering → includes ps i = true →
  (i ≠ cur → Q A e) → Q A (phaseTwo_el ps A cur next i e).

Variable parseInt : string → number.
Variable selectAll : string → Document → list nat + DOMException.
Variable ancestors : nat → list nat.
Variables (T : string → Prop) (g : string) (d0 : Document).

Hypothesis Hwf : wf_page d0.
Hypothesis Hvalid : valid_classes d0.

Lemma Inv_Kept_move s s' :
  Inv d0 s → Kept P Q s → move parseInt T g s s' → Inv d0 s' ∧ Kept P Q s'.
Proof.
  intros HI HK Hm. destruct Hm as [c|h t a group Hget HA HTt|k|h Hnone Ht Hp Hcase
                                   |h Hnone Ht Hp HA].
  - split; [by apply Inv_console|by apply Kept_console].
  - split; [by apply activateTab_Inv|]. eapply (activateTab_Kept P Q); eauto.
  - split; [by apply timeout_Inv|]. eapply (timeout_Kept P Q); eauto.
  - split; [by apply initTabsGroup_Inv|]. eapply (initTabsGroup_Kept P Q); eauto.
  - destruct HA.
    rewrite <-(static_eq_configuredClass d0 (document s) h (inv_static _ _ HI)).
    apply Hvalid.
Qed.

Lemma Inv_Kept_moves s s' :
  Inv d0 s → Kept P Q s → rtc (move parseInt T g) s s' → Inv d0 s' ∧ Kept P Q s'.
Proof.
  intros HI HK Hrtc. induction Hrtc as [|s1 s2 s3 Hm _ IH]; [done|].
  destruct (Inv_Kept_move s1 s2 HI HK Hm) as [HI2 HK2]. by apply IH.
Qed.

Lemma run_Inv_Kept_browser evs :
  (∀ c, is_tab d0 g c → T c) → (∀ t, SwitchTab g t ∈ evs → T t) →
  plain_names d0 evs → InitAllTabs ∉ evs →
  let s := Browser.run parseInt selectAll ancestors evs
             (Browser.settle (Browser.initAllTabs parseInt selectAll) (page d0)) in
  Inv d0 s ∧ Kept P Q s.
Proof.
  intros HT Hsw [Hpage Hcalls] Hev s.
  assert (fresh d0) as Hfresh by exact (wf_fresh _ Hwf).
  assert (Inv d0 (page d0)) as H0.
  { split; [done| |]; simpl; intros; [by rewrite lookup_empty in *|by apply elem_of_nil in H]. }
  assert (Kept P Q (page d0)) as H1.
  { intros h a group H. simpl in H. by rewrite lookup_empty in H. }
  assert (rtc (move parseInt T g) (page d0)
            (Browser.settle (Browser.initAllTabs parseInt selectAll) (page d0))) as Hinit.
  { apply (initAllTabs_reach parseInt selectAll T g d0); [by apply Reg_page|].
    intros h (_ & i & Hi)%elem_of_groupNames. split; [|apply lookup_empty].
    apply getAttributeAt_elem in Hi as (e & He & Hattr). by eapply Hpage. }
  apply (Inv_Kept_moves (page d0)); [done..|].
  etrans; [exact Hinit|].
  apply (run_reach parseInt selectAll ancestors T g d0 HT); [|done|].
  - eapply Reg_moves; [by apply Reg_page|exact Hinit].
  - intros h t Hin. split; [by eapply Hcalls|]. intros ->. by apply Hsw.
Qed.

End MovesKeep.

Section AriaInTheBrowser.

Variable parseInt : string → number.
Variable selectAll : string → Document → list nat + DOMException.
Variable ancestors : nat → list nat.

(** X12. ARIA state follows the classes.  On a freshly loaded page that
    satisfies [wf_page], whose group names are plain and whose groups are
    configured with valid class tokens, in any state a browser run reaches:
    every trigger on the page of a registered group has aria-selected
    "true" if it carries the group's active class and "false" if not; and
    while the group is not animating, every panel on the page of the group
    has aria-hidden "false" if it carries the active class and "true" if
    not. *)
Theorem aria_follows_classes (d0 : Document) (evs : list Event)
    (groupName : string) (a : nat) (group : TabsGroup) (e : HTMLElement) :
  wf_page d0 → valid_classes d0 → plain_names d0 evs → InitAllTabs ∉ evs →
  let s := Browser.run parseInt selectAll ancestors evs
             (Browser.settle (Browser.initAllTabs parseInt selectAll) (page d0)) in
  get groupName s = Some (a, group) →
  e ∈ document s →
  (isTrigger groupName e = true →
   getAttribute "aria-selected" e
     = Some (if bool_decide (activeClass group ∈ classList e) then "true" else "false")) ∧
  (isPanel groupName e = true → isAnimating group = false →
   getAttribute "aria-hidden" e
     = Some (if bool_decide (activeClass group ∈ classList e) then "false" else "true")).
Proof.
  intros Hwf Hvalid Hplain Hev s [Hreg Hheap]%get_Some [i He]%list_elem_of_lookup.
  destruct (run_Inv_Kept_browser trigger_sync panel_sync
              trigger_sync_deselect
              (λ A e, trigger_sync_select A (deselect A e))
              (λ A e _, panel_sync_hide A e)
              (λ A e _, panel_sync_show A e)
              panel_sync_hideClean
              (λ ps A cur next i e HA Hi _, panel_sync_phaseTwo_el ps A cur next i e HA Hi)
              parseInt selectAll ancestors (λ _, True) groupName d0 Hwf Hvalid evs)
    as [HI HK]; [done..|].
  fold s in HI, HK.
  destruct (inv_groups _ _ HI groupName a Hreg) as (group1 & Hheap1 & Hok & _).
  assert (group1 = group) as -> by congruence.
  destruct Hok as (_ & Htr & Hpa & _).
  pose proof (inv_static _ _ HI) as Hst.
  split.
  - intros Hrole. apply (proj1 (HK groupName a group Hreg Hheap) i e); [|done].
    rewrite Htr, (static_eq_queryTriggers d0 (document s)) by done.
    apply elem_of_queryTriggers. by exists e.
  - intros Hrole Hidle.
    apply (idle_panels_kept trigger_sync panel_sync d0 s groupName a group
             HI HK Hreg Hheap Hidle i e); [|done].
    rewrite Hpa, (static_eq_queryPanels d0 (document s)) by done.
    apply elem_of_queryPanels. by exists e.
Qed.

End AriaInTheBrowser.

(** * Discovery in the browser *)

Section BrowserDiscovery.

Variable parseInt : string → number.
Variable selectAll : string → Document → list nat + DOMException.

Lemma each_initTabsGroup_agree d names s :
  static_eq d (document s) →
  (∀ h, h ∈ names → plain h = true ∧ valid_token (configuredClass d h)) →
  each names (Browser.initTabsGroup parseInt selectAll) s
  = (foldl (λ s g, initTabsGroup parseInt g s) s names, Normal).
Proof.
  revert s. induction names as [|h names IH]; intros s Hst Hnames; [done|].
  destruct (Hnames h) as [Hplain HA]; [apply elem_of_cons; by left|].
  simpl.
  rewrite (andThen_normal _ _ s (initTabsGroup parseInt h s)).
  - apply IH.
    + etrans; [exact Hst|apply initTabsGroup_static].
    + intros h' Hin. apply Hnames, elem_of_cons. by right.
  - apply initTabsGroup_plain_total; [done|]. right. right. left.
    by rewrite <-(static_eq_configuredClass d (document s) h Hst).
Qed.

Lemma initAllTabs_agree s :
  initialisable (document s) →
  Browser.initAllTabs parseInt selectAll s = (initAllTabs parseInt s, Normal).
Proof.
  intros Hok. rewrite initAllTabs_eq. unfold Browser.initAllTabs. cbv zeta.
  fold (groupNames (document s)).
  by rewrite (andThen_normal _ _ s
                (foldl (λ s g, initTabsGroup parseInt g s) s (groupNames (document s))))
    by (by apply (each_initTabsGroup_agree (document s))).
Qed.

(** X1. [initAllTabs] registers exactly the groups it can build.  On a page
    whose group names are plain and whose groups are configured with valid
    class tokens, [initAllTabs] returns, and afterwards a name is in the
    registry if and only if it was there before, or it is not the empty
    string and the page has at least one trigger and at least one panel
    with that group name. *)
Theorem initAllTabs_registers_exactly (s : State) (groupName : string) :
  initialisable (document s) →
  let r := Browser.initAllTabs parseInt selectAll s in
  snd r = Normal ∧
  (is_Some (tabsGroups (fst r) !! groupName) ↔
   is_Some (tabsGroups s !! groupName)
   ∨ (groupName ≠ "" ∧ queryTriggers (document s) groupName ≠ []
      ∧ queryPanels (document s) groupName ≠ [])).
Proof.
  intros Hok r. unfold r. rewrite initAllTabs_agree by done.
  split; [done|]. apply initAllTabs_registers_exactly_total.
Qed.

(** X2. The count [initAllTabs] logs is the number of group names it found,
    whether or not they could be initialised.  On a freshly loaded page
    whose group names are plain and whose groups are configured with valid
    class tokens, [initAllTabs] returns, and the console afterwards holds
    one warning for each group that was not registered and then one log
    line, whose count is the number of registered groups plus the number of
    those warnings. *)
Theorem initAllTabs_reports_names (d0 : Document) :
  initialisable d0 →
  let r := Browser.initAllTabs parseInt selectAll (page d0) in
  snd r = Normal ∧
  ∃ ws, console (fst r) =
          (Warn <$> ws) ++
          [Log ("[Tabs] Initialized " ++ pretty (size (tabsGroups (fst r)) + length ws)
                  ++ " tabs group(s)")%string].
Proof.
  intros Hok r. unfold r. rewrite initAllTabs_agree by done.
  split; [done|]. apply initAllTabs_reports_names_total.
Qed.

End BrowserDiscovery.

(** * The template helper *)

Lemma ascii_lower_equals c :
  Ascii.eqb (ascii_lower c) equals_sign = Ascii.eqb c equals_sign.
Proof. by destruct c as [[] [] [] [] [] [] [] []]. Qed.

Lemma has_char_lower s :
  has_char equals_sign (toASCIILowerCase s) = has_char equals_sign s.
Proof.
  induction s as [|c s IH]; [done|]. cbn [toASCIILowerCase has_char].
  by rewrite ascii_lower_equals, IH.
Qed.

Section TemplateTheorems.

Variable querySelector : string → option StyledElement.
Variable isHTMLElement : StyledElement → bool.
Variable styleText : option string → string → string.

(** X16. A template found through an attribute selector [name] (possibly
    after a tag or class prefix without brackets) is cloned without the
    attribute of that name in ASCII lower case: unless that is the style
    attribute, the element returned lacks it; it has every other attribute
    of the template but the style attribute, which is written anew for
    display block; it has the tag name of the template and, unless the
    class attribute was the one removed, its classes; it carries no event
    listener, and is displayed as a block. *)
Theorem createElementFromTemplate_strips_marker (pre name : string)
    (template : StyledElement) (createFallback : unit → StyledElement) :
  has_char open_bracket pre = false →
  has_char close_bracket name = false → name ≠ "" →
  let selector := (pre ++ String open_bracket (name ++ String close_bracket ""))%string in
  querySelector selector = Some template →
  isHTMLElement template = true →
  let removed := toASCIILowerCase name in
  let element := createElementFromTemplate querySelector isHTMLElement styleText selector
                   createFallback in
  (removed ≠ "style" → getAttribute removed (node element) = None) ∧
  (∀ k, k ≠ removed → k ≠ "style" →
        getAttribute k (node element) = getAttribute k (node template)) ∧
  getAttribute "style" (node element)
    = Some (styleText (if String.eqb removed "style" then None
                       else getAttribute "style" (node template)) "block") ∧
  tagName (node element) = tagName (node template) ∧
  (removed ≠ "class" → classList (node element) = classList (node template)) ∧
  listeners (node element) = [] ∧
  display element = "block".
Proof.
  intros Hpre Hname Hne selector Hq Hh removed element. subst element.
  unfold createElementFromTemplate. rewrite Hq, Hh. cbv zeta.
  unfold selector. rewrite attrMatch_bracketed by done.
  unfold getAttribute, set_display, removeAttribute, cloneNode. cbv zeta.
  fold removed. cbn [node attributes with_attributes tagName classList listeners display].
  split; [|split; [|split; [|split; [done|split; [|done]]]]].
  - intros Hst. rewrite lookup_insert_ne by done. apply lookup_delete_eq.
  - intros k Hk Hst. rewrite lookup_insert_ne by done. by apply lookup_delete_ne.
  - rewrite lookup_insert_eq. destruct (String.eqb_spec removed "style") as [->|Hst].
    + by rewrite lookup_delete_eq.
    + by rewrite lookup_delete_ne.
  - intros Hcl. by destruct (String.eqb_spec removed "class").
Qed.

(** X17. A template found through an attribute-value selector, as the
    studios map builds them ([data-map-element='marker'], ...), keeps its
    marker attribute when cloned: what the code takes for the attribute name
    is the whole text between the brackets, value included, so the element
    returned has every attribute of the template whose name has no equals
    sign, data-map-element among them, except the style attribute, which is
    written anew for display block; it keeps the classes of the template. *)
Theorem createElementFromTemplate_keeps_valued_marker (name : string)
    (template : StyledElement) (createFallback : unit → StyledElement) (k : string) :
  querySelector (elementAttr name) = Some template →
  isHTMLElement template = true →
  has_char equals_sign k = false → k ≠ "style" →
  let element := createElementFromTemplate querySelector isHTMLElement styleText
                   (elementAttr name) createFallback in
  getAttribute k (node element) = getAttribute k (node template) ∧
  getAttribute "style" (node element)
    = Some (styleText (getAttribute "style" (node template)) "block") ∧
  classList (node element) = classList (node template) ∧
  display element = "block".
Proof.
  intros Hq Hh Hk Hst element. subst element.
  unfold createElementFromTemplate. rewrite Hq, Hh. cbv zeta.
  destruct (attrMatch_elementAttr name) as [r ->].
  assert (∀ k', has_char equals_sign k' = false →
                k' ≠ toASCIILowerCase ("data-map-element=" ++ r)) as Hother.
  { intros k' Hk' ->. by rewrite has_char_lower, has_char_append in Hk'. }
  unfold getAttribute, set_display, removeAttribute, cloneNode. cbv zeta.
  cbn [node attributes with_attributes tagName classList listeners display].
  split; [|split; [|split; [|done]]].
  - rewrite lookup_insert_ne by done. apply lookup_delete_ne, not_eq_sym. by apply Hother.
  - rewrite lookup_insert_eq, lookup_delete_ne; [done|]. apply not_eq_sym. by apply Hother.
  - destruct (String.eqb_spec (toASCIILowerCase ("data-map-element=" ++ r)) "class")
      as [Heq|]; [|done].
    by destruct (Hother "class" eq_refl).
Qed.

End TemplateTheorems.

(** * Further properties on concrete pages *)

Lemma valid_classes_intro d :
  (∀ e c, e ∈ d → getAttribute ATTR.activeClass e = Some c → c ≠ "" → valid_token c) →
  valid_classes d.
Proof.
  intros H h. unfold configuredClass.
  destruct (queryTriggers d h) as [|i rest]; [reflexivity|].
  unfold configActiveClass, or_else, getAttributeAt.
  destruct (d !! i) as [e|] eqn:He; [|reflexivity]. simpl.
  destruct (getAttribute ATTR.activeClass e) as [c|] eqn:Hc; [|reflexivity].
  destruct (truthy c) eqn:Htr; [|reflexivity].
  apply (H e c); [by eapply list_elem_of_lookup_2|done|by apply truthy_true].
Defined.

Ltac valid_classes_solve :=
  apply valid_classes_intro;
  let e := fresh in let c := fresh in let He := fresh in let H := fresh in
  intros e c He H; elem_cases He; vm_compute in H; discriminate H.

Lemma valid_classes_gallery : valid_classes gallery.
Proof. valid_classes_solve. Defined.

Lemma initialisable_gallery : initialisable gallery.
Proof.
  intros h Hh.
  assert (groupNames gallery = ["gallery"]) as Hn by (vm_compute; reflexivity).
  rewrite Hn in Hh. elem_cases Hh. split; vm_compute; reflexivity.
Defined.

(** X1, on the gallery: afterwards the gallery is registered. *)
Lemma initAllTabs_registers_exactly_witness :
  let s := page gallery in
  let r := Browser.initAllTabs parseInt10 rejectAll s in
  initialisable (document s) ∧ snd r = Normal ∧
  (is_Some (tabsGroups (fst r) !! "gallery") ↔
   is_Some (tabsGroups s !! "gallery")
   ∨ ("gallery" ≠ "" ∧ queryTriggers (document s) "gallery" ≠ []
      ∧ queryPanels (document s) "gallery" ≠ [])).
Proof.
  intros s r. split; [exact initialisable_gallery|].
  exact (initAllTabs_registers_exactly parseInt10 rejectAll s "gallery"
           initialisable_gallery).
Defined.

(** X2, on the gallery. *)
Lemma initAllTabs_reports_names_witness :
  let r := Browser.initAllTabs parseInt10 rejectAll (page gallery) in
  initialisable gallery ∧ snd r = Normal ∧
  ∃ ws, console (fst r) =
          (Warn <$> ws) ++
          [Log ("[Tabs] Initialized " ++ pretty (size (tabsGroups (fst r)) + length ws)
                  ++ " tabs group(s)")%string].
Proof.
  intros r. split; [exact initialisable_gallery|].
  exact (initAllTabs_reports_names parseInt10 rejectAll gallery initialisable_gallery).
Defined.

Lemma fresh_iconGallery : fresh iconGallery.
Proof. intros e He. elem_cases He; reflexivity. Defined.

Lemma plain_iconGallery : plain_names iconGallery [].
Proof. split; [plain_page|plain_calls]. Defined.

(** X5, on the gallery with an icon: a click on the videos trigger is
    [switchTab] to videos. *)
Lemma click_is_switchTab_witness :
  let evs := @nil Event in
  let s := Browser.run parseInt10 rejectAll inTrigger evs
             (Browser.settle (Browser.initAllTabs parseInt10 rejectAll) (page iconGallery)) in
  fresh iconGallery ∧ plain_names iconGallery evs ∧ (InitAllTabs ∉ evs) ∧
  has "gallery" s = true ∧
  1 ∈ queryTriggers iconGallery "gallery" ∧
  getAttributeAt iconGallery ATTR.trigger 1 = Some "videos" ∧ "videos" ≠ "" ∧
  (∀ k, k ∈ inTrigger 1 → ∀ g, has g s = true → k ∈ queryTriggers iconGallery g →
        getAttributeAt iconGallery ATTR.trigger k = Some "") ∧
  Browser.click inTrigger 1 s
  = Browser.settle (Browser.switchTab parseInt10 rejectAll "gallery" "videos") s.
Proof.
  intros evs. assert (InitAllTabs ∉ evs) as Hev by no_reinit. intros s.
  assert (has "gallery" s = true) as Hhas by (vm_compute; reflexivity).
  assert (1 ∈ queryTriggers iconGallery "gallery") as Hi
    by (apply (list_elem_of_lookup_2 _ 1); vm_compute; reflexivity).
  assert (getAttributeAt iconGallery ATTR.trigger 1 = Some "videos") as Hattr
    by (vm_compute; reflexivity).
  assert ("videos" ≠ "") as Hne by discriminate.
  assert (∀ k, k ∈ inTrigger 1 → ∀ g, has g s = true → k ∈ queryTriggers iconGallery g →
               getAttributeAt iconGallery ATTR.trigger k = Some "") as Hanc.
  { intros k Hk. by apply elem_of_nil in Hk. }
  split; [exact fresh_iconGallery|]. split; [exact plain_iconGallery|].
  split; [exact Hev|]. split; [exact Hhas|].
  split; [exact Hi|]. split; [exact Hattr|]. split; [exact Hne|]. split; [exact Hanc|].
  exact (click_is_switchTab parseInt10 rejectAll inTrigger iconGallery evs 1
           "gallery" "videos" fresh_iconGallery plain_iconGallery Hev Hhas Hi Hattr Hne
           Hanc).
Defined.

(** A click on the icon reaches the handler of the trigger it sits in. *)
Remark click_on_icon_bubbles :
  let s := Browser.settle (Browser.initAllTabs parseInt10 rejectAll) (page iconGallery) in
  Browser.click inTrigger 4 s
  = Browser.settle (Browser.switchTab parseInt10 rejectAll "gallery" "videos") s
  ∧ Browser.click inTrigger 4 s ≠ s.
Proof.
  intros s. split; [vm_compute; reflexivity|].
  intros H. apply (f_equal (getActiveTab "gallery")) in H.
  vm_compute in H. discriminate H.
Qed.

Lemma plain_untitled : plain_names untitled [].
Proof. split; [plain_page|plain_calls]. Defined.

(** X6, on the page whose only trigger has the empty tab identifier: a
    click on that trigger does nothing. *)
Lemma click_elsewhere_noop_witness :
  let evs := @nil Event in
  let s := Browser.run parseInt10 rejectAll flat evs
             (Browser.settle (Browser.initAllTabs parseInt10 rejectAll) (page untitled)) in
  fresh untitled ∧ plain_names untitled evs ∧ (InitAllTabs ∉ evs) ∧
  (∀ k, k ∈ 0 :: flat 0 → ∀ g, has g s = true → k ∈ queryTriggers untitled g →
        getAttributeAt untitled ATTR.trigger k = Some "") ∧
  Browser.click flat 0 s = s.
Proof.
  intros evs. assert (InitAllTabs ∉ evs) as Hev by no_reinit. intros s.
  assert (∀ k, k ∈ 0 :: flat 0 → ∀ g, has g s = true → k ∈ queryTriggers untitled g →
               getAttributeAt untitled ATTR.trigger k = Some "") as Hnot.
  { intros k Hk g _ _. change (k ∈ [0]) in Hk. elem_cases Hk. vm_compute. reflexivity. }
  split; [exact fresh_untitled|]. split; [exact plain_untitled|].
  split; [exact Hev|]. split; [exact Hnot|].
  exact (click_elsewhere_noop parseInt10 rejectAll flat untitled evs 0
           fresh_untitled plain_untitled Hev Hnot).
Defined.

Lemma plain_galleryAnimated : plain_names galleryAnimated [].
Proof. split; [plain_page|plain_calls]. Defined.

(** X7, on the animated gallery: right after the switch to videos, with the
    transition still running, the query answers videos. *)
Lemma switchTab_then_getActiveTab_witness :
  let evs := @nil Event in
  let s := Browser.run parseInt10 rejectAll flat evs
             (Browser.settle (Browser.initAllTabs parseInt10 rejectAll)
                (page galleryAnimated)) in
  fresh galleryAnimated ∧ plain_names galleryAnimated evs ∧ (InitAllTabs ∉ evs) ∧
  wf_group galleryAnimated "gallery" ∧
  get "gallery" s = Some (0, galleryAnimatedGroup false) ∧
  isAnimating (galleryAnimatedGroup false) = false ∧
  is_tab galleryAnimated "gallery" "videos" ∧ "videos" ≠ "" ∧
  getActiveTab "gallery"
    (Browser.settle (Browser.switchTab parseInt10 rejectAll "gallery" "videos") s)
  = Some "videos".
Proof.
  intros evs. assert (InitAllTabs ∉ evs) as Hev by no_reinit. intros s.
  assert (get "gallery" s = Some (0, galleryAnimatedGroup false)) as Hget
    by (vm_compute; reflexivity).
  assert (is_tab galleryAnimated "gallery" "videos") as Htab.
  { exists 1. split; [apply (list_elem_of_lookup_2 _ 1)|]; vm_compute; reflexivity. }
  assert ("videos" ≠ "") as Hne by discriminate.
  split; [exact fresh_galleryAnimated|]. split; [exact plain_galleryAnimated|].
  split; [exact Hev|]. split; [exact wf_group_galleryAnimated|].
  split; [exact Hget|]. split; [reflexivity|]. split; [exact Htab|]. split; [exact Hne|].
  exact (switchTab_then_getActiveTab parseInt10 rejectAll flat galleryAnimated evs
           "gallery" "videos" 0 (galleryAnimatedGroup false)
           fresh_galleryAnimated plain_galleryAnimated Hev wf_group_galleryAnimated
           Hget eq_refl Htab Hne).
Defined.

Lemma plain_gallery_click : plain_names gallery [Click 1].
Proof. split; [plain_page|plain_calls]. Defined.

(** X12, on the gallery, after a click on videos: the photos trigger no
    longer carries the active class and has aria-selected false. *)
Lemma aria_follows_classes_witness :
  let evs := [Click 1] in
  let s := Browser.run parseInt10 rejectAll flat evs
             (Browser.settle (Browser.initAllTabs parseInt10 rejectAll) (page gallery)) in
  wf_page gallery ∧ valid_classes gallery ∧ plain_names gallery evs ∧
  (InitAllTabs ∉ evs) ∧
  get "gallery" s = Some (0, galleryGroup) ∧
  ∃ e, e ∈ document s ∧ isTrigger "gallery" e = true ∧
    getAttribute "aria-selected" e
      = Some (if bool_decide (activeClass galleryGroup ∈ classList e)
              then "true" else "false").
Proof.
  intros evs. assert (InitAllTabs ∉ evs) as Hev by no_reinit. intros s.
  assert (get "gallery" s = Some (0, galleryGroup)) as Hget
    by (vm_compute; reflexivity).
  assert (∃ e, document s !! 0 = Some e ∧ isTrigger "gallery" e = true)
    as (e & He & Hrole) by (eexists; split; vm_compute; reflexivity).
  apply list_elem_of_lookup_2 in He.
  split; [exact wf_page_gallery|]. split; [exact valid_classes_gallery|].
  split; [exact plain_gallery_click|]. split; [exact Hev|]. split; [exact Hget|].
  exists e. split; [exact He|]. split; [exact Hrole|].
  exact (proj1 (aria_follows_classes parseInt10 rejectAll flat gallery evs "gallery" 0
                  galleryGroup e wf_page_gallery valid_classes_gallery
                  plain_gallery_click Hev Hget He) Hrole).
Defined.

(** X16, on the selector of the usage note, [data-map-marker]. *)
Lemma createElementFromTemplate_strips_marker_witness :
  let selector := ("" ++ String open_bracket
                           ("data-map-marker" ++ String close_bracket ""))%string in
  let element := createElementFromTemplate (λ _, Some markerTemplate) (λ _, true)
                   displayOnly selector (λ _, markerTemplate) in
  has_char open_bracket "" = false ∧
  has_char close_bracket "data-map-marker" = false ∧ "data-map-marker" ≠ "" ∧
  getAttribute "data-map-marker" (node element) = None ∧
  getAttribute "data-map-element" (node element) = Some "marker" ∧
  getAttribute "style" (node element) = Some "display: block;" ∧
  classList (node element) = ["pin"] ∧
  display element = "block".
Proof.
  intros selector element.
  assert ("data-map-marker" ≠ "") as Hne by discriminate.
  split; [reflexivity|]. split; [reflexivity|]. split; [exact Hne|].
  destruct (createElementFromTemplate_strips_marker (λ _, Some markerTemplate)
              (λ _, true) displayOnly
              "" "data-map-marker" markerTemplate (λ _, markerTemplate)
              eq_refl eq_refl Hne eq_refl eq_refl)
    as (Hgone & Hkept & Hstyle & _ & Hclasses & _ & Hdisplay).
  split; [apply Hgone; discriminate|].
  split; [rewrite Hkept by discriminate; reflexivity|].
  split; [exact Hstyle|].
  split; [apply Hclasses; discriminate|exact Hdisplay].
Defined.

(** X17, on the marker selector of the studios map: the clone keeps
    data-map-element. *)
Lemma createElementFromTemplate_keeps_valued_marker_witness :
  let element := createElementFromTemplate (λ _, Some markerTemplate) (λ _, true)
                   displayOnly (elementAttr "marker") (λ _, markerTemplate) in
  has_char equals_sign "data-map-element" = false ∧ "data-map-element" ≠ "style" ∧
  getAttribute "data-map-element" (node element)
    = getAttribute "data-map-element" (node markerTemplate) ∧
  getAttribute "style" (node element)
    = Some (displayOnly (getAttribute "style" (node markerTemplate)) "block") ∧
  classList (node element) = classList (node markerTemplate) ∧
  display element = "block".
Proof.
  intros element.
  assert ("data-map-element" ≠ "style") as Hne by discriminate.
  split; [reflexivity|]. split; [exact Hne|].
  exact (createElementFromTemplate_keeps_valued_marker (λ _, Some markerTemplate)
           (λ _, true) displayOnly "marker" markerTemplate (λ _, markerTemplate)
           "data-map-element" eq_refl eq_refl eq_refl Hne).
Defined.
